(* ===== verification/_CoqProject ===== *)
-Q . S2P
Prelude.v
Crypto.v
Effects.v
Proto.v
Inventory.v
Buffer.v
Queue.v
Persistence.v
Store.v
Worker.v
Stores.v
Server.v
Pipeline.v
Client.v
Delivery.v
Allocation.v
Http.v
Gateway.v
Mux.v
Routes.v
Workflow.v
Policy.v
Query.v
Sql.v
QuerySql.v
Recommendations.v
Collector.v
CollectorRun.v
Sampler.v
Tenancy.v
Services.v
Members.v
Integrations.v
Registry.v
Isolation.v
AuditLog.v
Exports.v
Scoring.v
SqlSelect.v
Pricing.v
WorkflowSql.v
Calendar.v
Relational.v
AllocationSql.v
AllocationAgreement.v
Karpenter.v
Lineage.v
Startup.v
Replay.v
Protogen.v
Lifecycle.v
Entry.v
