(* ===== verification/Prelude.v ===== *)
(** * kube-cost: a verification development

    kube-cost collects the inventory and the resource usage of Kubernetes clusters
    and turns them into cost reports and rightsizing recommendations. An agent in
    every cluster ([src/agent]) observes objects and samples usage, numbers the
    observations and streams them to the ingestion service
    ([src/services/ingestion]), which archives, queues and writes them to ClickHouse
    and then acknowledges them. Services behind an authenticating gateway
    ([src/services/*], [src/internal/gatewayauth]) compute and serve what is stored.

    ** The files

    Foundations.
    - [Prelude.v] (this file): Go's results, integers, strings, times and
      [strconv], and lemmas on them and on lists.
    - [Crypto.v]: SHA-256, HMAC, hexadecimal and base64, executable.
    - [Effects.v]: code with effects as a program over the calls it makes, with
      its traces, its executions against an executable or a relational environment,
      simulations, and a rely-guarantee rule for programs that share state.
    - [Proto.v]: the messages of the agent stream
      ([proto/gen/go/cost/v1/agent]); encoding is a class.
    - [Sql.v], [SqlSelect.v]: the texts of statements, their meaning on rows, and
      tables that keep the newest version of a row.
    - [Calendar.v], [Relational.v]: hours and dates of the civil calendar; relational
      algebra over lists of rows, with joins, groups and windows.

    The stream from the agent to the database.
    - [Inventory.v], [Collector.v], [CollectorRun.v]: [agent/inventory]; the change
      cache, the observations built from objects, the worker that publishes changes,
      and the whole collector with its informers as a step relation.
    - [Sampler.v]: [agent/metrics]; one report per interval.
    - [Buffer.v], [Client.v]: [agent/transport]; the bounded buffer with its blocked
      publishers and readers as threads, and the client of the stream.
    - [Queue.v], [Persistence.v], [Store.v], [Worker.v], [Stores.v], [Server.v]:
      [services/ingestion]; the bounded queue with leases, the writer and its
      ClickHouse store, the order of the worker's calls on a lease and the rows it
      leaves, the agent's identity, the archive and the checkpoints over
      file-system calls, and the stream handler.
    - [Pipeline.v]: the composition of streams, queue, writer and checkpoints with
      crashes and restarts, the worker running call by call down to the single
      inserts of [Persist]. [Delivery.v] adds the agent and a network that may lose,
      repeat, delay and reorder frames, but does not invent them.
    - [Replay.v], [Lineage.v], [Protogen.v]: [tools]; the replay of an archive, the
      normalizer of lineage columns, the generator of the protocol.

    The services.
    - [Http.v], [Gateway.v], [Mux.v], [Routes.v]: [internal/gatewayauth],
      [services/gateway], [services/identity] and the [Routes] of every service;
      requests, signatures, header injection, serve muxes.
    - [Allocation.v], [AllocationSql.v], [AllocationAgreement.v]: the cost engine of
      [services/allocation], its statement read in relational algebra, and what the
      two agree on.
    - [Recommendations.v]: [services/recommendations].
    - [Workflow.v], [WorkflowSql.v]: [services/workflow] over the two tables it
      appends to, and the statements that read and write them.
    - [Policy.v]: [services/policy].
    - [Query.v], [QuerySql.v]: [services/query]; requests, cursors, jobs and every
      SQL statement.
    - [Pricing.v]: [services/pricing]; imports and lookups of prices.
    - [Tenancy.v], [Services.v], [Members.v], [Integrations.v], [Registry.v],
      [Isolation.v]: [services/tenant], [services/integrations] and
      [services/cluster-registry] as instances of one interface of services that
      keep data per tenant.
    - [AuditLog.v], [Exports.v], [Scoring.v], [Karpenter.v]: [services/audit],
      [services/export], the node pool scores of [services/integrations] and its
      reader of Karpenter objects.

    Processes.
    - [Startup.v]: configurations of agent, ingestion and services from flags and
      the environment, and their start-up ([agent/app], [agent/config],
      [ingestion/app], [services/*/config.go]).
    - [Lifecycle.v]: servers between their start and their end, with signals, time
      limits and goroutines as a step relation ([internal/grpcserver],
      [ingestion/app], [integrations/main.go]).
    - [Entry.v]: every [main], [internal/serviceentry], [internal/operatorentry],
      [internal/controllermanager] and the operators.

    A struct of the source is a [Record] with the source's field names (prefixed
    where two structs of a file share a name), a handler or method is one
    definition with its name, a Go error is a value of [res] or of an inductive
    type, and a panic is one too. Critical sections are functions; waiting loops
    are threads of a step relation.

    ** What is shown

    - Delivery (C1): what an agent publishes is buffered, queued and stored, or
      refused in every execution, and nothing else is stored for its cluster. It
      rests on a proof of the service (C2, C3): under any interleaving of streams,
      worker, crashes and restarts, what the server reports as persisted is stored,
      and checkpoints and watermarks never run ahead of the rows; and on one of the
      client (C10), which drops only what the server reported. An observation the
      server refuses stops its stream for good (C11). The single parts: batches are
      validated exactly (C4, C5), those accepted map to rows (C7), one stream per
      cluster (C8), checkpoints are atomic (C9), the queue and its leases (C12) as a
      bounded log (C13), the plan of inserts (C14) and the worker (C15).
    - The agent: which of the client's batches the server accepts (C6), the buffer
      under concurrency (C16).
    - Identity: what request signatures cover and the headers the gateway forwards
      (C18, C19), and every route of every service behind it (C37).
    - Money: allocation conserves cost (C17), and its statement computes what the
      engine does (C33); recommendations are bounded and cover usage (C24, C25),
      over a class of number types read as IEEE doubles or as exact rationals;
      prices found by a lookup are the best of an abstract catalog (C31), and an
      imported price is found again (C32).
    - State of services: histories of recommendations with an exact account of their
      action rows and hand-offs (C20) and the statements that keep them (C39), one
      active policy version and contents that never change (C21), cursors that cover
      a result that stays the same (C22), statements that select the rows asked for
      and only the tenant's (C23), isolation of tenants (C28), the audit log as a
      bounded log (C29).
    - Collection: events pass the validation of the server (C26), a sample publishes
      exactly its reference report (C27), node pool scores (C30) from exactly the
      claims of a pool, and failed listings of Karpenter objects (C34), the cache
      mirrors what was published at every moment (C40), and names of namespaces in
      stored rows are replaced by their identifiers in every view (C35).
    - Processes: an agent and an ingestion service that start are well configured,
      down to the TLS settings of the listener (C36), and a server that is told to
      stop does, with no goroutine stuck on the channel of errors (C38).

    ** What the theorems assume

    The composition of the service (C1 to C3, C11) is about deployments in which the
    clusters that are let in have checkpoint files of their own
    ([Pipeline.files_apart]): the file name [Stores.checkpoint_path] can be shared, and
    then they fail ([Pipeline.colliding_names]). A row of the store is that of an
    observation whose kind has a table; metrics and events have none. The agent of C1
    and C11 is not restarted: its buffer would begin at sequence 1 again. Sums and
    scores are in exact arithmetic where a theorem says so, and other hypotheses that
    the code does not enforce are named in the comment of the theorem: delays of the
    worker (C15), headrooms (C25), consistent tables (C33, C35), clocks (C32).

    ** Fuel and bounds

    Structural recursion is used where the code has it. [TrimSpace], the blocks of a
    digest, evictions and trailing zeros take the length of their input as fuel, one
    unit per byte, block, job or digit removed. Loops without an end (the stream
    handler, the client, the worker, the sampler) take a number of turns and report
    when it is used up; their theorems hold for every number of turns. [walk] of
    [Query.v] is shown to end within one request per row and one more. Integers
    keep the width of the source ([u64], [i64]); capacities and limits are
    arguments.

    ** Choices of the model

    Connections, files, environment variables and calls of the system are answers
    to the calls a program makes ([Effects.v]). Timers are steps that may happen.
    ClickHouse tables are lists of rows, views are the tables they select from,
    [FINAL] and the views named current keep the newest version of each row.
    Objects of Kubernetes are read through accessors that are parameters, with the
    kind of answers the libraries document.

    ** Not modelled

    What is not under [src] is a parameter: protobuf and JSON encodings,
    [shopspring/decimal], [google/uuid], Kubernetes' libraries, the ClickHouse
    driver and server beyond the statements above, [time.Parse] and Unicode case
    mappings. That the JSON of a cursor decodes to it is a hypothesis (C22). Retention
    periods of tables are not considered: a price is taken to stay in its table, where
    the migration drops it seven years after it took effect (C31, C32). Of the repository:
    generated descriptors and gRPC stubs, which only carry data; [Ping] and [Close]
    of the repositories and the health handlers that call them, which keep no
    state; the copies of the functions that write responses and check the gateway's
    secret, which every service repeats word for word and [Http.v] holds once; the
    texts of log lines; deployment files, schemas and scripts. *)
From stdpp Require Import base option list gmap strings pretty sorting.
From Stdlib Require Import ZArith Lia Ascii String.
#[global] Open Scope Z_scope.

(** ** Go results: [(value, error)] pairs where the error decides *)

Inductive res (E A : Type) : Type :=
| Ok (a : A)
| Err (e : E).
Arguments Ok {E A} a.
Arguments Err {E A} e.

#[export] Instance res_ret {E} : MRet (res E) := λ A a, Ok a.
#[export] Instance res_bind {E} : MBind (res E) := λ A B f m,
  match m with Ok a => f a | Err e => Err e end.
#[export] Instance res_fmap {E} : FMap (res E) := λ A B f m,
  match m with Ok a => Ok (f a) | Err e => Err e end.

Definition is_Ok {E A} (r : res E A) : bool :=
  match r with Ok _ => true | Err _ => false end.

Lemma bind_Ok {E A B} (m : res E A) (f : A → res E B) b :
  m ≫= f = Ok b ↔ ∃ a, m = Ok a ∧ f a = Ok b.
Proof.
  destruct m as [a|e]; simpl; [split; [eauto|by intros (? & [= <-] & ?)]|by split; [|intros (? & ? & _)]].
Qed.

(** ** Machine integers, kept at their Go width *)

Definition two64 : Z := 2 ^ 64.
Definition two63 : Z := 2 ^ 63.
Definition max_uint64 : Z := two64 - 1.
Definition u64 (z : Z) : Z := z mod two64.
Definition u32 (z : Z) : Z := z mod 2 ^ 32.
Definition i64 (z : Z) : Z := (z + two63) mod two64 - two63.
Definition is_u64 (z : Z) : Prop := 0 ≤ z < two64.
Definition is_i64 (z : Z) : Prop := - two63 ≤ z < two63.

(** ** Go strings and byte slices

    A Go string is a sequence of bytes, and so is a [[]byte]; both are Rocq
    [string]s here (an [ascii] is a byte). *)

Definition byte_of (z : Z) : ascii := ascii_of_N (Z.to_N z).
Definition Z_of_byte (c : ascii) : Z := Z.of_N (N_of_ascii c).
Definition nul : string := String (byte_of 0) EmptyString.
Definition newline : string := String (byte_of 10) EmptyString.

(** [fmt]'s [%d] *)
Definition dec (z : Z) : string := pretty z.

Module Strings.

(** [strings.HasPrefix], [strings.Contains] and [bytes.Contains] *)
Definition HasPrefix (s p : string) : bool := String.prefix p s.
Fixpoint Contains (s sub : string) : bool :=
  String.prefix sub s ||
  match s with EmptyString => false | String _ s' => Contains s' sub end.

(** [unicode.IsSpace] on the UTF-8 encodings: the six ASCII spaces, NEL, NBSP
    and the Zs, Zl and Zp characters. *)
Definition enc (l : list Z) : list ascii := byte_of <$> l.
Definition space_encodings : list (list ascii) :=
  enc <$> ([[9]; [10]; [11]; [12]; [13]; [32]; [194; 133]; [194; 160];
           [225; 154; 128]; [226; 128; 168]; [226; 128; 169]; [226; 128; 175];
           [226; 129; 159]; [227; 128; 128]]
           ++ ((λ b, [226; 128; b]) <$> [128; 129; 130; 131; 132; 133; 134; 135; 136; 137; 138])).

Fixpoint strip_prefix (p l : list ascii) : option (list ascii) :=
  match p, l with
  | [], _ => Some l
  | c :: p', d :: l' => if Ascii.eqb c d then strip_prefix p' l' else None
  | _ :: _, [] => None
  end.

Fixpoint strip_one (encs : list (list ascii)) (l : list ascii) : option (list ascii) :=
  match encs with
  | [] => None
  | e :: encs' =>
      match strip_prefix e l with Some l' => Some l' | None => strip_one encs' l end
  end.

Fixpoint trim_left (encs : list (list ascii)) (fuel : nat) (l : list ascii) : list ascii :=
  match fuel with
  | O => l
  | S fuel' =>
      match strip_one encs l with Some l' => trim_left encs fuel' l' | None => l end
  end.

(** [strings.TrimSpace]: each strip removes at least one byte, so the length of
    the string is enough fuel. *)
Definition trim_list (l : list ascii) : list ascii :=
  let l1 := trim_left space_encodings (List.length l) l in
  reverse (trim_left (reverse <$> space_encodings) (List.length l1) (reverse l1)).
Definition TrimSpace (s : string) : string :=
  string_of_list_ascii (trim_list (list_ascii_of_string s)).

(** [strings.Split] and [strings.Cut] with a one-byte separator *)
Fixpoint split_list (sep : ascii) (l : list ascii) : list (list ascii) :=
  match l with
  | [] => [[]]
  | c :: l' =>
      if Ascii.eqb c sep then [] :: split_list sep l'
      else match split_list sep l' with
           | w :: ws => (c :: w) :: ws
           | [] => [[c]]
           end
  end.
Definition Split (s : string) (sep : ascii) : list string :=
  string_of_list_ascii <$> split_list sep (list_ascii_of_string s).
Fixpoint Cut (s : string) (sep : ascii) : string * string * bool :=
  match s with
  | EmptyString => (EmptyString, EmptyString, false)
  | String c s' =>
      if Ascii.eqb c sep then (EmptyString, s', true)
      else let '(a, b, ok) := Cut s' sep in (String c a, b, ok)
  end.
(** [strings.Join] *)
Definition Join (ws : list string) (sep : string) : string := String.concat sep ws.
(** [strings.Trim(s, c)] with a one-byte cutset *)
Fixpoint trim_byte (c : ascii) (l : list ascii) : list ascii :=
  match l with
  | d :: l' => if Ascii.eqb d c then trim_byte c l' else l
  | [] => []
  end.
Definition Trim (s : string) (c : ascii) : string :=
  string_of_list_ascii (reverse (trim_byte c (reverse (trim_byte c (list_ascii_of_string s))))).
(** Go's [<] on strings compares bytes. *)
Definition ltb (a b : string) : bool := String.ltb a b.

End Strings.
Abbreviation TrimSpace := Strings.TrimSpace.

(** ** [time.Time] and [time.Duration]

    A [Time] is the number of nanoseconds since Go's zero time (1 January of
    year 1, UTC), so [IsZero] is [= 0] and [Truncate], which Go defines on the
    absolute time since the zero time, is a [mod]. [UTC] only changes the
    location a time is displayed in and is the identity. A [Duration] is an
    [int64] number of nanoseconds. *)
Abbreviation Time := Z (only parsing).
Abbreviation Duration := Z (only parsing).
Definition Nanosecond : Duration := 1.
Definition Second : Duration := 1000000000.
Definition Minute : Duration := 60 * Second.
Definition Hour : Duration := 60 * Minute.
Definition unix_epoch : Time := 62135596800 * Second.
Definition IsZero (t : Time) : bool := t =? 0.
Definition Truncate (t : Time) (d : Duration) : Time :=
  if d <=? 0 then t else t - t mod d.
Definition Unix (t : Time) : Z := (t - unix_epoch) / Second.
Definition UnixNano (t : Time) : Z := i64 (t - unix_epoch).

(** ** Lemmas on machine integers *)

Lemma u64_range z : is_u64 (u64 z).
Proof. unfold is_u64, u64. apply Z.mod_pos_bound. done. Qed.
Lemma u64_id z : is_u64 z → u64 z = z.
Proof. apply Z.mod_small. Qed.
Lemma i64_id z : is_i64 z → i64 z = z.
Proof. unfold is_i64, i64. intros ?. rewrite Z.mod_small; unfold two64, two63 in *; lia. Qed.
Lemma i64_range z : is_i64 (i64 z).
Proof.
  unfold is_i64, i64. pose proof (Z.mod_pos_bound (z + two63) two64 eq_refl).
  unfold two64, two63 in *. lia.
Qed.
Lemma u64_sub_id a b : is_u64 a → 0 ≤ b ≤ a → u64 (a - b) = a - b.
Proof. intros [? ?] ?. apply u64_id. split; lia. Qed.

(** ** Lemmas on [TrimSpace] and [Contains] *)

Module StringFacts.
Import Strings.

Lemma string_app_nil_l (t : string) : (EmptyString +:+ t)%string = t.
Proof. reflexivity. Qed.
Lemma string_app_cons c (s t : string) : (String c s +:+ t)%string = String c (s +:+ t)%string.
Proof. reflexivity. Qed.
Lemma string_app_assoc (s t u : string) : (s +:+ (t +:+ u))%string = ((s +:+ t) +:+ u)%string.
Proof. induction s as [|c s IH]; [done|]. rewrite !string_app_cons. by rewrite IH. Qed.
Lemma string_app_nil_r (s : string) : (s +:+ EmptyString)%string = s.
Proof. induction s as [|c s IH]; [done|]. by rewrite string_app_cons, IH. Qed.

Lemma strip_prefix_app p l l' : strip_prefix p l = Some l' → l = p ++ l'.
Proof.
  revert l. induction p as [|c p IH]; intros l; simpl; [by intros [= ->]|].
  destruct l as [|d l]; [done|]. destruct (Ascii.eqb_spec c d); [|done].
  intros ?%IH. by subst.
Qed.
Lemma strip_prefix_extend p l k l' :
  strip_prefix p l = Some l' → strip_prefix p (l ++ k) = Some (l' ++ k).
Proof.
  revert l. induction p as [|c p IH]; intros l; simpl; [by intros [= ->]|].
  destruct l as [|d l]; [done|]. simpl. destruct (Ascii.eqb c d); [|done]. apply IH.
Qed.
Lemma strip_one_extend encs l k l' :
  strip_one encs l = Some l' → ∃ l'', strip_one encs (l ++ k) = Some l''.
Proof.
  induction encs as [|e encs IH]; simpl; [done|].
  destruct (strip_prefix e l) eqn:E.
  - intros _. rewrite (strip_prefix_extend _ _ k _ E). eauto.
  - intros (l'' & ->)%IH. destruct (strip_prefix e (l ++ k)); eauto.
Qed.
Lemma strip_one_shorter encs l l' :
  Forall (λ e, e ≠ []) encs → strip_one encs l = Some l' →
  (List.length l' < List.length l)%nat ∧ ∃ p, l = p ++ l'.
Proof.
  induction 1 as [|e encs He _ IH]; simpl; [done|].
  destruct (strip_prefix e l) eqn:E; [|done]. intros [= <-].
  apply strip_prefix_app in E as ->. split; [|eauto].
  rewrite length_app. destruct e; [done|simpl; lia].
Qed.
Lemma trim_left_stuck encs fuel l :
  Forall (λ e, e ≠ []) encs → (List.length l ≤ fuel)%nat →
  strip_one encs (trim_left encs fuel l) = None ∧ ∃ p, l = p ++ trim_left encs fuel l.
Proof.
  intros He. revert l. induction fuel as [|fuel IH]; intros l Hl; simpl.
  - destruct l; simpl in Hl; [|lia]. split; [|by exists []].
    clear Hl. induction He as [|e encs Hne _ IHe]; [done|]. simpl. by destruct e.
  - destruct (strip_one encs l) as [l'|] eqn:E; [|by split; [|exists []]].
    destruct (strip_one_shorter _ _ _ He E) as [? [p ->]].
    destruct (IH l') as [? [q Hq]]; [lia|]. split; [done|].
    exists (p ++ q). by rewrite <- app_assoc, <- Hq.
Qed.
Lemma trim_left_id encs fuel l : strip_one encs l = None → trim_left encs fuel l = l.
Proof. destruct fuel; simpl; [done|]. by intros ->. Qed.
Lemma space_encodings_ne : Forall (λ e, e ≠ []) space_encodings.
Proof. vm_compute. repeat constructor; discriminate. Qed.
Lemma space_encodings_rev_ne : Forall (λ e, e ≠ []) (reverse <$> space_encodings).
Proof. vm_compute. repeat constructor; discriminate. Qed.

Lemma trim_list_idemp l : trim_list (trim_list l) = trim_list l.
Proof.
  unfold trim_list.
  set (l1 := trim_left space_encodings (List.length l) l).
  destruct (trim_left_stuck space_encodings (List.length l) l space_encodings_ne)
    as [Hl _]; [done|]. fold l1 in Hl.
  destruct (trim_left_stuck (reverse <$> space_encodings) (List.length l1) (reverse l1)
    space_encodings_rev_ne) as [Hr [p Hp]]; [by rewrite length_reverse|].
  set (r := trim_left (reverse <$> space_encodings) (List.length l1) (reverse l1)) in *.
  assert (strip_one space_encodings (reverse r) = None) as Hlr.
  { destruct (strip_one space_encodings (reverse r)) eqn:E; [|done].
    destruct (strip_one_extend _ _ (reverse p) _ E) as [l'' E2].
    rewrite <- reverse_app, <- Hp, reverse_involutive in E2. congruence. }
  rewrite (trim_left_id space_encodings _ _ Hlr), reverse_involutive.
  by rewrite (trim_left_id (reverse <$> space_encodings) _ _ Hr).
Qed.
Lemma TrimSpace_idemp s : TrimSpace (TrimSpace s) = TrimSpace s.
Proof.
  unfold TrimSpace. by rewrite list_ascii_of_string_of_list_ascii, trim_list_idemp.
Qed.

(** A string of visible ASCII characters has nothing to trim. *)
Definition visible (c : ascii) : bool := (33 <=? Z_of_byte c) && (Z_of_byte c <=? 126).
Definition visible_string (s : string) : bool := forallb visible (list_ascii_of_string s).
Definition hidden_head (e : list ascii) : bool :=
  match e with c :: _ => negb (visible c) | [] => false end.
Lemma strip_one_visible encs l :
  forallb hidden_head encs = true → forallb visible l = true → strip_one encs l = None.
Proof.
  intros He Hl. induction encs as [|e encs IH]; [done|]. simpl in *.
  apply andb_true_iff in He as [He Hes]. rewrite IH by done.
  destruct e as [|c e]; [done|]. destruct l as [|d l]; [done|]. simpl in *.
  destruct (Ascii.eqb_spec c d) as [->|]; [|done].
  apply andb_true_iff in Hl as [Hd _]. by rewrite Hd in He.
Qed.
Lemma forallb_reverse {A} (f : A → bool) l : forallb f (reverse l) = forallb f l.
Proof.
  induction l as [|x l IH]; [done|].
  rewrite reverse_cons, forallb_app, IH. simpl. destruct (f x), (forallb f l); done.
Qed.
Lemma TrimSpace_visible s : visible_string s = true → TrimSpace s = s.
Proof.
  unfold visible_string, TrimSpace, trim_list. intros Hs.
  rewrite (trim_left_id _ _ _ (strip_one_visible space_encodings _ eq_refl Hs)).
  rewrite trim_left_id, reverse_involutive.
  - apply string_of_list_ascii_of_string.
  - apply strip_one_visible; [reflexivity|]. by rewrite forallb_reverse.
Qed.
Lemma length_list_ascii s : List.length (list_ascii_of_string s) = String.length s.
Proof. induction s; simpl; congruence. Qed.
Lemma length_string_of_list l : String.length (string_of_list_ascii l) = List.length l.
Proof. induction l; simpl; congruence. Qed.

(** [Contains] skips a part in which the first byte of the pattern is missing. *)
Definition has_byte (c : ascii) (s : string) : bool := existsb (Ascii.eqb c) (list_ascii_of_string s).
Lemma Contains_skip (s t : string) c sub :
  has_byte c s = false → Contains (s +:+ t) (String c sub) = Contains t (String c sub).
Proof.
  unfold has_byte. induction s as [|d s IH]; [done|]. rewrite string_app_cons. simpl.
  intros [Hd Hs]%orb_false_iff. rewrite IH by done.
  destruct (ascii_dec c d) as [->|]; [by rewrite Ascii.eqb_refl in Hd|]. done.
Qed.
Lemma Contains_absent (s : string) c sub : has_byte c s = false → Contains s (String c sub) = false.
Proof. intros Hs. rewrite <- (string_app_nil_r s). by rewrite Contains_skip. Qed.
Lemma has_byte_app c (s t : string) : has_byte c (s +:+ t) = has_byte c s || has_byte c t.
Proof.
  unfold has_byte. induction s as [|d s IH]; [done|]. rewrite string_app_cons. simpl. by rewrite IH, orb_assoc.
Qed.
(** A decimal number consists of digits and perhaps a sign. *)
Lemma dec_bytes (P : ascii → bool) z :
  P "-"%char = true → (∀ n, P (pretty_N_char n) = true) → forallb P (list_ascii_of_string (dec z)) = true.
Proof.
  intros Hdash Hd.
  assert (∀ x s, forallb P (list_ascii_of_string s) = true →
    forallb P (list_ascii_of_string (pretty_N_go x s)) = true) as Hgo.
  { intros x. induction (N.lt_wf_0 x) as [x _ IH]; intros s Hs.
    destruct (decide (x = 0)%N) as [->|Hx]; [by rewrite pretty_N_go_0|].
    rewrite pretty_N_go_step by lia. apply IH; [apply N.div_lt; lia|].
    simpl. by rewrite Hd, Hs. }
  assert (∀ p, forallb P (list_ascii_of_string (pretty (Npos p))) = true) as Hp.
  { intros p. unfold pretty, pretty_N. case_decide; [done|]. by apply Hgo. }
  unfold dec, pretty, pretty_Z. destruct z as [|p|p]; [|apply Hp|].
  - simpl. specialize (Hd 0%N). simpl in Hd. by rewrite Hd.
  - pose proof (Hp p) as H. simpl in *. rewrite Hdash. exact H.
Qed.
Lemma dec_visible z : visible_string (dec z) = true.
Proof. apply dec_bytes; [reflexivity|]. intros n. unfold pretty_N_char. repeat case_match; reflexivity. Qed.
Lemma has_byte_dec c z : Ascii.eqb c "-" = false → forallb (λ n, negb (Ascii.eqb c (pretty_N_char n)))
    [0; 1; 2; 3; 4; 5; 6; 7; 8; 9]%N = true → has_byte c (dec z) = false.
Proof.
  intros Hdash Hd. rewrite forallb_forall in Hd.
  assert (∀ n, Ascii.eqb c (pretty_N_char n) = false) as Hc.
  { intros n. apply negb_true_iff.
    assert (In (pretty_N_char n) (map pretty_N_char [0; 1; 2; 3; 4; 5; 6; 7; 8; 9]%N)) as Hin
      by (unfold pretty_N_char at 1; repeat case_match; simpl; tauto).
    apply in_map_iff in Hin as (m & <- & Hm). by apply Hd. }
  pose proof (dec_bytes (λ b, negb (Ascii.eqb c b)) z) as Hb. simpl in Hb. rewrite Hdash in Hb.
  specialize (Hb eq_refl (λ n, proj2 (negb_true_iff _) (Hc n))).
  unfold has_byte. destruct (existsb _ _) eqn:E; [|done].
  apply existsb_exists in E as (b & Hin & Hb'). rewrite forallb_forall in Hb. apply Hb in Hin.
  by rewrite Hb' in Hin.
Qed.

End StringFacts.

(** ** [strconv.ParseInt(s, 10, 64)], as [strconv.Atoi] on 64-bit platforms; [None] is an error. *)
Module Strconv.
Definition digit (c : ascii) : option Z :=
  let d := Z_of_byte c - 48 in if (0 <=? d) && (d <=? 9) then Some d else None.
Fixpoint digits (acc : Z) (s : string) : option Z :=
  match s with
  | EmptyString => Some acc
  | String c s' => match digit c with Some d => digits (10 * acc + d) s' | None => None end
  end.
Definition ParseUint (s : string) : option Z :=
  match s with EmptyString => None | _ => digits 0 s end.
Definition signed (s : string) : bool * string :=
  match s with
  | String c s' => if Ascii.eqb c "-" then (true, s') else if Ascii.eqb c "+" then (false, s') else (false, s)
  | EmptyString => (false, EmptyString)
  end.
Definition ParseInt (s : string) : option Z :=
  let '(negative, body) := signed s in
  match ParseUint body with
  | Some n =>
      let z := if negative then - n else n in
      if (- two63 <=? z) && (z <? two63) then Some z else None
  | None => None
  end.
Definition Atoi : string → option Z := ParseInt.

Lemma digit_pretty n : (n < 10)%N → digit (pretty_N_char n) = Some (Z.of_N n).
Proof.
  intros Hn. assert (In n [0; 1; 2; 3; 4; 5; 6; 7; 8; 9]%N) as Hin by (simpl; lia).
  repeat (destruct Hin as [<-|Hin]; [reflexivity|]). done.
Qed.
Lemma digits_pretty x s : digits 0 (pretty_N_go x s) = digits (Z.of_N x) s.
Proof.
  revert s. induction (N.lt_wf_0 x) as [x _ IH]; intros s.
  destruct (decide (x = 0)%N) as [->|Hx]; [by rewrite pretty_N_go_0|].
  rewrite pretty_N_go_step by lia. rewrite IH by (apply N.div_lt; lia). simpl.
  rewrite digit_pretty by (apply N.mod_lt; lia).
  f_equal. rewrite <- (N2Z.inj_mul 10), <- N2Z.inj_add. f_equal. symmetry. apply N.div_mod. lia.
Qed.
Lemma pretty_N_go_ne x s : s ≠ EmptyString → pretty_N_go x s ≠ EmptyString.
Proof.
  revert s. induction (N.lt_wf_0 x) as [x _ IH]; intros s Hs.
  destruct (decide (x = 0)%N) as [->|Hx]; [by rewrite pretty_N_go_0|].
  rewrite pretty_N_go_step by lia. apply IH; [apply N.div_lt; lia|done].
Qed.
Lemma ParseUint_pretty p : ParseUint (pretty (Npos p)) = Some (Zpos p).
Proof.
  unfold pretty, pretty_N. case_decide; [done|].
  pose proof (digits_pretty (Npos p) EmptyString) as Hd. simpl in Hd.
  destruct (pretty_N_go (Npos p) EmptyString) eqn:E; [done|]. by rewrite <- Hd.
Qed.
Lemma pretty_N_head p : ∃ n s, pretty (Npos p) = String (pretty_N_char n) s.
Proof.
  unfold pretty, pretty_N. case_decide; [done|].
  assert (∀ x s, (∃ n t, s = String (pretty_N_char n) t) ∨ (0 < x)%N →
    ∃ n t, pretty_N_go x s = String (pretty_N_char n) t) as Hgo.
  { intros x. induction (N.lt_wf_0 x) as [x _ IH]; intros s Hs.
    destruct (decide (x = 0)%N) as [->|Hx].
    - rewrite pretty_N_go_0. destruct Hs as [Hs|Hs]; [done|lia].
    - rewrite pretty_N_go_step by lia. apply IH; [apply N.div_lt; lia|]. left. eauto. }
  apply Hgo. right. lia.
Qed.
(** Formatting an [int64] and parsing it again gives the number back. *)
Lemma ParseInt_dec z : is_i64 z → ParseInt (dec z) = Some z.
Proof.
  intros [Hlo Hhi]. unfold ParseInt, dec.
  assert (signed (pretty z) = (z <? 0, pretty (Z.abs z))) as ->.
  { destruct z as [|p|p]; [reflexivity| |reflexivity].
    change (signed (pretty (Npos p)) = (false, pretty (Npos p))).
    destruct (pretty_N_head p) as (n & s & ->).
    unfold pretty_N_char. repeat case_match; reflexivity. }
  assert (ParseUint (pretty (Z.abs z)) = Some (Z.abs z)) as ->.
  { destruct z as [|p|p]; [reflexivity|apply ParseUint_pretty..]. }
  assert ((if z <? 0 then - Z.abs z else Z.abs z) = z) as -> by (destruct (Z.ltb_spec z 0); lia).
  destruct (Z.leb_spec (- two63) z); [|lia]. destruct (Z.ltb_spec z two63); [|lia]. done.
Qed.
End Strconv.

(** ** Lists: sorted sequences of integers, filters *)

Module ListFacts.
Lemma StronglySorted_snoc (l : list Z) (x : Z) :
  StronglySorted Z.lt l → Forall (λ y, y < x) l → StronglySorted Z.lt (l ++ [x]).
Proof.
  induction 1 as [|y l Hl IH Hy]; intros Hx; simpl; [by repeat constructor|].
  inversion Hx; subst. constructor; [by apply IH|].
  apply Forall_app. by repeat constructor.
Qed.

Lemma Forall_filter {A} (Q P : A → Prop) `{!∀ x, Decision (P x)} (l : list A) :
  Forall Q l → Forall Q (filter P l).
Proof. rewrite !Forall_forall. intros HQ x [_ Hx]%list_elem_of_filter. by apply HQ. Qed.
Lemma StronglySorted_filter {A} (f : A → Z) (P : A → Prop) `{!∀ x, Decision (P x)} l :
  StronglySorted Z.lt (f <$> l) → StronglySorted Z.lt (f <$> filter P l).
Proof.
  induction l as [|x l IH]; [done|]. csimpl.
  intros [Hl Hx]%StronglySorted_inv. rewrite Forall_fmap in Hx.
  rewrite filter_cons. case_decide; csimpl; [|by apply IH].
  constructor; [by apply IH|]. by apply Forall_fmap, Forall_filter.
Qed.

Lemma sorted_lookup_lt (l : list Z) i j x y :
  StronglySorted Z.lt l → (i < j)%nat → l !! i = Some x → l !! j = Some y → x < y.
Proof.
  intros Hl. revert i j. induction Hl as [|z l Hl IH Hz]; intros i j Hij Hx Hy; [done|].
  destruct j as [|j]; [lia|]. destruct i as [|i]; simpl in *; simplify_eq.
  - exact (proj1 (Forall_lookup _ _) Hz j y Hy).
  - apply (IH i j); [lia|done|done].
Qed.
(** In a strictly increasing list numbers are at least as far apart as their positions. *)
Lemma sorted_gap (l : list Z) i k x z :
  StronglySorted Z.lt l → l !! i = Some x → l !! (i + k)%nat = Some z → x + Z.of_nat k ≤ z.
Proof.
  intros Hl Hx. revert z. induction k as [|k IH]; intros z Hz.
  - rewrite Nat.add_0_r in Hz. simplify_eq. lia.
  - destruct (lookup_lt_is_Some_2 l (i + k)) as [y Hy].
    { apply lookup_lt_Some in Hz. lia. }
    specialize (IH y Hy). pose proof (sorted_lookup_lt l (i + k) (i + S k) y z Hl ltac:(lia) Hy Hz). lia.
Qed.
(** A strictly increasing list that ends where a contiguous run would end is that run. *)
Lemma sorted_run (l : list Z) n x z :
  StronglySorted Z.lt l → l !! 0%nat = Some x → l !! n = Some z → z = x + Z.of_nat n →
  ∀ i y, (i ≤ n)%nat → l !! i = Some y → y = x + Z.of_nat i.
Proof.
  intros Hl Hx Hz Hn i y Hi Hy.
  pose proof (sorted_gap l 0 i x y Hl Hx Hy).
  assert (l !! (i + (n - i))%nat = Some z) as Hz' by (by replace (i + (n - i))%nat with n by lia).
  pose proof (sorted_gap l i (n - i) y z Hl Hy Hz'). lia.
Qed.

Lemma snoc_cases {A} (l : list A) : l = [] ∨ ∃ l' x, l = l' ++ [x].
Proof. induction l as [|x l _] using rev_ind; eauto. Qed.
Lemma filter_ext_in {A} (P Q : A → Prop) `{!∀ x, Decision (P x), !∀ x, Decision (Q x)} (l : list A) :
  (∀ x, x ∈ l → P x ↔ Q x) → filter P l = filter Q l.
Proof.
  induction l as [|x l IH]; intros Hl; [done|]. rewrite !filter_cons.
  rewrite IH by (intros y Hy; apply Hl; by right). specialize (Hl x ltac:(left)).
  destruct (decide (P x)), (decide (Q x)); tauto.
Qed.
Lemma filter_all {A} (P : A → Prop) `{!∀ x, Decision (P x)} (l : list A) :
  (∀ x, x ∈ l → P x) → filter P l = l.
Proof.
  induction l as [|x l IH]; intros Hl; [done|].
  rewrite filter_cons_True by (apply Hl; left). f_equal. apply IH. intros y Hy. apply Hl. by right.
Qed.
Lemma filter_none {A} (P : A → Prop) `{!∀ x, Decision (P x)} (l : list A) :
  (∀ x, x ∈ l → ¬ P x) → filter P l = [].
Proof.
  induction l as [|x l IH]; intros Hl; [done|].
  rewrite filter_cons_False by (apply Hl; left). apply IH. intros y Hy. apply Hl. by right.
Qed.
End ListFacts.

Create HintDb go discriminated.
#[export] Hint Resolve u64_range i64_range : go.
Create Rewrite HintDb go_simpl.
#[export] Hint Rewrite StringFacts.TrimSpace_idemp : go_simpl.

(** ** Tactics *)

(** Case analysis on the scrutinee of the first [match] or [if] of the goal. *)
Ltac case_step :=
  match goal with
  | |- context [match ?x with _ => _ end] => let E := fresh "E" in destruct x eqn:E
  end.
(** Turn boolean comparisons into propositions. *)
Ltac to_prop :=
  repeat match goal with
  | H : (_ && _)%bool = true |- _ => apply andb_true_iff in H as [? ?]
  | H : (_ && _)%bool = false |- _ => apply andb_false_iff in H
  | H : (_ || _)%bool = false |- _ => apply orb_false_iff in H as [? ?]
  | H : (_ || _)%bool = true |- _ => apply orb_true_iff in H
  | H : negb _ = true |- _ => apply negb_true_iff in H
  | H : negb _ = false |- _ => apply negb_false_iff in H
  | H : (_ =? _)%string = true |- _ => apply String.eqb_eq in H
  | H : (_ =? _)%string = false |- _ => apply String.eqb_neq in H
  end.
