(* ===== verification/Crypto.v ===== *)
(** * The Go standard-library codecs and digests the sources call

    [crypto/sha256], [crypto/hmac], [encoding/hex] and
    [encoding/base64.RawURLEncoding], as executable functions on byte strings.
    The theorems of the other files use them only through the facts proved at
    the end of this file (digest and signature strings are never empty, and
    their alphabet has no white space). *)
From stdpp Require Import base option list strings.
From Stdlib Require Import ZArith Lia Ascii String.
From S2P Require Import Prelude.

Module SHA256.

Definition w32 (z : Z) : Z := z mod 2 ^ 32.
Definition rotr (x n : Z) : Z := Z.lor (Z.shiftr x n) (w32 (Z.shiftl x (32 - n))).
Definition Ch (x y z : Z) : Z := Z.lxor (Z.land x y) (Z.land (2 ^ 32 - 1 - x) z).
Definition Maj (x y z : Z) : Z := Z.lxor (Z.lxor (Z.land x y) (Z.land x z)) (Z.land y z).
Definition Sigma0 (x : Z) : Z := Z.lxor (Z.lxor (rotr x 2) (rotr x 13)) (rotr x 22).
Definition Sigma1 (x : Z) : Z := Z.lxor (Z.lxor (rotr x 6) (rotr x 11)) (rotr x 25).
Definition sigma0 (x : Z) : Z := Z.lxor (Z.lxor (rotr x 7) (rotr x 18)) (Z.shiftr x 3).
Definition sigma1 (x : Z) : Z := Z.lxor (Z.lxor (rotr x 17) (rotr x 19)) (Z.shiftr x 10).

(** The constants are the first 32 bits of the fractional parts of the cube
    roots of the first 64 primes and of the square roots of the first eight;
    [icbrt] finds an integer cube root bit by bit. *)
Fixpoint icbrt (bits : nat) (root x : Z) : Z :=
  match bits with
  | O => root
  | S bits' =>
      let candidate := root + 2 ^ Z.of_nat bits' in
      icbrt bits' (if candidate ^ 3 <=? x then candidate else root) x
  end.
Definition is_prime (n : Z) : bool :=
  forallb (λ d, negb (n mod d =? 0)) (seqZ 2 (Z.sqrt n - 1)).
Definition primes : list Z := Eval vm_compute in filter (λ n, is_prime n = true) (seqZ 2 310).
Definition K : list Z := Eval vm_compute in
  (λ p, icbrt 36 0 (p * 2 ^ 96) mod 2 ^ 32) <$> primes.

Record hash := Hash { ha : Z; hb : Z; hc : Z; hd : Z; he : Z; hf : Z; hg : Z; hh : Z }.
Definition init : hash := Eval vm_compute in
  let h i := Z.sqrt (nth i primes 0 * 2 ^ 64) mod 2 ^ 32 in
  Hash (h 0%nat) (h 1%nat) (h 2%nat) (h 3%nat) (h 4%nat) (h 5%nat) (h 6%nat) (h 7%nat).

(** message padding: 0x80, zeros, and the bit length as 8 big-endian bytes *)
Fixpoint be_bytes (n : nat) (z : Z) : list Z :=
  match n with O => [] | S n' => be_bytes n' (z / 256) ++ [z mod 256] end.
Definition pad (l : list Z) : list Z :=
  let n := Z.of_nat (List.length l) in
  l ++ [128] ++ replicate (Z.to_nat ((55 - n) mod 64)) 0 ++ be_bytes 8 (n * 8).

Fixpoint words (l : list Z) : list Z :=
  match l with
  | a :: b :: c :: d :: l' => (((a * 256 + b) * 256 + c) * 256 + d) :: words l'
  | _ => []
  end.

(** the schedule, as the list of the last words in reverse order *)
Fixpoint schedule (n : nat) (rev_w : list Z) : list Z :=
  match n with
  | O => reverse rev_w
  | S n' =>
      let at_ i := default 0 (rev_w !! i) in
      let w := w32 (sigma1 (at_ 1%nat) + at_ 6%nat + sigma0 (at_ 14%nat) + at_ 15%nat) in
      schedule n' (w :: rev_w)
  end.

Definition round (h : hash) (kw : Z * Z) : hash :=
  let t1 := w32 (hh h + Sigma1 (he h) + Ch (he h) (hf h) (hg h) + kw.1 + kw.2) in
  let t2 := w32 (Sigma0 (ha h) + Maj (ha h) (hb h) (hc h)) in
  Hash (w32 (t1 + t2)) (ha h) (hb h) (hc h) (w32 (hd h + t1)) (he h) (hf h) (hg h).

Definition block (h : hash) (ws : list Z) : hash :=
  let r := foldl round h (zip K (schedule 48 (reverse ws))) in
  Hash (w32 (ha h + ha r)) (w32 (hb h + hb r)) (w32 (hc h + hc r)) (w32 (hd h + hd r))
       (w32 (he h + he r)) (w32 (hf h + hf r)) (w32 (hg h + hg r)) (w32 (hh h + hh r)).

Fixpoint blocks (fuel : nat) (h : hash) (ws : list Z) : hash :=
  match fuel, ws with
  | S fuel', _ :: _ => blocks fuel' (block h (take 16 ws)) (drop 16 ws)
  | _, _ => h
  end.

Definition digest (l : list Z) : list Z :=
  let ws := words (pad l) in
  let h := blocks (List.length ws) init ws in
  List.concat (be_bytes 4 <$> [ha h; hb h; hc h; hd h; he h; hf h; hg h; hh h]).

End SHA256.

Definition bytes_of_string (s : string) : list Z := Z_of_byte <$> list_ascii_of_string s.
Definition string_of_bytes (l : list Z) : string := string_of_list_ascii (byte_of <$> l).

(** [sha256.Sum256] *)
Definition sha256 (s : string) : string := string_of_bytes (SHA256.digest (bytes_of_string s)).

(** [hmac.New(sha256.New, key)] over the whole message *)
Definition hmac_sha256 (key msg : string) : string :=
  let k0 := bytes_of_string key in
  let k1 := if (64 <? List.length k0)%nat then SHA256.digest k0 else k0 in
  let k := k1 ++ replicate (64 - List.length k1) 0 in
  let opad := Z.lxor 92 <$> k in
  let ipad := Z.lxor 54 <$> k in
  string_of_bytes (SHA256.digest (opad ++ SHA256.digest (ipad ++ bytes_of_string msg))).

(** [hex.EncodeToString] *)
Definition hex_digit (z : Z) : ascii :=
  byte_of (if z <? 10 then 48 + z else 87 + z).
Definition hex_encode (s : string) : string :=
  string_of_list_ascii
    (List.concat ((λ b, [hex_digit (b / 16); hex_digit (b mod 16)]) <$> bytes_of_string s)).

(** [base64.RawURLEncoding.EncodeToString] *)
Definition b64_digit (z : Z) : ascii :=
  byte_of (if z <? 26 then 65 + z else if z <? 52 then 71 + z
           else if z <? 62 then z - 4 else if z =? 62 then 45 else 95).
Fixpoint b64_list (l : list Z) : list ascii :=
  match l with
  | a :: b :: c :: l' =>
      b64_digit (a / 4) :: b64_digit (a mod 4 * 16 + b / 16)
      :: b64_digit (b mod 16 * 4 + c / 64) :: b64_digit (c mod 64) :: b64_list l'
  | [a; b] => [b64_digit (a / 4); b64_digit (a mod 4 * 16 + b / 16); b64_digit (b mod 16 * 4)]
  | [a] => [b64_digit (a / 4); b64_digit (a mod 4 * 16)]
  | [] => []
  end.
Definition base64_rawurl (s : string) : string := string_of_list_ascii (b64_list (bytes_of_string s)).

(** [base64.RawURLEncoding.DecodeString]: line breaks are skipped, the unused low
    bits of the last digit are ignored, and [None] is a [CorruptInputError]. *)
Definition b64_value (c : ascii) : option Z :=
  let z := Z_of_byte c in
  if (65 <=? z) && (z <=? 90) then Some (z - 65)
  else if (97 <=? z) && (z <=? 122) then Some (z - 71)
  else if (48 <=? z) && (z <=? 57) then Some (z + 4)
  else if z =? 45 then Some 62 else if z =? 95 then Some 63 else None.
Fixpoint b64_bytes (l : list Z) : option (list Z) :=
  match l with
  | a :: b :: c :: d :: l' =>
      (λ t, (a * 4 + b / 16) :: (b mod 16 * 16 + c / 4) :: (c mod 4 * 64 + d) :: t) <$> b64_bytes l'
  | [a; b; c] => Some [a * 4 + b / 16; b mod 16 * 16 + c / 4]
  | [a; b] => Some [a * 4 + b / 16]
  | [_] => None
  | [] => Some []
  end.
Definition line_break (c : ascii) : bool := (Z_of_byte c =? 10) || (Z_of_byte c =? 13).
Fixpoint b64_values (l : list ascii) : option (list Z) :=
  match l with
  | [] => Some []
  | c :: l' =>
      if line_break c then b64_values l'
      else match b64_value c, b64_values l' with Some z, Some zs => Some (z :: zs) | _, _ => None end
  end.
Definition base64_rawurl_decode (s : string) : option string :=
  values ← b64_values (list_ascii_of_string s); string_of_bytes <$> b64_bytes values.

(** ** Known answers *)
Example sha256_abc :
  hex_encode (sha256 "abc") = "ba7816bf8f01cfea414140de5dae2223b00361a396177a9cb410ff61f20015ad"%string.
Proof. vm_compute. reflexivity. Qed.
Example sha256_two_blocks :
  hex_encode (sha256 "abcdbcdecdefdefgefghfghighijhijkijkljklmklmnlmnomnopnopq")
  = "248d6a61d20638b8e5c026930c3e6039a33ce45964ff2167f6ecedd419db06c1"%string.
Proof. vm_compute. reflexivity. Qed.
Example hmac_rfc4231_2 :
  hex_encode (hmac_sha256 "Jefe" "what do ya want for nothing?")
  = "5bdcc146bf60754e6a042426089575c75a003f089d2739839dec58b964ec3843"%string.
Proof. vm_compute. reflexivity. Qed.
Example base64_known : base64_rawurl "fo~?>o" = "Zm9-Pz5v"%string.
Proof. vm_compute. reflexivity. Qed.

(** ** Facts *)
Import StringFacts.

Lemma be_bytes_spec n z :
  List.length (SHA256.be_bytes n z) = n ∧ Forall (λ b, 0 ≤ b < 256) (SHA256.be_bytes n z).
Proof.
  revert z. induction n as [|n IH]; intros z; simpl; [done|].
  destruct (IH (z / 256)) as [Hl Hf]. rewrite length_app, Hl. simpl. split; [lia|].
  apply Forall_app. split; [done|]. constructor; [|done]. by apply Z.mod_pos_bound.
Qed.
Lemma digest_spec l :
  List.length (SHA256.digest l) = 32%nat ∧ Forall (λ b, 0 ≤ b < 256) (SHA256.digest l).
Proof.
  unfold SHA256.digest. cbv zeta.
  set (h := SHA256.blocks _ _ _). clearbody h. split.
  - cbn [fmap list_fmap List.concat]. rewrite !length_app.
    by rewrite !(λ z, proj1 (be_bytes_spec 4 z)).
  - cbn [fmap list_fmap List.concat]. rewrite !Forall_app.
    repeat split; try apply be_bytes_spec; done.
Qed.
Lemma length_sha256 s : String.length (sha256 s) = 32%nat.
Proof.
  unfold sha256, string_of_bytes. rewrite length_string_of_list, length_fmap. apply digest_spec.
Qed.
Lemma length_hex_encode s : String.length (hex_encode s) = (2 * String.length s)%nat.
Proof.
  unfold hex_encode, bytes_of_string. rewrite length_string_of_list, <- length_list_ascii.
  generalize (list_ascii_of_string s). induction l as [|c l IH]; csimpl; [done|]. rewrite IH. lia.
Qed.
Lemma hex_sha256_ne s : hex_encode (sha256 s) ≠ EmptyString.
Proof. intros H. apply (f_equal String.length) in H. rewrite length_hex_encode, length_sha256 in H. done. Qed.

Lemma Z_of_byte_of z : 0 ≤ z < 256 → Z_of_byte (byte_of z) = z.
Proof.
  intros ?. unfold Z_of_byte, byte_of. rewrite N_ascii_embedding; lia.
Qed.
Lemma b64_digit_visible z : 0 ≤ z < 64 → visible (b64_digit z) = true.
Proof.
  intros ?. unfold visible, b64_digit.
  repeat case_match; rewrite Z_of_byte_of; rewrite ?andb_true_iff, ?Z.leb_le; lia.
Qed.
Lemma b64_list_visible l :
  Forall (λ b, 0 ≤ b < 256) l → forallb visible (b64_list l) = true.
Proof.
  revert l. fix IH 1. intros [|a [|b [|c l]]] Hl; rewrite ?Forall_cons in Hl;
    destruct_and?; cbn [b64_list forallb]; rewrite ?andb_true_iff; repeat split; try done.
  all: try (apply b64_digit_visible); try (apply IH; assumption).
  all: try (pose proof (Z.mod_pos_bound a 4 eq_refl)); try (pose proof (Z.mod_pos_bound b 16 eq_refl));
    try (pose proof (Z.mod_pos_bound c 64 eq_refl)); split; try lia;
    try (apply Z.div_pos; lia); try (apply Z.div_lt_upper_bound; lia).
  all: try (assert (0 ≤ b / 16 < 16) by (split; [apply Z.div_pos|apply Z.div_lt_upper_bound]; lia); lia).
  all: try (assert (0 ≤ c / 64 < 4) by (split; [apply Z.div_pos|apply Z.div_lt_upper_bound]; lia); lia).
Qed.
Lemma hmac_base64_visible key msg :
  let s := base64_rawurl (hmac_sha256 key msg) in visible_string s = true ∧ s ≠ EmptyString.
Proof.
  unfold base64_rawurl, hmac_sha256, bytes_of_string, string_of_bytes, visible_string. cbv zeta.
  rewrite !list_ascii_of_string_of_list_ascii.
  match goal with |- context [SHA256.digest (?x ++ SHA256.digest ?y)] =>
    generalize (x ++ SHA256.digest y) end. intros m.
  assert (Z_of_byte <$> (byte_of <$> SHA256.digest m) = SHA256.digest m) as ->.
  { rewrite <- list_fmap_compose. rewrite <- (list_fmap_id (SHA256.digest m)) at 2.
    apply list_fmap_ext. intros i x Hx. simpl. apply Z_of_byte_of.
    exact (proj1 (Forall_lookup _ _) (proj2 (digest_spec m)) i x Hx). }
  split; [apply b64_list_visible, digest_spec|].
  pose proof (proj1 (digest_spec m)) as Hl. destruct (SHA256.digest m) as [|a [|b [|c l]]]; done.
Qed.

(** Decoding inverts encoding. *)
Lemma b64_value_digit z : 0 ≤ z < 64 → b64_value (b64_digit z) = Some z ∧ line_break (b64_digit z) = false.
Proof.
  intros Hz. assert (In z (seqZ 0 64)) as Hin by (apply list_elem_of_In, elem_of_seqZ; lia).
  assert (forallb (λ z, bool_decide (b64_value (b64_digit z) = Some z ∧ line_break (b64_digit z) = false)) (seqZ 0 64) = true) as H
    by (vm_compute; reflexivity).
  rewrite forallb_forall in H. by apply H, bool_decide_eq_true in Hin.
Qed.
Lemma b64_digits_values zs :
  Forall (λ z, 0 ≤ z < 64) zs →
  b64_values (b64_digit <$> zs) = Some zs.
Proof.
  induction 1 as [|z zs Hz _ IH]; [done|]. destruct (b64_value_digit z Hz) as [Hv Hl]. csimpl. by rewrite Hl, Hv, IH.
Qed.
Lemma b64_list_digits l :
  Forall (λ b, 0 ≤ b < 256) l →
  ∃ zs, b64_list l = b64_digit <$> zs ∧ Forall (λ z, 0 ≤ z < 64) zs ∧ b64_bytes zs = Some l.
Proof.
  revert l. fix IH 1. intros [|a [|b [|c l]]] Hl; rewrite ?Forall_cons in Hl; destruct_and?; cbn [b64_list].
  - by exists [].
  - exists [a / 4; a mod 4 * 16]. split; [done|]. split.
    + repeat constructor; try (apply Z.div_pos; lia); try (apply Z.div_lt_upper_bound; lia);
        pose proof (Z.mod_pos_bound a 4 eq_refl); lia.
    + cbn [b64_bytes]. do 2 f_equal. rewrite Z.div_mul by lia. pose proof (Z.div_mod a 4). lia.
  - exists [a / 4; a mod 4 * 16 + b / 16; b mod 16 * 4]. split; [done|].
    pose proof (Z.mod_pos_bound a 4 eq_refl). pose proof (Z.mod_pos_bound b 16 eq_refl).
    assert (0 ≤ b / 16 < 16) by (split; [apply Z.div_pos|apply Z.div_lt_upper_bound]; lia). split.
    + repeat constructor; try (apply Z.div_pos; lia); try (apply Z.div_lt_upper_bound; lia); lia.
    + cbn [b64_bytes]. rewrite (Z.add_comm (a mod 4 * 16)), Z.div_add, Z.mod_add, Z.div_mul, (Z.div_small (b / 16)), (Z.mod_small (b / 16)) by lia.
      pose proof (Z.div_mod a 4). pose proof (Z.div_mod b 16). do 3 f_equal; lia.
  - destruct (IH l) as (zs & Hzs & Hr & Hb); [done|].
    exists (a / 4 :: a mod 4 * 16 + b / 16 :: b mod 16 * 4 + c / 64 :: c mod 64 :: zs). split; [by rewrite Hzs|].
    pose proof (Z.mod_pos_bound a 4 eq_refl). pose proof (Z.mod_pos_bound b 16 eq_refl). pose proof (Z.mod_pos_bound c 64 eq_refl).
    assert (0 ≤ b / 16 < 16) by (split; [apply Z.div_pos|apply Z.div_lt_upper_bound]; lia).
    assert (0 ≤ c / 64 < 4) by (split; [apply Z.div_pos|apply Z.div_lt_upper_bound]; lia). split.
    + repeat constructor; try (apply Z.div_pos; lia); try (apply Z.div_lt_upper_bound; lia); try lia; done.
    + cbn [b64_bytes]. rewrite Hb. cbn [fmap option_fmap option_map].
      rewrite (Z.add_comm (a mod 4 * 16)), Z.div_add, Z.mod_add, (Z.div_small (b / 16)), (Z.mod_small (b / 16)) by lia.
      rewrite (Z.add_comm (b mod 16 * 4)), Z.div_add, Z.mod_add, (Z.div_small (c / 64)), (Z.mod_small (c / 64)) by lia.
      pose proof (Z.div_mod a 4). pose proof (Z.div_mod b 16). pose proof (Z.div_mod c 64). do 4 f_equal; lia.
Qed.
Lemma bytes_of_string_bounds s : Forall (λ b, 0 ≤ b < 256) (bytes_of_string s).
Proof.
  unfold bytes_of_string. apply Forall_fmap, Forall_forall. intros c _. simpl. unfold Z_of_byte.
  pose proof (N_ascii_bounded c). lia.
Qed.
Lemma base64_roundtrip s : base64_rawurl_decode (base64_rawurl s) = Some s.
Proof.
  unfold base64_rawurl_decode, base64_rawurl. rewrite list_ascii_of_string_of_list_ascii.
  destruct (b64_list_digits (bytes_of_string s)) as (zs & -> & Hr & Hb).
  { apply bytes_of_string_bounds. }
  rewrite b64_digits_values by done. simpl. rewrite Hb. simpl. f_equal. unfold string_of_bytes, bytes_of_string.
  rewrite <- list_fmap_compose. rewrite <- (string_of_list_ascii_of_string s) at 2. f_equal.
  rewrite <- (list_fmap_id (list_ascii_of_string s)) at 2. apply list_fmap_ext. intros i c _. simpl.
  unfold byte_of, Z_of_byte. rewrite N2Z.id. apply ascii_N_embedding.
Qed.
Lemma base64_visible s : visible_string (base64_rawurl s) = true.
Proof.
  unfold visible_string, base64_rawurl. rewrite list_ascii_of_string_of_list_ascii.
  apply b64_list_visible, bytes_of_string_bounds.
Qed.
