(* ===== verification/Effects.v ===== *)
(** * Effectful Go code as programs over a signature of operations

    A handler that talks to its surroundings (sends frames, appends to a shared
    queue, waits on a channel, writes a file) is a [prog]: a tree whose nodes
    are the calls, in the order the code makes them, and whose branches are the
    answers. Four readings of a program are used by the other files:

    - [traces p t a]: [t] is a possible sequence of calls and answers of [p]
      ending with the result [a] (the surroundings answer anything);
    - [run h p w]: the execution against the executable handler [h];
    - [always H p I Q w]: every state reached by [p] from [w], with each call
      answered as [H] allows, satisfies [I], and the final ones [Q];
    - [wp R G H p Q w]: every execution of [p] from [w] in which other threads
      take [R]-steps between any two calls of [p], and each call is answered as
      [H] allows, changes the state by [G]-steps only and satisfies [Q] at the
      end. Threads whose guarantees [G] imply each other's relies [R] can be
      run in parallel ([Section pool]). *)
From stdpp Require Import base option list relations.
From S2P Require Import Prelude.

Section prog.
Context {op : Type} {ans : op → Type}.

Inductive prog (A : Type) : Type :=
| Ret (a : A)
| Vis (e : op) (k : ans e → prog A).
Arguments Ret {A} a.
Arguments Vis {A} e k.

Fixpoint prog_bind {A B} (f : A → prog B) (p : prog A) : prog B :=
  match p with
  | Ret a => f a
  | Vis e k => Vis e (λ x, prog_bind f (k x))
  end.
Definition call (e : op) : prog (ans e) := Vis e Ret.

(** A call with its answer. *)
Definition event : Type := { e : op & ans e }.

Fixpoint traces {A} (p : prog A) (t : list event) (a : A) : Prop :=
  match p with
  | Ret b => t = [] ∧ a = b
  | Vis e k => ∃ x t', t = existT e x :: t' ∧ traces (k x) t' a
  end.

Section run.
Context {W : Type} (h : ∀ e : op, W → ans e * W).
Fixpoint run {A} (p : prog A) (w : W) : A * W :=
  match p with
  | Ret a => (a, w)
  | Vis e k => let '(x, w') := h e w in run (k x) w'
  end.
(** the trace of a run *)
Fixpoint run_trace {A} (p : prog A) (w : W) : list event :=
  match p with
  | Ret _ => []
  | Vis e k => let '(x, w') := h e w in existT e x :: run_trace (k x) w'
  end.
End run.

Section wp.
Context {W : Type} (R G : W → W → Prop) (H : ∀ e : op, W → ans e → W → Prop).
Fixpoint wp {A} (p : prog A) (Q : A → W → Prop) (w : W) : Prop :=
  match p with
  | Ret a => ∀ w', R w w' → Q a w'
  | Vis e k => ∀ w' x w'', R w w' → H e w' x w'' → G w' w'' ∧ wp (k x) Q w''
  end.
End wp.

(** Every state of an execution, also of one that stops half way, satisfies
    [I], and a completed one ends in [Q]. *)
Section always.
Context {W : Type} (H : ∀ e : op, W → ans e → W → Prop).
Fixpoint always {A} (p : prog A) (I : W → Prop) (Q : A → W → Prop) (w : W) : Prop :=
  I w ∧ match p with
        | Ret a => Q a w
        | Vis e k => ∀ x w', H e w x w' → always (k x) I Q w'
        end.
End always.

(** [exec H p w a w']: [p] can run from [w] to the result [a] in [w']. *)
Section exec.
Context {W : Type} (H : ∀ e : op, W → ans e → W → Prop).
Fixpoint exec {A} (p : prog A) (w : W) (a : A) (w' : W) : Prop :=
  match p with
  | Ret b => a = b ∧ w' = w
  | Vis e k => ∃ x w1, H e w x w1 ∧ exec (k x) w1 a w'
  end.
End exec.
End prog.

Arguments prog {op} ans A.
Arguments Ret {op ans A} a.
Arguments Vis {op ans A} e k.
Arguments event {op} ans.

#[export] Instance prog_mret {op} {ans : op → Type} : MRet (prog ans) := λ A a, Ret a.
#[export] Instance prog_mbind {op} {ans : op → Type} : MBind (prog ans) := λ A B f p, prog_bind f p.

Section facts.
Context {op : Type} {ans : op → Type}.
Implicit Types (e : op).

Lemma exec_bind {W A B} (H : ∀ e : op, W → ans e → W → Prop) (f : A → prog ans B) (p : prog ans A) w b w' :
  exec H (p ≫= f) w b w' ↔ ∃ a w1, exec H p w a w1 ∧ exec H (f a) w1 b w'.
Proof.
  revert w. induction p as [a|e k IH]; intros w; simpl; [naive_solver|].
  split.
  - intros (x & w1 & He & Hk). apply IH in Hk as (a & w2 & Hp & Hf). eauto 10.
  - intros (a & w2 & (x & w1 & He & Hk) & Hf). exists x, w1. split; [done|]. apply IH. eauto.
Qed.
(** Every call a program can make satisfies [good]. *)
Fixpoint calls {A} (good : op → Prop) (p : prog ans A) : Prop :=
  match p with
  | Ret _ => True
  | Vis e k => good e ∧ ∀ x, calls good (k x)
  end.
Lemma calls_bind {A B} (good : op → Prop) (f : A → prog ans B) (p : prog ans A) :
  calls good p → (∀ a, calls good (f a)) → calls good (p ≫= f).
Proof. intros Hp Hf. induction p as [a|e k IH]; simpl; [done|]. destruct Hp as [He Hk]. split; [done|]. intros x. by apply IH. Qed.
Lemma calls_any {A} (p : prog ans A) : calls (λ _, True) p.
Proof. induction p; simpl; auto. Qed.
(** If every call a program can make against one environment is a call against another
    on related states, so is every execution. *)
Lemma exec_simulation {W V A} (H : ∀ e : op, W → ans e → W → Prop) (H' : ∀ e : op, V → ans e → V → Prop) (R : W → V → Prop) (good : op → Prop)
    (p : prog ans A) w v a w' :
  (∀ e w v x w', good e → R w v → H e w x w' → ∃ v', H' e v x v' ∧ R w' v') →
  calls good p → R w v → exec H p w a w' → ∃ v', exec H' p v a v' ∧ R w' v'.
Proof.
  intros Hsim. revert w v. induction p as [b|e k IH]; intros w v; simpl.
  - intros _ HR [-> ->]. by exists v.
  - intros [Hg Hc] HR (x & w1 & He & Hk). destruct (Hsim _ _ _ _ _ Hg HR He) as (v1 & Hv1 & HR1).
    destruct (IH _ _ _ (Hc x) HR1 Hk) as (v' & Hv' & HR'). exists v'. split; [|done]. by exists x, v1.
Qed.
(** A run against a handler whose answers [H] allows is an execution. *)
Lemma run_exec {W A} (h : ∀ e : op, W → ans e * W) (H : ∀ e : op, W → ans e → W → Prop) (p : prog ans A) w :
  (∀ e w, H e w (h e w).1 (h e w).2) → exec H p w (run h p w).1 (run h p w).2.
Proof.
  intros Hh. revert w. induction p as [a|e k IH]; intros w; simpl; [done|].
  specialize (Hh e w). destruct (h e w) as [x w1]. simpl in *. exists x, w1. auto.
Qed.
Lemma traces_bind {A B} (f : A → prog ans B) (p : prog ans A) t b :
  traces (p ≫= f) t b ↔
  ∃ a t1 t2, t = t1 ++ t2 ∧ traces p t1 a ∧ traces (f a) t2 b.
Proof.
  revert t. induction p as [a|e k IH]; intros t; simpl.
  - split.
    + intros ?. by exists a, [], t.
    + by intros (? & ? & ? & -> & (-> & ->) & ?).
  - split.
    + intros (x & t' & -> & (a & t1 & t2 & -> & ? & ?)%IH).
      exists a, (existT e x :: t1), t2. eauto 10.
    + intros (a & ? & t2 & -> & (x & t1 & -> & ?) & ?).
      exists x, (t1 ++ t2). split; [done|]. apply IH. eauto 10.
Qed.

(** Every run is one of the traces. *)
Lemma run_is_trace {W A} (h : ∀ e, W → ans e * W) (p : prog ans A) w :
  traces p (run_trace h p w) (run h p w).1.
Proof.
  revert w. induction p as [a|e k IH]; intros w; simpl; [done|].
  destruct (h e w) as [x w'] eqn:E. exists x, (run_trace h (k x) w'). split; [done|]. apply IH.
Qed.

(** *** Programs that follow a protocol

    A protocol is a state machine: [may s e] allows the call [e] in state [s], and a
    call with its answer leads to the next state. *)
Section protocol.
Context {S : Type} (may : S → op → Prop) (next : S → event ans → S).
Fixpoint follows {A} (Q : A → S → Prop) (p : prog ans A) (s : S) : Prop :=
  match p with
  | Ret a => Q a s
  | Vis e k => may s e ∧ ∀ x, follows Q (k x) (next s (existT e x))
  end.
Lemma follows_bind {A B} (f : A → prog ans B) (p : prog ans A) Q s :
  follows (λ a s, follows Q (f a) s) p s → follows Q (p ≫= f) s.
Proof. revert s. induction p as [a|e k IH]; intros s; simpl; [done|]. intros [He Hk]. split; [done|]. intros x. by apply IH. Qed.
Lemma follows_mono {A} (p : prog ans A) (Q Q' : A → S → Prop) s :
  (∀ a s, Q a s → Q' a s) → follows Q p s → follows Q' p s.
Proof. intros HQ. revert s. induction p as [a|e k IH]; intros s; simpl; [auto|]. intros [He Hk]. eauto. Qed.
End protocol.

(** *** What a program says, it was told

    [gives ev] is what a program learns from a call and its answer, [needs ev] what
    it must have learned before it makes the call. *)
Section causal.
Context {X : Type} (gives needs : event ans → list X).
Fixpoint causal (seen : list X) (t : list (event ans)) : Prop :=
  match t with
  | [] => True
  | ev :: t' => (∀ x, x ∈ needs ev → x ∈ seen) ∧ causal (gives ev ++ seen) t'
  end.
Lemma causal_mono seen seen' t : (∀ x, x ∈ seen → x ∈ seen') → causal seen t → causal seen' t.
Proof.
  revert seen seen'. induction t as [|ev t IH]; intros seen seen' Hs; [done|]. intros [H1 H2]. split; [eauto|].
  eapply IH; [|exact H2]. intros x. rewrite !elem_of_app. intros [?|?]; eauto.
Qed.
Lemma causal_app seen t1 t2 : causal seen t1 → causal seen t2 → causal seen (t1 ++ t2).
Proof.
  revert seen. induction t1 as [|ev t1 IH]; intros seen; [done|]. intros [H1 H2] H3. split; [done|].
  apply IH; [done|]. eapply causal_mono; [|exact H3]. intros x ?. apply elem_of_app. by right.
Qed.
Lemma causal_lookup seen t1 ev t2 x :
  causal seen (t1 ++ ev :: t2) → x ∈ needs ev → x ∈ seen ∨ ∃ ev', ev' ∈ t1 ∧ x ∈ gives ev'.
Proof.
  revert seen. induction t1 as [|ev1 t1 IH]; intros seen; simpl.
  - intros [H1 _] Hx. left. by apply H1.
  - intros [_ H2] Hx. destruct (IH _ H2 Hx) as [[Hx'|Hx']%elem_of_app|(ev' & ? & ?)].
    + right. exists ev1. split; [left|done].
    + by left.
    + right. exists ev'. split; [by right|done].
Qed.
Lemma causal_bind {A B} (p : prog ans A) (f : A → prog ans B) seen t b :
  (∀ t a, traces p t a → causal seen t) → (∀ a t, traces (f a) t b → causal seen t) →
  traces (p ≫= f) t b → causal seen t.
Proof. intros Hp Hf (a & t1 & t2 & -> & H1 & H2)%traces_bind. apply causal_app; eauto. Qed.
(** A call that needs nothing. *)
Lemma causal_call seen e x t :
  needs (existT e x) = [] → causal (gives (existT e x) ++ seen) t → causal seen ((existT e x : event ans) :: t).
Proof. intros Ha Ht. split; [|done]. rewrite Ha. by intros ? ?%not_elem_of_nil. Qed.

(** Every trace of [p] is causal: what a step of [p] may rely on. *)
Definition informed {A} (seen : list X) (p : prog ans A) : Prop := ∀ t a, traces p t a → causal seen t.
Lemma informed_mono {A} seen seen' (p : prog ans A) :
  (∀ x, x ∈ seen → x ∈ seen') → informed seen p → informed seen' p.
Proof. intros Hs Hp t a Ht. eapply causal_mono; [exact Hs|]. by eapply Hp. Qed.
Lemma informed_step {A} seen e (k : ans e → prog ans A) x t a :
  traces (k x) t a → informed seen (Vis e k) →
  (∀ y, y ∈ needs (existT e x) → y ∈ seen) ∧ informed (gives (existT e x) ++ seen) (k x).
Proof.
  intros Hk Hp. split.
  - by destruct (Hp (existT e x :: t) a) as [? _]; [exists x, t|].
  - intros t' a' Ht'. by destruct (Hp (existT e x :: t') a') as [_ ?]; [exists x, t'|].
Qed.
End causal.

Section rely.
Context {W : Type} (R G : W → W → Prop) (H : ∀ e, W → ans e → W → Prop).
Context `{!Reflexive R, !Transitive R}.

Lemma wp_stable {A} (p : prog ans A) Q w w' : R w w' → wp R G H p Q w → wp R G H p Q w'.
Proof.
  destruct p; simpl; intros Hr Hp.
  - intros w2 Hr2. apply Hp. by etrans.
  - intros w2 x w3 Hr2 He. apply (Hp w2 x w3); [by etrans|done].
Qed.
Lemma wp_mono {A} (p : prog ans A) (Q Q' : A → W → Prop) w :
  (∀ a w, Q a w → Q' a w) → wp R G H p Q w → wp R G H p Q' w.
Proof.
  intros HQ. revert w. induction p as [a|e k IH]; simpl; intros w Hp; [eauto|].
  intros w' x w'' Hr He. destruct (Hp w' x w'' Hr He). eauto.
Qed.
Lemma wp_bind {A B} (f : A → prog ans B) (p : prog ans A) Q w :
  wp R G H p (λ a, wp R G H (f a) Q) w → wp R G H (p ≫= f) Q w.
Proof.
  revert w. induction p as [a|e k IH]; simpl; intros w Hp.
  - apply (Hp w). done.
  - intros w' x w'' Hr He. destruct (Hp w' x w'' Hr He). eauto.
Qed.
Lemma wp_vis {A} e (k : ans e → prog ans A) Q w :
  (∀ w' x w'', R w w' → H e w' x w'' → G w' w'' ∧ wp R G H (k x) Q w'') → wp R G H (call e ≫= k) Q w.
Proof. done. Qed.
Lemma wp_ret {A} (a : A) (Q : A → W → Prop) w : (∀ w', R w w' → Q a w') → wp R G H (Ret a) Q w.
Proof. done. Qed.
End rely.

(** *** Threads in parallel *)

Section pool.
Context {W A : Type}.
Context (I : W → Prop) (R G : nat → W → W → Prop) (E : W → W → Prop).
Context (H : nat → ∀ e, W → ans e → W → Prop) (start : prog ans A → Prop).

Record pool := Pool { shared : W; code : list (prog ans A) }.

(** A thread makes its next call, the surroundings take a step, or a thread is
    started. *)
Inductive pool_step : pool → pool → Prop :=
| step_thread w ts (i : nat) e k x w' :
    ts !! i = Some (Vis e k) → H i e w x w' →
    pool_step (Pool w ts) (Pool w' (<[i := k x]> ts))
| step_env w ts w' : E w w' → pool_step (Pool w ts) (Pool w' ts)
| step_start w ts p : start p → pool_step (Pool w ts) (Pool w (ts ++ [p])).

Context `{!∀ i, Reflexive (R i), !∀ i, Transitive (R i)}.
Hypothesis G_preserves : ∀ i w w', G i w w' → I w → I w'.
Hypothesis E_preserves : ∀ w w', E w w' → I w → I w'.
Hypothesis G_implies_R : ∀ i j w w', i ≠ j → I w → G i w w' → R j w w'.
Hypothesis E_implies_R : ∀ j w w', I w → E w w' → R j w w'.
(** [free i]: the shared state has nothing for thread [i] yet. *)
Context (free : nat → W → Prop).
Hypothesis free_R : ∀ i w w', I w → R i w w' → free i w → free i w'.
Hypothesis start_wp : ∀ i p w, start p → I w → free i w → wp (R i) (G i) (H i) p (λ _ _, True) w.

Definition pool_ok (s : pool) : Prop :=
  I (shared s) ∧
  (∀ i, (length (code s) ≤ i)%nat → free i (shared s)) ∧
  ∀ i p, code s !! i = Some p → wp (R i) (G i) (H i) p (λ _ _, True) (shared s).

Lemma pool_step_ok s s' : pool_step s s' → pool_ok s → pool_ok s'.
Proof.
  destruct 1 as [w ts i e k x w' Hi He|w ts w' He|w ts p Hp]; intros (HI & Hfree & Hts); simpl in *.
  - destruct (Hts i _ Hi w x w') as [HG Hk]; [done|done|]. pose proof (lookup_lt_Some _ _ _ Hi).
    split_and!; simpl; [by eapply G_preserves|..].
    + rewrite length_insert. intros j Hj. eapply free_R; [done| |by apply Hfree].
      eapply G_implies_R; [|done|done]. lia.
    + intros j p Hj. destruct (decide (i = j)) as [<-|Hij].
      * rewrite list_lookup_insert_eq in Hj by done. by simplify_eq.
      * rewrite list_lookup_insert_ne in Hj by done. eapply wp_stable; [apply _| |by apply Hts].
        by eapply G_implies_R.
  - split_and!; simpl; [by eapply E_preserves|..].
    + intros j Hj. eapply free_R; [done|by apply E_implies_R|by apply Hfree].
    + intros j p Hj. eapply wp_stable; [apply _| |by apply Hts]. by apply E_implies_R.
  - split_and!; [done|..]; simpl.
    + intros j. rewrite length_app. simpl. intros ?. apply Hfree. lia.
    + intros j q [Hj|[Hl Hj]]%lookup_app_Some; [by apply Hts|].
      apply list_lookup_singleton_Some in Hj as [_ <-]. by apply start_wp, Hfree.
Qed.
End pool.

(** *** Executions that may stop half way *)

Section always_facts.
Context {W : Type} (H : ∀ e, W → ans e → W → Prop).

Lemma always_invariant {A} (p : prog ans A) I Q w : always H p I Q w → I w.
Proof. destruct p; by intros []. Qed.
Lemma always_mono {A} (p : prog ans A) I Q (I' : W → Prop) (Q' : A → W → Prop) w :
  always H p I Q w → (∀ w, I w → I' w) → (∀ a w, Q a w → Q' a w) → always H p I' Q' w.
Proof.
  intros Hp HI HQ. revert w Hp. induction p as [a|e k IH]; intros w [Hw Hp]; simpl; split; eauto.
Qed.
Lemma always_bind {A B} (f : A → prog ans B) (p : prog ans A) I Q (I' : W → Prop) Q' w :
  always H p I Q w → (∀ w, I w → I' w) →
  (∀ a w, Q a w → I w → always H (f a) I' Q' w) → always H (p ≫= f) I' Q' w.
Proof.
  intros Hp HI Hf. revert w Hp. induction p as [a|e k IH]; intros w [Hw Hp]; [by apply Hf|].
  simpl. split; [by apply HI|]. intros x w' Hx. apply IH. by apply Hp.
Qed.
End always_facts.
End facts.
Arguments Pool {op ans W A} shared code.
