(* ===== verification/Proto.v ===== *)
(** * The messages of the agent stream

    The generated types of [proto/gen/go/cost/v1/agent]. A nilable sub-message
    is an [option] and its getters return the zero value on [None], as the
    generated getters do on a nil pointer; the payload [oneof] is an inductive
    type with one constructor per generated wrapper type. Metric samples of
    GPUs, Kubernetes events and Karpenter events are never looked into by the
    sources and are carried in encoded form.

    The protobuf runtime is not part of the repository: encoding, encoded sizes
    and the well-known timestamp's conversions are the operations of the class
    [Protobuf], on which nothing is assumed. [proto.Clone] copies a message,
    which is the identity on these immutable values. *)
From stdpp Require Import base option list gmap strings.
From Stdlib Require Import ZArith.
From S2P Require Import Prelude.

(** google.protobuf.Timestamp *)
Record Timestamp := { ts_Seconds : Z; ts_Nanos : Z }.

Inductive InventoryOperation :=
| INVENTORY_OPERATION_UNSPECIFIED
| INVENTORY_OPERATION_UPSERT
| INVENTORY_OPERATION_DELETE
| INVENTORY_OPERATION_unrecognized (n : Z).

Record InventoryRecord := {
  Operation : InventoryOperation;
  SnapshotId : string;
  SnapshotRecord : bool
}.

Inductive InventorySnapshotPhase :=
| INVENTORY_SNAPSHOT_PHASE_UNSPECIFIED
| INVENTORY_SNAPSHOT_PHASE_STARTED
| INVENTORY_SNAPSHOT_PHASE_COMPLETED
| INVENTORY_SNAPSHOT_PHASE_ABORTED
| INVENTORY_SNAPSHOT_PHASE_unrecognized (n : Z).

Record InventorySnapshotMarker := {
  Marker_SnapshotId : string;
  Marker_Phase : InventorySnapshotPhase;
  Marker_ResourceKinds : list string;
  Marker_RecordCount : Z;
  Marker_StartedAt : option Timestamp;
  Marker_CompletedAt : option Timestamp;
  Marker_Detail : string
}.

Record ObjectReference := {
  Ref_ApiVersion : string;
  Ref_Kind : string;
  Ref_Namespace : string;
  Ref_Name : string;
  Ref_Uid : string
}.

Record ObjectMetadata := {
  Meta_Uid : string;
  Meta_Name : string;
  Meta_Namespace : string;
  Meta_Labels : gmap string string;
  Meta_Annotations : gmap string string;
  Meta_CreatedAt : option Timestamp;
  Meta_DeletedAt : option Timestamp;
  Meta_OwnerReferences : list ObjectReference
}.

Record ResourceValues := {
  Res_CpuMillicores : option Z;
  Res_MemoryBytes : option Z;
  Res_EphemeralStorageBytes : option Z;
  Res_GpuCount : option Z;
  Res_ExtendedResources : gmap string string
}.

Record ClusterInventory := {
  Cluster_Record : option InventoryRecord;
  Cluster_ClusterUid : string;
  Cluster_Name : string;
  Cluster_KubernetesVersion : string;
  Cluster_Provider : string;
  Cluster_Region : string;
  Cluster_AccountId : string;
  Cluster_Labels : gmap string string
}.

Record NodeInventory := {
  Node_Record : option InventoryRecord;
  Node_Metadata : option ObjectMetadata;
  Node_ProviderId : string;
  Node_InstanceType : string;
  Node_Architecture : string;
  Node_OperatingSystem : string;
  Node_Region : string;
  Node_Zone : string;
  Node_CapacityType : string;
  Node_Capacity : option ResourceValues;
  Node_Allocatable : option ResourceValues;
  Node_Schedulable : bool;
  Node_Taints : list string;
  Node_KarpenterNodeClaimUid : string;
  Node_KarpenterNodePool : string
}.

Record NamespaceInventory := {
  Namespace_Record : option InventoryRecord;
  Namespace_Metadata : option ObjectMetadata;
  Namespace_Phase : string
}.

Record DeploymentInventory := {
  Deployment_Record : option InventoryRecord;
  Deployment_Metadata : option ObjectMetadata;
  Deployment_DesiredReplicas : Z;
  Deployment_AvailableReplicas : Z;
  Deployment_Selector : string;
  Deployment_Strategy : string;
  Deployment_NamespaceUid : string
}.

Record PodInventory := {
  Pod_Record : option InventoryRecord;
  Pod_Metadata : option ObjectMetadata;
  Pod_NodeName : string;
  Pod_NodeUid : string;
  Pod_Phase : string;
  Pod_QosClass : string;
  Pod_ServiceAccountName : string;
  Pod_PriorityClassName : string;
  Pod_WorkloadKind : string;
  Pod_WorkloadUid : string;
  Pod_ScheduledAt : option Timestamp;
  Pod_StartedAt : option Timestamp;
  Pod_NamespaceUid : string
}.

Record ContainerInventory := {
  Container_Record : option InventoryRecord;
  Container_PodUid : string;
  Container_Namespace : string;
  Container_PodName : string;
  Container_ContainerName : string;
  Container_ContainerId : string;
  Container_Image : string;
  Container_ImageId : string;
  Container_Requests : option ResourceValues;
  Container_Limits : option ResourceValues;
  Container_RestartCount : Z;
  Container_InitContainer : bool;
  Container_StartedAt : option Timestamp;
  Container_FinishedAt : option Timestamp;
  Container_NamespaceUid : string;
  Container_WorkloadKind : string;
  Container_WorkloadUid : string
}.

Inductive MetricQuality :=
| METRIC_QUALITY_UNSPECIFIED
| METRIC_QUALITY_COMPLETE
| METRIC_QUALITY_PARTIAL
| METRIC_QUALITY_ESTIMATED
| METRIC_QUALITY_RESET_DETECTED
| METRIC_QUALITY_unrecognized (n : Z).

Record TimeWindow := { Window_Start : option Timestamp; Window_End : option Timestamp }.

Record NodeMetrics := {
  NodeM_NodeUid : string;
  NodeM_NodeName : string;
  NodeM_Window : option TimeWindow;
  NodeM_CpuUsageCoreNanoseconds : option Z;
  NodeM_MemoryWorkingSetByteSeconds : option Z;
  NodeM_MemoryRssByteSeconds : option Z;
  NodeM_NetworkReceiveBytes : option Z;
  NodeM_NetworkTransmitBytes : option Z;
  NodeM_FilesystemUsedByteSeconds : option Z;
  NodeM_Quality : MetricQuality
}.

Record ContainerMetrics := {
  ContM_PodUid : string;
  ContM_Namespace : string;
  ContM_PodName : string;
  ContM_ContainerName : string;
  ContM_ContainerId : string;
  ContM_Window : option TimeWindow;
  ContM_CpuUsageCoreNanoseconds : option Z;
  ContM_CpuThrottledNanoseconds : option Z;
  ContM_MemoryWorkingSetByteSeconds : option Z;
  ContM_MemoryRssByteSeconds : option Z;
  ContM_NetworkReceiveBytes : option Z;
  ContM_NetworkTransmitBytes : option Z;
  ContM_FilesystemUsedByteSeconds : option Z;
  ContM_OomKillCount : option Z;
  ContM_Quality : MetricQuality;
  ContM_CpuRequestCoreNanoseconds : option Z;
  ContM_CpuLimitCoreNanoseconds : option Z;
  ContM_MemoryRequestByteSeconds : option Z;
  ContM_MemoryLimitByteSeconds : option Z
}.

Inductive Payload :=
| Observation_ClusterInventory (m : ClusterInventory)
| Observation_NodeInventory (m : NodeInventory)
| Observation_NamespaceInventory (m : NamespaceInventory)
| Observation_DeploymentInventory (m : DeploymentInventory)
| Observation_PodInventory (m : PodInventory)
| Observation_ContainerInventory (m : ContainerInventory)
| Observation_NodeMetrics (m : NodeMetrics)
| Observation_ContainerMetrics (m : ContainerMetrics)
| Observation_GpuMetrics (encoded : string)
| Observation_KubernetesEvent (encoded : string)
| Observation_KarpenterEvent (encoded : string)
| Observation_InventorySnapshotMarker (m : InventorySnapshotMarker).

Record Observation := {
  Sequence : Z;
  EventId : string;
  ObservedAt : option Timestamp;
  CollectedAt : option Timestamp;
  SourceResourceVersion : string;
  payload : option Payload
}.

Record ObservationBatch := {
  BatchId : string;
  FirstSequence : Z;
  LastSequence : Z;
  CreatedAt : option Timestamp;
  PayloadChecksum : string;
  Observations : list Observation
}.

Record ProtocolVersion := { Major : Z; Minor : Z }.

Record AgentHello := {
  Hello_TenantId : string;
  Hello_ClusterId : string;
  Hello_AgentInstanceId : string;
  Hello_AgentVersion : string;
  Hello_KubernetesVersion : string;
  Hello_SupportedProtocolVersions : list ProtocolVersion;
  Hello_Capabilities : list Z;
  Hello_ResumeAfterSequence : Z;
  Hello_ConfigurationRevision : string
}.

Record AgentHeartbeat := {
  Heartbeat_SentAt : option Timestamp;
  Heartbeat_HighestSequenceCreated : Z;
  Heartbeat_HighestSequencePersistedByServer : Z
}.

(** Frames from the agent; a frame without a supported payload is [AgentFrame_none]. *)
Inductive AgentToIngestion :=
| AgentToIngestion_Hello (h : AgentHello)
| AgentToIngestion_Batch (b : ObservationBatch)
| AgentToIngestion_Heartbeat (h : AgentHeartbeat)
| AgentFrame_none.

Record ServerHello := {
  SHello_SessionId : string;
  SHello_SelectedProtocolVersion : option ProtocolVersion;
  SHello_AcceptedThroughSequence : Z;
  SHello_MaxBatchRecords : Z;
  SHello_MaxBatchBytes : Z;
  SHello_HeartbeatInterval : Z;
  SHello_ServerTime : option Timestamp
}.

Record SequenceRange := { Range_First : Z; Range_Last : Z }.

Inductive RejectionCode :=
| REJECTION_CODE_UNSPECIFIED
| REJECTION_CODE_INVALID_RECORD
| REJECTION_CODE_UNSUPPORTED_PAYLOAD
| REJECTION_CODE_UNSUPPORTED_VERSION
| REJECTION_CODE_IDENTITY_MISMATCH
| REJECTION_CODE_TOO_OLD
| REJECTION_CODE_TOO_LARGE
| REJECTION_CODE_INTERNAL.

Record RecordRejection := {
  Rejection_Sequence : Z;
  Rejection_Code : RejectionCode;
  Rejection_Detail : string;
  Rejection_Retryable : bool
}.

Record BatchAcknowledgement := {
  Ack_BatchId : string;
  Ack_ReceivedThroughSequence : Z;
  Ack_PersistedThroughSequence : Z;
  Ack_RetryRanges : list SequenceRange;
  Ack_Rejections : list RecordRejection;
  Ack_AcknowledgedAt : option Timestamp
}.

Record FlowControl := {
  Flow_RetryAfter : option Z;
  Flow_MaxInFlightBatches : Z;
  Flow_Reason : string
}.

Record StreamError := { Error_Code : Z; Error_Detail : string }.

Inductive IngestionToAgent :=
| IngestionToAgent_Hello (h : ServerHello)
| IngestionToAgent_Acknowledgement (a : BatchAcknowledgement)
| IngestionToAgent_Configuration (encoded : string)
| IngestionToAgent_FlowControl (f : FlowControl)
| IngestionToAgent_Error (e : StreamError)
| IngestionFrame_none.

(** The protobuf runtime, as an interface. *)
Class Protobuf := {
  marshalObservation : Observation → option string;
  marshalBatch : ObservationBatch → option string;
  sizeBatch : ObservationBatch → Z;
  ts_IsValid : Timestamp → bool;
  ts_AsTime : Timestamp → Time;
  ts_New : Time → Timestamp
}.

(** Generated getters on nilable sub-messages. *)
Definition GetOperation (r : option InventoryRecord) : InventoryOperation :=
  from_option Operation INVENTORY_OPERATION_UNSPECIFIED r.
Definition GetUid (m : option ObjectMetadata) : string := from_option Meta_Uid ""%string m.
Definition GetName (m : option ObjectMetadata) : string := from_option Meta_Name ""%string m.
Definition GetNamespace (m : option ObjectMetadata) : string := from_option Meta_Namespace ""%string m.
Definition GetLabels (m : option ObjectMetadata) : gmap string string := from_option Meta_Labels ∅ m.
Definition GetDeletedAt (m : option ObjectMetadata) : option Timestamp := m ≫= Meta_DeletedAt.
Definition GetCpuMillicores (r : option ResourceValues) : Z := default 0 (r ≫= Res_CpuMillicores).
Definition GetMemoryBytes (r : option ResourceValues) : Z := default 0 (r ≫= Res_MemoryBytes).
Definition GetGpuCount (r : option ResourceValues) : Z := default 0 (r ≫= Res_GpuCount).

(** Updates of single fields, as the sources make them on cloned messages. *)
Definition with_sequence_event (o : Observation) (seq : Z) (id : string) : Observation :=
  {| Sequence := seq; EventId := id; ObservedAt := ObservedAt o; CollectedAt := CollectedAt o;
     SourceResourceVersion := SourceResourceVersion o; payload := payload o |}.

(** A list of sequence numbers is a contiguous run starting at [s]. *)
Definition seq_run (s : Z) (obs : list Observation) : Prop :=
  ∀ i o, obs !! i = Some o → Sequence o = s + Z.of_nat i.

Lemma seq_run_cons s o obs : seq_run s (o :: obs) ↔ Sequence o = s ∧ seq_run (s + 1) obs.
Proof.
  split.
  - intros H. split; [specialize (H 0%nat o eq_refl); lia|].
    intros i x Hi. specialize (H (S i) x Hi). lia.
  - intros [Ho H] [|i] x Hi; simpl in Hi; simplify_eq; [lia|]. apply H in Hi. lia.
Qed.
Lemma seq_run_drop s obs n : seq_run s obs → seq_run (s + Z.of_nat n) (drop n obs).
Proof. intros H i o Hi. rewrite lookup_drop in Hi. apply H in Hi. lia. Qed.
Lemma seq_run_take s obs n : seq_run s obs → seq_run s (take n obs).
Proof. intros H i o Hi. rewrite lookup_take_Some in Hi. destruct Hi. eauto. Qed.

(** A concrete codec, used to evaluate definitions on concrete inputs: an
    observation is encoded by its sequence, event id and payload kind. *)
Definition payload_tag (p : option Payload) : string :=
  match p with
  | None => "none"
  | Some (Observation_ClusterInventory _) => "cluster"
  | Some (Observation_NodeInventory _) => "node"
  | Some (Observation_NamespaceInventory _) => "namespace"
  | Some (Observation_DeploymentInventory _) => "deployment"
  | Some (Observation_PodInventory _) => "pod"
  | Some (Observation_ContainerInventory _) => "container"
  | Some (Observation_NodeMetrics _) => "node-metrics"
  | Some (Observation_ContainerMetrics _) => "container-metrics"
  | Some (Observation_GpuMetrics e) => ("gpu:" +:+ e)%string
  | Some (Observation_KubernetesEvent e) => ("event:" +:+ e)%string
  | Some (Observation_KarpenterEvent e) => ("karpenter:" +:+ e)%string
  | Some (Observation_InventorySnapshotMarker _) => "marker"
  end.
Definition sample_codec : Protobuf := {|
  marshalObservation o := Some (dec (Sequence o) +:+ ";" +:+ EventId o +:+ ";" +:+ payload_tag (payload o))%string;
  marshalBatch b := Some (BatchId b +:+ ";" +:+ dec (FirstSequence b) +:+ ";" +:+ dec (LastSequence b))%string;
  sizeBatch b := 64 * (1 + Z.of_nat (length (Observations b)));
  ts_IsValid t := (0 <=? ts_Nanos t) && (ts_Nanos t <? Second);
  ts_AsTime t := unix_epoch + ts_Seconds t * Second + ts_Nanos t;
  ts_New t := {| ts_Seconds := (t - unix_epoch) / Second; ts_Nanos := (t - unix_epoch) mod Second |}
|}.
