(* ===== verification/Inventory.v ===== *)
(** * Inventory events and the change cache of the agent

    [agent/inventory/event.go] and [agent/inventory/cache.go]. A fingerprint is
    the hex SHA-256 of the deterministic encoding of the observation without its
    sequence, event id, times and resource version, so two observations of an
    unchanged object have the same fingerprint. *)
From stdpp Require Import base option list gmap strings.
From Stdlib Require Import ZArith.
From S2P Require Import Prelude Crypto Proto.

Record Event := { Key : string; EventObservation : option Observation }.

(** [Event.Validate]: [None] is a nil error. *)
Definition Validate (e : Event) : option string :=
  if (Key e =? "")%string then Some "inventory event key is required"%string
  else match EventObservation e with
       | Some o => match payload o with
                   | Some _ => None
                   | None => Some "inventory event payload is required"%string
                   end
       | None => Some "inventory event payload is required"%string
       end.

Section codec.
Context `{Protobuf}.

(** The observation as it is fingerprinted. *)
Definition fingerprinted (o : Observation) : Observation :=
  {| Sequence := 0; EventId := ""; ObservedAt := None; CollectedAt := None;
     SourceResourceVersion := ""; payload := payload o |}.

Definition Fingerprint (o : option Observation) : res string string :=
  match o with
  | Some o =>
      match payload o with
      | Some _ =>
          match marshalObservation (fingerprinted o) with
          | Some data => Ok (hex_encode (sha256 data))
          | None => Err "marshal observation"%string
          end
      | None => Err "observation payload is required"%string
      end
  | None => Err "observation payload is required"%string
  end.

(** ** The cache: event key to last published fingerprint *)
Record Cache := { cache_entries : gmap string string }.
Definition NewCache : Cache := {| cache_entries := ∅ |}.

Definition Changed (c : Cache) (e : Event) : res string (bool * string) :=
  match Validate e with
  | Some err => Err err
  | None =>
      match Fingerprint (EventObservation e) with
      | Err err => Err err
      | Ok fingerprint =>
          match cache_entries c !! Key e with
          | None => Ok (true, fingerprint)
          | Some current => Ok (negb (current =? fingerprint)%string, fingerprint)
          end
      end
  end.
Definition Exists (c : Cache) (key : string) : bool :=
  match cache_entries c !! key with Some _ => true | None => false end.
Definition Commit (c : Cache) (key fingerprint : string) : res string Cache :=
  if ((key =? "") || (fingerprint =? ""))%string
  then Err "cache key and fingerprint are required"%string
  else Ok {| cache_entries := <[key := fingerprint]> (cache_entries c) |}.
Definition Delete (c : Cache) (key : string) : Cache :=
  {| cache_entries := delete key (cache_entries c) |}.
Definition Len (c : Cache) : Z := Z.of_nat (size (cache_entries c)).

(** A fingerprint is never empty, so [Commit] accepts what [Changed] returns. *)
Lemma Fingerprint_ne o f : Fingerprint o = Ok f → f ≠ EmptyString.
Proof.
  unfold Fingerprint. repeat case_match; intros; simplify_eq. apply hex_sha256_ne.
Qed.
Lemma Changed_key_ne c e p : Changed c e = Ok p → Key e ≠ EmptyString ∧ p.2 ≠ EmptyString.
Proof.
  unfold Changed. destruct (Validate e) eqn:Hv; [done|].
  destruct (Fingerprint _) eqn:Hf; [|done]. intros Hp. split.
  - unfold Validate in Hv. by destruct (String.eqb_spec (Key e) "").
  - apply Fingerprint_ne in Hf. repeat case_match; simplify_eq; done.
Qed.
End codec.
Arguments Cache : clear implicits.
