(* ===== verification/Buffer.v ===== *)
(** * The agent's observation buffer

    [agent/transport/buffer.go]. Each method body between [mu.Lock] and
    [mu.Unlock] is one function on the buffer state; the [for] loops of
    [Publish] and [Batch], which wait on the [notify] channel (capacity one, a
    pending token) when the locked section cannot proceed, are the threads of
    the interleaving semantics in [Module Threads]. *)
From stdpp Require Import base option list gmap strings sorting.
From Stdlib Require Import ZArith Lia.
From S2P Require Import Prelude Crypto Proto Inventory.

Module Buffer.

Record Buffer := {
  entries : list Observation;
  next : Z;
  persisted : Z;
  capacity : Z;
  notify : bool;
  closed : bool
}.

Inductive PublishOutcome :=
| Published (b : Buffer)
| PublishInvalid (err : string)
| PublishPanic
| PublishClosed
| PublishWait.

Inductive BatchOutcome :=
| BatchReady (observations : list Observation)
| BatchPanic
| BatchClosed
| BatchWait.

Section buffer.
Context `{Protobuf}.

Definition NewBuffer (capacity : Z) : Buffer :=
  {| entries := []; next := 1; persisted := 0; capacity := capacity;
     notify := false; closed := false |}.

(** [signal]: a non-blocking send on the one-place channel. *)
Definition signal (b : Buffer) : Buffer :=
  {| entries := entries b; next := next b; persisted := persisted b;
     capacity := capacity b; notify := true; closed := closed b |}.

(** [now] is the current time as [%s] prints it. *)
Definition eventID (now key : string) (o : Observation) : string :=
  let data :=
    match marshalObservation (with_sequence_event o 0 "") with
    | Some data => data
    | None => (key +:+ ":" +:+ dec (Sequence o) +:+ ":" +:+ now)%string
    end in
  hex_encode (sha256 (key +:+ nul +:+ data)).

(** One turn of [Publish]'s loop. *)
Definition publish_locked (now : string) (event : Event) (b : Buffer) : PublishOutcome :=
  if closed b then PublishClosed
  else if Z.of_nat (length (entries b)) <? capacity b then
    match EventObservation event with
    | None => PublishPanic
    | Some o =>
        let o1 := with_sequence_event o (next b) (EventId o) in
        let observation := with_sequence_event o1 (next b) (eventID now (Key event) o1) in
        Published (signal
          {| entries := entries b ++ [observation]; next := u64 (next b + 1);
             persisted := persisted b; capacity := capacity b;
             notify := notify b; closed := closed b |})
    end
  else PublishWait.

(** [Publish] up to its first wait. *)
Definition Publish (now : string) (event : Event) (b : Buffer) : PublishOutcome :=
  match Validate event with
  | Some err => PublishInvalid err
  | None => publish_locked now event b
  end.

(** [entries[count-1].Sequence == entries[0].Sequence+uint64(count-1)] *)
Definition contiguous_to (es : list Observation) (count : nat) : bool :=
  match es !! 0%nat, es !! (count - 1)%nat with
  | Some a, Some z => Sequence z =? u64 (Sequence a + Z.of_nat (count - 1))
  | _, _ => false
  end.
Fixpoint shrink (es : list Observation) (count : nat) : nat :=
  match count with
  | S (S _ as count') => if contiguous_to es count then count else shrink es count'
  | _ => count
  end.

(** One turn of [Batch]'s loop. [make] panics on a negative length. *)
Definition Batch (maximum : Z) (b : Buffer) : BatchOutcome :=
  match entries b with
  | _ :: _ =>
      let count := if Z.of_nat (length (entries b)) <? maximum
                   then Z.of_nat (length (entries b)) else maximum in
      if count <? 0 then BatchPanic
      else BatchReady (take (shrink (entries b) (Z.to_nat count)) (entries b))
  | [] => if closed b then BatchClosed else BatchWait
  end.

Definition Acknowledge (persistedThrough : Z) (terminal : list Z) (b : Buffer) : Buffer :=
  let terminalSet : gset Z := list_to_set terminal in
  signal
    {| entries := filter (λ o, ¬ (Sequence o ≤ persistedThrough ∨ Sequence o ∈ terminalSet)) (entries b);
       next := next b;
       persisted := if persisted b <? persistedThrough then persistedThrough else persisted b;
       capacity := capacity b; notify := notify b; closed := closed b |}.

Definition HighestSequence (b : Buffer) : Z := u64 (next b - 1).
Definition PersistedThrough (b : Buffer) : Z := persisted b.
Definition Len (b : Buffer) : Z := Z.of_nat (length (entries b)).
Definition Close (b : Buffer) : Buffer :=
  signal {| entries := entries b; next := next b; persisted := persisted b;
            capacity := capacity b; notify := notify b; closed := true |}.
End buffer.

(** ** Invariant *)

(** Sequence numbers are handed out in increasing order and below [next], the
    buffer never holds more than its capacity, and every buffered observation
    has a payload and an event id. *)
Record wf (b : Buffer) : Prop := {
  wf_sorted : StronglySorted Z.lt (Sequence <$> entries b);
  wf_range : Forall (λ o, 1 ≤ Sequence o < next b) (entries b);
  wf_next : 1 ≤ next b < two64;
  wf_capacity : Z.of_nat (length (entries b)) ≤ Z.max 0 (capacity b);
  wf_complete : Forall (λ o, EventId o ≠ EmptyString ∧ is_Some (payload o)) (entries b)
}.

Section facts.
Import ListFacts.
Context `{Protobuf}.
Implicit Types (b : Buffer) (o : Observation).

Lemma NewBuffer_wf c : wf (NewBuffer c).
Proof. constructor; simpl; try constructor; unfold two64; lia. Qed.

Lemma publish_result now event b b' :
  Publish now event b = Published b' →
  ∃ o id, EventObservation event = Some o ∧ is_Some (payload o) ∧ id ≠ EmptyString ∧
    closed b = false ∧ Z.of_nat (length (entries b)) < capacity b ∧
    entries b' = entries b ++ [with_sequence_event o (next b) id] ∧
    next b' = u64 (next b + 1) ∧ persisted b' = persisted b ∧
    capacity b' = capacity b ∧ notify b' = true ∧ closed b' = closed b.
Proof.
  unfold Publish, publish_locked, Validate. repeat case_match; intros; simplify_eq; simpl.
  all: eexists _, _; repeat split; eauto; try lia; try apply hex_sha256_ne; by apply Z.ltb_lt.
Qed.

Lemma publish_wf now event b b' :
  wf b → next b + 1 < two64 → Publish now event b = Published b' → wf b'.
Proof.
  intros [Hs Hr Hn Hc Hp] Hb (o & id & Ho & Hpay & Hid & Hcl & Hlt & He & Hn' & _ & Hc' & _)%publish_result.
  rewrite u64_id in Hn' by (split; lia).
  constructor; rewrite ?He, ?Hn', ?Hc'; simpl.
  - rewrite fmap_app. apply StronglySorted_snoc; [done|].
    apply Forall_fmap. eapply Forall_impl; [exact Hr|]. simpl. lia.
  - apply Forall_app. split; [|repeat constructor; simpl; lia].
    eapply Forall_impl; [exact Hr|]. simpl. lia.
  - lia.
  - rewrite length_app. simpl. lia.
  - apply Forall_app. split; [done|]. by repeat constructor.
Qed.

Lemma acknowledge_wf p terminal b : wf b → wf (Acknowledge p terminal b).
Proof.
  intros [Hs Hr Hn Hc Hp]. constructor; simpl.
  - by apply StronglySorted_filter.
  - by apply Forall_filter.
  - done.
  - pose proof (length_filter (λ o, ¬ (Sequence o ≤ p ∨ Sequence o ∈ (list_to_set terminal : gset Z))) (entries b)). lia.
  - by apply Forall_filter.
Qed.
Lemma close_wf b : wf b → wf (Close b).
Proof. by intros []. Qed.

(** ** [Batch] *)

Lemma shrink_spec es n :
  (1 ≤ n)%nat →
  (1 ≤ shrink es n ≤ n)%nat ∧
  ((2 ≤ shrink es n)%nat → contiguous_to es (shrink es n) = true) ∧
  (∀ c, (shrink es n < c ≤ n)%nat → contiguous_to es c = false).
Proof.
  induction n as [|[|n] IH]; intros Hn; [lia|simpl; repeat split; intros; lia|].
  destruct IH as (IH1 & IH2 & IH3); [lia|].
  change (shrink es (S (S n))) with
    (if contiguous_to es (S (S n)) then S (S n) else shrink es (S n)).
  destruct (contiguous_to es (S (S n))) eqn:E.
  - repeat split; intros; try lia; done.
  - repeat split; try lia; try done. intros c Hc.
    destruct (decide (c = S (S n))) as [->|]; [done|]. apply IH3. lia.
Qed.

Lemma contiguous_to_spec b c :
  wf b → (1 ≤ c ≤ length (entries b))%nat →
  contiguous_to (entries b) c = true ↔
  ∃ a, entries b !! 0%nat = Some a ∧ seq_run (Sequence a) (take c (entries b)).
Proof.
  intros [Hs Hr Hn _ _] Hc. unfold contiguous_to.
  destruct (lookup_lt_is_Some_2 (entries b) 0) as [a Ha]; [lia|].
  destruct (lookup_lt_is_Some_2 (entries b) (c - 1)) as [z Hz]; [lia|].
  rewrite Ha, Hz.
  assert ((Sequence <$> entries b) !! 0%nat = Some (Sequence a)) as Ha' by (by rewrite list_lookup_fmap, Ha).
  assert ((Sequence <$> entries b) !! (c - 1)%nat = Some (Sequence z)) as Hz' by (by rewrite list_lookup_fmap, Hz).
  pose proof (proj1 (Forall_lookup _ _) Hr _ _ Ha). pose proof (proj1 (Forall_lookup _ _) Hr _ _ Hz).
  pose proof (sorted_gap _ 0 _ _ _ Hs Ha' Hz'). simpl in *.
  rewrite u64_id by (split; lia). rewrite Z.eqb_eq. split.
  - intros Hcont. exists a. split; [done|]. intros i o [Ho Hi]%lookup_take_Some.
    apply (sorted_run _ _ _ _ Hs Ha' Hz' Hcont); [lia|]. by rewrite list_lookup_fmap, Ho.
  - intros (a' & [= <-] & Hrun). apply Hrun. apply lookup_take_Some. split; [done|lia].
Qed.

(** [Batch] returns the longest contiguous run at the head of the buffer that
    has at most [maximum] observations. *)
Lemma batch_ready_spec maximum b :
  wf b → 1 ≤ maximum → entries b ≠ [] →
  ∃ a n, Batch maximum b = BatchReady (take n (entries b)) ∧
    entries b !! 0%nat = Some a ∧
    (1 ≤ n ≤ length (entries b))%nat ∧ Z.of_nat n ≤ maximum ∧
    seq_run (Sequence a) (take n (entries b)) ∧
    (∀ o, entries b !! n = Some o → Z.of_nat n < maximum → Sequence o ≠ Sequence a + Z.of_nat n).
Proof.
  intros Hwf Hm Hne. unfold Batch.
  destruct (entries b) as [|a es] eqn:E; [done|]. rewrite <- E in *.
  set (count := if Z.of_nat (length (entries b)) <? maximum then Z.of_nat (length (entries b)) else maximum).
  assert (0 < count ∧ count ≤ maximum ∧ count ≤ Z.of_nat (length (entries b)) ∧
          (count = maximum ∨ count = Z.of_nat (length (entries b)))) as (Hc0 & Hc1 & Hc2 & Hc3).
  { unfold count. rewrite E in *. simpl in *. destruct (Z.ltb_spec (Z.of_nat (S (length es))) maximum); lia. }
  clearbody count. destruct (Z.ltb_spec count 0); [lia|].
  destruct (shrink_spec (entries b) (Z.to_nat count)) as (Hn1 & Hn2 & Hn3); [lia|].
  set (n := shrink (entries b) (Z.to_nat count)) in *. clearbody n.
  assert (seq_run (Sequence a) (take n (entries b))) as Hrun.
  { destruct (decide (n = 1%nat)) as [->|].
    - rewrite E. intros [|i] o Ho; simpl in Ho; simplify_eq. lia.
    - destruct (proj1 (contiguous_to_spec b n Hwf ltac:(lia)) (Hn2 ltac:(lia))) as (a' & Ha' & ?).
      rewrite E in Ha'. by simplify_eq/=. }
  exists a, n. repeat split; try done; try lia; [by rewrite E|].
  intros o Ho Hlt Hseq. pose proof (lookup_lt_Some _ _ _ Ho).
  assert (contiguous_to (entries b) (S n) = false) as Hf by (apply Hn3; lia).
  assert (contiguous_to (entries b) (S n) = true) as Ht; [|congruence].
  apply contiguous_to_spec; [done|lia|]. exists a. split; [by rewrite E|].
  rewrite (take_S_r _ _ _ Ho). intros i x [Hi|[Hi Hx]]%lookup_app_Some; [by apply Hrun|].
  rewrite length_take_le in Hi, Hx by lia. apply list_lookup_singleton_Some in Hx as [? ->].
  replace i with n by lia. lia.
Qed.

End facts.

(** ** Blocking calls: threads that wait for the [notify] token *)

Module Threads.
Section threads.
Context `{Protobuf}.

(** A [Publish] or [Batch] call is about to take the lock ([Run]), waits in
    its [select] ([Wait]), or has returned. *)
Inductive thread :=
| PubRun (now : string) (e : Event)
| PubWait (now : string) (e : Event)
| BatchRun (maximum : Z)
| BatchWaiting (maximum : Z)
| Done.

Record state := State { buf : Buffer; threads : list thread }.

(** Receiving from [notify] takes the token. *)
Definition take_token (b : Buffer) : Buffer :=
  {| entries := entries b; next := next b; persisted := persisted b;
     capacity := capacity b; notify := false; closed := closed b |}.

Definition publish_next (now : string) (e : Event) (b : Buffer) : Buffer * thread :=
  match Publish now e b with
  | Published b' => (b', Done)
  | PublishWait => (b, PubWait now e)
  | _ => (b, Done)
  end.
Definition batch_next (maximum : Z) (b : Buffer) : Buffer * thread :=
  match Batch maximum b with
  | BatchWait => (b, BatchWaiting maximum)
  | _ => (b, Done)
  end.

Inductive step : state → state → Prop :=
| step_call b ts t : step (State b ts) (State b (ts ++ [t]))
| step_publish b ts i now e :
    ts !! i = Some (PubRun now e) →
    step (State b ts) (State (publish_next now e b).1 (<[i := (publish_next now e b).2]> ts))
| step_batch b ts i m :
    ts !! i = Some (BatchRun m) →
    step (State b ts) (State (batch_next m b).1 (<[i := (batch_next m b).2]> ts))
| step_publish_wake b ts i now e :
    ts !! i = Some (PubWait now e) → notify b = true →
    step (State b ts) (State (take_token b) (<[i := PubRun now e]> ts))
| step_batch_wake b ts i m :
    ts !! i = Some (BatchWaiting m) → notify b = true →
    step (State b ts) (State (take_token b) (<[i := BatchRun m]> ts))
| step_cancel b ts i :
    step (State b ts) (State b (<[i := Done]> ts))
| step_acknowledge b ts p terminal :
    step (State b ts) (State (Acknowledge p terminal b) ts)
| step_close b ts : step (State b ts) (State (Close b) ts).

(** A call that can make progress is blocked and no token will wake it. *)
Definition publisher_stranded (s : state) : Prop :=
  ∃ i now e, threads s !! i = Some (PubWait now e) ∧
    Z.of_nat (length (entries (buf s))) < capacity (buf s) ∧
    closed (buf s) = false ∧ notify (buf s) = false ∧
    ∀ j t, threads s !! j = Some t → (∃ now e, t = PubWait now e) ∨ (∃ m, t = BatchWaiting m) ∨ t = Done.
(** Every step but a publication leaves the invariant alone, and a
    publication uses one sequence number. *)
Lemma step_wf s s' :
  step s s' → wf (buf s) → next (buf s) + 1 < two64 →
  wf (buf s') ∧ next (buf s') ≤ next (buf s) + 1.
Proof.
  destruct 1 as [|b ts i now e| | | | | |]; simpl; intros Hwf Hn.
  - split; [done|lia].
  - unfold publish_next. destruct (Publish now e b) as [b'| | | |] eqn:E; simpl; try (split; [done|lia]).
    split; [by eapply publish_wf|]. apply publish_result in E as (? & ? & _ & _ & _ & _ & _ & _ & -> & _).
    rewrite u64_id; [lia|]. destruct Hwf as [_ _ ? _ _]. split; lia.
  - unfold batch_next. destruct (Batch _ _); simpl; (split; [done|lia]).
  - split; [|lia]. by destruct Hwf.
  - split; [|lia]. by destruct Hwf.
  - split; [done|lia].
  - split; [by apply acknowledge_wf|lia].
  - split; [by apply close_wf|lia].
Qed.
Lemma steps_wf n s s' :
  nsteps step n s s' → wf (buf s) → next (buf s) + Z.of_nat n < two64 →
  wf (buf s') ∧ next (buf s') ≤ next (buf s) + Z.of_nat n.
Proof.
  induction 1 as [s|n s s1 s2 Hstep _ IH]; intros Hwf Hn; [split; [done|lia]|].
  destruct (step_wf _ _ Hstep Hwf) as [Hwf1 Hn1]; [lia|].
  destruct IH as [? ?]; [done|lia|]. split; [done|lia].
Qed.
End threads.
End Threads.

(** ** Properties *)

(** C16: whatever the interleaving of publishers, batch readers, acknowledgements
    and closing, the buffer stays well formed for the first 2^64 - 2 steps:
    sequence numbers are strictly increasing, at least 1 and below the next one,
    the capacity is respected, and every buffered observation has an event id
    and a payload. *)
Theorem buffer_reachable_wf `{Protobuf} c n s :
  nsteps Threads.step n (Threads.State (NewBuffer c) []) s →
  Z.of_nat n < two64 - 1 →
  wf (Threads.buf s).
Proof.
  intros Hsteps Hn. apply (Threads.steps_wf _ _ _ Hsteps); [apply NewBuffer_wf|]. simpl. lia.
Qed.

Definition sample_event : Event :=
  {| Key := "node/uid-1";
     EventObservation := Some
       {| Sequence := 0; EventId := ""; ObservedAt := None; CollectedAt := None;
          SourceResourceVersion := "7"; payload := Some (Observation_KubernetesEvent "e") |} |}.

Lemma sample_published : nsteps (Threads.step (H := sample_codec)) 2
  (Threads.State (NewBuffer 2) []) (Threads.State
    (Threads.publish_next (H := sample_codec) "now" sample_event (NewBuffer 2)).1 [Threads.Done]).
Proof.
  eapply nsteps_l; [apply Threads.step_call with (t := Threads.PubRun "now" sample_event)|].
  eapply nsteps_l; [eapply Threads.step_publish with (i := 0%nat); reflexivity|]. apply nsteps_O.
Qed.
Lemma buffer_reachable_wf_witness :
  wf (Threads.publish_next (H := sample_codec) "now" sample_event (NewBuffer 2)).1.
Proof. apply (buffer_reachable_wf (H := sample_codec) 2 2 _ sample_published). reflexivity. Defined.

(** An acknowledgement removes exactly the observations it covers: those at or
    below the persisted sequence and the terminally rejected ones; the others
    stay, in their order, and the persisted mark never moves back. *)
Theorem acknowledge_exact `{Protobuf} p terminal b :
  (∀ o, o ∈ entries (Acknowledge p terminal b) ↔
        o ∈ entries b ∧ p < Sequence o ∧ Sequence o ∉ terminal) ∧
  entries (Acknowledge p terminal b) `sublist_of` entries b ∧
  persisted (Acknowledge p terminal b) = Z.max (persisted b) p.
Proof.
  split; [|split]; simpl.
  - intros o. rewrite list_elem_of_filter, elem_of_list_to_set.
    split; [intros [Hn Ho]|intros (Ho & Hp & Ht)].
    + split_and!; [done| |tauto]. apply Z.lt_nge. tauto.
    + split; [|done]. intros [?|?]; [lia|done].
  - apply sublist_filter.
  - destruct (Z.ltb_spec (persisted b) p); lia.
Qed.

(** [Batch] on a non-empty well-formed buffer returns the longest run of
    consecutive sequence numbers at its head that fits the maximum. *)
Lemma batch_longest_run `{Protobuf} maximum b :
  wf b → 1 ≤ maximum → entries b ≠ [] →
  ∃ a n, Batch maximum b = BatchReady (take n (entries b)) ∧
    entries b !! 0%nat = Some a ∧
    (1 ≤ n ≤ length (entries b))%nat ∧ Z.of_nat n ≤ maximum ∧
    seq_run (Sequence a) (take n (entries b)) ∧
    (∀ o, entries b !! n = Some o → Z.of_nat n < maximum → Sequence o ≠ Sequence a + Z.of_nat n).
Proof. apply batch_ready_spec. Qed.

Lemma batch_longest_run_witness :
  let b := (Threads.publish_next (H := sample_codec) "now" sample_event (NewBuffer 2)).1 in
  ∃ a n, Batch 5 b = BatchReady (take n (entries b)) ∧
    entries b !! 0%nat = Some a ∧
    (1 ≤ n ≤ length (entries b))%nat ∧ Z.of_nat n ≤ 5 ∧
    seq_run (Sequence a) (take n (entries b)) ∧
    (∀ o, entries b !! n = Some o → Z.of_nat n < 5 → Sequence o ≠ Sequence a + Z.of_nat n).
Proof.
  apply (batch_longest_run (H := sample_codec)); [|done|done].
  apply (Threads.steps_wf _ _ _ sample_published); [apply NewBuffer_wf|reflexivity].
Defined.

(** The one-token [notify] channel loses wakeups: with capacity 1 there is an
    execution after which a publisher waits although the buffer is empty and
    open, no token is pending, and every other call is waiting too. *)
Lemma publisher_can_be_stranded `{Protobuf} :
  ∃ s, rtc Threads.step (Threads.State (NewBuffer 1) []) s ∧ Threads.publisher_stranded s.
Proof.
  set (e := sample_event).
  set (full := (Threads.publish_next "now" e (NewBuffer 1)).1).
  set (empty := Threads.take_token (Acknowledge 1 [] full)).
  exists (Threads.State empty [Threads.Done; Threads.PubWait "now" e; Threads.BatchWaiting 1]).
  split.
  - do 2 (eapply rtc_l; [eapply Threads.step_call with (t := Threads.PubRun "now" e)|]).
    eapply rtc_l; [eapply Threads.step_publish with (i := 0%nat); reflexivity|].
    eapply rtc_l; [eapply Threads.step_publish with (i := 1%nat); reflexivity|].
    eapply rtc_l; [eapply Threads.step_call with (t := Threads.BatchRun 1)|].
    eapply rtc_l; [eapply Threads.step_acknowledge with (p := 1) (terminal := [])|].
    eapply rtc_l; [eapply Threads.step_batch with (i := 2%nat); reflexivity|].
    eapply rtc_l; [eapply Threads.step_batch_wake with (i := 2%nat); reflexivity|].
    eapply rtc_l; [eapply Threads.step_batch with (i := 2%nat); reflexivity|].
    apply rtc_refl.
  - exists 1%nat, "now"%string, e. repeat split; try reflexivity.
    intros [|[|[|j]]] t Ht; simplify_eq/=; eauto 10.
Qed.
End Buffer.
