(* ===== verification/Queue.v ===== *)
(** * The bounded ingestion queue

    [services/ingestion/queue/queue.go]. [Queue], [Lease] and [Batch] are the
    structs of the source; the [persisted] channel of a batch is shared between
    the stream handler that waits on it and the queued copy that [Commit]
    closes, so it is a name into a heap of channels ([chans], [true] when
    closed). The methods' critical sections are functions; the waiting loops of
    [Acquire] and [Dequeue] are the consumers of [Module Concurrent]. *)
From stdpp Require Import base option list gmap strings.
From Stdlib Require Import ZArith Lia.
From S2P Require Import Prelude Proto.

Module Queue.

Definition ErrFull : string := "ingestion queue is full".

Record Batch := {
  TenantID : string;
  ClusterID : string;
  AgentInstance : string;
  SessionID : string;
  ReceivedAt : Time;
  ObservationSet : option ObservationBatch;
  persisted : option nat
}.

(** [items] holds pointers; [None] is a nil batch. *)
Record Queue := {
  items : list (option Batch);
  capacity : Z;
  inFlight : Z;
  ready : bool
}.

Record Lease := { lease_items : list (option Batch); once : bool }.

Abbreviation chans := (gmap nat bool) (only parsing).

Definition New (capacity : Z) : Queue :=
  {| items := []; capacity := if capacity <? 1 then 1 else capacity; inFlight := 0; ready := false |}.

Definition signalLocked (q : Queue) : Queue :=
  {| items := items q; capacity := capacity q; inFlight := inFlight q; ready := true |}.

(** [cloneBatch] copies the struct; the copy shares the channel. *)
Definition cloneBatch (b : option Batch) : option Batch := b.

Definition TryEnqueue (b : option Batch) (q : Queue) : res string Queue :=
  if capacity q <=? Z.of_nat (length (items q)) + inFlight q then Err ErrFull
  else Ok (signalLocked
    {| items := items q ++ [cloneBatch b]; capacity := capacity q;
       inFlight := inFlight q; ready := ready q |}).

(** The locked section of one turn of [Acquire]; [None] is an empty queue, on
    which the caller waits for [ready] or its context. *)
Definition Acquire (max : Z) (q : Queue) : option (Lease * Queue) :=
  let max := if max <? 1 then 1 else max in
  match items q with
  | [] => None
  | _ :: _ =>
      let count := Z.min max (Z.of_nat (length (items q))) in
      let leased := take (Z.to_nat count) (items q) in
      Some ({| lease_items := leased; once := false |},
            signalLocked
              {| items := drop (Z.to_nat count) (items q); capacity := capacity q;
                 inFlight := inFlight q + count; ready := ready q |})
  end.

Definition Items (l : Lease) : list (option Batch) := lease_items l.

(** [markPersisted] closes the channel if there is one; a nil receiver and a
    channel that is already closed panic ([None]). *)
Definition markPersisted (b : option Batch) (cs : chans) : option chans :=
  match b with
  | None => None
  | Some b =>
      match persisted b with
      | None => Some cs
      | Some c => match cs !! c with Some false => Some (<[c := true]> cs) | _ => None end
      end
  end.
Fixpoint markAll (bs : list (option Batch)) (cs : chans) : option chans :=
  match bs with
  | [] => Some cs
  | b :: bs' => match markPersisted b cs with Some cs' => markAll bs' cs' | None => None end
  end.

Definition Commit (l : Lease) (q : Queue) (cs : chans) : option (Lease * Queue * chans) :=
  if once l then Some (l, q, cs)
  else match markAll (lease_items l) cs with
       | None => None
       | Some cs' =>
           Some ({| lease_items := lease_items l; once := true |},
                 signalLocked
                   {| items := items q; capacity := capacity q;
                      inFlight := inFlight q - Z.of_nat (length (lease_items l)); ready := ready q |},
                 cs')
       end.

Definition Retry (l : Lease) (q : Queue) : Lease * Queue :=
  if once l then (l, q)
  else ({| lease_items := lease_items l; once := true |},
        signalLocked
          {| items := lease_items l ++ items q; capacity := capacity q;
             inFlight := inFlight q - Z.of_nat (length (lease_items l)); ready := ready q |}).

Definition Dequeue (max : Z) (q : Queue) : option (list (option Batch) * Queue) :=
  let max := if max <? 1 then 1 else max in
  match items q with
  | [] => None
  | _ :: _ =>
      let count := Z.min max (Z.of_nat (length (items q))) in
      let rest := drop (Z.to_nat count) (items q) in
      let q' := {| items := rest; capacity := capacity q; inFlight := inFlight q; ready := ready q |} in
      Some (take (Z.to_nat count) (items q), match rest with [] => q' | _ => signalLocked q' end)
  end.

Definition Depth (q : Queue) : Z := Z.of_nat (length (items q)).
Definition InFlight (q : Queue) : Z := inFlight q.
Definition Capacity (q : Queue) : Z := capacity q.

Definition with_channel (b : Batch) (c : option nat) : Batch :=
  {| TenantID := TenantID b; ClusterID := ClusterID b; AgentInstance := AgentInstance b;
     SessionID := SessionID b; ReceivedAt := ReceivedAt b; ObservationSet := ObservationSet b;
     persisted := c |}.
(** [make(chan struct{})] allocates an unused name. *)
Definition new_chan (cs : chans) : nat := fresh (dom cs : gset nat).
Definition EnablePersistenceNotification (b : Batch) (cs : chans) : Batch * chans :=
  match persisted b with
  | Some _ => (b, cs)
  | None => (with_channel b (Some (new_chan cs)), <[new_chan cs := false]> cs)
  end.
(** Whether a receive on [Persisted()] returns at once. *)
Definition Persisted (b : Batch) (cs : chans) : bool :=
  match persisted b with
  | None => true
  | Some c => match cs !! c with Some true => true | _ => false end
  end.

(** ** Interleaving semantics: producers, consumers and lease holders *)

Module Concurrent.

(** A consumer call: about to take the lock, waiting in its [select], returned.
    [dequeue] tells [Dequeue] from [Acquire]. *)
Inductive consumer :=
| Run (dequeue : bool) (max : Z)
| Wait (dequeue : bool) (max : Z)
| Returned.

Record world := World {
  wq : Queue;
  wleases : list Lease;
  wchans : chans;
  wconsumers : list consumer
}.

Definition take_ready (q : Queue) : Queue :=
  {| items := items q; capacity := capacity q; inFlight := inFlight q; ready := false |}.

(** Producers enqueue batches with a channel of their own, as the stream
    handler does; a full queue leaves everything but the channel unchanged. *)
Inductive step : world → world → Prop :=
| step_enqueue q ls cs ks b q' :
    persisted b = None →
    TryEnqueue (Some (EnablePersistenceNotification b cs).1) q = Ok q' →
    step (World q ls cs ks) (World q' ls (EnablePersistenceNotification b cs).2 ks)
| step_enqueue_full q ls cs ks b e :
    TryEnqueue (Some (EnablePersistenceNotification b cs).1) q = Err e →
    step (World q ls cs ks) (World q ls (EnablePersistenceNotification b cs).2 ks)
| step_call q ls cs ks d m : step (World q ls cs ks) (World q ls cs (ks ++ [Run d m]))
| step_acquire q ls cs ks i m l q' :
    ks !! i = Some (Run false m) → Acquire m q = Some (l, q') →
    step (World q ls cs ks) (World q' (ls ++ [l]) cs (<[i := Returned]> ks))
| step_dequeue q ls cs ks i m bs q' :
    ks !! i = Some (Run true m) → Dequeue m q = Some (bs, q') →
    step (World q ls cs ks) (World q' ls cs (<[i := Returned]> ks))
| step_block q ls cs ks i d m :
    ks !! i = Some (Run d m) → items q = [] →
    step (World q ls cs ks) (World q ls cs (<[i := Wait d m]> ks))
| step_wake q ls cs ks i d m :
    ks !! i = Some (Wait d m) → ready q = true →
    step (World q ls cs ks) (World (take_ready q) ls cs (<[i := Run d m]> ks))
| step_cancel q ls cs ks i d m :
    ks !! i = Some (Wait d m) →
    step (World q ls cs ks) (World q ls cs (<[i := Returned]> ks))
| step_commit q ls cs ks i l l' q' cs' :
    ls !! i = Some l → Commit l q cs = Some (l', q', cs') →
    step (World q ls cs ks) (World q' (<[i := l']> ls) cs' ks)
| step_retry q ls cs ks i l :
    ls !! i = Some l →
    step (World q ls cs ks) (World (Retry l q).2 (<[i := (Retry l q).1]> ls) cs ks).

Definition initial (capacity : Z) : world := World (New capacity) [] ∅ [].
Definition reachable (capacity : Z) (w : world) : Prop := rtc step (initial capacity) w.

(** Batches in leases that were neither committed nor returned. *)
Fixpoint open_items (ls : list Lease) : list (option Batch) :=
  match ls with
  | [] => []
  | l :: ls' => (if once l then [] else lease_items l) ++ open_items ls'
  end.
Definition pending (w : world) : list (option Batch) := items (wq w) ++ open_items (wleases w).
Definition chan_of (b : option Batch) : option nat := b ≫= persisted.

(** Every pending batch has a channel of its own, and that channel is open. *)
Definition chan_ok (bs : list (option Batch)) (cs : chans) : Prop :=
  NoDup (chan_of <$> bs) ∧ Forall (λ b, ∃ c, chan_of b = Some c ∧ cs !! c = Some false) bs.

Record inv (w : world) : Prop := {
  inv_capacity : 1 ≤ capacity (wq w) ∧ Z.of_nat (length (items (wq w))) + inFlight (wq w) ≤ capacity (wq w);
  inv_inflight : inFlight (wq w) = Z.of_nat (length (open_items (wleases w)));
  inv_chans : chan_ok (pending w) (wchans w);
  inv_wakeup : items (wq w) ≠ [] → ready (wq w) = true ∨ ∃ i d m, wconsumers w !! i = Some (Run d m)
}.

Lemma open_items_app ls1 ls2 : open_items (ls1 ++ ls2) = open_items ls1 ++ open_items ls2.
Proof. induction ls1 as [|l ls1 IH]; simpl; [done|]. by rewrite IH, app_assoc. Qed.
Lemma open_items_close ls i l l' :
  ls !! i = Some l → once l = false → once l' = true →
  open_items ls ≡ₚ lease_items l ++ open_items (<[i := l']> ls).
Proof.
  intros Hi Ho Hc. rewrite <- (take_drop_middle ls i l Hi) at 1.
  rewrite (insert_take_drop ls i l') by (by eapply lookup_lt_Some).
  rewrite !open_items_app. simpl. rewrite Ho, Hc. simpl.
  by rewrite Permutation_app_swap_app.
Qed.
Lemma open_items_same ls i l : ls !! i = Some l → open_items (<[i := l]> ls) = open_items ls.
Proof. intros Hi. by rewrite list_insert_id. Qed.

Lemma acquire_spec m q l q' :
  Acquire m q = Some (l, q') →
  items q = lease_items l ++ items q' ∧ once l = false ∧ lease_items l ≠ [] ∧
  inFlight q' = inFlight q + Z.of_nat (length (lease_items l)) ∧
  capacity q' = capacity q ∧ ready q' = true ∧
  Z.of_nat (length (lease_items l)) = Z.min (if m <? 1 then 1 else m) (Z.of_nat (length (items q))).
Proof.
  unfold Acquire. destruct (items q) as [|b bs] eqn:E; [done|]. rewrite <- E.
  intros ?; simplify_eq/=. set (mx := if m <? 1 then 1 else m).
  assert (1 ≤ mx) by (unfold mx; destruct (Z.ltb_spec m 1); lia). clearbody mx.
  assert (1 ≤ Z.of_nat (length (items q))) by (rewrite E; simpl; lia).
  rewrite take_drop, length_take_le by lia. repeat split; try done; try lia.
  intros Hn. apply (f_equal length) in Hn. rewrite length_take_le in Hn by lia. simpl in Hn. lia.
Qed.
Lemma dequeue_spec m q bs q' :
  Dequeue m q = Some (bs, q') →
  items q = bs ++ items q' ∧ bs ≠ [] ∧ inFlight q' = inFlight q ∧ capacity q' = capacity q ∧
  (items q' ≠ [] → ready q' = true).
Proof.
  unfold Dequeue. destruct (items q) as [|b0 bs0] eqn:E; [done|]. rewrite <- E.
  intros ?; simplify_eq/=. set (mx := if m <? 1 then 1 else m).
  assert (1 ≤ mx) by (unfold mx; destruct (Z.ltb_spec m 1); lia). clearbody mx.
  assert (1 ≤ Z.of_nat (length (items q))) by (rewrite E; simpl; lia).
  set (n := Z.to_nat (Z.min mx (Z.of_nat (length (items q))))).
  assert (1 ≤ n ≤ length (items q))%nat by lia. clearbody n.
  assert (take n (items q) ≠ []) as Hne.
  { intros Hn. apply (f_equal length) in Hn. rewrite length_take_le in Hn by lia. simpl in Hn. lia. }
  pose proof (take_drop n (items q)) as Htd.
  destruct (drop n (items q)) eqn:Ed; simpl; rewrite ?Ed; repeat split; done.
Qed.

#[export] Instance chan_ok_proper : Proper ((≡ₚ) ==> (=) ==> iff) chan_ok.
Proof. intros bs1 bs2 Hb cs ? <-. unfold chan_ok. by rewrite Hb. Qed.
Lemma chan_ok_app bs1 bs2 cs : chan_ok (bs1 ++ bs2) cs → chan_ok bs1 cs ∧ chan_ok bs2 cs.
Proof.
  unfold chan_ok. rewrite fmap_app, NoDup_app, Forall_app. tauto.
Qed.

Lemma markAll_spec bs cs :
  NoDup (chan_of <$> bs) →
  Forall (λ b, ∃ c, chan_of b = Some c ∧ cs !! c = Some false) bs →
  ∃ cs', markAll bs cs = Some cs' ∧
    (∀ c, Some c ∈ chan_of <$> bs → cs' !! c = Some true) ∧
    (∀ c, Some c ∉ chan_of <$> bs → cs' !! c = cs !! c).
Proof.
  revert cs. induction bs as [|b bs IH]; intros cs; csimpl.
  { intros _ _. exists cs. set_solver. }
  rewrite NoDup_cons, Forall_cons. intros [Hb Hnd] [(c & Hc & Hcs) Hall].
  destruct b as [b|]; [|done]. change (chan_of (Some b)) with (persisted b) in *.
  rewrite Hc in Hb |- *. cbn [markAll markPersisted]. rewrite Hc, Hcs.
  destruct (IH (<[c := true]> cs)) as (cs' & -> & H1 & H2); [done| |].
  { rewrite Forall_forall in *. intros x Hx. destruct (Hall x Hx) as (d & Hd & Hd').
    exists d. split; [done|]. rewrite lookup_insert_ne; [done|]. intros ->.
    apply Hb, list_elem_of_fmap. eauto. }
  exists cs'. split; [done|]. split.
  - intros d [[= ->]|Hd]%elem_of_cons; [|by apply H1].
    rewrite H2 by done. apply lookup_insert_eq.
  - intros d Hd. rewrite elem_of_cons in Hd. rewrite H2 by tauto.
    apply lookup_insert_ne. intros ->. tauto.
Qed.

(** Closing the channels of some pending batches leaves the others' open. *)
Lemma markAll_chan_ok bs1 bs2 cs :
  chan_ok (bs1 ++ bs2) cs → ∃ cs', markAll bs1 cs = Some cs' ∧ chan_ok bs2 cs'.
Proof.
  intros [Hnd Hall]. rewrite fmap_app, NoDup_app in Hnd. destruct Hnd as (Hn1 & Hdis & Hn2).
  apply Forall_app in Hall as [Ha1 Ha2].
  destruct (markAll_spec bs1 cs Hn1 Ha1) as (cs' & ? & _ & Hsame). exists cs'. split; [done|].
  split; [done|]. rewrite Forall_forall in *. intros b Hb.
  destruct (Ha2 b Hb) as (c & Hc & Hcs). exists c. split; [done|]. rewrite Hsame; [done|].
  intros Hin. apply (Hdis _ Hin). rewrite <- Hc. apply list_elem_of_fmap. eauto.
Qed.
Lemma chan_ok_snoc bs cs b :
  persisted b = None → chan_ok bs cs →
  chan_ok (bs ++ [Some (EnablePersistenceNotification b cs).1]) (EnablePersistenceNotification b cs).2.
Proof.
  intros Hb [Hnd Hall]. unfold EnablePersistenceNotification. rewrite Hb. simpl.
  assert (cs !! new_chan cs = None) as Hf.
  { apply (not_elem_of_dom (D := gset nat)). exact (is_fresh (dom cs : gset nat)). }
  rewrite Forall_forall in Hall. split.
  - rewrite fmap_app, NoDup_app. split; [done|]. split; [|apply NoDup_singleton].
    intros x (b' & -> & Hb')%list_elem_of_fmap Hx%list_elem_of_singleton.
    destruct (Hall _ Hb') as (c & Hc & Hcs). simpl in Hx. rewrite Hc in Hx. by simplify_eq.
  - apply Forall_app. split; [|repeat constructor; eexists; split; [done|apply lookup_insert_eq]].
    apply Forall_forall. intros b' Hb'. destruct (Hall _ Hb') as (c & Hc & Hcs). exists c.
    split; [done|]. rewrite lookup_insert_ne; [done|]. congruence.
Qed.
Lemma chan_ok_new bs cs b : chan_ok bs cs → chan_ok bs (EnablePersistenceNotification b cs).2.
Proof.
  intros Hok. destruct (persisted b) eqn:Hb.
  - unfold EnablePersistenceNotification. by rewrite Hb.
  - by destruct (chan_ok_app _ _ _ (chan_ok_snoc _ _ _ Hb Hok)).
Qed.

Lemma run_survives (ks : list consumer) (i : nat) k d m (j : nat) :
  ks !! j = Some (Run d m) → i ≠ j → ∃ (j : nat) d m, <[i := k]> ks !! j = Some (Run d m).
Proof. intros Hj Hij. exists j, d, m. by rewrite list_lookup_insert_ne. Qed.

Lemma inv_initial c : inv (initial c).
Proof.
  constructor; simpl; try done.
  - destruct (Z.ltb_spec c 1); lia.
  - split; constructor.
Qed.

Lemma inv_enqueue q ls cs ks b q' :
  persisted b = None →
  TryEnqueue (Some (EnablePersistenceNotification b cs).1) q = Ok q' →
  inv (World q ls cs ks) → inv (World q' ls (EnablePersistenceNotification b cs).2 ks).
Proof.
  intros Hb He [[Hcap Hle] Hfl Hch Hwk]. unfold pending in *; simpl in *.
  unfold TryEnqueue in He. destruct (Z.leb_spec (capacity q) (Z.of_nat (length (items q)) + inFlight q)) as [|Hlt]; [done|].
  injection He as <-. constructor; unfold pending; simpl; [|done| |tauto].
  - rewrite length_app. simpl. lia.
  - assert (∀ x, (items q ++ [x]) ++ open_items ls ≡ₚ (items q ++ open_items ls) ++ [x]) as Hp by (intros; solve_Permutation).
    rewrite Hp. by apply chan_ok_snoc.
Qed.
Lemma inv_acquire q ls cs ks i m l q' :
  Acquire m q = Some (l, q') →
  inv (World q ls cs ks) → inv (World q' (ls ++ [l]) cs (<[i := Returned]> ks)).
Proof.
  intros (Hit & Ho & _ & Hf' & Hc' & Hr' & _)%acquire_spec [[Hcap Hle] Hfl Hch Hwk].
  unfold pending in *; simpl in *.
  constructor; unfold pending; simpl; rewrite ?open_items_app, ?Hf', ?Hc', ?Hr'; simpl; rewrite ?Ho; simpl.
  - rewrite Hit, length_app in Hle. lia.
  - rewrite !length_app. simpl. lia.
  - rewrite Hit in Hch. rewrite app_nil_r.
    by rewrite (Permutation_app_comm (lease_items l)), <- app_assoc, (Permutation_app_comm (lease_items l)) in Hch.
  - by left.
Qed.
Lemma inv_dequeue q ls cs ks i m bs q' :
  Dequeue m q = Some (bs, q') →
  inv (World q ls cs ks) → inv (World q' ls cs (<[i := Returned]> ks)).
Proof.
  intros (Hit & _ & Hf' & Hc' & Hr')%dequeue_spec [[Hcap Hle] Hfl Hch Hwk].
  unfold pending in *; simpl in *.
  constructor; unfold pending; simpl; rewrite ?Hf', ?Hc'; try done.
  - rewrite Hit, length_app in Hle. lia.
  - rewrite Hit, <- app_assoc in Hch. by apply chan_ok_app in Hch as [_ ?].
  - intros ?. left. by apply Hr'.
Qed.
Lemma inv_commit q ls cs ks i l l' q' cs' :
  ls !! i = Some l → Commit l q cs = Some (l', q', cs') →
  inv (World q ls cs ks) → inv (World q' (<[i := l']> ls) cs' ks).
Proof.
  intros Hi Hc [[Hcap Hle] Hfl Hch Hwk]. unfold pending in *; simpl in *.
  unfold Commit in Hc. destruct (once l) eqn:Ho.
  { simplify_eq. rewrite list_insert_id by done. by constructor. }
  destruct (markAll (lease_items l) cs) as [cs0|] eqn:Hm; [|done]. injection Hc as <- <- <-.
  pose proof (open_items_close ls i l {| lease_items := lease_items l; once := true |} Hi Ho eq_refl) as Hp.
  constructor; unfold pending; simpl; [lia| | |tauto].
  - apply Permutation_length in Hp. rewrite length_app in Hp. lia.
  - rewrite Hp, Permutation_app_swap_app in Hch.
    apply markAll_chan_ok in Hch as (cs2 & ? & ?). by simplify_eq.
Qed.
Lemma inv_retry q ls cs ks i l :
  ls !! i = Some l →
  inv (World q ls cs ks) → inv (World (Retry l q).2 (<[i := (Retry l q).1]> ls) cs ks).
Proof.
  intros Hi [[Hcap Hle] Hfl Hch Hwk]. unfold pending in *; simpl in *.
  unfold Retry. destruct (once l) eqn:Ho; simpl.
  { rewrite list_insert_id by done. by constructor. }
  pose proof (open_items_close ls i l {| lease_items := lease_items l; once := true |} Hi Ho eq_refl) as Hp.
  constructor; unfold pending; simpl; [| | |tauto].
  - rewrite length_app. lia.
  - apply Permutation_length in Hp. rewrite length_app in Hp. lia.
  - by rewrite Hp, app_assoc, (Permutation_app_comm (items q)) in Hch.
Qed.

(** A step that changes only the consumers keeps the invariant if it keeps a
    running consumer, or the queue's token, around. *)
Lemma inv_consumers q ls cs ks ks' :
  (∀ j d m, ks !! j = Some (Run d m) → ∃ j d m, ks' !! j = Some (Run d m)) →
  inv (World q ls cs ks) → inv (World q ls cs ks').
Proof.
  intros Hks [? ? ? Hwk]. constructor; try done. simpl in *. intros Hne.
  destruct (Hwk Hne) as [?|(j & d & m & Hj)]; [by left|right; eauto].
Qed.

Lemma inv_step w w' : step w w' → inv w → inv w'.
Proof.
  destruct 1 as [|q ls cs ks b e He|q ls cs ks d m| | |q ls cs ks i d m Hi Hq|q ls cs ks i d m Hi Hr
    |q ls cs ks i d m Hi| |]; eauto using inv_enqueue, inv_acquire, inv_dequeue, inv_commit, inv_retry.
  - intros []. constructor; try done. by apply chan_ok_new.
  - apply inv_consumers. intros j d' m' Hj. exists j, d', m'. by apply lookup_app_l_Some.
  - intros []. constructor; try done.
  - intros []. constructor; try done. intros _. right. exists i, d, m.
    apply list_lookup_insert_eq. by eapply lookup_lt_Some.
  - apply inv_consumers. intros j d' m' Hj. eapply run_survives; [done|]. intros ->. congruence.
Qed.

Lemma inv_steps w w' : rtc step w w' → inv w → inv w'.
Proof. induction 1; eauto using inv_step. Qed.
Lemma inv_reachable c w : reachable c w → inv w.
Proof. intros Hr. eapply inv_steps; [exact Hr|apply inv_initial]. Qed.

End Concurrent.

(** ** One lease holder: the queue is a first-in first-out log

    The persistence worker is the only consumer and holds at most one lease. What its
    callers see of the queue, the batches they pass and get and the answers, is what
    they would see of an abstract log. *)

Module Fifo.

(** What a caller sees of a call. *)
Inductive label :=
| Accept (b : option Batch)
| Refuse (b : option Batch)
| Lent (max : Z) (bs : list (option Batch))
| Committed (bs : list (option Batch))
| Returned (bs : list (option Batch)).

(** A bounded log: the accepted batches that were not committed, oldest first, and how
    many of them are lent. It refuses a batch exactly when it is full, lends the oldest
    [max] batches if nothing is lent, and commits or takes back what it lent. *)
Record spec := Spec { waiting : list (option Batch); lent : nat }.
Inductive spec_step (cap : Z) : spec → label → spec → Prop :=
| spec_accept a n b :
    Z.of_nat (length a) < cap → spec_step cap (Spec a n) (Accept b) (Spec (a ++ [b]) n)
| spec_refuse a n b :
    cap ≤ Z.of_nat (length a) → spec_step cap (Spec a n) (Refuse b) (Spec a n)
| spec_lend a m :
    a ≠ [] → let k := Nat.min (Z.to_nat (Z.max 1 m)) (length a) in
    spec_step cap (Spec a 0) (Lent m (take k a)) (Spec a k)
| spec_commit a n :
    n ≠ O → spec_step cap (Spec a n) (Committed (take n a)) (Spec (drop n a) 0)
| spec_return a n :
    n ≠ O → spec_step cap (Spec a n) (Returned (take n a)) (Spec a 0).

(** The queue with the lease of its one holder. *)
Record system := System { sq : Queue; slease : option Lease; schans : chans }.
Inductive step : system → label → system → Prop :=
| step_enqueue q l cs b q' :
    TryEnqueue b q = Ok q' → step (System q l cs) (Accept b) (System q' l cs)
| step_refuse q l cs b e :
    TryEnqueue b q = Err e → step (System q l cs) (Refuse b) (System q l cs)
| step_acquire q cs m l q' :
    Acquire m q = Some (l, q') → step (System q None cs) (Lent m (Items l)) (System q' (Some l) cs)
| step_commit q l cs l' q' cs' :
    Commit l q cs = Some (l', q', cs') →
    step (System q (Some l) cs) (Committed (Items l)) (System q' None cs')
| step_retry q l cs :
    step (System q (Some l) cs) (Returned (Items l)) (System (Retry l q).2 None cs).

(** Runs with the labels of their steps *)
Section runs.
Context {S : Type} (stp : S → label → S → Prop).
Inductive run : S → list label → S → Prop :=
| run_nil s : run s [] s
| run_cons s1 l s2 ls s3 : stp s1 l s2 → run s2 ls s3 → run s1 (l :: ls) s3.
End runs.

Definition leased (l : option Lease) : list (option Batch) := from_option lease_items [] l.
Definition abs (s : system) : spec := Spec (leased (slease s) ++ items (sq s)) (length (leased (slease s))).

(** The lease is open, its batches are the in-flight count. *)
Record wf (s : system) : Prop := {
  wf_lease : ∀ l, slease s = Some l → once l = false ∧ lease_items l ≠ [];
  wf_inflight : inFlight (sq s) = Z.of_nat (length (leased (slease s)))
}.

Lemma simulation s l s' :
  step s l s' → wf s →
  wf s' ∧ capacity (sq s') = capacity (sq s) ∧ spec_step (capacity (sq s)) (abs s) l (abs s').
Proof.
  destruct 1 as [q l cs b q' He|q l cs b e He|q cs m l q' Ha|q l cs l' q' cs' Hc|q l cs];
    intros [Hl Hf]; unfold abs; simpl in *.
  - unfold TryEnqueue in He. destruct (Z.leb_spec (capacity q) (Z.of_nat (length (items q)) + inFlight q)); [done|].
    injection He as <-. split_and!; [by constructor|done|]. simpl. rewrite app_assoc.
    apply spec_accept. rewrite length_app. lia.
  - unfold TryEnqueue in He. destruct (Z.leb_spec (capacity q) (Z.of_nat (length (items q)) + inFlight q)); [|done].
    split_and!; [by constructor|done|]. apply spec_refuse. rewrite length_app. lia.
  - apply Concurrent.acquire_spec in Ha as (Hit & Ho & Hne & Hf' & Hc' & _ & Hlen).
    split_and!; [|done|].
    { constructor; simpl; [by intros ? [= <-]|lia]. }
    rewrite <- Hit. assert (length (lease_items l) = Nat.min (Z.to_nat (Z.max 1 m)) (length (items q))) as Hk
      by (destruct (Z.ltb_spec m 1); lia).
    pose proof (spec_lend (capacity q) (items q) m) as Hs. cbv zeta in Hs. rewrite <- Hk in Hs.
    rewrite Hit in Hs at 3. rewrite take_app_length in Hs. apply Hs. rewrite Hit. by destruct (lease_items l).
  - destruct (Hl l eq_refl) as [Ho Hne]. unfold Commit in Hc. rewrite Ho in Hc.
    destruct (markAll (lease_items l) cs); [|done]. injection Hc as <- <- <-.
    split_and!; [constructor; simpl; [done|lia]|done|]. simpl.
    pose proof (spec_commit (capacity q) (lease_items l ++ items q) (length (lease_items l))) as Hs.
    rewrite take_app_length, drop_app_length in Hs. apply Hs. by destruct (lease_items l).
  - destruct (Hl l eq_refl) as [Ho Hne]. unfold Retry. rewrite Ho. simpl.
    split_and!; [constructor; simpl; [done|lia]|done|].
    pose proof (spec_return (capacity q) (lease_items l ++ items q) (length (lease_items l))) as Hs.
    rewrite take_app_length in Hs. apply Hs. by destruct (lease_items l).
Qed.
Lemma simulation_run s ls s' cap :
  run step s ls s' → wf s → capacity (sq s) = cap → run (spec_step cap) (abs s) ls (abs s').
Proof.
  intros Hr. revert cap. induction Hr as [s|s1 l s2 ls s3 Hstep _ IH]; intros cap Hwf Hcap; [constructor|].
  destruct (simulation _ _ _ Hstep Hwf) as (Hwf2 & Hc & Habs). rewrite Hcap in *.
  econstructor; [exact Habs|]. by apply IH.
Qed.

(** What was accepted and what was committed, in order. *)
Definition accepted (ls : list label) : list (option Batch) :=
  omap (λ l, match l with Accept b => Some b | _ => None end) ls.
Definition committed (ls : list label) : list (option Batch) :=
  mjoin ((λ l, match l with Committed bs => bs | _ => [] end) <$> ls).
Lemma spec_run_order cap s ls s' :
  run (spec_step cap) s ls s' → waiting s ++ accepted ls = committed ls ++ waiting s'.
Proof.
  induction 1 as [s|s1 l s2 ls s3 Hstep _ IH]; [by rewrite app_nil_r|].
  destruct Hstep; unfold accepted, committed in *; csimpl in *; try done.
  - by rewrite <- IH, <- app_assoc.
  - by rewrite <- app_assoc, <- IH, app_assoc, take_drop.
Qed.

End Fifo.

(** ** Properties *)

Section properties.
Import Concurrent.

(** C12: in every reachable state of producers, consumers and lease holders the
    queue respects its capacity counting leased batches, the in-flight counter
    is the number of batches in open leases, and no wakeup is lost: a non-empty
    queue has its token set or a consumer that is about to look at it. *)
Theorem queue_reachable_inv c w :
  reachable c w →
  Depth (wq w) + InFlight (wq w) ≤ Capacity (wq w) ∧
  InFlight (wq w) = Z.of_nat (length (open_items (wleases w))) ∧
  (items (wq w) ≠ [] → ready (wq w) = true ∨ ∃ i d m, wconsumers w !! i = Some (Run d m)).
Proof. intros [[? ?] ? _ ?]%inv_reachable. done. Qed.

(** In every reachable state a lease can be committed without panicking (no
    nil batch, no channel closed twice); the commit wakes the stream of every
    batch of an open lease and of no other pending batch. *)
Lemma commit_never_panics c w i l :
  reachable c w → wleases w !! i = Some l →
  ∃ l' q' cs', Commit l (wq w) (wchans w) = Some (l', q', cs') ∧ once l' = true ∧
    (once l = false →
       (∀ b, Some b ∈ lease_items l → Persisted b cs' = true) ∧
       (∀ b, Some b ∈ items (wq w) → Persisted b cs' = false)).
Proof.
  intros [_ _ Hch _]%inv_reachable Hi. unfold Commit. destruct (once l) eqn:Ho.
  { exists l, (wq w), (wchans w). repeat split; congruence. }
  unfold pending in Hch.
  rewrite (open_items_close _ _ _ {| lease_items := []; once := true |} Hi Ho eq_refl) in Hch.
  rewrite Permutation_app_swap_app in Hch. pose proof Hch as [Hn1 Ha1].
  rewrite fmap_app, NoDup_app in Hn1. destruct Hn1 as (Hn1 & _ & _).
  apply Forall_app in Ha1 as [Ha1 _].
  destruct (markAll_spec _ _ Hn1 Ha1) as (cs' & Hm & Hc1 & _).
  apply markAll_chan_ok in Hch as (cs2 & Hm2 & [_ Hok]%chan_ok_app%proj1).
  rewrite Hm in Hm2 |- *. simplify_eq. eexists _, _, _. split; [done|]. split; [done|]. intros _.
  rewrite Forall_forall in Ha1, Hok. unfold Persisted. split; intros b Hb.
  - destruct (Ha1 _ Hb) as (ch & Hch & _). simpl in Hch. rewrite Hch, Hc1; [done|].
    apply list_elem_of_fmap. by exists (Some b).
  - destruct (Hok _ Hb) as (ch & Hch & Hcs). simpl in Hch. by rewrite Hch, Hcs.
Qed.


(** Giving a lease back restores the queue it was taken from, with the ready
    token set; a lease that was settled before is ignored. *)
Lemma acquire_retry_roundtrip m q l q' :
  Acquire m q = Some (l, q') →
  (Retry l q').2 = signalLocked q ∧ Retry (Retry l q').1 q = ((Retry l q').1, q).
Proof.
  intros (Hit & Ho & _ & Hf & Hc & _)%acquire_spec. unfold Retry. rewrite Ho. simpl.
  split; [|done]. unfold signalLocked. simpl. rewrite <- Hit, Hc, Hf. f_equal. lia.
Qed.

(** *** Concrete runs *)
Definition sample_batch (n : Z) : Batch :=
  {| TenantID := "t"; ClusterID := "c"; AgentInstance := "a"; SessionID := "s";
     ReceivedAt := n; ObservationSet := None; persisted := None |}.
Definition queued (n : Z) (ch : nat) : option Batch := Some (with_channel (sample_batch n) (Some ch)).
Definition leased_world : world :=
  World {| items := []; capacity := 2; inFlight := 1; ready := true |}
        [{| lease_items := [queued 7 0]; once := false |}] {[0%nat := false]} [Returned].

Lemma leased_world_reachable : reachable 2 leased_world.
Proof.
  eapply rtc_l; [apply step_enqueue with (b := sample_batch 7); reflexivity|].
  eapply rtc_l; [apply step_call with (d := false) (m := 3)|].
  eapply rtc_l; [eapply step_acquire with (i := 0%nat); reflexivity|].
  apply rtc_refl.
Qed.

Lemma queue_reachable_inv_witness : Depth (wq leased_world) + InFlight (wq leased_world) ≤ 2.
Proof. apply (queue_reachable_inv 2 leased_world leased_world_reachable). Defined.
Lemma commit_never_panics_witness :
  ∃ l' q' cs', Commit {| lease_items := [queued 7 0]; once := false |} (wq leased_world)
                      (wchans leased_world) = Some (l', q', cs') ∧ once l' = true.
Proof.
  destruct (commit_never_panics 2 leased_world 0 {| lease_items := [queued 7 0]; once := false |}
    leased_world_reachable eq_refl) as (l' & q' & cs' & ? & ? & _). eauto.
Defined.
(** Two batches are accepted, a third is refused, the first is lent, returned, lent again
    and committed. *)
Definition batch_ (n : Z) : option Batch := Some (sample_batch n).
Definition lease_ : Lease := {| lease_items := [batch_ 1]; once := false |}.
Definition fifo_labels : list Fifo.label :=
  [Fifo.Accept (batch_ 1); Fifo.Accept (batch_ 2); Fifo.Refuse (batch_ 3); Fifo.Lent 1 [batch_ 1];
   Fifo.Returned [batch_ 1]; Fifo.Lent 1 [batch_ 1]; Fifo.Committed [batch_ 1]].
Definition fifo_final : Fifo.system := Fifo.System
  {| items := [batch_ 2]; capacity := 2; inFlight := 0; ready := true |} None ∅.
Lemma fifo_run : Fifo.run Fifo.step (Fifo.System (New 2) None ∅) fifo_labels fifo_final.
Proof.
  eapply Fifo.run_cons; [by apply Fifo.step_enqueue|]. eapply Fifo.run_cons; [by apply Fifo.step_enqueue|].
  eapply Fifo.run_cons; [by eapply Fifo.step_refuse|]. eapply Fifo.run_cons; [by apply (Fifo.step_acquire _ _ 1 lease_)|].
  eapply Fifo.run_cons; [by apply (Fifo.step_retry _ lease_)|]. eapply Fifo.run_cons; [by apply (Fifo.step_acquire _ _ 1 lease_)|].
  eapply Fifo.run_cons; [by eapply (Fifo.step_commit _ lease_)|]. constructor.
Qed.
Lemma acquire_retry_roundtrip_witness :
  let q := {| items := [queued 1 0; queued 2 1]; capacity := 4; inFlight := 0; ready := false |} in
  ∃ l q', Acquire 1 q = Some (l, q') ∧ (Retry l q').2 = signalLocked q.
Proof.
  intros q. destruct (Acquire 1 q) as [[l q']|] eqn:E; [|discriminate].
  exists l, q'. split; [done|]. apply (acquire_retry_roundtrip 1 q l q' E).
Defined.
End properties.

End Queue.
