(* ===== verification/Persistence.v ===== *)
(** * Writing accepted batches to ClickHouse

    [services/ingestion/persistence]: [repository.go] (mapping observations to
    rows of the inventory tables and grouping them into one insert per table),
    [store.go]'s row check and [worker.go] (the loop that leases batches,
    writes them, and commits or returns the lease).

    UUIDs of event ids come from the [google/uuid] package, a parameter here. *)
From stdpp Require Import base option list gmap strings sorting.
From Stdlib Require Import ZArith Lia.
From S2P Require Import Prelude Proto Effects Queue.

Module Persistence.

(** The values of a row ([[]any]). *)
Inductive value :=
| VString (s : string)
| VUint64 (z : Z)
| VUint32 (z : Z)
| VTime (t : Time)
| VUUID (s : string)
| VMap (m : gmap string string)
| VNil.

Record Insert := { Table : string; Columns : list string; Rows : list (list value) }.
Record mappedRow := { table : string; columns : list string; values : list value }.
Record rowBase := {
  base_tenantID : string;
  base_clusterID : string;
  base_observedAt : Time;
  base_eventID : string;
  base_version : Z
}.

(** Errors that wrap [ErrInvalidInventory], and the store's. *)
Inductive error := ErrInvalidInventory (detail : string) | ErrStore (detail : string).

Definition firstNonEmpty (vs : list string) : string :=
  default ""%string (head (filter (λ v, TrimSpace v ≠ ""%string) vs)).
Definition firstLabel (labels : gmap string string) (keys : list string) : string :=
  default ""%string
    (head (filter (λ v, v ≠ ""%string) ((λ k, TrimSpace (default ""%string (labels !! k))) <$> keys))).

Record dimensions := { team : string; project : string; environment : string; costCenter : string }.
Definition promotedDimensions (labels : gmap string string) : dimensions :=
  {| team := firstLabel labels ["team"; "app.kubernetes.io/team"]%string;
     project := firstLabel labels ["project"; "app.kubernetes.io/part-of"]%string;
     environment := firstLabel labels ["environment"; "env"]%string;
     costCenter := firstLabel labels ["cost-center"; "cost_center"]%string |}.

(** A copy of the label map. *)
Definition cloneMap (source : gmap string string) : gmap string string := source.

Definition nonNegative (v : Z) : Z := if v <=? 0 then 0 else u64 v.
Definition nonNegative32 (v : Z) : Z := if v <=? 0 then 0 else u32 v.
Definition gpuMilli (v : Z) : Z :=
  if v <=? 0 then 0
  else if max_uint64 / 1000 <? v then max_uint64
  else u64 (u64 v * 1000).

Definition operationName (record : option InventoryRecord) : res error string :=
  match GetOperation record with
  | INVENTORY_OPERATION_UPSERT => Ok "upsert"%string
  | INVENTORY_OPERATION_DELETE => Ok "delete"%string
  | _ => Err (ErrInvalidInventory "inventory operation is required")
  end.

(** The column lists of the six inventory tables. *)
Definition cluster_columns : list string :=
  ["tenant_id"; "cluster_id"; "cluster_name"; "provider"; "account_id";
   "region"; "kubernetes_version"; "labels"; "operation"; "valid_from";
   "valid_to"; "observed_at"; "event_id"; "version"]%string.
Definition node_columns : list string :=
  ["tenant_id"; "cluster_id"; "node_uid"; "node_name"; "provider_id";
   "instance_type"; "architecture"; "operating_system"; "region"; "zone";
   "purchase_option"; "capacity_cpu_millicores"; "allocatable_cpu_millicores";
   "capacity_memory_bytes"; "allocatable_memory_bytes"; "capacity_gpu_milli";
   "labels"; "operation"; "valid_from"; "valid_to"; "observed_at"; "event_id"; "version"]%string.
Definition namespace_columns : list string :=
  ["tenant_id"; "cluster_id"; "namespace_uid"; "namespace_name"; "phase";
   "team"; "project"; "environment"; "cost_center"; "labels"; "operation";
   "valid_from"; "valid_to"; "observed_at"; "event_id"; "version"]%string.
Definition deployment_columns : list string :=
  ["tenant_id"; "cluster_id"; "namespace_uid"; "deployment_uid";
   "namespace_name"; "deployment_name"; "desired_replicas"; "available_replicas";
   "strategy"; "team"; "project"; "environment"; "cost_center"; "labels";
   "operation"; "valid_from"; "valid_to"; "observed_at"; "event_id"; "version"]%string.
Definition pod_columns : list string :=
  ["tenant_id"; "cluster_id"; "namespace_uid"; "deployment_uid"; "pod_uid";
   "node_uid"; "namespace_name"; "deployment_name"; "pod_name"; "phase";
   "qos_class"; "owner_kind"; "owner_uid"; "scheduled_at"; "started_at";
   "finished_at"; "labels"; "operation"; "valid_from"; "valid_to";
   "observed_at"; "event_id"; "version"]%string.
Definition container_columns : list string :=
  ["tenant_id"; "cluster_id"; "namespace_uid"; "deployment_uid"; "pod_uid";
   "owner_kind"; "owner_uid"; "container_name"; "container_id"; "image"; "image_id"; "restart_count";
   "cpu_request_millicores"; "cpu_limit_millicores"; "memory_request_bytes";
   "memory_limit_bytes"; "gpu_request_milli"; "operation"; "valid_from";
   "valid_to"; "observed_at"; "event_id"; "version"]%string.

Section map.
Context `{Protobuf} (uuidSHA1 : string → string).

Definition timestampValid (t : option Timestamp) : bool :=
  match t with Some t => ts_IsValid t | None => false end.
Definition nullableTime (t : option Timestamp) : value :=
  match t with
  | Some ts => if ts_IsValid ts then VTime (ts_AsTime ts) else VNil
  | None => VNil
  end.
Definition eventUUID (eventID : string) : string := uuidSHA1 eventID.

Definition mapCluster (base : rowBase) (inventory : ClusterInventory) : res error (option mappedRow) :=
  operation ← operationName (Cluster_Record inventory);
  mret (Some {|
    table := "cluster";
    columns := cluster_columns;
    values := [VString (base_tenantID base); VString (base_clusterID base);
      VString (Cluster_Name inventory); VString (Cluster_Provider inventory);
      VString (Cluster_AccountId inventory); VString (Cluster_Region inventory);
      VString (Cluster_KubernetesVersion inventory); VMap (cloneMap (Cluster_Labels inventory));
      VString operation; VTime (base_observedAt base); VNil; VTime (base_observedAt base);
      VUUID (base_eventID base); VUint64 (base_version base)]
  |}).

Definition mapNode (base : rowBase) (inventory : NodeInventory) : res error (option mappedRow) :=
  operation ← operationName (Node_Record inventory);
  let metadata := Node_Metadata inventory in
  if (GetUid metadata =? "")%string then Err (ErrInvalidInventory "node UID is required")
  else mret (Some {|
    table := "node";
    columns := node_columns;
    values := [VString (base_tenantID base); VString (base_clusterID base);
      VString (GetUid metadata); VString (GetName metadata);
      VString (Node_ProviderId inventory); VString (Node_InstanceType inventory);
      VString (Node_Architecture inventory); VString (Node_OperatingSystem inventory);
      VString (Node_Region inventory); VString (Node_Zone inventory);
      VString (Node_CapacityType inventory);
      VUint64 (nonNegative (GetCpuMillicores (Node_Capacity inventory)));
      VUint64 (nonNegative (GetCpuMillicores (Node_Allocatable inventory)));
      VUint64 (nonNegative (GetMemoryBytes (Node_Capacity inventory)));
      VUint64 (nonNegative (GetMemoryBytes (Node_Allocatable inventory)));
      VUint64 (gpuMilli (GetGpuCount (Node_Capacity inventory))); VMap (cloneMap (GetLabels metadata));
      VString operation; VTime (base_observedAt base); VNil; VTime (base_observedAt base);
      VUUID (base_eventID base); VUint64 (base_version base)]
  |}).

Definition mapNamespace (base : rowBase) (inventory : NamespaceInventory) : res error (option mappedRow) :=
  operation ← operationName (Namespace_Record inventory);
  let metadata := Namespace_Metadata inventory in
  if (GetUid metadata =? "")%string then Err (ErrInvalidInventory "namespace UID is required")
  else
  let dims := promotedDimensions (GetLabels metadata) in
  mret (Some {|
    table := "namespace";
    columns := namespace_columns;
    values := [VString (base_tenantID base); VString (base_clusterID base);
      VString (GetUid metadata); VString (GetName metadata);
      VString (Namespace_Phase inventory); VString (team dims); VString (project dims);
      VString (environment dims); VString (costCenter dims); VMap (cloneMap (GetLabels metadata));
      VString operation; VTime (base_observedAt base); VNil; VTime (base_observedAt base);
      VUUID (base_eventID base); VUint64 (base_version base)]
  |}).

Definition mapDeployment (base : rowBase) (inventory : DeploymentInventory) : res error (option mappedRow) :=
  operation ← operationName (Deployment_Record inventory);
  let metadata := Deployment_Metadata inventory in
  if (GetUid metadata =? "")%string then Err (ErrInvalidInventory "deployment UID is required")
  else
  let dims := promotedDimensions (GetLabels metadata) in
  mret (Some {|
    table := "deployment";
    columns := deployment_columns;
    values := [VString (base_tenantID base); VString (base_clusterID base);
      VString (firstNonEmpty [Deployment_NamespaceUid inventory; GetNamespace metadata]);
      VString (GetUid metadata); VString (GetNamespace metadata); VString (GetName metadata);
      VUint32 (nonNegative32 (Deployment_DesiredReplicas inventory));
      VUint32 (nonNegative32 (Deployment_AvailableReplicas inventory));
      VString (Deployment_Strategy inventory); VString (team dims); VString (project dims);
      VString (environment dims); VString (costCenter dims); VMap (cloneMap (GetLabels metadata));
      VString operation; VTime (base_observedAt base); VNil; VTime (base_observedAt base);
      VUUID (base_eventID base); VUint64 (base_version base)]
  |}).

Definition mapPod (base : rowBase) (inventory : PodInventory) : res error (option mappedRow) :=
  operation ← operationName (Pod_Record inventory);
  let metadata := Pod_Metadata inventory in
  if (GetUid metadata =? "")%string then Err (ErrInvalidInventory "pod UID is required")
  else mret (Some {|
    table := "pod";
    columns := pod_columns;
    values := [VString (base_tenantID base); VString (base_clusterID base);
      VString (firstNonEmpty [Pod_NamespaceUid inventory; GetNamespace metadata]);
      VString (Pod_WorkloadUid inventory); VString (GetUid metadata);
      VString (Pod_NodeUid inventory); VString (GetNamespace metadata); VString "";
      VString (GetName metadata); VString (Pod_Phase inventory); VString (Pod_QosClass inventory);
      VString (Pod_WorkloadKind inventory); VString (Pod_WorkloadUid inventory);
      nullableTime (Pod_ScheduledAt inventory); nullableTime (Pod_StartedAt inventory);
      nullableTime (GetDeletedAt metadata); VMap (cloneMap (GetLabels metadata));
      VString operation; VTime (base_observedAt base); VNil; VTime (base_observedAt base);
      VUUID (base_eventID base); VUint64 (base_version base)]
  |}).

Definition mapContainer (base : rowBase) (inventory : ContainerInventory) : res error (option mappedRow) :=
  operation ← operationName (Container_Record inventory);
  if ((Container_PodUid inventory =? "") || (Container_ContainerName inventory =? ""))%string
  then Err (ErrInvalidInventory "container pod UID and name are required")
  else mret (Some {|
    table := "container";
    columns := container_columns;
    values := [VString (base_tenantID base); VString (base_clusterID base);
      VString (firstNonEmpty [Container_NamespaceUid inventory; Container_Namespace inventory]);
      VString (Container_WorkloadUid inventory); VString (Container_PodUid inventory);
      VString (Container_WorkloadKind inventory); VString (Container_WorkloadUid inventory);
      VString (Container_ContainerName inventory); VString (Container_ContainerId inventory);
      VString (Container_Image inventory); VString (Container_ImageId inventory);
      VUint32 (nonNegative32 (Container_RestartCount inventory));
      VUint64 (nonNegative (GetCpuMillicores (Container_Requests inventory)));
      VUint64 (nonNegative (GetCpuMillicores (Container_Limits inventory)));
      VUint64 (nonNegative (GetMemoryBytes (Container_Requests inventory)));
      VUint64 (nonNegative (GetMemoryBytes (Container_Limits inventory)));
      VUint64 (gpuMilli (GetGpuCount (Container_Requests inventory)));
      VString operation; VTime (base_observedAt base); VNil; VTime (base_observedAt base);
      VUUID (base_eventID base); VUint64 (base_version base)]
  |}).

(** [Ok None] is [ok = false] with a nil error: the payload has no table. *)
Definition mapObservation (batch : Queue.Batch) (observation : option Observation)
    : res error (option mappedRow) :=
  match observation with
  | None => Err (ErrInvalidInventory "observation is nil")
  | Some o =>
      let observedAt :=
        match ObservedAt o with
        | Some ts => if ts_IsValid ts then ts_AsTime ts else Queue.ReceivedAt batch
        | None => Queue.ReceivedAt batch
        end in
      let base := {| base_tenantID := Queue.TenantID batch; base_clusterID := Queue.ClusterID batch;
                     base_observedAt := observedAt; base_eventID := eventUUID (EventId o);
                     base_version := Sequence o |} in
      if ((base_tenantID base =? "") || (base_clusterID base =? "") || (EventId o =? ""))%string
         || (base_version base =? 0)
      then Err (ErrInvalidInventory "tenant, cluster, event ID, and sequence are required")
      else match payload o with
           | Some (Observation_ClusterInventory m) => mapCluster base m
           | Some (Observation_NodeInventory m) => mapNode base m
           | Some (Observation_NamespaceInventory m) => mapNamespace base m
           | Some (Observation_DeploymentInventory m) => mapDeployment base m
           | Some (Observation_PodInventory m) => mapPod base m
           | Some (Observation_ContainerInventory m) => mapContainer base m
           | _ => Ok None
           end
  end.

(** ** [Persist]: group rows by table, insert in table-name order *)

Record grouping := Grouping { grouped : gmap string Insert; order : list string }.

Definition add_row (g : grouping) (row : mappedRow) : grouping :=
  match grouped g !! table row with
  | Some insert =>
      Grouping (<[table row := {| Table := Table insert; Columns := Columns insert;
                                  Rows := Rows insert ++ [values row] |}]> (grouped g)) (order g)
  | None =>
      Grouping (<[table row := {| Table := table row; Columns := columns row;
                                  Rows := [values row] |}]> (grouped g)) (order g ++ [table row])
  end.

Fixpoint group_observations (batch : Queue.Batch) (os : list Observation) (g : grouping)
    : res error grouping :=
  match os with
  | [] => Ok g
  | o :: os' =>
      row ← mapObservation batch (Some o);
      match row with
      | None => group_observations batch os' g
      | Some row => group_observations batch os' (add_row g row)
      end
  end.

Fixpoint group_batches (batches : list (option Queue.Batch)) (g : grouping) : res error grouping :=
  match batches with
  | [] => Ok g
  | None :: batches' => group_batches batches' g
  | Some b :: batches' =>
      match Queue.ObservationSet b with
      | None => group_batches batches' g
      | Some set =>
          g' ← group_observations b (Observations set) g;
          group_batches batches' g'
      end
  end.

(** The store is reached through one operation. *)
Inductive store_op := StoreInsert (i : Insert).
Definition store_ans (_ : store_op) : Type := option string.

Fixpoint insert_all (g : grouping) (tables : list string) : prog store_ans (option error) :=
  match tables with
  | [] => Ret None
  | t :: tables' =>
      match grouped g !! t with
      | None => insert_all g tables'
      | Some insert =>
          answer ← call (StoreInsert insert);
          match answer with
          | Some e => Ret (Some (ErrStore e))
          | None => insert_all g tables'
          end
      end
  end.

Definition Persist (batches : list (option Queue.Batch)) : prog store_ans (option error) :=
  match group_batches batches (Grouping ∅ []) with
  | Err e => Ret (Some e)
  | Ok g => insert_all g (merge_sort String.le (order g))
  end.
End map.
Arguments mapObservation {_} uuidSHA1 batch observation : simpl never.

(** [ClickHouseStore.Insert]'s check of each row before it is appended. *)
Definition rows_fit (i : Insert) : bool :=
  forallb (λ row, length row =? length (Columns i))%nat (Rows i).

(** ** The worker *)

Record WorkerConfig := { BatchSize : Z; RetryInitial : Duration; RetryMaximum : Duration }.

Definition NewWorker (c : WorkerConfig) : WorkerConfig :=
  {| BatchSize := if BatchSize c <=? 0 then 20 else BatchSize c;
     RetryInitial := if RetryInitial c <=? 0 then Second else RetryInitial c;
     RetryMaximum := if RetryMaximum c <=? 0 then 30 * Second else RetryMaximum c |}.

(** What the worker calls: the queue, the repository, the clock. *)
Inductive worker_op :=
| WAcquire (max : Z)
| WPersist (batches : list (option Queue.Batch))
| WRetry (l : Queue.Lease)
| WCommit (l : Queue.Lease)
| WSleep (d : Duration).
Inductive acquire_error := Canceled | OtherError (e : string).
Definition worker_ans (o : worker_op) : Type :=
  match o with
  | WAcquire _ => res acquire_error Queue.Lease
  | WPersist _ => option error
  | WRetry _ | WCommit _ => unit
  | WSleep _ => bool (* [false] when the context ends first *)
  end.

(** One turn of [Run]'s loop: go on with a new backoff, or return. *)
Inductive turn := Continue (backoff : Duration) | Return (err : option string).

Definition worker_turn (c : WorkerConfig) (backoff : Duration) : prog worker_ans turn :=
  acquired ← call (WAcquire (BatchSize c));
  match acquired with
  | Err Canceled => Ret (Return None)
  | Err (OtherError e) => Ret (Return (Some e))
  | Ok lease =>
      result ← call (WPersist (Queue.Items lease));
      match result with
      | Some e =>
          _ ← call (WRetry lease);
          match e with
          | ErrInvalidInventory d => Ret (Return (Some d))
          | ErrStore _ =>
              slept ← call (WSleep backoff);
              if (slept : bool) then Ret (Continue (Z.min (i64 (backoff * 2)) (RetryMaximum c)))
              else Ret (Return None)
          end
      | None =>
          _ ← call (WCommit lease);
          Ret (Continue (RetryInitial c))
      end
  end.

(** [Run] for at most [fuel] turns; [None] when it is still running. *)
Fixpoint Run (fuel : nat) (c : WorkerConfig) (backoff : Duration)
    : prog worker_ans (option (option string)) :=
  match fuel with
  | O => Ret None
  | S fuel' =>
      t ← worker_turn c backoff;
      match t with
      | Continue b => Run fuel' c b
      | Return e => Ret (Some e)
      end
  end.

(** ** Reference definitions

    The rows of a list of batches in arrival order, the insert of one table,
    and the list of inserts in table-name order. *)

Section reference.
Context `{Protobuf} (uuidSHA1 : string → string).

Fixpoint observations_rows (b : Queue.Batch) (os : list Observation) : res error (list mappedRow) :=
  match os with
  | [] => Ok []
  | o :: os' =>
      row ← mapObservation uuidSHA1 b (Some o);
      rows ← observations_rows b os';
      mret (match row with Some r => r :: rows | None => rows end)
  end.
Fixpoint batches_rows (bs : list (option Queue.Batch)) : res error (list mappedRow) :=
  match bs with
  | [] => Ok []
  | None :: bs' => batches_rows bs'
  | Some b :: bs' =>
      match Queue.ObservationSet b with
      | None => batches_rows bs'
      | Some set =>
          rows ← observations_rows b (Observations set);
          rest ← batches_rows bs';
          mret (rows ++ rest)
      end
  end.
Definition table_rows (t : string) (rows : list mappedRow) : list mappedRow :=
  filter (λ r, table r = t) rows.
Definition table_insert (rows : list mappedRow) (t : string) : option Insert :=
  match table_rows t rows with
  | [] => None
  | r :: rs => Some {| Table := t; Columns := columns r; Rows := values <$> (r :: rs) |}
  end.
Definition plan (rows : list mappedRow) : list Insert :=
  omap (table_insert rows) (merge_sort String.le (remove_dups (table <$> rows))).
End reference.

(** The inserts a run of [Persist] made, and whether all succeeded. *)
Definition inserts_made (t : list (event store_ans)) : list Insert :=
  (λ ev, match projT1 ev with StoreInsert i => i end) <$> t.
Definition all_succeeded (t : list (event store_ans)) : Prop :=
  Forall (λ ev, projT2 ev = None) t.

Section facts.
Context `{Protobuf} (uuidSHA1 : string → string).

(** *** Rows *)
Lemma mapObservation_fits b o r :
  mapObservation uuidSHA1 b o = Ok (Some r) → length (values r) = length (columns r).
Proof.
  unfold mapObservation, mapCluster, mapNode, mapNamespace, mapDeployment, mapPod, mapContainer.
  intros Hr. repeat case_match; simplify_eq.
  all: revert Hr; unfold mbind, res_bind, mret, res_ret; repeat case_match; intros; simplify_eq; done.
Qed.
Definition schema : list (string * list string) :=
  [("cluster", cluster_columns); ("node", node_columns); ("namespace", namespace_columns);
   ("deployment", deployment_columns); ("pod", pod_columns); ("container", container_columns)]%string.
Lemma mapObservation_schema b o r :
  mapObservation uuidSHA1 b o = Ok (Some r) → (table r, columns r) ∈ schema.
Proof.
  unfold mapObservation, mapCluster, mapNode, mapNamespace, mapDeployment, mapPod, mapContainer.
  intros Hr. repeat case_match; simplify_eq.
  all: revert Hr; unfold mbind, res_bind, mret, res_ret; repeat case_match; intros; simplify_eq/=.
  all: unfold schema; rewrite ?elem_of_cons; tauto.
Qed.
Lemma schema_functional t c1 c2 : (t, c1) ∈ schema → (t, c2) ∈ schema → c1 = c2.
Proof.
  unfold schema. rewrite !elem_of_cons.
  intros H1 H2. destruct_or!; simplify_eq/=; try done.
  all: match goal with Hn : _ ∈ [] |- _ => by apply not_elem_of_nil in Hn end.
Qed.

Lemma observations_rows_fit b os rows :
  observations_rows uuidSHA1 b os = Ok rows →
  Forall (λ r, ∃ b o, mapObservation uuidSHA1 b o = Ok (Some r)) rows.
Proof.
  revert rows. induction os as [|o os IH]; intros rows; simpl; [by intros [= <-]|].
  unfold mbind, res_bind, mret, res_ret.
  destruct (mapObservation uuidSHA1 _ _) as [row|] eqn:Hr; [|done].
  destruct (observations_rows uuidSHA1 _ _) as [rows'|] eqn:Hos; [|done].
  intros [= <-]. destruct row; [constructor|]; eauto.
Qed.
Lemma batches_rows_fit bs rows :
  batches_rows uuidSHA1 bs = Ok rows →
  Forall (λ r, ∃ b o, mapObservation uuidSHA1 b o = Ok (Some r)) rows.
Proof.
  revert rows. induction bs as [|[b|] bs IH]; intros rows; simpl; [by intros [= <-]| |apply IH].
  destruct (Queue.ObservationSet b) as [set|]; [|apply IH].
  unfold mbind, res_bind, mret, res_ret.
  destruct (observations_rows uuidSHA1 _ _) as [rows1|] eqn:Hos; [|done].
  destruct (batches_rows uuidSHA1 _) as [rows2|] eqn:Hbs; [|done].
  intros [= <-]. apply Forall_app. split; eauto using observations_rows_fit.
Qed.

(** *** Grouping computes the reference inserts *)
Lemma group_observations_ref b os g :
  group_observations uuidSHA1 b os g = foldl add_row g <$> observations_rows uuidSHA1 b os.
Proof.
  revert g. induction os as [|o os IH]; intros g; simpl; [done|].
  unfold mbind, res_bind, mret, res_ret.
  destruct (mapObservation uuidSHA1 _ _) as [[row|]|]; [| |done]; rewrite IH;
    by destruct (observations_rows uuidSHA1 _ _).
Qed.
Lemma group_batches_ref bs g :
  group_batches uuidSHA1 bs g = foldl add_row g <$> batches_rows uuidSHA1 bs.
Proof.
  revert g. induction bs as [|[b|] bs IH]; intros g; simpl; [done| |apply IH].
  destruct (Queue.ObservationSet b) as [set|]; [|apply IH].
  rewrite group_observations_ref. destruct (observations_rows uuidSHA1 _ _) as [rows|]; [|done].
  simpl. rewrite IH. destruct (batches_rows uuidSHA1 _); [|done]. simpl. by rewrite foldl_app.
Qed.

Definition group (rows : list mappedRow) : grouping := foldl add_row (Grouping ∅ []) rows.
Lemma group_snoc rows r : group (rows ++ [r]) = add_row (group rows) r.
Proof. unfold group. by rewrite foldl_app. Qed.
Lemma table_rows_snoc t rows r :
  table_rows t (rows ++ [r]) = table_rows t rows ++ (if decide (table r = t) then [r] else []).
Proof. unfold table_rows. by rewrite filter_app. Qed.

Lemma group_lookup rows t : grouped (group rows) !! t = table_insert rows t.
Proof.
  induction rows as [|r rows IH] using rev_ind; [done|].
  rewrite group_snoc. unfold add_row, table_insert in *. rewrite table_rows_snoc.
  destruct (decide (table r = t)) as [Heq|Hne].
  - subst t. rewrite IH. destruct (table_rows (table r) rows) as [|r0 rs]; simpl; rewrite lookup_insert_eq; [done|].
    by rewrite fmap_app.
  - rewrite app_nil_r, <- IH. by destruct (grouped (group rows) !! table r); simpl; rewrite lookup_insert_ne.
Qed.
Lemma table_insert_Some rows t : is_Some (table_insert rows t) ↔ t ∈ table <$> rows.
Proof.
  unfold table_insert. rewrite list_elem_of_fmap. split.
  - intros [i Hi]. destruct (table_rows t rows) as [|r rs] eqn:E; [done|].
    assert (r ∈ table_rows t rows) as Hr by (rewrite E; left).
    apply list_elem_of_filter in Hr as [? ?]. exists r. by subst.
  - intros (r & -> & Hr). destruct (table_rows (table r) rows) eqn:E; [|eauto].
    assert (r ∈ table_rows (table r) rows) as Hin by (by apply list_elem_of_filter).
    rewrite E in Hin. by apply not_elem_of_nil in Hin.
Qed.
Lemma group_order rows :
  NoDup (order (group rows)) ∧ ∀ t, t ∈ order (group rows) ↔ t ∈ table <$> rows.
Proof.
  induction rows as [|r rows [IHn IHe]] using rev_ind; [split; [constructor|done]|].
  rewrite group_snoc, fmap_app. unfold add_row.
  assert (is_Some (grouped (group rows) !! table r) ↔ table r ∈ table <$> rows) as Hr
    by (rewrite group_lookup; apply table_insert_Some).
  destruct (grouped (group rows) !! table r); simpl.
  - split; [done|]. intros t. rewrite elem_of_app, list_elem_of_singleton, IHe.
    split; [tauto|]. intros [?| ->]; [done|]. apply Hr. eauto.
  - assert (table r ∉ order (group rows)) by (rewrite IHe, <- Hr; by intros [? ?]).
    split.
    + apply NoDup_app. split; [done|]. split; [|apply NoDup_singleton].
      intros t Ht Ht'%list_elem_of_singleton. by subst.
    + intros t. rewrite !elem_of_app, !list_elem_of_singleton, IHe. tauto.
Qed.
Lemma merge_sort_order rows :
  merge_sort String.le (order (group rows)) = merge_sort String.le (remove_dups (table <$> rows)).
Proof.
  apply (StronglySorted_unique String.le); try apply (StronglySorted_merge_sort _); try apply _.
  rewrite !merge_sort_Permutation. destruct (group_order rows) as [Hn He].
  apply NoDup_Permutation; [done|apply NoDup_remove_dups|]. intros t.
  rewrite He. by rewrite elem_of_remove_dups.
Qed.

(** *** Running the inserts *)
Lemma insert_all_traces g ts tr r :
  traces (insert_all g ts) tr r →
  inserts_made tr `prefix_of` omap (λ t, grouped g !! t) ts ∧
  (r = None ↔ inserts_made tr = omap (λ t, grouped g !! t) ts ∧ all_succeeded tr).
Proof.
  revert tr. induction ts as [|t ts IH]; intros tr; simpl.
  { intros [-> ->]. split; [done|]. split; [|done]. intros _. split; [done|constructor]. }
  destruct (grouped g !! t) as [i|]; [|apply IH]. simpl.
  intros (x & tr' & -> & Htr). destruct x as [e|]; simpl in Htr.
  - destruct Htr as [-> ->]. split; [apply prefix_cons, prefix_nil|].
    split; [done|]. intros [_ Hall]. by inversion Hall.
  - apply IH in Htr as [Hp Hr]. unfold all_succeeded.
    match goal with |- context [inserts_made (?a :: ?l)] =>
      change (inserts_made (a :: l)) with (i :: inserts_made l) end.
    split; [by apply prefix_cons|]. rewrite Hr, Forall_cons. simpl. split.
    + intros [-> ?]. done.
    + intros [[= ->] [_ ?]]. done.
Qed.

Lemma persist_ref bs :
  Persist uuidSHA1 bs =
  match batches_rows uuidSHA1 bs with
  | Err e => Ret (Some e)
  | Ok rows => insert_all (group rows) (merge_sort String.le (remove_dups (table <$> rows)))
  end.
Proof.
  unfold Persist. rewrite group_batches_ref. destruct (batches_rows uuidSHA1 bs); [|done].
  simpl. by rewrite <- merge_sort_order.
Qed.
Lemma plan_group rows :
  omap (λ t, grouped (group rows) !! t) (merge_sort String.le (remove_dups (table <$> rows))) = plan rows.
Proof. unfold plan. apply list_omap_ext. apply Forall2_same_length_lookup_2; [done|]. intros i x y ? ?. simplify_eq. apply group_lookup. Qed.

Lemma plan_in rows i :
  i ∈ plan rows → ∃ t r rs, table_rows t rows = r :: rs ∧
    i = {| Table := t; Columns := columns r; Rows := values <$> (r :: rs) |}.
Proof.
  unfold plan. rewrite list_elem_of_omap. intros (t & _ & Hi). unfold table_insert in Hi.
  destruct (table_rows t rows) eqn:E; simplify_eq. eauto 10.
Qed.
End facts.

(** ** Values stay within their column's integer width *)

Definition in_range (v : value) : Prop :=
  match v with VUint64 z => is_u64 z | VUint32 z => 0 ≤ z < 2 ^ 32 | _ => True end.

Lemma nonNegative_range v : is_u64 (nonNegative v).
Proof. unfold nonNegative. case_match; [by split|apply u64_range]. Qed.
Lemma nonNegative32_range v : 0 ≤ nonNegative32 v < 2 ^ 32.
Proof. unfold nonNegative32. case_match; [done|]. by apply Z.mod_pos_bound. Qed.
Lemma gpuMilli_range v : is_u64 (gpuMilli v).
Proof. unfold gpuMilli. repeat case_match; [by split|by split|apply u64_range]. Qed.
#[local] Hint Resolve nonNegative_range nonNegative32_range gpuMilli_range : go.

(** ** The calls of a worker run, without their types *)

Inductive worker_log :=
| Acquired (l : Queue.Lease)
| Stopped
| Wrote (batches : list (option Queue.Batch)) (ok : bool)
| Retried (l : Queue.Lease)
| Committed (l : Queue.Lease)
| Slept (d : Duration).

Definition log_of (ev : event worker_ans) : worker_log :=
  let 'existT o x := ev in
  match o return worker_ans o → worker_log with
  | WAcquire _ => λ x, match x with Ok l => Acquired l | Err _ => Stopped end
  | WPersist bs => λ x, Wrote bs (match x with None => true | Some _ => false end)
  | WRetry l => λ _, Retried l
  | WCommit l => λ _, Committed l
  | WSleep d => λ _, Slept d
  end x.

(** Every acquired lease is written as a whole and then settled at once: it is
    committed if the write succeeded and given back if it did not. *)
Inductive settles : list worker_log → Prop :=
| settles_end : settles []
| settles_stop : settles [Stopped]
| settles_commit l t : settles t →
    settles (Acquired l :: Wrote (Queue.Items l) true :: Committed l :: t)
| settles_retry l t : settles t →
    settles (Acquired l :: Wrote (Queue.Items l) false :: Retried l :: t)
| settles_sleep d t : settles t → settles (Slept d :: t).
#[local] Hint Constructors settles : go.

(** The delay after the [n]th write in a row that failed, from 0: the initial one, then
    doubled up to the maximum. *)
Fixpoint delay (c : WorkerConfig) (n : nat) : Duration :=
  match n with O => RetryInitial c | S n' => Z.min (2 * delay c n') (RetryMaximum c) end.
(** Every sleep has its delay; a commit starts again from the initial one. *)
Fixpoint paced (c : WorkerConfig) (n : nat) (t : list worker_log) : Prop :=
  match t with
  | [] => True
  | Slept d :: t' => d = delay c n ∧ paced c (S n) t'
  | Committed _ :: t' => paced c 0 t'
  | _ :: t' => paced c n t'
  end.
Lemma delay_bounds c n :
  0 < RetryInitial c → 0 < RetryMaximum c →
  0 < delay c n ≤ Z.max (RetryInitial c) (RetryMaximum c) ∧ (n ≠ O → delay c n ≤ RetryMaximum c).
Proof. intros Hi Hm. induction n as [|n [IH _]]; simpl; split; lia. Qed.

Lemma settles_app t1 t2 : settles t1 → Stopped ∉ t1 → settles t2 → settles (t1 ++ t2).
Proof.
  induction 1; simpl; rewrite ?not_elem_of_cons; intuition eauto with go.
Qed.

Lemma worker_turn_log c n t r :
  delay c n < 2 ^ 62 → 0 < delay c n → traces (worker_turn c (delay c n)) t r →
  settles (log_of <$> t) ∧
  ∀ b, r = Continue b → (Stopped ∉ (log_of <$> t)) ∧
    ∃ m, b = delay c m ∧ ∀ t', paced c m t' → paced c n ((log_of <$> t) ++ t').
Proof.
  intros Hsmall Hpos. assert (∀ es : list worker_log, Stopped ∉ es ↔ Forall (λ e, e ≠ Stopped) es) as Hst.
  { intros es. rewrite Forall_forall. naive_solver. }
  unfold worker_turn. simpl. intros (x & t1 & -> & Ht). destruct x as [l|e]; simpl in Ht.
  - destruct Ht as (y & t2 & -> & Ht). destruct y as [[d|d]|]; simpl in Ht.
    + destruct Ht as ([] & t3 & -> & -> & ->). csimpl. split; [eauto with go|done].
    + destruct Ht as ([] & t3 & -> & slept & t4 & -> & Ht). destruct slept; simpl in Ht;
        destruct Ht as [-> ->]; csimpl; (split; [eauto with go|]); [|done].
      intros b [= <-]. split; [apply Hst; by repeat constructor|]. exists (S n). simpl.
      rewrite i64_id by (unfold is_i64, two63; lia). split; [by rewrite Z.mul_comm|]. by intros t' ?.
    + destruct Ht as ([] & t3 & -> & -> & ->). csimpl. split; [eauto with go|].
      intros b [= <-]. split; [apply Hst; by repeat constructor|]. by exists O.
  - destruct e; destruct Ht as [-> ->]; csimpl; (split; [eauto with go|done]).
Qed.
(** The last turn, which does not end in another one, keeps the pace too. *)
Lemma worker_turn_paced c n t r : traces (worker_turn c (delay c n)) t r → paced c n (log_of <$> t).
Proof.
  unfold worker_turn. simpl. intros (x & t1 & -> & Ht). destruct x as [l|[]]; simpl in Ht; [|by destruct Ht as [-> ->]..].
  destruct Ht as ([[d|d]|] & t2 & -> & Ht); simpl in Ht.
  - by destruct Ht as ([] & t3 & -> & -> & ->).
  - destruct Ht as ([] & t3 & -> & slept & t4 & -> & Ht). by destruct slept; destruct Ht as [-> ->].
  - by destruct Ht as ([] & t3 & -> & -> & ->).
Qed.

Lemma worker_run_log fuel c n t r :
  0 < RetryInitial c < 2 ^ 62 → 0 < RetryMaximum c < 2 ^ 62 →
  traces (Run fuel c (delay c n)) t r → settles (log_of <$> t) ∧ paced c n (log_of <$> t).
Proof.
  intros Hi Hmax. revert n t. induction fuel as [|fuel IH]; intros n t; cbn [Run].
  { intros [-> _]. split; constructor. }
  intros (turn & t1 & t2 & -> & Ht1 & Ht2)%traces_bind. rewrite fmap_app.
  pose proof (worker_turn_paced _ _ _ _ Ht1) as Hpaced. destruct (delay_bounds c n) as [Hd _]; [lia..|].
  apply worker_turn_log in Ht1 as (Hs & Hc); [|lia..].
  destruct turn as [b|e].
  - destruct (Hc b eq_refl) as (Hns & m & -> & Hp). apply IH in Ht2 as [Hs2 Hp2].
    split; [by apply settles_app|by apply Hp].
  - destruct Ht2 as [-> _]. csimpl. by rewrite app_nil_r.
Qed.

Section properties.
Context `{Protobuf} (uuidSHA1 : string → string).

(** C14: [Persist] executes exactly the planned inserts. The plan has one insert
    per table that has rows, in table-name order, each with the table's rows
    in arrival order. An observation that cannot be mapped stops everything
    before the first insert; a failing insert stops the rest; and success is
    reported exactly when every planned insert was made and succeeded. *)
Theorem persist_executes_plan bs t r :
  traces (Persist uuidSHA1 bs) t r →
  match batches_rows uuidSHA1 bs with
  | Err e => t = [] ∧ r = Some e
  | Ok rows => inserts_made t `prefix_of` plan rows ∧
               (r = None ↔ inserts_made t = plan rows ∧ all_succeeded t)
  end.
Proof.
  rewrite persist_ref. destruct (batches_rows uuidSHA1 bs) as [rows|e]; [|done].
  intros Ht%insert_all_traces. by rewrite plan_group in Ht.
Qed.

(** Every insert [Persist] sends passes the store's row check and uses the
    column list of its table. *)
Theorem persist_rows_well_formed bs t r :
  traces (Persist uuidSHA1 bs) t r →
  Forall (λ i, rows_fit i = true ∧ (Table i, Columns i) ∈ schema) (inserts_made t).
Proof.
  rewrite persist_ref. destruct (batches_rows uuidSHA1 bs) as [rows|e] eqn:Hr; [|by intros [-> _]].
  intros [Hp _]%insert_all_traces. rewrite plan_group in Hp. apply Forall_forall. intros i Hi.
  assert (i ∈ plan rows) as Hin by (destruct Hp as [k ->]; apply elem_of_app; by left).
  apply plan_in in Hin as (tbl & r0 & rs & Hrs & ->).
  apply batches_rows_fit in Hr. rewrite Forall_forall in Hr.
  assert (∀ x, x ∈ r0 :: rs → table x = tbl ∧ ∃ b o, mapObservation uuidSHA1 b o = Ok (Some x)) as Hx.
  { intros x. rewrite <- Hrs. intros [? ?]%list_elem_of_filter. eauto. }
  destruct (Hx r0 ltac:(left)) as [<- (b0 & o0 & H0)].
  apply mapObservation_schema in H0 as Hs0. split; [|done].
  unfold rows_fit. cbn [Rows Columns]. apply forallb_forall. intros vs Hvs.
  apply list_elem_of_In, list_elem_of_fmap in Hvs as (x & -> & Hxin).
  destruct (Hx x Hxin) as [Hxt (b & o & Hm)]. apply Nat.eqb_eq.
  rewrite (mapObservation_fits _ _ _ _ Hm). f_equal. apply mapObservation_schema in Hm.
  rewrite Hxt in Hm. by eapply schema_functional.
Qed.

(** The integers of a row fit the unsigned columns they are written to:
    negative quantities become 0, GPU counts saturate instead of wrapping. *)
Lemma row_values_in_range b o r :
  is_u64 (Sequence o) → mapObservation uuidSHA1 b (Some o) = Ok (Some r) → Forall in_range (values r).
Proof.
  intros Hseq. unfold mapObservation, mapCluster, mapNode, mapNamespace, mapDeployment, mapPod, mapContainer.
  intros Hr. repeat case_match; simplify_eq.
  all: revert Hr; unfold mbind, res_bind, mret, res_ret; repeat case_match; intros; simplify_eq.
  all: simpl; repeat (apply Forall_cons; split); try apply Forall_nil; try done; simpl; eauto with go.
  all: unfold nullableTime; repeat case_match; done.
Qed.
End properties.

(** *** Concrete runs *)
Definition sample_node (uid : string) (gpus : Z) : NodeInventory :=
  {| Node_Record := Some {| Operation := INVENTORY_OPERATION_UPSERT; SnapshotId := "s"; SnapshotRecord := true |};
     Node_Metadata := Some {| Meta_Uid := uid; Meta_Name := "n"; Meta_Namespace := ""; Meta_Labels := ∅;
       Meta_Annotations := ∅; Meta_CreatedAt := None; Meta_DeletedAt := None; Meta_OwnerReferences := [] |};
     Node_ProviderId := ""; Node_InstanceType := ""; Node_Architecture := ""; Node_OperatingSystem := "";
     Node_Region := ""; Node_Zone := ""; Node_CapacityType := "";
     Node_Capacity := Some {| Res_CpuMillicores := Some (-4); Res_MemoryBytes := None;
       Res_EphemeralStorageBytes := None; Res_GpuCount := Some gpus; Res_ExtendedResources := ∅ |};
     Node_Allocatable := None; Node_Schedulable := true; Node_Taints := [];
     Node_KarpenterNodeClaimUid := ""; Node_KarpenterNodePool := "" |}.
Definition sample_observation (seq : Z) (p : Payload) : Observation :=
  {| Sequence := seq; EventId := "e"; ObservedAt := None; CollectedAt := None;
     SourceResourceVersion := ""; payload := Some p |}.
Definition sample_queued (os : list Observation) : Queue.Batch :=
  {| Queue.TenantID := "t"; Queue.ClusterID := "c"; Queue.AgentInstance := "a"; Queue.SessionID := "s";
     Queue.ReceivedAt := unix_epoch;
     Queue.ObservationSet := Some {| BatchId := "b"; FirstSequence := 1; LastSequence := Z.of_nat (length os);
       CreatedAt := None; PayloadChecksum := ""; Observations := os |};
     Queue.persisted := None |}.
Definition sample_batches : list (option Queue.Batch) :=
  [Some (sample_queued [sample_observation 1 (Observation_NodeInventory (sample_node "u" (2 ^ 62)));
                        sample_observation 2 (Observation_KubernetesEvent "k")])].
(** A store that accepts everything. *)
Definition accepting (o : store_op) (w : unit) : store_ans o * unit := (None, tt).

Lemma persist_executes_plan_witness :
  let t := run_trace accepting (Persist (H := sample_codec) id sample_batches) tt in
  match batches_rows (H := sample_codec) id sample_batches with
  | Err e => False
  | Ok rows => inserts_made t `prefix_of` plan rows ∧ length (inserts_made t) = 1%nat
  end.
Proof.
  pose proof (persist_executes_plan (H := sample_codec) id sample_batches _ _
    (run_is_trace accepting (Persist (H := sample_codec) id sample_batches) tt)) as Hp.
  cbn zeta. destruct (batches_rows (H := sample_codec) id sample_batches) as [rows|] eqn:E; [|discriminate].
  destruct Hp as [Hp _]. split; [exact Hp|reflexivity].
Defined.
Lemma persist_rows_well_formed_witness :
  Forall (λ i, rows_fit i = true ∧ (Table i, Columns i) ∈ schema)
    (inserts_made (run_trace accepting (Persist (H := sample_codec) id sample_batches) tt)).
Proof.
  apply (persist_rows_well_formed (H := sample_codec) id sample_batches _ _
    (run_is_trace accepting (Persist (H := sample_codec) id sample_batches) tt)).
Defined.
Lemma row_values_in_range_witness :
  ∃ r, mapObservation (H := sample_codec) id (sample_queued [])
         (Some (sample_observation 1 (Observation_NodeInventory (sample_node "u" (2 ^ 62))))) = Ok (Some r) ∧
       Forall in_range (values r) ∧ VUint64 max_uint64 ∈ values r.
Proof.
  eexists. split; [reflexivity|]. split.
  - eapply (row_values_in_range (H := sample_codec) id (sample_queued [])
      (sample_observation 1 (Observation_NodeInventory (sample_node "u" (2 ^ 62))))); [by split|reflexivity].
  - cbn [values]. do 15 right. left.
Defined.

(** C15: a worker run settles every lease it acquires, once and before the next one is
    acquired, committing exactly the leases whose batches were written. After the
    [n]th write in a row that failed it sleeps for exactly the [n]th delay: the
    initial one, which is not capped, then doubled up to the maximum. The delays are
    assumed to be below 2^62 nanoseconds (146 years), so that doubling does not
    overflow; absent or negative ones are replaced by the defaults. *)
Theorem worker_settles_leases fuel c t r :
  RetryInitial c < 2 ^ 62 → RetryMaximum c < 2 ^ 62 →
  traces (Run fuel (NewWorker c) (RetryInitial (NewWorker c))) t r →
  settles (log_of <$> t) ∧ paced (NewWorker c) 0 (log_of <$> t) ∧
  ∀ n, 0 < delay (NewWorker c) n ≤ Z.max (RetryInitial (NewWorker c)) (RetryMaximum (NewWorker c)) ∧
       (n ≠ O → delay (NewWorker c) n ≤ RetryMaximum (NewWorker c)).
Proof.
  intros H1 H2 Ht.
  assert (0 < RetryInitial (NewWorker c) < 2 ^ 62 ∧ 0 < RetryMaximum (NewWorker c) < 2 ^ 62) as [Hi Hm].
  { unfold NewWorker, Second. simpl. repeat case_match; lia. }
  destruct (worker_run_log fuel (NewWorker c) 0 t r Hi Hm Ht). split_and!; [done..|].
  intros n. apply delay_bounds; lia.
Qed.

(** Every acquire hands out a lease; the write fails twice, then succeeds. *)
Definition flaky (o : worker_op) (n : nat) : worker_ans o * nat :=
  match o with
  | WAcquire _ => (Ok {| Queue.lease_items := []; Queue.once := false |}, n)
  | WPersist _ => match n with O => (None, O) | S n' => (Some (ErrStore "down"), n') end
  | WRetry _ => (tt, n)
  | WCommit _ => (tt, n)
  | WSleep _ => (true, n)
  end.
Lemma worker_settles_leases_witness :
  let c := {| BatchSize := 0; RetryInitial := Second; RetryMaximum := 3 * Second |} in
  let t := run_trace flaky (Run 3 (NewWorker c) (RetryInitial (NewWorker c))) 2%nat in
  settles (log_of <$> t) ∧ paced (NewWorker c) 0 (log_of <$> t) ∧ Slept (2 * Second) ∈ (log_of <$> t).
Proof.
  intros c t. destruct (worker_settles_leases 3 c t _ eq_refl eq_refl (run_is_trace flaky _ 2%nat)) as (? & ? & _).
  split; [done|]. split; [done|]. vm_compute. do 7 right. left.
Defined.

End Persistence.
