(* ===== verification/Store.v ===== *)
(** * The store of the ingestion service

    [Insert] of [services/ingestion/persistence/store.go]: one batch of rows, with the
    statement it is prepared with. An insert is applied as a whole or not at all. *)
From stdpp Require Import base option list gmap strings.
From Stdlib Require Import ZArith Lia.
From S2P Require Import Prelude Effects Persistence.

Module Store.
Import Persistence.

(** The calls of the driver; each answers its error, if any. *)
Inductive driver_op :=
| PrepareBatch (query : string)
| AppendRow (row : list value)
| Send.
Definition driver_ans (o : driver_op) : Type := option string.
Abbreviation prog := (prog driver_ans).

Fixpoint joinColumns (columns : list string) : string :=
  match columns with
  | [] => ""
  | [column] => column
  | column :: columns' => column +:+ ", " +:+ joinColumns columns'
  end.
Definition insert_query (i : Insert) : string := "INSERT INTO kube_cost." +:+ Table i +:+ " (" +:+ joinColumns (Columns i) +:+ ")".
(** The loop over the rows *)
Fixpoint append_rows (i : Insert) (rows : list (list value)) : prog (option string) :=
  match rows with
  | [] => Ret None
  | row :: rows' =>
      if negb (length row =? length (Columns i))%nat
      then Ret (Some (Table i +:+ " row has " +:+ dec (Z.of_nat (length row)) +:+ " values for " +:+ dec (Z.of_nat (length (Columns i))) +:+ " columns"))
      else
        err ← call (AppendRow row);
        match (err : option string) with
        | Some e => Ret (Some ("append " +:+ Table i +:+ " row: " +:+ e))
        | None => append_rows i rows'
        end
  end.
Definition Insert_ (i : Insert) : prog (option string) :=
  match Rows i with
  | [] => Ret None
  | rows =>
      prepared ← call (PrepareBatch (insert_query i));
      match (prepared : option string) with
      | Some e => Ret (Some ("prepare " +:+ Table i +:+ " batch: " +:+ e))
      | None =>
          appended ← append_rows i rows;
          match (appended : option string) with
          | Some e => Ret (Some e)
          | None =>
              sent ← call Send;
              Ret match (sent : option string) with Some e => Some ("send " +:+ Table i +:+ " batch: " +:+ e) | None => None end
          end
      end
  end.

(** ** A database that applies batches as a whole

    The rows inserted by every statement, and the batch that is open. A batch whose
    sending failed may have been applied. *)
Record database := { inserted : gmap string (list (list value)); batch : option (string * list (list value)) }.
Definition rows_of (d : database) (query : string) : list (list value) := default [] (inserted d !! query).
Definition applied (d d' : database) : Prop :=
  ∃ query rows, batch d = Some (query, rows) ∧ d' = {| inserted := <[query := rows_of d query ++ rows]> (inserted d); batch := None |}.
Definition driver_effect (o : driver_op) (d : database) : driver_ans o → database → Prop :=
  match o with
  | PrepareBatch query => λ failed d',
      match failed with Some _ => d' = d | None => d' = {| inserted := inserted d; batch := Some (query, []) |} end
  | AppendRow row => λ failed d',
      match failed with
      | Some _ => d' = d
      | None => ∃ query rows, batch d = Some (query, rows) ∧ d' = {| inserted := inserted d; batch := Some (query, rows ++ [row]) |}
      end
  | Send => λ failed d', match failed with Some _ => d' = d ∨ applied d d' | None => applied d d' end
  end.

Lemma batch_rows_effect i rows d failed d' query before :
  batch d = Some (query, before) → exec driver_effect (append_rows i rows) d failed d' →
  inserted d' = inserted d ∧
  (failed = None → batch d' = Some (query, before ++ rows) ∧ Forall (λ row, length row = length (Columns i)) rows).
Proof.
  revert d before. induction rows as [|row rows IH]; intros d before Hb; simpl.
  { intros [-> ->]. split; [done|]. by rewrite app_nil_r. }
  destruct (Nat.eqb_spec (length row) (length (Columns i))) as [Hl|]; cbn [negb]; [|by intros [-> ->]].
  intros (err & d1 & Ha & Hrest). cbn in Ha. destruct err as [e|]; [subst d1; by destruct Hrest as [-> ->]|].
  destruct Ha as (query' & rows' & Hb' & ->). rewrite Hb in Hb'. injection Hb' as <- <-.
  destruct (λ Hb', IH _ (before ++ [row]) Hb' Hrest) as [Hi Hn]; [done|]. split; [done|]. intros Hf. destruct (Hn Hf) as [-> Hall]. rewrite <- app_assoc. split; [done|]. by constructor.
Qed.
(** What an insert adds to the rows of its statement *)
Definition added (i : Insert) (d d' : database) : Prop := inserted d' = <[insert_query i := rows_of d (insert_query i) ++ Rows i]> (inserted d).
(** An insert is applied as a whole or not at all; one that succeeds is, unless it is
    empty; one with a row of the wrong width fails and is not. *)
Lemma insert_atomic i d failed d' :
  exec driver_effect (Insert_ i) d failed d' →
  (inserted d' = inserted d ∨ added i d d') ∧ (failed = None → Rows i ≠ [] → added i d d') ∧
  (rows_fit i = false → inserted d' = inserted d ∧ failed ≠ None).
Proof.
  unfold Insert_, rows_fit, added. destruct (Rows i) as [|row rows] eqn:Hrows; [intros [-> ->]; naive_solver|].
  rewrite <- Hrows. intros (prepared & d1 & Hp & He). cbn in Hp. destruct prepared as [e|]; [subst d1; destruct He as [-> ->]; naive_solver|]. subst d1.
  apply (exec_bind _ _ (append_rows i (Rows i))) in He as (appended & d2 & Ha & He).
  destruct (λ Hb, batch_rows_effect _ _ _ _ _ (insert_query i) [] Hb Ha) as [Hi Hn]; [done|]. cbn in Hi.
  destruct appended as [e|]; [destruct He as [-> ->]; naive_solver|]. destruct (Hn eq_refl) as [Hb Hall]. cbn in Hb.
  assert (forallb (λ row, (length row =? length (Columns i))%nat) (Rows i) = true) as Hfit.
  { apply forallb_forall. intros r Hr. rewrite Forall_forall in Hall. apply Nat.eqb_eq, Hall. by apply list_elem_of_In. }
  assert (∀ d3, applied d2 d3 → inserted d3 = <[insert_query i := rows_of d (insert_query i) ++ Rows i]> (inserted d)) as Happ.
  { intros d3 (query & rows' & Hb' & ->). rewrite Hb in Hb'. injection Hb' as <- <-. cbn. unfold rows_of. by rewrite Hi. }
  destruct He as (sent & d3 & Hs & -> & ->). cbn in Hs. rewrite Hfit. destruct sent as [e|].
  - split_and!; [|done|done]. destruct Hs as [->|Hs]; [by left|right; by apply Happ].
  - split_and!; [right|intros _ _|done]; by apply Happ.
Qed.
End Store.
