(* ===== verification/Worker.v ===== *)
(** * The persistence worker at work

    What the composition of the service ([Pipeline.v]) relies on: the order of the
    worker's calls as a protocol on its lease, and what [Persist] leaves in the
    store. An insert is applied as a whole or not at all ([Store.insert_atomic]). *)
From stdpp Require Import base option list gmap strings sorting.
From Stdlib Require Import ZArith Lia.
From S2P Require Import Prelude Proto Effects Queue Persistence.

Module Worker.
Import Persistence.

(** ** The protocol of a lease

    A worker without a lease may acquire one or sleep; it then writes the batches of
    the lease, commits it if they were written, and gives it back if they were not. *)
Inductive stage := Free | Holding (l : Queue.Lease) | Written (l : Queue.Lease).
Definition may (st : stage) (o : worker_op) : Prop :=
  match o, st with
  | WAcquire _, Free | WSleep _, Free => True
  | WPersist bs, Holding l => bs = Queue.Items l
  | WRetry l', Holding l => l' = l
  | WCommit l', Written l => l' = l
  | _, _ => False
  end.
Definition next (st : stage) (ev : event worker_ans) : stage :=
  let 'existT o x := ev in
  match o return worker_ans o → stage with
  | WAcquire _ => λ x, match x with Ok l => Holding l | Err _ => Free end
  | WPersist _ => λ x, match st, x with Holding l, None => Written l | _, _ => st end
  | WRetry _ | WCommit _ => λ _, Free
  | WSleep _ => λ _, st
  end x.
Abbreviation obeys := (follows may next (λ _ _, True)).

Lemma turn_obeys c backoff : follows may next (λ _ st, st = Free) (worker_turn c backoff) Free.
Proof.
  unfold worker_turn. split; [done|]. intros [l|[|e]]; [|done..].
  split; [done|]. intros [[d|d]|]; [..|done]; (split; [done|]); intros []; [done|]. split; [done|]. by intros [].
Qed.
Lemma Run_obeys fuel c backoff : obeys (Run fuel c backoff) Free.
Proof.
  revert backoff. induction fuel as [|fuel IH]; intros backoff; cbn [Run]; [done|].
  apply follows_bind. eapply follows_mono; [|apply turn_obeys]. cbn beta. intros [b|e] st ->; [apply IH|done].
Qed.

(** ** What is stored *)
Section store.
Context `{Protobuf} (uuidSHA1 : string → string).
Implicit Types (b : Queue.Batch) (st : list Insert).

(** The inserts applied so far; one that failed may have been applied. *)
Definition store_effect (o : store_op) (st : list Insert) : store_ans o → list Insert → Prop :=
  match o with
  | StoreInsert i => λ failed st',
      match failed with None => st' = st ++ [i] | Some _ => st' = st ∨ st' = st ++ [i] end
  end.

(** A row is in the store under its table and its columns. *)
Definition stored_row st (r : mappedRow) : Prop :=
  ∃ i, i ∈ st ∧ Table i = table r ∧ Columns i = columns r ∧ values r ∈ Rows i.
(** An observation of [b] is recorded: its row is stored, or its payload has no table. *)
Definition recorded st b (o : Observation) : Prop :=
  match mapObservation uuidSHA1 b (Some o) with
  | Ok (Some r) => stored_row st r
  | Ok None => True
  | Err _ => False
  end.
Definition within b (o : Observation) : Prop := ∃ set, Queue.ObservationSet b = Some set ∧ o ∈ Observations set.
(** Every row of [i] is the row of an observation of one of the batches [P]. *)
Definition rows_from (P : Queue.Batch → Prop) (i : Insert) : Prop :=
  ∀ vs, vs ∈ Rows i → ∃ b o r, P b ∧ within b o ∧ mapObservation uuidSHA1 b (Some o) = Ok (Some r) ∧
    table r = Table i ∧ values r = vs.

Lemma stored_row_mono st st' r : (∀ i, i ∈ st → i ∈ st') → stored_row st r → stored_row st' r.
Proof. intros Hs (i & ? & ?). exists i. auto. Qed.
Lemma recorded_mono st st' b o : (∀ i, i ∈ st → i ∈ st') → recorded st b o → recorded st' b o.
Proof. intros Hs. unfold recorded. destruct (mapObservation _ _ _) as [[r|]|]; eauto using stored_row_mono. Qed.
Lemma rows_from_mono (P P' : Queue.Batch → Prop) i : (∀ b, P b → P' b) → rows_from P i → rows_from P' i.
Proof. intros HP Hi vs Hvs. destruct (Hi vs Hvs) as (b & o & r & ? & ?). exists b, o, r. auto. Qed.

(** *** The rows of batches *)
Lemma observations_rows_iff b os rows :
  observations_rows uuidSHA1 b os = Ok rows →
  (∀ o, o ∈ os → ∃ row, mapObservation uuidSHA1 b (Some o) = Ok row ∧ ∀ r, row = Some r → r ∈ rows) ∧
  (∀ r, r ∈ rows → ∃ o, o ∈ os ∧ mapObservation uuidSHA1 b (Some o) = Ok (Some r)).
Proof.
  revert rows. induction os as [|o os IH]; intros rows; simpl.
  { intros [= <-]. split; intros ? Hin; by apply not_elem_of_nil in Hin. }
  intros (row & Hrow & (rows' & Hos & Hr)%bind_Ok)%bind_Ok. injection Hr as <-. destruct (IH _ Hos) as [H1 H2]. split.
  - intros o' [->|Ho']%elem_of_cons.
    + exists row. split; [done|]. intros r ->. left.
    + destruct (H1 _ Ho') as (row' & ? & Hin). exists row'. split; [done|]. intros r Hr. apply Hin in Hr. destruct row; [by right|done].
  - intros r Hr. destruct row as [r0|].
    + apply elem_of_cons in Hr as [->|Hr]; [exists o; split; [left|done]|].
      destruct (H2 _ Hr) as (o' & ? & ?). exists o'. split; [by right|done].
    + destruct (H2 _ Hr) as (o' & ? & ?). exists o'. split; [by right|done].
Qed.
Lemma batches_rows_iff bs rows :
  batches_rows uuidSHA1 bs = Ok rows →
  (∀ b o, Some b ∈ bs → within b o → ∃ row, mapObservation uuidSHA1 b (Some o) = Ok row ∧ ∀ r, row = Some r → r ∈ rows) ∧
  (∀ r, r ∈ rows → ∃ b o, Some b ∈ bs ∧ within b o ∧ mapObservation uuidSHA1 b (Some o) = Ok (Some r)).
Proof.
  revert rows. induction bs as [|ob bs IH]; intros rows; simpl.
  { intros [= <-]. split; intros ? *; intros Hin; by apply not_elem_of_nil in Hin. }
  assert (∀ rows', batches_rows uuidSHA1 bs = Ok rows' → (∀ b o, ob = Some b → within b o → False) → rows = rows' →
    (∀ b o, Some b ∈ ob :: bs → within b o → ∃ row, mapObservation uuidSHA1 b (Some o) = Ok row ∧ ∀ r, row = Some r → r ∈ rows) ∧
    (∀ r, r ∈ rows → ∃ b o, Some b ∈ ob :: bs ∧ within b o ∧ mapObservation uuidSHA1 b (Some o) = Ok (Some r))) as Hskip.
  { intros rows' Hb Hno ->. destruct (IH _ Hb) as [H1 H2]. split.
    - intros b o [Heq|Hin]%elem_of_cons Hw; [by destruct (Hno b o)|]. by apply H1.
    - intros r (b & o & ? & ?)%H2. exists b, o. split; [by right|done]. }
  destruct ob as [b|]; [|intros Hb; by apply (Hskip rows)].
  destruct (Queue.ObservationSet b) as [set|] eqn:Hset.
  2: { intros Hb. apply (Hskip rows); [done| |done]. intros b' o [= <-] (set & Hs & _). congruence. }
  clear Hskip. intros (rows1 & Hos & (rows2 & Hbs & Hr)%bind_Ok)%bind_Ok. injection Hr as <-.
  destruct (observations_rows_iff _ _ _ Hos) as [H1 H2]. destruct (IH _ Hbs) as [H3 H4]. split.
  - intros b' o [[= <-]|Hin]%elem_of_cons Hw.
    + destruct Hw as (set' & Hs & Ho). rewrite Hset in Hs. injection Hs as <-. destruct (H1 _ Ho) as (row & ? & Hrow).
      exists row. split; [done|]. intros r ?%Hrow. apply elem_of_app. by left.
    + destruct (H3 _ _ Hin Hw) as (row & ? & Hrow). exists row. split; [done|]. intros r ?%Hrow. apply elem_of_app. by right.
  - intros r [(o & Ho & Hm)%H2|(b' & o & ? & ?)%H4]%elem_of_app.
    + exists b, o. split; [left|]. split; [by exists set|done].
    + exists b', o. split; [by right|done].
Qed.

(** *** [Persist] records every observation or reports an error *)
Lemma insert_all_wp rows (P : Queue.Batch → Prop) ts st :
  (∀ r, r ∈ rows → ∃ b o, P b ∧ within b o ∧ mapObservation uuidSHA1 b (Some o) = Ok (Some r)) →
  wp eq (λ st st', (∀ i, i ∈ st → i ∈ st') ∧ ∀ i, i ∈ st' → i ∈ st ∨ rows_from P i) store_effect
    (insert_all (group rows) ts)
    (λ err st', (∀ i, i ∈ st → i ∈ st') ∧ (err = None → ∀ r, r ∈ rows → table r ∈ ts → stored_row st' r)) st.
Proof.
  intros Hrows. revert st. induction ts as [|t ts IH]; intros st; simpl.
  { intros st' <-. split; [done|]. intros _ r _ Hr. by apply not_elem_of_nil in Hr. }
  rewrite group_lookup. destruct (table_insert rows t) as [i|] eqn:Hi.
  2: { eapply wp_mono; [|apply IH]. cbn beta. intros err st' [H1 H2]. split; [done|]. intros He r Hr [Ht|Ht]%elem_of_cons; [|auto].
       destruct (proj2 (table_insert_Some rows t)) as [i Hi']; [|congruence]. apply list_elem_of_fmap. by exists r. }
  assert (∀ r, r ∈ rows → table r = t → Table i = table r ∧ Columns i = columns r ∧ values r ∈ Rows i) as Hin.
  { intros r Hr Ht. unfold table_insert in Hi. destruct (table_rows t rows) as [|r0 rs] eqn:E; [done|]. injection Hi as <-. simpl.
    assert (r ∈ r0 :: rs) as Hr' by (rewrite <- E; by apply list_elem_of_filter).
    assert (r0 ∈ table_rows t rows) as [Ht0 Hr0]%list_elem_of_filter by (rewrite E; left).
    split_and!; [done| |by apply (list_elem_of_fmap_2 values (r0 :: rs))].
    destruct (Hrows _ Hr) as (b & o & _ & _ & Hm%mapObservation_schema). destruct (Hrows _ Hr0) as (b0 & o0 & _ & _ & Hm0%mapObservation_schema).
    rewrite Ht in Hm. rewrite Ht0 in Hm0. by eapply schema_functional. }
  assert (rows_from P i) as Hfrom.
  { intros vs Hvs. unfold table_insert in Hi. destruct (table_rows t rows) as [|r0 rs] eqn:E; [done|]. injection Hi as <-.
    apply (list_elem_of_fmap_1 values (r0 :: rs)) in Hvs as (r & -> & Hr). rewrite <- E in Hr. apply list_elem_of_filter in Hr as [Ht Hr].
    destruct (Hrows _ Hr) as (b & o & ? & ? & ?). by exists b, o, r. }
  intros st1 failed st2 <- He. assert (st2 = st ∨ st2 = st ++ [i]) as Hst by (destruct failed; auto).
  assert (∀ j, j ∈ st → j ∈ st2) as Hgrow by (intros j Hj; destruct Hst as [->| ->]; [done|apply elem_of_app; by left]).
  split; [split; [done|]|].
  { intros j Hj. destruct Hst as [->| ->]; [by left|]. apply elem_of_app in Hj as [?| ->%list_elem_of_singleton]; auto. }
  destruct failed as [e|]; [by intros st3 <-|]. eapply wp_mono; [|apply IH]. cbn beta. intros err st3 [H1 H2].
  split; [auto|]. intros Herr r Hr [Ht|Ht]%elem_of_cons; [|auto]. destruct (Hin r Hr Ht) as (? & ? & ?).
  exists i. split_and!; try done. apply H1. simpl in He. rewrite He. apply elem_of_app. right. by left.
Qed.
Lemma Persist_wp bs st :
  wp eq (λ st st', (∀ i, i ∈ st → i ∈ st') ∧ ∀ i, i ∈ st' → i ∈ st ∨ rows_from (λ b, Some b ∈ bs) i) store_effect
    (Persist uuidSHA1 bs) (λ err st', err = None → ∀ b o, Some b ∈ bs → within b o → recorded st' b o) st.
Proof.
  rewrite persist_ref. destruct (batches_rows uuidSHA1 bs) as [rows|e] eqn:Hr; [|by intros st' <-].
  destruct (batches_rows_iff _ _ Hr) as [H1 H2]. eapply wp_mono; [|by apply insert_all_wp].
  cbn beta. intros err st' [_ Hst] Herr b o Hb Ho. unfold recorded. destruct (H1 _ _ Hb Ho) as ([r|] & -> & Hin); [|done].
  apply Hst; [done|by apply Hin|]. rewrite merge_sort_Permutation, elem_of_remove_dups, list_elem_of_fmap. eauto.
Qed.
End store.
End Worker.
