(* ===== verification/Stores.v ===== *)
(** * Agent identity, the batch archive and the sequence checkpoints

    [services/ingestion/server/auth.go], [archive.go] and [checkpoint.go], with
    the parts of [net/url], [path/filepath] and [time] they use. *)
From stdpp Require Import base option list gmap strings pretty.
From Stdlib Require Import ZArith Lia Ascii String.
From S2P Require Import Prelude Proto Effects.

(** ** Identity *)

Module Auth.
Import Strings StringFacts.

(** [net/url.URL], the fields that matter here *)
Record URL := { Scheme : string; Host : string; Path : string; RawPath : string }.

Definition hex_value (c : ascii) : option Z :=
  let z := Z_of_byte c in
  if (48 <=? z) && (z <=? 57) then Some (z - 48)
  else if (97 <=? z) && (z <=? 102) then Some (z - 87)
  else if (65 <=? z) && (z <=? 70) then Some (z - 55)
  else None.
Definition percent : ascii := "%"%char.

(** [url.PathUnescape]; [None] is an [EscapeError]. *)
Fixpoint PathUnescape (s : string) : option string :=
  match s with
  | EmptyString => Some EmptyString
  | String c s' =>
      if Ascii.eqb c percent then
        match s' with
        | String a (String b rest) =>
            match hex_value a, hex_value b, PathUnescape rest with
            | Some x, Some y, Some r => Some (String (byte_of (16 * x + y)) r)
            | _, _, _ => None
            end
        | _ => None
        end
      else match PathUnescape s' with Some r => Some (String c r) | None => None end
  end.

(** [shouldEscape] in path mode, and in path-segment mode. *)
Definition alphanumeric (z : Z) : bool :=
  ((48 <=? z) && (z <=? 57)) || ((65 <=? z) && (z <=? 90)) || ((97 <=? z) && (z <=? 122)).
Definition unreserved (c : ascii) : bool :=
  alphanumeric (Z_of_byte c) || bool_decide (c ∈ ["-"; "_"; "."; "~"]%char).
Definition should_escape_path (c : ascii) : bool :=
  negb (unreserved c || bool_decide (c ∈ ["$"; "&"; "+"; ","; "/"; ":"; ";"; "="; "@"]%char)).
Definition should_escape_segment (c : ascii) : bool :=
  negb (unreserved c || bool_decide (c ∈ ["$"; "&"; "+"; ":"; "="; "@"]%char)).
Definition upper_hex (z : Z) : ascii := byte_of (if z <? 10 then 48 + z else 55 + z).
Fixpoint escape (p : ascii → bool) (s : string) : string :=
  match s with
  | EmptyString => EmptyString
  | String c s' =>
      if p c then
        String percent (String (upper_hex (Z_of_byte c / 16)) (String (upper_hex (Z_of_byte c mod 16)) (escape p s')))
      else String c (escape p s')
  end.
Definition PathEscape (s : string) : string := escape should_escape_segment s.

(** [validEncoded] in path mode *)
Definition valid_byte (c : ascii) : bool :=
  bool_decide (c ∈ ["!"; "$"; "&"; "'"; "("; ")"; "*"; "+"; ","; ";"; "="; ":"; "@"; "["; "]"; "%"]%char)
  || negb (should_escape_path c).
Fixpoint valid_encoded (s : string) : bool :=
  match s with EmptyString => true | String c s' => valid_byte c && valid_encoded s' end.
Definition EscapedPath (u : URL) : string :=
  let encoded := escape should_escape_path (Path u) in
  let fallback := if (Path u =? "*")%string then "*"%string else encoded in
  if negb (RawPath u =? "")%string && valid_encoded (RawPath u) then
    match PathUnescape (RawPath u) with
    | Some p => if (p =? Path u)%string then RawPath u else fallback
    | None => fallback
    end
  else fallback.

Definition identityTrustDomain : string := "kube-cost".
Definition slash : ascii := "/"%char.

(** [None] is [ok = false]; a nil URI is [None] too. *)
Definition parseIdentityURI (uri : option URL) : option (string * string) :=
  match uri with
  | None => None
  | Some uri =>
      if negb (Scheme uri =? "spiffe")%string || negb (Host uri =? identityTrustDomain)%string then None
      else
        match Split (Trim (EscapedPath uri) slash) slash with
        | [p0; p1; p2; p3] =>
            if negb (p0 =? "tenant")%string || negb (p2 =? "cluster")%string then None
            else match PathUnescape p1 with
                 | None => None
                 | Some tenantID =>
                     if (tenantID =? "")%string then None
                     else match PathUnescape p3 with
                          | None => None
                          | Some clusterID =>
                              if (clusterID =? "")%string then None else Some (tenantID, clusterID)
                          end
                 end
        | _ => None
        end
  end.

(** [x509.Certificate], its URI SANs *)
Record Certificate := { URIs : list (option URL) }.
Definition identity_error : string :=
  "client certificate must contain a spiffe://kube-cost/tenant/{tenant}/cluster/{cluster} URI SAN".
Fixpoint first_identity (uris : list (option URL)) : option (string * string) :=
  match uris with
  | [] => None
  | uri :: uris' =>
      match parseIdentityURI uri with Some id => Some id | None => first_identity uris' end
  end.
Definition certificateIdentity (c : Certificate) : res string (string * string) :=
  match first_identity (URIs c) with Some id => Ok id | None => Err identity_error end.

(** The peer of a stream: no peer information, an unencrypted or other
    transport, or a TLS state. *)
Record TLSInfo := { VerifiedChains : list (list Certificate); PeerCertificates : list Certificate }.
Inductive peer := NoPeer | OtherAuth | TLSPeer (info : TLSInfo).

(** The authenticators; [None] is a nil error. *)
Definition MTLSAuthenticate (p : peer) (hello : AgentHello) : option string :=
  match p with
  | NoPeer => Some "transport peer information is missing"%string
  | OtherAuth => Some "verified client certificate is required"%string
  | TLSPeer info =>
      match VerifiedChains info, PeerCertificates info with
      | _ :: _, certificate :: _ =>
          match certificateIdentity certificate with
          | Err e => Some e
          | Ok (tenantID, clusterID) =>
              if negb (tenantID =? Hello_TenantId hello)%string || negb (clusterID =? Hello_ClusterId hello)%string
              then Some "certificate identity does not match hello tenant and cluster"%string
              else None
          end
      | _, _ => Some "verified client certificate is required"%string
      end
  end.
Definition InsecureAuthenticate (p : peer) (hello : AgentHello) : option string :=
  if (TrimSpace (Hello_TenantId hello) =? "")%string || (TrimSpace (Hello_ClusterId hello) =? "")%string
  then Some "tenant_id and cluster_id are required"%string
  else None.

(** The identity a certificate carries: the first URI that parses. *)
Definition identifies (c : Certificate) (tenant cluster : string) : Prop :=
  ∃ pre uri post, URIs c = pre ++ uri :: post ∧
    Forall (λ u, parseIdentityURI u = None) pre ∧ parseIdentityURI uri = Some (tenant, cluster).

Lemma first_identity_spec uris id :
  first_identity uris = Some id ↔
  ∃ pre uri post, uris = pre ++ uri :: post ∧ Forall (λ u, parseIdentityURI u = None) pre ∧
    parseIdentityURI uri = Some id.
Proof.
  induction uris as [|u uris IH]; simpl.
  - split; [done|]. by intros ([] & ? & ? & ? & _).
  - destruct (parseIdentityURI u) as [id'|] eqn:E.
    + split.
      * intros [= ->]. by exists [], u, uris.
      * intros ([|u' pre] & uri & post & Heq & Hpre & Hid); simplify_eq/=; [done|].
        apply Forall_cons in Hpre as [? _]. congruence.
    + rewrite IH. split.
      * intros (pre & uri & post & -> & Hpre & Hid). exists (u :: pre), uri, post. by repeat constructor.
      * intros ([|u' pre] & uri & post & Heq & Hpre & Hid); simplify_eq/=.
        apply Forall_cons in Hpre as [_ ?]. eauto 10.
Qed.

(** *** A tenant and cluster survive the URI encoding *)

Definition identityURI (tenant cluster : string) : URL :=
  {| Scheme := "spiffe"; Host := identityTrustDomain;
     Path := "/tenant/" +:+ tenant +:+ "/cluster/" +:+ cluster;
     RawPath := "/tenant/" +:+ PathEscape tenant +:+ "/cluster/" +:+ PathEscape cluster |}.

Lemma byte_cases (P : ascii → bool) : forallb P (ascii_of_nat <$> seq 0 256) = true → ∀ c, P c = true.
Proof.
  intros HP c. rewrite forallb_forall in HP. apply HP, list_elem_of_In, list_elem_of_fmap.
  exists (nat_of_ascii c). rewrite ascii_nat_embedding. split; [done|]. apply elem_of_seq.
  pose proof (nat_ascii_bounded c). lia.
Qed.

(** Three bytes of an escape decode to the byte that was escaped. *)
Lemma hex_digits_decode c :
  hex_value (upper_hex (Z_of_byte c / 16)) = Some (Z_of_byte c / 16) ∧
  hex_value (upper_hex (Z_of_byte c mod 16)) = Some (Z_of_byte c mod 16) ∧
  byte_of (16 * (Z_of_byte c / 16) + Z_of_byte c mod 16) = c.
Proof.
  assert (bool_decide (hex_value (upper_hex (Z_of_byte c / 16)) = Some (Z_of_byte c / 16) ∧
    hex_value (upper_hex (Z_of_byte c mod 16)) = Some (Z_of_byte c mod 16) ∧
    byte_of (16 * (Z_of_byte c / 16) + Z_of_byte c mod 16) = c) = true) as H.
  { revert c. apply byte_cases. vm_compute. reflexivity. }
  by apply bool_decide_eq_true in H.
Qed.
Lemma unescape_escape p s t :
  p percent = true → PathUnescape (escape p s +:+ t) = String.append s <$> PathUnescape t.
Proof.
  intros Hp. induction s as [|c s IH].
  { simpl. rewrite string_app_nil_l. by destruct (PathUnescape t). }
  simpl. destruct (p c) eqn:Hc; rewrite !string_app_cons; simpl.
  - destruct (hex_digits_decode c) as (-> & -> & Hd). rewrite IH.
    destruct (PathUnescape t); simpl; [by rewrite Hd|done].
  - destruct (Ascii.eqb_spec c percent); [congruence|]. rewrite IH. by destruct (PathUnescape t).
Qed.
Lemma unescape_segment s : PathUnescape (PathEscape s) = Some s.
Proof.
  pose proof (unescape_escape should_escape_segment s "" eq_refl) as H.
  rewrite string_app_nil_r in H. unfold PathEscape. rewrite H. simpl. by rewrite string_app_nil_r.
Qed.

Lemma escape_bytes c :
  valid_byte (upper_hex (Z_of_byte c / 16)) && valid_byte (upper_hex (Z_of_byte c mod 16)) &&
  negb (Ascii.eqb (upper_hex (Z_of_byte c / 16)) slash) && negb (Ascii.eqb (upper_hex (Z_of_byte c mod 16)) slash) &&
  (should_escape_segment c || valid_byte c) && (should_escape_segment c || negb (Ascii.eqb c slash)) = true.
Proof. revert c. apply byte_cases. vm_compute. reflexivity. Qed.

Definition no_slash (s : string) : Prop := Forall (λ c, Ascii.eqb c slash = false) (list_ascii_of_string s).
Lemma segment_clean s t :
  no_slash (PathEscape s) ∧ valid_encoded (PathEscape s +:+ t) = valid_encoded t.
Proof.
  unfold no_slash, PathEscape. induction s as [|c s [IH1 IH2]]; [by split|]. simpl.
  pose proof (escape_bytes c) as Hc. rewrite !andb_true_iff, !negb_true_iff, !orb_true_iff in Hc.
  destruct Hc as (((((H1 & H2) & H3) & H4) & H5) & H6).
  destruct (should_escape_segment c); rewrite ?string_app_cons; simpl.
  - rewrite H1, H2, IH2. split; [|done]. by repeat constructor.
  - destruct H5 as [?|H5]; [done|]. destruct H6 as [?|H6]; [done|]. rewrite H5, IH2.
    rewrite negb_true_iff in H6. split; [|done]. by constructor.
Qed.
Lemma PathEscape_empty s : s ≠ EmptyString → PathEscape s ≠ EmptyString.
Proof. destruct s; [done|]. intros _. unfold PathEscape. simpl. by destruct (should_escape_segment _). Qed.

Lemma split_list_clean l :
  Forall (λ c, Ascii.eqb c slash = false) l → split_list slash l = [l].
Proof. induction 1 as [|c l Hc _ IH]; simpl; [done|]. by rewrite Hc, IH. Qed.
Lemma split_list_sep l r :
  Forall (λ c, Ascii.eqb c slash = false) l → split_list slash (l ++ slash :: r) = l :: split_list slash r.
Proof. induction 1 as [|c l Hc _ IH]; simpl; [done|]. by rewrite Hc, IH. Qed.
Lemma list_ascii_app s t : list_ascii_of_string (s +:+ t) = list_ascii_of_string s ++ list_ascii_of_string t.
Proof. induction s as [|c s IH]; [done|]. rewrite string_app_cons. simpl. by rewrite IH. Qed.

(** Trimming the leading slash and splitting an identity path. *)
Lemma identity_path_split t c :
  no_slash t → no_slash c → c ≠ EmptyString →
  Split (Trim ("/tenant/" +:+ t +:+ "/cluster/" +:+ c) slash) slash = ["tenant"; t; "cluster"; c]%string.
Proof.
  intros Ht Hc Hne. unfold Split, Trim. rewrite list_ascii_of_string_of_list_ascii.
  assert (∀ l x, Forall (λ c, Ascii.eqb c slash = false) l → l ≠ [] →
    trim_byte slash (reverse (x ++ l)) = reverse (x ++ l)) as Htrim.
  { intros l x Hl Hl0. destruct l as [|a l' _] using rev_ind; [done|].
    rewrite app_assoc, reverse_snoc. simpl. apply Forall_app in Hl as [_ Ha]. inversion Ha; simplify_eq.
    by case_match. }
  rewrite !list_ascii_app. cbn [list_ascii_of_string app trim_byte]. 
  change (Ascii.eqb "/" slash) with true. cbn iota.
  change (Ascii.eqb "t" slash) with false. cbn iota.
  set (body := _ :: _).
  assert (body = (list_ascii_of_string "tenant/" ++ list_ascii_of_string t ++ list_ascii_of_string "/cluster/") ++ list_ascii_of_string c) as ->
    by (unfold body; by rewrite <- !app_assoc).
  rewrite Htrim, reverse_involutive; [|done|by destruct c].
  rewrite <- !app_assoc.
  change (list_ascii_of_string "tenant/") with (list_ascii_of_string "tenant" ++ [slash]).
  change (list_ascii_of_string "/cluster/") with (slash :: list_ascii_of_string "cluster" ++ [slash]).
  rewrite <- !app_assoc. simpl app at 2.
  rewrite split_list_sep by (by repeat constructor).
  rewrite split_list_sep by done.
  change (_ :: _ :: _ :: _ :: _ :: _ :: _ :: slash :: list_ascii_of_string c)
    with (list_ascii_of_string "cluster" ++ slash :: list_ascii_of_string c).
  rewrite split_list_sep by (by repeat constructor). rewrite split_list_clean by done.
  simpl. by rewrite !string_of_list_ascii_of_string.
Qed.

(** Certificate identities round-trip: a tenant and a cluster with any bytes,
    percent-encoded into the two segments of a SPIFFE URI, are recovered by
    [parseIdentityURI]. *)
Theorem identity_uri_roundtrip tenant cluster :
  tenant ≠ EmptyString → cluster ≠ EmptyString →
  parseIdentityURI (Some (identityURI tenant cluster)) = Some (tenant, cluster).
Proof.
  intros Ht Hc. unfold parseIdentityURI. cbn [Scheme Host identityURI].
  assert (EscapedPath (identityURI tenant cluster) = RawPath (identityURI tenant cluster)) as ->.
  { unfold EscapedPath. cbn [RawPath Path identityURI]. set (raw := ("/tenant/" +:+ _)%string).
    assert (PathUnescape raw = Some ("/tenant/" +:+ tenant +:+ "/cluster/" +:+ cluster)%string) as ->.
    { unfold raw, PathEscape. rewrite !string_app_cons, !string_app_nil_l. simpl.
      rewrite unescape_escape by done. simpl. fold (PathEscape cluster). by rewrite unescape_segment. }
    assert (valid_encoded raw = true) as ->.
    { unfold raw. rewrite !string_app_cons, !string_app_nil_l. simpl.
      rewrite (proj2 (segment_clean _ _)). simpl.
      pose proof (proj2 (segment_clean cluster "")) as Hv. by rewrite string_app_nil_r in Hv. }
    by rewrite String.eqb_refl. }
  cbn [RawPath identityURI].
  rewrite identity_path_split;
    [|apply (segment_clean _ "")|apply (segment_clean _ "")|by apply PathEscape_empty].
  rewrite !unescape_segment. simpl.
  by destruct (String.eqb_spec tenant ""), (String.eqb_spec cluster "").
Qed.
Lemma identity_uri_roundtrip_witness :
  parseIdentityURI (Some (identityURI "acme/eu west" "prod%1")) = Some ("acme/eu west", "prod%1")%string.
Proof. by apply identity_uri_roundtrip. Defined.

(** Mutual TLS admits a hello exactly when the peer presented a verified chain
    and the first identity URI of its leaf certificate names the tenant and the
    cluster of the hello, both non-empty. *)
Theorem mtls_admits_iff p hello :
  MTLSAuthenticate p hello = None ↔
  ∃ info leaf rest, p = TLSPeer info ∧ VerifiedChains info ≠ [] ∧
    PeerCertificates info = leaf :: rest ∧
    identifies leaf (Hello_TenantId hello) (Hello_ClusterId hello).
Proof.
  unfold MTLSAuthenticate, certificateIdentity, identifies. split.
  - intros H. destruct p as [| |info]; [done|done|].
    destruct (VerifiedChains info) eqn:Hv; [done|]. destruct (PeerCertificates info) as [|leaf rest] eqn:Hp; [done|].
    exists info, leaf, rest. rewrite Hv. split_and!; [done|done|done|].
    destruct (first_identity (URIs leaf)) as [[t c]|] eqn:Hf; [|done].
    apply first_identity_spec. rewrite Hf.
    destruct (String.eqb_spec t (Hello_TenantId hello)), (String.eqb_spec c (Hello_ClusterId hello)); simplify_eq/=; done.
  - intros (info & leaf & rest & -> & Hv & -> & Hid). destruct (VerifiedChains info); [done|].
    apply first_identity_spec in Hid as ->. by rewrite !String.eqb_refl.
Qed.

End Auth.

(** ** Paths *)

Module Paths.
Import Strings.

Definition slash : ascii := "/"%char.

(** [filepath.Clean] on the components of a path: empty and [.] components
    disappear, [..] removes the component before it. The stack is reversed. *)
Definition clean_step (rooted : bool) (stack : list string) (c : string) : list string :=
  if (c =? "")%string || (c =? ".")%string then stack
  else if (c =? "..")%string then
    match stack with
    | top :: rest => if (top =? "..")%string then c :: stack else rest
    | [] => if rooted then [] else [c]
    end
  else c :: stack.
Definition is_rooted (p : string) : bool :=
  match p with String c _ => Ascii.eqb c slash | EmptyString => false end.
Definition clean_components (p : string) : list string :=
  reverse (foldl (clean_step (is_rooted p)) [] (Split p slash)).
Definition Clean (p : string) : string :=
  let body := Join (clean_components p) "/" in
  if is_rooted p then ("/" +:+ body)%string
  else if (body =? "")%string then "."%string else body.

(** [filepath.Join] drops leading empty elements and cleans the rest. *)
Fixpoint JoinPath (elems : list string) : string :=
  match elems with
  | [] => EmptyString
  | e :: rest => if (e =? "")%string then JoinPath rest else Clean (Join elems "/")
  end.

(** [filepath.Dir] *)
Definition Dir (p : string) : string :=
  match reverse (Split p slash) with
  | [] | [_] => "."%string
  | _ :: rest => Clean (Join (reverse rest) "/" +:+ "/")%string
  end.

(** [safePathElement] *)
Definition replace_byte (c : ascii) : ascii :=
  if bool_decide (c ∈ ["/"%char; "\"%char; ":"%char; byte_of 0]) then "_"%char else c.
Definition safePathElement (value : string) : string :=
  let value := TrimSpace value in
  if (value =? "")%string then "_"%string
  else string_of_list_ascii (replace_byte <$> list_ascii_of_string value).

(** [%0nd] of an unsigned number and [Time.Format] with ["2006"], ["01"], ["02"]. *)
Definition zero_pad (n : nat) (z : Z) : string :=
  let d := dec z in string_of_list_ascii (replicate (n - String.length d) "0"%char) +:+ d.

(** Year, month and day of a day number (days since 1 January of year 1), by
    400-year cycles that start on 1 March of year 0. *)
Definition civil (days : Z) : Z * Z * Z :=
  let z := days + 306 in
  let era := z / 146097 in
  let doe := z mod 146097 in
  let yoe := (doe - doe / 1460 + doe / 36524 - doe / 146096) / 365 in
  let doy := doe - (365 * yoe + yoe / 4 - yoe / 100) in
  let mp := (5 * doy + 2) / 153 in
  let d := doy - (153 * mp + 2) / 5 + 1 in
  let m := if mp <? 10 then mp + 3 else mp - 9 in
  (yoe + era * 400 + (if m <=? 2 then 1 else 0), m, d).
Definition date (t : Time) : Z * Z * Z := civil (t / (24 * Hour)).
Definition format_year (t : Time) : string := zero_pad 4 (date t).1.1.
Definition format_month (t : Time) : string := zero_pad 2 (date t).1.2.
Definition format_day (t : Time) : string := zero_pad 2 (date t).2.
(** [Format(time.RFC3339)] of a UTC time *)
Definition rfc3339 (t : Time) : string :=
  let secs := t / Second in
  format_year t +:+ "-" +:+ format_month t +:+ "-" +:+ format_day t +:+ "T"
  +:+ zero_pad 2 ((secs / 3600) mod 24) +:+ ":" +:+ zero_pad 2 ((secs / 60) mod 60)
  +:+ ":" +:+ zero_pad 2 (secs mod 60) +:+ "Z".

Example date_epoch : date unix_epoch = (1970, 1, 1).
Proof. vm_compute. reflexivity. Qed.
Example date_leap : date (unix_epoch + 1709210096 * Second) = (2024, 2, 29).
Proof. vm_compute. reflexivity. Qed.

(** A component that [Clean] keeps as it is. *)
Definition plain (c : string) : Prop :=
  c ≠ ""%string ∧ c ≠ "."%string ∧ c ≠ ".."%string ∧
  Forall (λ a, Ascii.eqb a slash = false) (list_ascii_of_string c).

Lemma clean_plain rooted stack cs :
  Forall plain cs → foldl (clean_step rooted) stack cs = reverse cs ++ stack.
Proof.
  intros Hcs. revert stack. induction Hcs as [|c cs (H1 & H2 & H3 & _) _ IH]; intros stack; [done|].
  simpl. rewrite IH. unfold clean_step.
  destruct (String.eqb_spec c ""), (String.eqb_spec c "."), (String.eqb_spec c ".."); try done.
  simpl. by rewrite reverse_cons, <- app_assoc.
Qed.
Lemma split_list_app l r : split_list slash (l ++ slash :: r) = split_list slash l ++ split_list slash r.
Proof.
  induction l as [|a l IH]; [done|]. simpl. destruct (Ascii.eqb a slash); [by rewrite IH|].
  rewrite IH. destruct (split_list slash l) eqn:E; [|done].
  destruct l as [|b l]; [done|]. simpl in E. by repeat case_match.
Qed.
Lemma Split_join_cons (x y : string) : Split (x +:+ "/" +:+ y) slash = Split x slash ++ Split y slash.
Proof. unfold Split. by rewrite !Auth.list_ascii_app, <- fmap_app, <- split_list_app. Qed.
Lemma Split_plain c : plain c → Split c slash = [c].
Proof.
  intros (_ & _ & _ & Hc). unfold Split. rewrite Auth.split_list_clean by done.
  simpl. by rewrite string_of_list_ascii_of_string.
Qed.
Lemma Split_Join x cs : Forall plain cs → Split (Join (x :: cs) "/") slash = Split x slash ++ cs.
Proof.
  intros Hcs. revert x. induction Hcs as [|c cs Hc _ IH]; intros x.
  - simpl. by rewrite app_nil_r.
  - change (Join (x :: c :: cs) "/") with (x +:+ "/" +:+ Join (c :: cs) "/")%string.
    by rewrite Split_join_cons, IH, (Split_plain c Hc).
Qed.
Lemma is_rooted_Join x cs : x ≠ EmptyString → is_rooted (Join (x :: cs) "/") = is_rooted x.
Proof. destruct x as [|a x]; [done|]. intros _. by destruct cs. Qed.

(** Joining plain components below a root keeps the root's components as a prefix. *)
Definition render (rooted : bool) (cs : list string) : string :=
  let body := Join cs "/" in
  if rooted then ("/" +:+ body)%string else if (body =? "")%string then "."%string else body.
Lemma JoinPath_below root cs :
  root ≠ EmptyString → Forall plain cs →
  JoinPath (root :: cs) = render (is_rooted root) (clean_components root ++ cs).
Proof.
  intros Hr Hcs. cbn [JoinPath]. destruct (String.eqb_spec root ""); [done|].
  assert (clean_components (Join (root :: cs) "/") = clean_components root ++ cs) as Hc.
  { unfold clean_components. rewrite Split_Join, is_rooted_Join by done.
    rewrite foldl_app, clean_plain by done. by rewrite reverse_app, reverse_involutive. }
  unfold Clean, render. by rewrite Hc, is_rooted_Join.
Qed.

Lemma safe_no_slash v : Forall (λ a, Ascii.eqb a slash = false) (list_ascii_of_string (safePathElement v)).
Proof.
  unfold safePathElement. case_match; [by repeat constructor|].
  rewrite list_ascii_of_string_of_list_ascii. apply Forall_fmap, Forall_forall. intros c _.
  unfold compose, replace_byte. case_bool_decide as Hc; [done|].
  destruct (Ascii.eqb_spec c slash) as [->|]; [|done]. exfalso. apply Hc. left.
Qed.
Lemma safe_nonempty v : safePathElement v ≠ EmptyString.
Proof.
  unfold safePathElement. destruct (String.eqb_spec (TrimSpace v) ""); [done|].
  by destruct (TrimSpace v).
Qed.
(** A sanitised element is one component unless it is [.] or [..]. *)
Lemma safe_plain v : safePathElement v ≠ "."%string → safePathElement v ≠ ".."%string → plain (safePathElement v).
Proof. intros ? ?. split_and!; [apply safe_nonempty|done|done|apply safe_no_slash]. Qed.

(** Numbers are plain components. *)
Definition number_byte (c : ascii) : bool := negb (Ascii.eqb c slash) && negb (Ascii.eqb c ".").
Definition number_like (s : string) : Prop := forallb number_byte (list_ascii_of_string s) = true.
Lemma pretty_N_char_number x : number_byte (pretty_N_char x) = true.
Proof. unfold pretty_N_char. by repeat case_match. Qed.
Lemma pretty_N_go_number x s : number_like s → number_like (pretty_N_go x s).
Proof.
  revert s. induction (N.lt_wf_0 x) as [x _ IH]; intros s Hs.
  destruct (decide (x = 0)%N) as [->|Hx]; [by rewrite pretty_N_go_0|].
  rewrite pretty_N_go_step by lia. apply IH; [apply N.div_lt; lia|].
  unfold number_like in *. simpl. by rewrite pretty_N_char_number, Hs.
Qed.
Lemma dec_number z : number_like (dec z).
Proof.
  assert (∀ p, number_like (pretty (Npos p))) as Hp.
  { intros p. unfold pretty, pretty_N. case_decide; [done|]. by apply pretty_N_go_number. }
  unfold dec, pretty, pretty_Z. destruct z; [done|apply Hp|].
  unfold number_like. rewrite StringFacts.string_app_cons, StringFacts.string_app_nil_l. simpl. apply Hp.
Qed.
Lemma number_like_app s t : number_like s → number_like t → number_like (s +:+ t).
Proof. unfold number_like. rewrite Auth.list_ascii_app, forallb_app. by intros -> ->. Qed.
Lemma zero_pad_number n z : number_like (zero_pad n z).
Proof.
  apply number_like_app; [|apply dec_number]. unfold number_like.
  rewrite list_ascii_of_string_of_list_ascii. induction (n - String.length (dec z))%nat; [done|simpl; done].
Qed.
Lemma pretty_N_go_nonempty x s : s ≠ EmptyString → pretty_N_go x s ≠ EmptyString.
Proof.
  revert s. induction (N.lt_wf_0 x) as [x _ IH]; intros s Hs.
  destruct (decide (x = 0)%N) as [->|Hx]; [by rewrite pretty_N_go_0|].
  rewrite pretty_N_go_step by lia. apply IH; [apply N.div_lt; lia|done].
Qed.
Lemma dec_nonempty z : dec z ≠ EmptyString.
Proof.
  assert (∀ p, pretty (Npos p) ≠ EmptyString) as Hp.
  { intros p. unfold pretty, pretty_N. case_decide; [done|].
    rewrite pretty_N_go_step by lia. by apply pretty_N_go_nonempty. }
  unfold dec, pretty, pretty_Z. destruct z; [done|apply Hp|done].
Qed.
Lemma append_nonempty (s t : string) : t ≠ EmptyString → (s +:+ t)%string ≠ EmptyString.
Proof. by destruct s. Qed.
Lemma zero_pad_nonempty n z : zero_pad n z ≠ EmptyString.
Proof. apply append_nonempty, dec_nonempty. Qed.

(** A number followed by anything without a slash is one component. *)
Lemma plain_numbered s t :
  number_like s → s ≠ EmptyString → Forall (λ a, Ascii.eqb a slash = false) (list_ascii_of_string t) →
  plain (s +:+ t).
Proof.
  intros Hn Hne Ht. destruct s as [|c s]; [done|]. pose proof Hn as Hn'.
  unfold number_like in Hn'. simpl in Hn'. apply andb_true_iff in Hn' as [Hc _].
  split_and!; [done|intros [= -> _]; done|intros [= -> _]; done|].
  rewrite Auth.list_ascii_app. apply Forall_app. split; [|done].
  unfold number_like in Hn. rewrite forallb_forall in Hn. apply Forall_forall.
  intros a Ha%list_elem_of_In%Hn. unfold number_byte in Ha. by destruct (Ascii.eqb a slash).
Qed.
Lemma zero_pad_plain n z : plain (zero_pad n z).
Proof.
  rewrite <- (StringFacts.string_app_nil_r (zero_pad n z)).
  apply plain_numbered; [apply zero_pad_number|apply zero_pad_nonempty|constructor].
Qed.

End Paths.

(** ** Files *)

Module Files.
Import Paths.

Record checkpointFile := { TenantID : string; ClusterID : string; PersistedThrough : Z }.

(** What a file holds: bytes, or the JSON document of a checkpoint. *)
Inductive content := Bytes (data : string) | Json (c : checkpointFile).

(** The calls to the context and to [os]. *)
Inductive fs_op :=
| CtxErr
| MkdirAll (dir : string)
| WriteFile (name : string) (data : content)
| Rename (old new : string)
| ReadFile (name : string).
Inductive read_result := Data (c : content) | NotExist | ReadError (e : string).
Definition fs_ans (o : fs_op) : Type :=
  match o with ReadFile _ => read_result | _ => option string end.

(** The file system: a failed write may leave anything in the file it writes, a
    rename is atomic. *)
Abbreviation fs := (gmap string content) (only parsing).
Definition fs_effect (o : fs_op) (st : fs) : fs_ans o → fs → Prop :=
  match o with
  | CtxErr | MkdirAll _ => λ _ st', st' = st
  | WriteFile n c => λ e st',
      match e with
      | None => st' = <[n := c]> st
      | Some _ => st' = st ∨ ∃ x, st' = <[n := x]> st
      end
  | Rename a b => λ e st',
      match e with
      | None => ∃ x, st !! a = Some x ∧ st' = <[b := x]> (delete a st)
      | Some _ => st' = st
      end
  | ReadFile n => λ r st', st' = st ∧
      match r with Data c => st !! n = Some c | NotExist => st !! n = None | ReadError _ => True end
  end.

(** *** The archive *)

Record ArchiveRecord := {
  Rec_TenantID : string;
  Rec_ClusterID : string;
  Rec_AgentInstance : string;
  Rec_SessionID : string;
  Rec_ReceivedAt : Time;
  Rec_Batch : option ObservationBatch
}.

Definition NoopArchive (r : ArchiveRecord) : option string := None.

(** [NewFileArchiver] and [NewFileCheckpointStore] differ in their messages only. *)
Definition NewFileArchiver (root : string) : prog fs_ans (res string string) :=
  let root := TrimSpace root in
  if (root =? "")%string then Ret (Err "archive root is required"%string)
  else (made ← call (MkdirAll root);
        match made with
        | Some e => Ret (Err ("create archive root: " +:+ e)%string)
        | None => Ret (Ok root)
        end).

Definition archive_path (root : string) (received : Time) (tenant cluster : string) (b : ObservationBatch) : string :=
  let fileName := (zero_pad 20 (FirstSequence b) +:+ "-" +:+ zero_pad 20 (LastSequence b) +:+ "-"
                   +:+ safePathElement (BatchId b) +:+ ".pb")%string in
  JoinPath [root; safePathElement tenant; safePathElement cluster;
            format_year received; format_month received; format_day received; fileName].

Section archive.
Context `{Protobuf}.
Definition Archive (root : string) (r : ArchiveRecord) : prog fs_ans (option string) :=
  ctx ← call CtxErr;
  match ctx with
  | Some e => Ret (Some e)
  | None =>
      match Rec_Batch r with
      | None => Ret (Some "archive batch is required"%string)
      | Some b =>
          match marshalBatch b with
          | None => Ret (Some "marshal archive batch"%string)
          | Some data =>
              let path := archive_path root (Rec_ReceivedAt r) (Rec_TenantID r) (Rec_ClusterID r) b in
              made ← call (MkdirAll (Dir path));
              match made with
              | Some e => Ret (Some ("create archive partition: " +:+ e)%string)
              | None =>
                  written ← call (WriteFile path (Bytes data));
                  match written with
                  | Some e => Ret (Some ("write archive batch: " +:+ e)%string)
                  | None => Ret None
                  end
              end
          end
      end
  end.
End archive.

(** *** The checkpoint store *)

(** [MemoryCheckpointStore] remembers nothing. *)
Definition MemoryLoad (tenant cluster : string) : res string Z := Ok 0.
Definition MemorySave (tenant cluster : string) (sequence : Z) : option string := None.

Definition NewFileCheckpointStore (root : string) : prog fs_ans (res string string) :=
  let root := TrimSpace root in
  if (root =? "")%string then Ret (Err "checkpoint root is required"%string)
  else (made ← call (MkdirAll root);
        match made with
        | Some e => Ret (Err ("create checkpoint root: " +:+ e)%string)
        | None => Ret (Ok root)
        end).

Definition checkpoint_path (root tenant cluster : string) : string :=
  JoinPath [root; safePathElement tenant; safePathElement cluster; "checkpoint.json"%string].

Section checkpoint.
(** [json.Unmarshal] into a checkpoint, on bytes that [Save] did not write. *)
Context (unmarshal : string → res string checkpointFile).

Definition decode (c : content) : res string checkpointFile :=
  match c with Json c => Ok c | Bytes s => unmarshal s end.

Definition Load (root tenant cluster : string) : prog fs_ans (res string Z) :=
  ctx ← call CtxErr;
  match ctx with
  | Some e => Ret (Err e)
  | None =>
      data ← call (ReadFile (checkpoint_path root tenant cluster));
      match data with
      | NotExist => Ret (Ok 0)
      | ReadError e => Ret (Err ("read checkpoint: " +:+ e)%string)
      | Data c =>
          match decode c with
          | Err e => Ret (Err ("decode checkpoint: " +:+ e)%string)
          | Ok checkpoint => Ret (Ok (PersistedThrough checkpoint))
          end
      end
  end.
End checkpoint.

Definition Save (root tenant cluster : string) (sequence : Z) : prog fs_ans (option string) :=
  ctx ← call CtxErr;
  match ctx with
  | Some e => Ret (Some e)
  | None =>
      let path := checkpoint_path root tenant cluster in
      made ← call (MkdirAll (Dir path));
      match made with
      | Some e => Ret (Some ("create checkpoint partition: " +:+ e)%string)
      | None =>
          let data := Json {| TenantID := tenant; ClusterID := cluster; PersistedThrough := sequence |} in
          let temp := (path +:+ ".tmp")%string in
          written ← call (WriteFile temp data);
          match written with
          | Some e => Ret (Some ("write checkpoint: " +:+ e)%string)
          | None =>
              renamed ← call (Rename temp path);
              match renamed with
              | Some e => Ret (Some ("replace checkpoint: " +:+ e)%string)
              | None => Ret None
              end
          end
      end
  end.

(** *** Properties *)

Lemma temp_ne (p : string) : (p +:+ ".tmp")%string ≠ p.
Proof.
  intros Heq. apply (f_equal (λ s, List.length (list_ascii_of_string s))) in Heq.
  rewrite Auth.list_ascii_app, length_app in Heq. simpl in Heq. lia.
Qed.

Lemma save_states root tenant cluster sequence st :
  let path := checkpoint_path root tenant cluster in
  let document := Json {| TenantID := tenant; ClusterID := cluster; PersistedThrough := sequence |} in
  always fs_effect (Save root tenant cluster sequence)
    (λ st', (st' !! path = st !! path ∨ st' !! path = Some document) ∧
            ∀ q, q ≠ path → q ≠ (path +:+ ".tmp")%string → st' !! q = st !! q)
    (λ r st', r = None → st' !! path = Some document) st.
Proof.
  intros path document. pose proof (temp_ne path) as Htmp. unfold Save. fold path document.
  generalize dependent path. intros path Htmp. generalize (Dir path). intros dir. simpl.
  split; [auto|]. intros ctx st1 ->. destruct ctx; simpl; [by split; [auto|]|].
  split; [auto|]. intros made st1 ->. destruct made; simpl; [by split; [auto|]|].
  split; [auto|]. intros written st1 Hw. destruct written; simpl.
  { split; [|done]. destruct Hw as [->|[x ->]]; [by auto|].
    split; [left; by rewrite lookup_insert_ne|]. intros. by rewrite lookup_insert_ne. }
  subst st1. split.
  { split; [left; by rewrite lookup_insert_ne|]. intros. by rewrite lookup_insert_ne. }
  intros renamed st2 Hr. destruct renamed; simpl.
  { subst. split; [|done]. split; [left; by rewrite lookup_insert_ne|].
    intros. by rewrite lookup_insert_ne. }
  destruct Hr as (x & Hx & ->). rewrite lookup_insert_eq in Hx. injection Hx as <-.
  rewrite !lookup_insert_eq. split; [|done]. split; [by right|]. intros q Hq1 Hq2.
  by rewrite lookup_insert_ne, lookup_delete_ne, lookup_insert_ne.
Qed.

(** Saving a checkpoint is atomic: at every point of [Save], wherever it fails
    or the process stops, the checkpoint file holds what it held before or the
    complete new document, no file but it and its temporary changes, and when
    [Save] reports success the new document is in place. *)
Lemma save_atomic root tenant cluster sequence st :
  let path := checkpoint_path root tenant cluster in
  let document := Json {| TenantID := tenant; ClusterID := cluster; PersistedThrough := sequence |} in
  always fs_effect (Save root tenant cluster sequence)
    (λ st', (st' !! path = st !! path ∨ st' !! path = Some document) ∧
            ∀ q, q ≠ path → q ≠ (path +:+ ".tmp")%string → st' !! q = st !! q)
    (λ r st', r = None → st' !! path = Some document) st.
Proof. apply save_states. Qed.

(** What the checkpoint file of a cluster says. *)
Definition recorded unmarshal (st : fs) (root tenant cluster : string) : res string Z :=
  match st !! checkpoint_path root tenant cluster with
  | None => Ok 0
  | Some c => PersistedThrough <$> decode unmarshal c
  end.
Lemma load_reads unmarshal root tenant cluster st :
  always fs_effect (Load unmarshal root tenant cluster) (λ s, s = st)
    (λ r _, ∀ v, r = Ok v → recorded unmarshal st root tenant cluster = Ok v) st.
Proof.
  unfold Load, recorded. simpl. split; [done|]. intros ctx st1 ->. destruct ctx; simpl; [done|].
  split; [done|]. intros data st1 [-> Hd]. destruct data as [c| |]; simpl; [|split; [done|]|done].
  - rewrite Hd. simpl. destruct (decode unmarshal c); simpl; (split; [done|]); by intros ? [= <-].
  - rewrite Hd. by intros ? [= <-].
Qed.

(** [Save], and [Load] by the next process if it succeeded. *)
Definition save_then_load unmarshal (root tenant cluster : string) (sequence : Z)
    : prog fs_ans (option (res string Z)) :=
  saved ← Save root tenant cluster sequence;
  match saved with
  | Some _ => Ret None
  | None => loaded ← Load unmarshal root tenant cluster; Ret (Some loaded)
  end.

(** C9: a checkpoint that was saved is the one that is loaded, whatever else fails:
    no execution of a successful [Save] followed by a [Load] returns another
    sequence, and all along the file on disk says either the old sequence or the
    new one. *)
Theorem save_load_roundtrip unmarshal root tenant cluster sequence st :
  always fs_effect (save_then_load unmarshal root tenant cluster sequence)
    (λ st', recorded unmarshal st' root tenant cluster = recorded unmarshal st root tenant cluster ∨
            recorded unmarshal st' root tenant cluster = Ok sequence)
    (λ r _, ∀ v, r = Some (Ok v) → v = sequence) st.
Proof.
  unfold save_then_load. eapply always_bind; [apply save_states|..].
  - intros st' [[He|He] _]; unfold recorded; rewrite He; auto.
  - intros saved st' Hs. destruct saved as [e|].
    { intros [Hi _]. simpl. split; [|done]. destruct Hi as [He|He]; unfold recorded; rewrite He; auto. }
    intros _. specialize (Hs eq_refl).
    assert (recorded unmarshal st' root tenant cluster = Ok sequence) as Hr
      by (unfold recorded; by rewrite Hs).
    eapply always_bind; [apply load_reads|..].
    + intros ? ->. auto.
    + intros loaded ? Hl ->. simpl. split; [auto|]. intros v [= ->]. specialize (Hl v eq_refl). congruence.
Qed.

(** An archived batch lies below the archive root, in the partition of its
    tenant, cluster and day, unless a tenant or cluster id is [.] or [..] (after
    trimming), the two names that are not sanitised. *)
Lemma archive_path_below_root root received tenant cluster b :
  root ≠ EmptyString →
  Forall (λ v, safePathElement v ≠ "."%string ∧ safePathElement v ≠ ".."%string) [tenant; cluster] →
  ∃ fileName,
  archive_path root received tenant cluster b =
  render (is_rooted root) (clean_components root ++
    [safePathElement tenant; safePathElement cluster;
     format_year received; format_month received; format_day received; fileName]).
Proof.
  intros Hr Hs. rewrite !Forall_cons in Hs. destruct Hs as ([Ht1 Ht2] & [Hc1 Hc2] & _).
  eexists. unfold archive_path. rewrite JoinPath_below; [done|done|].
  apply Forall_cons; split; [by apply safe_plain|]. apply Forall_cons; split; [by apply safe_plain|].
  do 3 (apply Forall_cons; split; [apply zero_pad_plain|]). apply Forall_singleton.
  apply plain_numbered; [apply zero_pad_number|apply zero_pad_nonempty|].
  rewrite !Auth.list_ascii_app, !Forall_app. split_and!; try (by repeat constructor); [|apply safe_no_slash].
  pose proof (zero_pad_plain 20 (LastSequence b)) as (_ & _ & _ & Hp). exact Hp.
Qed.
Definition sample_archived : ObservationBatch :=
  {| BatchId := "c/1"; FirstSequence := 1; LastSequence := 12; CreatedAt := None;
     PayloadChecksum := ""; Observations := [] |}.
Lemma archive_path_below_root_witness :
  ∃ fileName, archive_path "/data/archive" unix_epoch "acme/eu" "prod" sample_archived =
    render true ["data"; "archive"; "acme_eu"; "prod"; "1970"; "01"; "01"; fileName]%string.
Proof.
  apply (archive_path_below_root "/data/archive" unix_epoch "acme/eu" "prod" sample_archived); [done|].
  repeat constructor; vm_compute; discriminate.
Defined.

(** The archive can leave its root: a cluster id of [..] (with a tenant of the
    same kind) moves the file out of the configured directory. *)
Lemma archive_escapes_root :
  archive_path "/data/archive" unix_epoch ".." ".." sample_archived =
  "/1970/01/01/00000000000000000001-00000000000000000012-c_1.pb"%string.
Proof. vm_compute. reflexivity. Qed.

(** Two tenants whose ids differ only in a sanitised byte share one checkpoint
    file: a sequence saved for the first is what the second starts from. *)
Lemma checkpoint_paths_collide unmarshal root cluster sequence st :
  always fs_effect (Save root "acme/eu" cluster sequence) (λ _, True)
    (λ r st', r = None → recorded unmarshal st' root "acme_eu" cluster = Ok sequence) st.
Proof.
  eapply always_mono; [apply save_states|done|]. cbn beta. intros r st' Hs Hr.
  unfold recorded. change (checkpoint_path root "acme_eu" cluster) with (checkpoint_path root "acme/eu" cluster).
  by rewrite (Hs Hr).
Qed.

End Files.
