(* ===== verification/Server.v ===== *)
(** * The ingestion server

    [services/ingestion/server/server.go] and [options.go]: validation of
    hellos and batches, the per-cluster sequence watermark, the single active
    stream per cluster, and the two handlers [handleBatch] and [Connect] as
    programs over the operations they call (the stream, the clock, the archive,
    the queue, the checkpoint store and the locked accesses to the server's
    maps). *)
From stdpp Require Import base option list gmap strings.
From Stdlib Require Import ZArith Lia Ascii.
From S2P Require Import Prelude Crypto Proto Effects Queue Persistence Stores.

Module Server.
Import Strings.

Definition protocolMajor : Z := 1.

Record Config := {
  MaxBatchRecords : Z;
  MaxBatchBytes : Z;
  HeartbeatInterval : Duration;
  BackpressureDelay : Duration;
  HighWatermarkPercent : Z
}.

(** [New]'s defaults *)
Definition New (c : Config) : Config :=
  {| MaxBatchRecords := if MaxBatchRecords c =? 0 then 500 else MaxBatchRecords c;
     MaxBatchBytes := if MaxBatchBytes c =? 0 then 4 * 2 ^ 20 else MaxBatchBytes c;
     HeartbeatInterval := if HeartbeatInterval c <=? 0 then 30 * Second else HeartbeatInterval c;
     BackpressureDelay := if BackpressureDelay c <=? 0 then Second else BackpressureDelay c;
     HighWatermarkPercent :=
       if (HighWatermarkPercent c <=? 0) || (100 <? HighWatermarkPercent c) then 80 else HighWatermarkPercent c |}.

(** The options of [New]: a nil archiver or store leaves the default. *)
Definition WithArchiver {A} (archiver : option A) (current : A) : A := default current archiver.
Definition WithCheckpointStore {A} (store : option A) (current : A) : A := default current store.

(** ** The server's maps *)

Record clusterState := { persistedThrough : Z; loaded : bool }.
Record Server := { clusters : gmap string clusterState; active : gmap string string }.
Definition initial : Server := {| clusters := ∅; active := ∅ |}.

Definition clusterKey (tenant cluster : string) : string := (tenant +:+ nul +:+ cluster)%string.

(** [acquire]; [load] is the answer of the checkpoint store, used when the
    cluster is not loaded yet. *)
Definition acquire (load : res string Z) (key session : string) (s : Server)
    : res string (Z * bool) * Server :=
  match active s !! key with
  | Some _ => (Ok (0, false), s)
  | None =>
      let state := default {| persistedThrough := 0; loaded := false |} (clusters s !! key) in
      let s1 := {| clusters := <[key := state]> (clusters s); active := active s |} in
      let grant (state : clusterState) :=
        (Ok (persistedThrough state, true),
         {| clusters := <[key := state]> (clusters s1); active := <[key := session]> (active s1) |}) in
      if loaded state then grant state
      else match load with
           | Err e => (Err e, s1)
           | Ok p => grant {| persistedThrough := p; loaded := true |}
           end
  end.
Definition release (key session : string) (s : Server) : Server :=
  match active s !! key with
  | Some id => if (id =? session)%string then {| clusters := clusters s; active := delete key (active s) |} else s
  | None => if (session =? "")%string then {| clusters := clusters s; active := delete key (active s) |} else s
  end.
Definition persisted (key : string) (s : Server) : Z :=
  from_option persistedThrough 0 (clusters s !! key).
(** [state.persistedThrough = sequence] *)
Definition advance (key : string) (sequence : Z) (s : Server) : Server :=
  {| clusters := alter (λ st, {| persistedThrough := sequence; loaded := loaded st |}) key (clusters s);
     active := active s |}.

(** Go's [int] product and truncated division *)
Definition highWatermark (c : Config) (capacity : Z) : Z :=
  Z.max 1 (Z.quot (i64 (capacity * HighWatermarkPercent c)) 100).

(** ** Validation; [None] is a nil error *)

Definition validateHello (hello : AgentHello) : option string :=
  if (Hello_TenantId hello =? "")%string then Some "tenant_id is required"%string
  else if (Hello_ClusterId hello =? "")%string then Some "cluster_id is required"%string
  else if (Hello_AgentInstanceId hello =? "")%string then Some "agent_instance_id is required"%string
  else None.

Definition supportsProtocol (versions : list ProtocolVersion) : bool :=
  existsb (λ v, Major v =? protocolMajor) versions.

Definition validateInventoryRecord (record : option InventoryRecord) : option string :=
  match GetOperation record with
  | INVENTORY_OPERATION_UPSERT | INVENTORY_OPERATION_DELETE => None
  | _ => Some "inventory operation is required"%string
  end.

(** A record check followed by a check of an identifying field. *)
Definition record_and (record : option InventoryRecord) (missing : bool) (err : string) : option string :=
  match validateInventoryRecord record with
  | Some e => Some e
  | None => if missing then Some err else None
  end.
Definition validateInventoryObservation (o : Observation) : option string :=
  match payload o with
  | Some (Observation_ClusterInventory m) => validateInventoryRecord (Cluster_Record m)
  | Some (Observation_NodeInventory m) =>
      record_and (Node_Record m) (GetUid (Node_Metadata m) =? "")%string "node UID is required"
  | Some (Observation_NamespaceInventory m) =>
      record_and (Namespace_Record m) (GetUid (Namespace_Metadata m) =? "")%string "namespace UID is required"
  | Some (Observation_DeploymentInventory m) =>
      record_and (Deployment_Record m) (GetUid (Deployment_Metadata m) =? "")%string "deployment UID is required"
  | Some (Observation_PodInventory m) =>
      record_and (Pod_Record m) (GetUid (Pod_Metadata m) =? "")%string "pod UID is required"
  | Some (Observation_ContainerInventory m) =>
      record_and (Container_Record m)
        ((Container_PodUid m =? "") || (Container_ContainerName m =? ""))%string
        "container pod UID and name are required"
  | _ => None
  end.

Section codec.
Context `{Protobuf}.

(** Observations that cannot be encoded are skipped. *)
Definition batchChecksum (os : list Observation) : string :=
  sha256 (String.concat "" (omap marshalObservation os)).

(** The checks of one observation, at its place in the batch. *)
Definition validateObservation (expected : Z) (o : Observation) : option string :=
  if negb (Sequence o =? expected) then
    Some ("observation sequence " +:+ dec (Sequence o) +:+ " is not expected sequence " +:+ dec expected)%string
  else if (EventId o =? "")%string then Some ("observation " +:+ dec expected +:+ " has no event_id")%string
  else match payload o with
       | None => Some ("observation " +:+ dec expected +:+ " has no payload")%string
       | Some _ =>
           match validateInventoryObservation o with
           | Some err => Some ("observation " +:+ dec expected +:+ ": " +:+ err)%string
           | None => None
           end
       end.
(** The loop over the observations from [index] on. *)
Fixpoint validateObservations (first : Z) (index : Z) (os : list Observation) : option string :=
  match os with
  | [] => None
  | o :: os' =>
      match validateObservation (u64 (first + index)) o with
      | Some err => Some err
      | None => validateObservations first (index + 1) os'
      end
  end.

Definition validateBatch (batch : ObservationBatch) (c : Config) : option string :=
  let len := Z.of_nat (length (Observations batch)) in
  if (BatchId batch =? "")%string then Some "batch_id is required"%string
  else if len =? 0 then Some "batch must contain observations"%string
  else if MaxBatchRecords c <? u32 len then
    Some ("batch contains " +:+ dec len +:+ " records; maximum is " +:+ dec (MaxBatchRecords c))%string
  else if MaxBatchBytes c <? u64 (sizeBatch batch) then
    Some ("batch size exceeds maximum of " +:+ dec (MaxBatchBytes c) +:+ " bytes")%string
  else if (FirstSequence batch =? 0) || (LastSequence batch <? FirstSequence batch) then
    Some "batch sequence range is invalid"%string
  else if negb (u64 len =? u64 (LastSequence batch - FirstSequence batch + 1)) then
    Some "batch sequence range does not match observation count"%string
  else match validateObservations (FirstSequence batch) 0 (Observations batch) with
       | Some err => Some err
       | None =>
           if negb (PayloadChecksum batch =? batchChecksum (Observations batch))%string
           then Some "payload checksum does not match observations"%string
           else None
       end.

(** [suffixAfter]; slicing past the end panics ([None]). *)
Definition suffixAfter (batch : ObservationBatch) (persisted : Z) : option ObservationBatch :=
  if persisted <? FirstSequence batch then Some batch
  else
    let offset := u64 (persisted + 1 - FirstSequence batch) in
    if Z.of_nat (length (Observations batch)) <? offset then None
    else
      let rest := drop (Z.to_nat offset) (Observations batch) in
      Some {| BatchId := BatchId batch; FirstSequence := u64 (persisted + 1);
              LastSequence := LastSequence batch; CreatedAt := CreatedAt batch;
              PayloadChecksum := batchChecksum rest; Observations := rest |}.

(** ** Frames *)

Definition serverHello (sessionID : string) (persisted : Z) (c : Config) (now : Time) : IngestionToAgent :=
  IngestionToAgent_Hello
    {| SHello_SessionId := sessionID;
       SHello_SelectedProtocolVersion := Some {| Major := protocolMajor; Minor := 0 |};
       SHello_AcceptedThroughSequence := persisted;
       SHello_MaxBatchRecords := MaxBatchRecords c;
       SHello_MaxBatchBytes := MaxBatchBytes c;
       SHello_HeartbeatInterval := HeartbeatInterval c;
       SHello_ServerTime := Some (ts_New now) |}.
Definition acknowledgement (batchID : string) (received persisted : Z) (retry : list SequenceRange)
    (rejections : list RecordRejection) (now : Time) : IngestionToAgent :=
  IngestionToAgent_Acknowledgement
    {| Ack_BatchId := batchID; Ack_ReceivedThroughSequence := received;
       Ack_PersistedThroughSequence := persisted; Ack_RetryRanges := retry;
       Ack_Rejections := rejections; Ack_AcknowledgedAt := Some (ts_New now) |}.
Definition flowControl (delay : Duration) (reason : string) : IngestionToAgent :=
  IngestionToAgent_FlowControl
    {| Flow_RetryAfter := Some delay; Flow_MaxInFlightBatches := 1; Flow_Reason := reason |}.
Definition rejectionCode (err : string) : RejectionCode :=
  if Contains err "maximum" then REJECTION_CODE_TOO_LARGE else REJECTION_CODE_INVALID_RECORD.
Definition rejection (code : RejectionCode) (detail : string) (sequence : Z) : RecordRejection :=
  {| Rejection_Sequence := sequence; Rejection_Code := code; Rejection_Detail := detail;
     Rejection_Retryable := false |}.
Definition rejectionsForBatch (batch : ObservationBatch) (code : RejectionCode) (detail : string)
    : list RecordRejection :=
  match Observations batch with
  | [] => [rejection code detail (FirstSequence batch)]
  | os => rejection code detail ∘ Sequence <$> os
  end.

(** ** The handlers *)

Inductive codes := InvalidArgument | Unauthenticated | FailedPrecondition | Unavailable | AlreadyExists | Internal.
Inductive go_error :=
| Status (code : codes) (msg : string)
| EOF
| Plain (msg : string)
| Panic.

(** [err.Error()] *)
Definition code_name (c : codes) : string :=
  match c with
  | InvalidArgument => "InvalidArgument" | Unauthenticated => "Unauthenticated"
  | FailedPrecondition => "FailedPrecondition" | Unavailable => "Unavailable"
  | AlreadyExists => "AlreadyExists" | Internal => "Internal"
  end.
Definition error_text (err : go_error) : string :=
  match err with
  | Status c msg => ("rpc error: code = " +:+ code_name c +:+ " desc = " +:+ msg)%string
  | EOF => "EOF"
  | Plain msg => msg
  | Panic => ""
  end.

Definition receiveError (err : go_error) : option go_error :=
  match err with EOF => None | _ => Some err end.

Inductive server_op :=
| Recv
| Send (frame : IngestionToAgent)
| Now
| Authenticate (hello : AgentHello)
| NewUUID
| Acquire (tenant cluster key session : string)
| Release (key session : string)
| Persisted (key : string)
| LockCluster (key : string)
| UnlockCluster (key : string)
| Advance (key : string) (sequence : Z)
| QueueDepth
| QueueCapacity
| Archive (record : Files.ArchiveRecord)
| MakeChan
| TryEnqueue (batch : Queue.Batch)
| AwaitPersisted (c : nat)
| SaveCheckpoint (tenant cluster : string) (sequence : Z).

Definition server_ans (o : server_op) : Type :=
  match o with
  | Recv => res go_error AgentToIngestion
  | Send _ => option go_error
  | Now => Time
  | Authenticate _ => option string
  | NewUUID => string
  | Acquire _ _ _ _ => res string (Z * bool)
  | Release _ _ => unit
  | Persisted _ => Z
  | LockCluster _ => Z
  | UnlockCluster _ => unit
  | Advance _ _ => unit
  | QueueDepth => Z
  | QueueCapacity => Z
  | Archive _ => option string
  | MakeChan => nat
  | TryEnqueue _ => option string
  | AwaitPersisted _ => option go_error
  | SaveCheckpoint _ _ _ => option string
  end.

Definition srv (o : server_op) : prog server_ans (server_ans o) := call o.

(** [stream.Send(acknowledgement(...))] *)
Definition send_ack (batchID : string) (received persisted : Z) (retry : list SequenceRange)
    (rejections : list RecordRejection) : prog server_ans (option go_error) :=
  now ← srv Now;
  srv (Send (acknowledgement batchID received persisted retry rejections now)).

Definition retry_range (accepted : ObservationBatch) : list SequenceRange :=
  [{| Range_First := FirstSequence accepted; Range_Last := LastSequence accepted |}].

(** [handleBatch] after the queue accepted the batch. *)
Definition await_and_advance (key : string) (hello : AgentHello) (batch accepted : ObservationBatch)
    (persisted : Z) (c : nat) : prog server_ans (option go_error) :=
  interrupted ← srv (AwaitPersisted c);
  match interrupted with
  | Some err => Ret (Some err)
  | None =>
      saved ← srv (SaveCheckpoint (Hello_TenantId hello) (Hello_ClusterId hello) (LastSequence batch));
      match saved with
      | Some _ => send_ack (BatchId batch) (LastSequence batch) persisted (retry_range accepted) []
      | None =>
          _ ← srv (Advance key (LastSequence batch));
          send_ack (BatchId batch) (LastSequence batch) (LastSequence batch) [] []
      end
  end.

(** [handleBatch] after the archive accepted the batch. *)
Definition enqueue_and_await (cfg : Config) (key session : string) (hello : AgentHello)
    (batch accepted : ObservationBatch) (persisted : Z) (received : Time) (flowControlSent : bool)
    : prog server_ans (option go_error) :=
  c ← srv MakeChan;
  let queuedBatch :=
    {| Queue.TenantID := Hello_TenantId hello; Queue.ClusterID := Hello_ClusterId hello;
       Queue.AgentInstance := Hello_AgentInstanceId hello; Queue.SessionID := session;
       Queue.ReceivedAt := received; Queue.ObservationSet := Some accepted;
       Queue.persisted := Some c |} in
  enqueued ← srv (TryEnqueue queuedBatch);
  match enqueued with
  | Some err =>
      if negb (err =? Queue.ErrFull)%string
      then Ret (Some (Status Internal ("enqueue batch: " +:+ err)%string))
      else
        sendErr ← (if flowControlSent then Ret None
                   else srv (Send (flowControl (BackpressureDelay cfg) "ingestion queue is full")));
        match sendErr with
        | Some err => Ret (Some err)
        | None => send_ack (BatchId batch) (LastSequence batch) persisted (retry_range accepted) []
        end
  | None => await_and_advance key hello batch accepted persisted c
  end.

(** [handleBatch] on the part of the batch above the watermark. *)
Definition accept_batch (cfg : Config) (key session : string) (hello : AgentHello)
    (batch accepted : ObservationBatch) (persisted : Z) : prog server_ans (option go_error) :=
  depth ← srv QueueDepth;
  capacity ← srv QueueCapacity;
  let high := highWatermark cfg capacity <=? depth in
  sendErr ← (if high then srv (Send (flowControl (BackpressureDelay cfg)
                                        "ingestion queue is above its high watermark"))
             else Ret None);
  match sendErr with
  | Some err => Ret (Some err)
  | None =>
      now ← srv Now;
      archived ← srv (Archive
        {| Files.Rec_TenantID := Hello_TenantId hello; Files.Rec_ClusterID := Hello_ClusterId hello;
           Files.Rec_AgentInstance := Hello_AgentInstanceId hello; Files.Rec_SessionID := session;
           Files.Rec_ReceivedAt := now; Files.Rec_Batch := Some accepted |});
      match archived with
      | Some _ => send_ack (BatchId batch) (LastSequence batch) persisted (retry_range accepted) []
      | None => enqueue_and_await cfg key session hello batch accepted persisted now high
      end
  end.

(** The section of [handleBatch] that holds the cluster's lock. *)
Definition handle_locked (cfg : Config) (key session : string) (hello : AgentHello)
    (batch : ObservationBatch) (persisted : Z) : prog server_ans (option go_error) :=
  if LastSequence batch <=? persisted then
    send_ack (BatchId batch) (LastSequence batch) persisted [] []
  else if u64 (persisted + 1) <? FirstSequence batch then
    send_ack (BatchId batch) (LastSequence batch) persisted
      [{| Range_First := u64 (persisted + 1); Range_Last := u64 (FirstSequence batch - 1) |}] []
  else match suffixAfter batch persisted with
       | None => Ret (Some Panic)
       | Some accepted => accept_batch cfg key session hello batch accepted persisted
       end.

Definition handleBatch (cfg : Config) (key session : string) (hello : AgentHello)
    (batch : ObservationBatch) : prog server_ans (option go_error) :=
  match validateBatch batch cfg with
  | Some err =>
      persisted ← srv (Persisted key);
      send_ack (BatchId batch) persisted persisted []
        (rejectionsForBatch batch (rejectionCode err) err)
  | None =>
      persisted ← srv (LockCluster key);
      result ← handle_locked cfg key session hello batch persisted;
      _ ← srv (UnlockCluster key);
      Ret result
  end.

(** The receive loop of [Connect], for at most [fuel] frames; [None] when it is
    still running. *)
Fixpoint serve (fuel : nat) (cfg : Config) (key session : string) (hello : AgentHello)
    : prog server_ans (option (option go_error)) :=
  match fuel with
  | O => Ret None
  | S fuel' =>
      frame ← srv Recv;
      match frame with
      | Err err => Ret (Some (receiveError err))
      | Ok (AgentToIngestion_Batch batch) =>
          result ← handleBatch cfg key session hello batch;
          match result with
          | Some err => Ret (Some (Some err))
          | None => serve fuel' cfg key session hello
          end
      | Ok (AgentToIngestion_Heartbeat _) => serve fuel' cfg key session hello
      | Ok (AgentToIngestion_Hello _) =>
          Ret (Some (Some (Status InvalidArgument "AgentHello may only be sent as the first frame")))
      | Ok AgentFrame_none =>
          Ret (Some (Some (Status InvalidArgument "stream frame has no supported payload")))
      end
  end.

(** [Connect]; the deferred [release] runs on every path after [acquire]. *)
Definition Connect (fuel : nat) (cfg : Config) : prog server_ans (option (option go_error)) :=
  first ← srv Recv;
  match first with
  | Err err => Ret (Some (receiveError err))
  | Ok (AgentToIngestion_Hello hello) =>
      match validateHello hello with
      | Some err => Ret (Some (Some (Status InvalidArgument err)))
      | None =>
          denied ← srv (Authenticate hello);
          match denied with
          | Some err => Ret (Some (Some (Status Unauthenticated err)))
          | None =>
              if negb (supportsProtocol (Hello_SupportedProtocolVersions hello)) then
                Ret (Some (Some (Status FailedPrecondition "agent does not support protocol major version 1")))
              else
                sessionID ← srv NewUUID;
                let key := clusterKey (Hello_TenantId hello) (Hello_ClusterId hello) in
                acquired ← srv (Acquire (Hello_TenantId hello) (Hello_ClusterId hello) key sessionID);
                match acquired with
                | Err err => Ret (Some (Some (Status Unavailable ("load sequence checkpoint: " +:+ err)%string)))
                | Ok (_, false) =>
                    Ret (Some (Some (Status AlreadyExists "another stream is active for this tenant and cluster")))
                | Ok (persisted, true) =>
                    now ← srv Now;
                    sent ← srv (Send (serverHello sessionID persisted cfg now));
                    result ← match sent with
                             | Some err =>
                                 Ret (Some (Some (Status Unavailable ("send server hello: " +:+ error_text err)%string)))
                             | None => serve fuel cfg key sessionID hello
                             end;
                    _ ← srv (Release key sessionID);
                    Ret result
                end
          end
      end
  | Ok _ => Ret (Some (Some (Status InvalidArgument "first stream frame must be AgentHello")))
  end.
End codec.

(** ** Facts about validation *)

(** What a valid batch is. *)
Definition valid_observation (expected : Z) (o : Observation) : Prop :=
  Sequence o = expected ∧ EventId o ≠ EmptyString ∧ is_Some (payload o) ∧
  validateInventoryObservation o = None.
Record valid_batch `{Protobuf} (c : Config) (b : ObservationBatch) : Prop := {
  vb_id : BatchId b ≠ EmptyString;
  vb_first : 1 ≤ FirstSequence b;
  vb_count : Z.of_nat (length (Observations b)) = LastSequence b - FirstSequence b + 1;
  vb_nonempty : Observations b ≠ [];
  vb_observations : ∀ i o, Observations b !! i = Some o → valid_observation (FirstSequence b + Z.of_nat i) o;
  vb_checksum : PayloadChecksum b = batchChecksum (Observations b);
  vb_records : u32 (Z.of_nat (length (Observations b))) ≤ MaxBatchRecords c;
  vb_bytes : u64 (sizeBatch b) ≤ MaxBatchBytes c
}.

(** Sequence fields of a decoded message, and a slice length. *)
Definition wire_batch (b : ObservationBatch) : Prop :=
  is_u64 (FirstSequence b) ∧ is_u64 (LastSequence b) ∧ Z.of_nat (length (Observations b)) < two63.

Section facts.
Context `{Protobuf}.

Lemma validateObservation_spec e o :
  validateObservation e o = None ↔ valid_observation e o.
Proof.
  unfold validateObservation, valid_observation.
  destruct (Z.eqb_spec (Sequence o) e); simpl; [|split; [done|tauto]].
  destruct (String.eqb_spec (EventId o) ""); [split; [done|tauto]|].
  destruct (payload o) eqn:Hp; [|split; [done|intros (_ & _ & [? ?] & _); done]].
  destruct (validateInventoryObservation o); split; try done.
  by intros (_ & _ & _ & ?).
Qed.
Lemma validateObservations_spec first index os :
  validateObservations first index os = None ↔
  ∀ i o, os !! i = Some o → valid_observation (u64 (first + index + Z.of_nat i)) o.
Proof.
  revert index. induction os as [|o os IH]; intros index; simpl; [split; done|].
  destruct (validateObservation _ o) eqn:Hv.
  - split; [done|]. intros Hall. specialize (Hall 0%nat o eq_refl).
    rewrite Z.add_0_r in Hall. apply validateObservation_spec in Hall. congruence.
  - apply validateObservation_spec in Hv. rewrite IH. split.
    + intros Hall [|i] x Hx; simpl in Hx; [simplify_eq; by rewrite Z.add_0_r|].
      apply Hall in Hx. by replace (first + index + Z.of_nat (S i)) with (first + (index + 1) + Z.of_nat i) by lia.
    + intros Hall i x Hx. specialize (Hall (S i) x Hx).
      by replace (first + (index + 1) + Z.of_nat i) with (first + index + Z.of_nat (S i)) by lia.
Qed.

Lemma validateBatch_spec c b :
  wire_batch b → validateBatch b c = None ↔ valid_batch c b.
Proof.
  intros ([Hf0 Hf1] & [Hl0 Hl1] & Hlen). unfold validateBatch, two63, two64 in *. split.
  - intros Hv.
    destruct (String.eqb_spec (BatchId b) ""); [done|].
    destruct (Z.eqb_spec (Z.of_nat (length (Observations b))) 0); [done|].
    destruct (Z.ltb_spec (MaxBatchRecords c) (u32 (Z.of_nat (length (Observations b))))); [done|].
    destruct (Z.ltb_spec (MaxBatchBytes c) (u64 (sizeBatch b))); [done|].
    destruct (Z.eqb_spec (FirstSequence b) 0); [done|].
    destruct (Z.ltb_spec (LastSequence b) (FirstSequence b)); [done|]. simpl in Hv.
    destruct (Z.eqb_spec (u64 (Z.of_nat (length (Observations b)))) (u64 (LastSequence b - FirstSequence b + 1))) as [Hc|]; [|done].
    rewrite !u64_id in Hc by (unfold is_u64, two64; lia). simpl in Hv.
    destruct (validateObservations _ _ _) eqn:Hos; [done|].
    destruct (String.eqb_spec (PayloadChecksum b) (batchChecksum (Observations b))); [|done].
    constructor; try done; [lia|by intros He; rewrite He in *|].
    intros i o Ho. apply validateObservations_spec with (i := i) (o := o) in Hos; [|done].
    apply lookup_lt_Some in Ho. rewrite Z.add_0_r, u64_id in Hos by (unfold is_u64, two64; lia). done.
  - intros [Hid Hf Hc Hne Hos Hck Hr Hb].
    destruct (String.eqb_spec (BatchId b) ""); [done|].
    assert (Z.of_nat (length (Observations b)) ≠ 0) by (destruct (Observations b); [done|simpl; lia]).
    destruct (Z.eqb_spec (Z.of_nat (length (Observations b))) 0); [done|].
    destruct (Z.ltb_spec (MaxBatchRecords c) (u32 (Z.of_nat (length (Observations b))))); [lia|].
    destruct (Z.ltb_spec (MaxBatchBytes c) (u64 (sizeBatch b))); [lia|].
    destruct (Z.eqb_spec (FirstSequence b) 0); [lia|].
    destruct (Z.ltb_spec (LastSequence b) (FirstSequence b)); [lia|]. simpl.
    rewrite <- Hc, Z.eqb_refl. simpl.
    assert (validateObservations (FirstSequence b) 0 (Observations b) = None) as ->.
    { apply validateObservations_spec. intros i o Ho. rewrite Z.add_0_r.
      pose proof (lookup_lt_Some _ _ _ Ho). rewrite u64_id by (unfold is_u64, two64; lia). by apply Hos. }
    by rewrite Hck, String.eqb_refl.
Qed.

Lemma valid_seq_run c b : valid_batch c b → seq_run (FirstSequence b) (Observations b).
Proof. intros Hv i o Ho. by apply (vb_observations _ _ Hv) in Ho as [-> _]. Qed.

(** The part of a valid batch above the watermark. *)
Lemma suffix_spec c b p :
  valid_batch c b → wire_batch b → 0 ≤ p → FirstSequence b ≤ p + 1 → p < LastSequence b →
  ∃ a, suffixAfter b p = Some a ∧
    FirstSequence a = p + 1 ∧ LastSequence a = LastSequence b ∧
    Observations a = drop (Z.to_nat (p + 1 - FirstSequence b)) (Observations b) ∧
    seq_run (p + 1) (Observations a) ∧ Observations a ≠ [] ∧
    PayloadChecksum a = batchChecksum (Observations a) ∧ BatchId a = BatchId b.
Proof.
  intros Hv (Hw1 & Hw2 & Hw3) Hp Hf Hl. pose proof (valid_seq_run _ _ Hv) as Hrun.
  destruct Hv as [_ Hf1 Hc Hne _ Hck _ _]. unfold suffixAfter, is_u64, two64, two63 in *.
  destruct (Z.ltb_spec p (FirstSequence b)).
  - exists b. replace (FirstSequence b) with (p + 1) in * by lia. rewrite Z.sub_diag. split_and!; done.
  - rewrite !u64_id by (unfold is_u64, two64; lia).
    destruct (Z.ltb_spec (Z.of_nat (length (Observations b))) (p + 1 - FirstSequence b)); [lia|].
    eexists. split; [done|]. simpl. split_and!; try done.
    + replace (p + 1) with (FirstSequence b + Z.of_nat (Z.to_nat (p + 1 - FirstSequence b))) at 1 by lia.
      by apply seq_run_drop.
    + intros Hn. apply (f_equal length) in Hn. rewrite length_drop in Hn. simpl in Hn. lia.
Qed.
End facts.

(** ** Rejection codes *)

Section codes.
Import StringFacts.

Lemma dec_no_m z : has_byte "m"%char (dec z) = false.
Proof. by apply has_byte_dec. Qed.

(** Skip a prefix without the letter that the pattern starts with. *)
Ltac skip_m := rewrite Contains_skip by (rewrite ?has_byte_app, ?dec_no_m; reflexivity).

Lemma validateObservation_code e o err :
  validateObservation e o = Some err → Contains err "maximum" = false.
Proof.
  unfold validateObservation. repeat case_match; intros; simplify_eq.
  1,2,4: apply Contains_absent; rewrite !has_byte_app, ?dec_no_m; reflexivity.
  do 3 skip_m. unfold validateInventoryObservation, record_and, validateInventoryRecord in *.
  repeat case_match; simplify_eq; reflexivity.
Qed.
Lemma validateObservations_code first index os err :
  validateObservations first index os = Some err → Contains err "maximum" = false.
Proof.
  revert index. induction os as [|o os IH]; intros index; simpl; [done|].
  destruct (validateObservation _ o) eqn:Hv; [|apply IH].
  intros [= <-]. by eapply validateObservation_code.
Qed.
Lemma contains_head (c : ascii) (s t : string) :
  Contains (String c s +:+ t) (String c s) = true.
Proof.
  assert (∀ u v, String.prefix u (u +:+ v) = true) as Hp.
  { induction u as [|d u IH]; intros v; [by destruct v|]. rewrite string_app_cons. simpl.
    destruct (ascii_dec d d); [apply IH|congruence]. }
  pose proof (Hp (String c s) t) as Hh. rewrite string_app_cons in Hh |- *.
  cbn [Contains]. by rewrite Hh.
Qed.
Lemma too_many_records_text n m :
  Contains ("batch contains " +:+ dec n +:+ " records; maximum is " +:+ dec m) "maximum" = true.
Proof.
  do 2 skip_m. change (" records; maximum is ") with ((" records; " +:+ ("maximum" +:+ " is "))%string).
  rewrite <- !string_app_assoc. skip_m. apply contains_head.
Qed.
Lemma too_many_bytes_text n :
  Contains ("batch size exceeds maximum of " +:+ dec n +:+ " bytes") "maximum" = true.
Proof.
  change ("batch size exceeds maximum of ") with (("batch size exceeds " +:+ ("maximum" +:+ " of "))%string).
  rewrite <- !string_app_assoc. skip_m. apply contains_head.
Qed.
End codes.

(** ** Rows of validated observations *)

(** The kinds of observations that have a table: the inventory of six kinds of
    objects. *)
Definition has_table (o : Observation) : bool :=
  match payload o with
  | Some (Observation_ClusterInventory _ | Observation_NodeInventory _ | Observation_NamespaceInventory _
         | Observation_DeploymentInventory _ | Observation_PodInventory _ | Observation_ContainerInventory _) => true
  | _ => false
  end.
Lemma mapObservation_total `{Protobuf} uuid b o :
  Queue.TenantID b ≠ EmptyString → Queue.ClusterID b ≠ EmptyString → EventId o ≠ EmptyString →
  Sequence o ≠ 0 → validateInventoryObservation o = None →
  ∃ row, Persistence.mapObservation uuid b (Some o) = Ok row ∧ (is_Some row ↔ has_table o = true).
Proof.
  intros Ht Hc He Hs Hv. unfold Persistence.mapObservation, has_table. simpl.
  destruct (String.eqb_spec (Queue.TenantID b) ""), (String.eqb_spec (Queue.ClusterID b) ""),
    (String.eqb_spec (EventId o) ""), (Z.eqb_spec (Sequence o) 0); try done. simpl.
  unfold validateInventoryObservation, record_and, validateInventoryRecord in Hv.
  destruct (payload o) as [[]|]; try (exists None; split; [done|]; by split; [intros []|]).
  all: unfold Persistence.mapCluster, Persistence.mapNode, Persistence.mapNamespace, Persistence.mapDeployment,
    Persistence.mapPod, Persistence.mapContainer, Persistence.operationName.
  all: destruct (GetOperation _); try done; simpl.
  all: repeat case_match; try done; by eexists (Some _).
Qed.

Lemma filter_run s (os : list Observation) p :
  seq_run s os → s ≤ p + 1 → filter (λ o, p < Sequence o) os = drop (Z.to_nat (p + 1 - s)) os.
Proof.
  revert s. induction os as [|o os IH]; intros s Hr Hs; [by rewrite drop_nil|].
  apply seq_run_cons in Hr as [Ho Hr]. destruct (decide (s = p + 1)) as [->|].
  - rewrite Z.sub_diag. simpl. rewrite filter_cons_True by lia. f_equal.
    apply ListFacts.filter_all. intros x [i Hi]%list_elem_of_lookup. apply Hr in Hi. lia.
  - rewrite filter_cons_False by lia. rewrite (IH (s + 1)) by (done || lia).
    replace (Z.to_nat (p + 1 - s)) with (S (Z.to_nat (p + 1 - (s + 1)))) by lia. done.
Qed.

(** ** Sessions *)

(** What any session may do to the server's maps. *)
Inductive map_op :=
| OpAcquire (load : res string Z) (key session : string)
| OpRelease (key session : string)
| OpAdvance (key : string) (sequence : Z).
Definition apply_op (s : Server) (o : map_op) : Server :=
  match o with
  | OpAcquire load key session => (acquire load key session s).2
  | OpRelease key session => release key session s
  | OpAdvance key sequence => advance key sequence s
  end.
(** Session ids are fresh: nobody else releases with the id of a session. *)
Definition foreign (session : string) (o : map_op) : Prop :=
  match o with OpRelease _ session' => session' ≠ session | _ => True end.

Lemma held_step key session s o :
  session ≠ EmptyString → foreign session o → active s !! key = Some session →
  active (apply_op s o) !! key = Some session.
Proof.
  intros Hne Hf Ha. destruct o as [load k id|k id|k n]; simpl in *; [| |done].
  - unfold acquire. destruct (active s !! k) eqn:Hk; [done|].
    assert (k ≠ key) by congruence.
    repeat case_match; simpl; rewrite ?lookup_insert_ne; done.
  - unfold release. destruct (active s !! k) as [id'|] eqn:Hk.
    + destruct (String.eqb_spec id' id) as [->|]; [|done]. simpl.
      rewrite lookup_delete_ne; [done|]. intros ->. congruence.
    + case_match; [|done]. simpl. rewrite lookup_delete_ne; [done|]. congruence.
Qed.
Lemma held_steps key session s os :
  session ≠ EmptyString → Forall (foreign session) os → active s !! key = Some session →
  active (foldl apply_op s os) !! key = Some session.
Proof.
  intros Hne Hos. revert s. induction Hos as [|o os Ho _ IH]; intros s Ha; [done|].
  simpl. apply IH. by apply held_step.
Qed.

(** ** Properties *)

Section properties.
Context `{Protobuf}.

(** C4: [validateBatch] accepts exactly the well-formed batches: a batch id, a
    non-empty run of consecutive sequence numbers from the first to the last one
    of the frame, an event id, a payload and a complete inventory record in every
    observation, the right checksum, and sizes within the limits. *)
Theorem validate_batch_correct c b :
  wire_batch b → validateBatch b c = None ↔ valid_batch c b.
Proof. apply validateBatch_spec. Qed.

(** The code of a rejected batch is TOO_LARGE exactly when the batch has too
    many records or too many bytes; the code is chosen by looking for a word in
    the error text, which no other validation error contains. *)
Theorem rejection_code_exact c b err :
  validateBatch b c = Some err →
  rejectionCode err = REJECTION_CODE_TOO_LARGE ↔
  BatchId b ≠ EmptyString ∧ Observations b ≠ [] ∧
  (MaxBatchRecords c < u32 (Z.of_nat (length (Observations b))) ∨ MaxBatchBytes c < u64 (sizeBatch b)).
Proof.
  unfold validateBatch, rejectionCode. intros Hv.
  destruct (String.eqb_spec (BatchId b) ""); [simplify_eq/=; split; [done|tauto]|].
  destruct (Z.eqb_spec (Z.of_nat (length (Observations b))) 0) as [Hl|Hl].
  { simplify_eq/=. destruct (Observations b); [|simpl in Hl; lia]. split; [done|tauto]. }
  assert (Observations b ≠ []) by (by intros He; rewrite He in Hl).
  destruct (Z.ltb_spec (MaxBatchRecords c) (u32 (Z.of_nat (length (Observations b))))).
  { injection Hv as <-. rewrite too_many_records_text. tauto. }
  destruct (Z.ltb_spec (MaxBatchBytes c) (u64 (sizeBatch b))).
  { injection Hv as <-. rewrite too_many_bytes_text. tauto. }
  assert (Contains err "maximum" = false) as ->.
  { repeat case_match; simplify_eq; try reflexivity. by eapply validateObservations_code. }
  split; [done|]. intros (_ & _ & [?|?]); lia.
Qed.

(** C5: the accepted part of a valid batch that reaches the watermark is exactly
    its observations above the watermark: it starts right after it, is
    contiguous, ends with the batch and carries a matching checksum. *)
Theorem suffix_exact c b p :
  wire_batch b → validateBatch b c = None →
  0 ≤ p → FirstSequence b ≤ p + 1 → p < LastSequence b →
  ∃ a, suffixAfter b p = Some a ∧
    FirstSequence a = p + 1 ∧ LastSequence a = LastSequence b ∧
    Observations a = filter (λ o, p < Sequence o) (Observations b) ∧
    seq_run (p + 1) (Observations a) ∧ PayloadChecksum a = batchChecksum (Observations a).
Proof.
  intros Hw Hv%validateBatch_spec Hp Hf Hl; [|done].
  destruct (suffix_spec c b p Hv Hw Hp Hf Hl) as (a & Ha & H1 & H2 & H3 & H4 & _ & H5 & _).
  exists a. split_and!; try done. rewrite H3. symmetry. apply filter_run; [|lia].
  by eapply valid_seq_run.
Qed.

(** C7: a validated batch never poisons the persistence worker: mapping an observation
    the server queues never fails, so the worker does not stop with an
    invalid-inventory error; it gives a row exactly for the inventory of clusters,
    nodes, namespaces, deployments, pods and containers, and is skipped for metrics,
    events and snapshot markers, which have no table. *)
Theorem validated_batch_maps uuid c hello b p a session now ch o :
  wire_batch b → validateHello hello = None → validateBatch b c = None →
  suffixAfter b p = Some a → o ∈ Observations a →
  ∃ row, Persistence.mapObservation uuid
    {| Queue.TenantID := Hello_TenantId hello; Queue.ClusterID := Hello_ClusterId hello;
       Queue.AgentInstance := Hello_AgentInstanceId hello; Queue.SessionID := session;
       Queue.ReceivedAt := now; Queue.ObservationSet := Some a; Queue.persisted := ch |} (Some o) = Ok row ∧
    (is_Some row ↔ has_table o = true).
Proof.
  intros Hw Hh Hv%validateBatch_spec Hs Ho; [|done].
  assert (o ∈ Observations b) as [i Hi]%list_elem_of_lookup.
  { unfold suffixAfter in Hs. repeat case_match; simplify_eq/=; [done|].
    apply list_elem_of_lookup in Ho as [j Hj]. rewrite lookup_drop in Hj. by eapply list_elem_of_lookup_2. }
  pose proof (vb_first _ _ Hv) as Hfirst.
  apply (vb_observations _ _ Hv) in Hi as (Hseq & Hid & _ & Hinv).
  unfold validateHello in Hh.
  destruct (String.eqb_spec (Hello_TenantId hello) ""); [done|].
  destruct (String.eqb_spec (Hello_ClusterId hello) ""); [done|].
  apply mapObservation_total; simpl; try done. lia.
Qed.

(** C8: a cluster has one active stream: once a session is granted a cluster, no
    other session is granted it, whatever other sessions acquire, release or
    advance, until the session itself releases it. *)
Theorem acquire_exclusive load key session s p s' os load' session' :
  session ≠ EmptyString →
  acquire load key session s = (Ok (p, true), s') →
  Forall (foreign session) os →
  (acquire load' key session' (foldl apply_op s' os)).1 = Ok (0, false) ∧
  (∃ load2 p2, (acquire load2 key session' (release key session (foldl apply_op s' os))).1 = Ok (p2, true)).
Proof.
  intros Hne Hacq Hos.
  assert (active s' !! key = Some session) as Ha.
  { unfold acquire in Hacq. repeat case_match; simplify_eq/=; apply lookup_insert_eq. }
  apply (held_steps _ _ _ _ Hne Hos) in Ha. split; [unfold acquire; by rewrite Ha|].
  unfold release. rewrite Ha, String.eqb_refl. unfold acquire. simpl.
  rewrite lookup_delete_eq. exists (Ok 0). case_match; simpl; eauto.
Qed.
End properties.

(** *** Concrete inputs *)
Definition sample_config : Config :=
  New {| MaxBatchRecords := 3; MaxBatchBytes := 0; HeartbeatInterval := 0; BackpressureDelay := 0;
         HighWatermarkPercent := 0 |}.
Definition sample_hello : AgentHello :=
  {| Hello_TenantId := "t"; Hello_ClusterId := "c"; Hello_AgentInstanceId := "a"; Hello_AgentVersion := "1";
     Hello_KubernetesVersion := "1.30"; Hello_SupportedProtocolVersions := [{| Major := 1; Minor := 0 |}];
     Hello_Capabilities := []; Hello_ResumeAfterSequence := 0; Hello_ConfigurationRevision := "" |}.
Definition sample_observations (first : Z) (n : nat) : list Observation :=
  (λ i, Persistence.sample_observation (first + Z.of_nat i)
          (Observation_NodeInventory (Persistence.sample_node "u" 1))) <$> seq 0 n.
Definition sample_batch (first : Z) (n : nat) : ObservationBatch :=
  {| BatchId := "b"; FirstSequence := first; LastSequence := first + Z.of_nat n - 1; CreatedAt := None;
     PayloadChecksum := batchChecksum (H := sample_codec) (sample_observations first n);
     Observations := sample_observations first n |}.
Lemma sample_wire : wire_batch (sample_batch 4 3).
Proof. split_and!; vm_compute; (split; [discriminate|reflexivity]) || reflexivity. Qed.
Lemma sample_valid : validateBatch (H := sample_codec) (sample_batch 4 3) sample_config = None.
Proof. vm_compute. reflexivity. Qed.

Lemma validate_batch_correct_witness : valid_batch (H := sample_codec) sample_config (sample_batch 4 3).
Proof. apply (validate_batch_correct (H := sample_codec)); [exact sample_wire|exact sample_valid]. Defined.
Lemma rejection_code_exact_witness :
  ∃ err, validateBatch (H := sample_codec) (sample_batch 4 5) sample_config = Some err ∧
         rejectionCode err = REJECTION_CODE_TOO_LARGE.
Proof.
  destruct (validateBatch (H := sample_codec) (sample_batch 4 5) sample_config) as [err|] eqn:E.
  - exists err. split; [done|]. apply (rejection_code_exact (H := sample_codec) _ _ _ E).
    split_and!; [done|done|by left].
  - vm_compute in E. discriminate.
Defined.
Lemma suffix_exact_witness :
  ∃ a, suffixAfter (H := sample_codec) (sample_batch 4 3) 4 = Some a ∧ FirstSequence a = 5 ∧
    Observations a = filter (λ o, 4 < Sequence o) (Observations (sample_batch 4 3)).
Proof.
  destruct (suffix_exact (H := sample_codec) sample_config (sample_batch 4 3) 4 sample_wire sample_valid)
    as (a & ? & ? & _ & ? & _); [done|done|done|]. by exists a.
Defined.
Lemma validated_batch_maps_witness :
  ∃ row, Persistence.mapObservation (H := sample_codec) id
    {| Queue.TenantID := "t"; Queue.ClusterID := "c"; Queue.AgentInstance := "a"; Queue.SessionID := "s";
       Queue.ReceivedAt := 0; Queue.ObservationSet := Some (sample_batch 4 3); Queue.persisted := None |}
    (Some (Persistence.sample_observation 4 (Observation_NodeInventory (Persistence.sample_node "u" 1)))) = Ok row ∧
    (is_Some row ↔ has_table (Persistence.sample_observation 4 (Observation_NodeInventory (Persistence.sample_node "u" 1))) = true).
Proof.
  apply (validated_batch_maps (H := sample_codec) id sample_config sample_hello (sample_batch 4 3) 0
    (sample_batch 4 3) "s" 0 None); [exact sample_wire|reflexivity|exact sample_valid|reflexivity|].
  cbn. left.
Defined.
Lemma acquire_exclusive_witness :
  (acquire (Ok 0) "k" "s2" (foldl apply_op (acquire (Ok 7) "k" "s1" initial).2
     [OpAdvance "k" 9; OpAcquire (Ok 0) "k" "s3"; OpRelease "k" "s3"])).1 = Ok (0, false).
Proof.
  apply (acquire_exclusive (Ok 7) "k" "s1" initial 7 (acquire (Ok 7) "k" "s1" initial).2
    [OpAdvance "k" 9; OpAcquire (Ok 0) "k" "s3"; OpRelease "k" "s3"] (Ok 0) "s2"); [done|reflexivity|].
  by repeat constructor.
Defined.

End Server.
