(* ===== verification/Pipeline.v ===== *)
(** * The ingestion service as a whole

    Any number of [Connect] handlers ([Server.v]) run in parallel with the
    persistence worker ([Persistence.Run], whose calls are steps here, down to the
    single inserts of [Persist]) on one queue ([Queue.v]), one set of cluster states
    and one directory of checkpoints, and the process may crash and restart at any
    point.

    [taken] is a history: the batches that were queued. [durable] are those of them
    whose observations are recorded in the store ([Worker.recorded]). The result is
    the guarantee the agent relies on when it drops acknowledged observations.

    Checkpoints are kept under the file name of [Stores.checkpoint_path], which two
    clusters can share ([colliding_names]); the guarantee is for a deployment in which
    the clusters that are let in have files of their own ([files_apart]). *)
From stdpp Require Import base option list gmap strings relations.
From Stdlib Require Import ZArith Lia.
From S2P Require Import Prelude Proto Effects Queue Persistence Worker Stores Server.

Module Pipeline.
Import Persistence Server Worker.

(** What a deployment of the service consists of beside its program: the UUIDs of
    the library, the directory of the checkpoints, the clusters the authenticator lets
    in, the configuration of the worker and the capacity of the queue. *)
Class Deployment := {
  uuidSHA1 : string → string;
  root : string;
  admitted : string → string → Prop;
  worker_config : WorkerConfig;
  capacity : Z
}.
(** Clusters that are let in have checkpoint files of their own. *)
Definition files_apart `{Deployment} : Prop :=
  ∀ t c t' c', admitted t c → admitted t' c' →
    Files.checkpoint_path root t c = Files.checkpoint_path root t' c' → t = t' ∧ c = c'.

(** The worker: at a call, or within [Persist], whose result it goes on with. *)
Inductive worker_state :=
| Turning (p : prog worker_ans (option (option string)))
| Writing (q : prog store_ans (option error)) (k : option error → prog worker_ans (option (option string))).

Record world := World {
  queue : Queue.Queue;
  chans : gmap nat bool;
  made : gmap nat nat;
  owner : gmap nat Queue.Batch;
  taken : list Queue.Batch;
  stored : list Insert;
  worker : worker_state;
  server : Server.Server;
  locks : gmap string nat;
  saved : gmap string Z;
  session_key : gmap nat string;
  sent : list (option string * IngestionToAgent)
}.

Definition add_batch (w : world) q b : world :=
  World q (chans w) (made w) (match Queue.persisted b with Some c => <[c := b]> (owner w) | None => owner w end)
    (taken w ++ [b]) (stored w) (worker w) (server w) (locks w) (saved w) (session_key w) (sent w).
Definition set_worker (w : world) q cs st wk : world :=
  World q cs (made w) (owner w) (taken w) st wk (server w) (locks w) (saved w) (session_key w) (sent w).
Definition set_chan (w : world) (c i : nat) : world :=
  World (queue w) (<[c := false]> (chans w)) (<[c := i]> (made w)) (owner w) (taken w) (stored w) (worker w)
    (server w) (locks w) (saved w) (session_key w) (sent w).
Definition set_server (w : world) s sk : world :=
  World (queue w) (chans w) (made w) (owner w) (taken w) (stored w) (worker w) s (locks w) (saved w) sk (sent w).
Definition set_locks (w : world) ls : world :=
  World (queue w) (chans w) (made w) (owner w) (taken w) (stored w) (worker w) (server w) ls (saved w)
    (session_key w) (sent w).
Definition set_saved (w : world) sv : world :=
  World (queue w) (chans w) (made w) (owner w) (taken w) (stored w) (worker w) (server w) (locks w) sv
    (session_key w) (sent w).
Definition add_sent (w : world) (i : nat) f : world :=
  World (queue w) (chans w) (made w) (owner w) (taken w) (stored w) (worker w) (server w) (locks w) (saved w)
    (session_key w) (sent w ++ [(session_key w !! i, f)]).

Section steps.
Context `{Protobuf, Deployment}.

(** What a call of handler [i] may answer and do. A checkpoint store answers
    with the sequence saved last in the cluster's file, or with 0 (nothing saved, or
    nothing kept). *)
Definition effect (i : nat) (o : server_op) (w : world) : server_ans o → world → Prop :=
  match o with
  | Recv => λ x w', w' = w ∧ match x with Ok (AgentToIngestion_Batch b) => wire_batch b | _ => True end
  | Send f => λ _ w', w' = add_sent w i f
  | Authenticate hello => λ x w', w' = w ∧ (x = None → admitted (Hello_TenantId hello) (Hello_ClusterId hello))
  | Acquire t c key session => λ x w', locks w !! key = None ∧
      ∃ load, match load with Ok n => n = 0 ∨ saved w !! Files.checkpoint_path root t c = Some n | Err _ => True end ∧
        let r := acquire load key session (server w) in
        x = r.1 ∧ w' = set_server w r.2 (match r.1 with Ok (_, true) => <[i := key]> (session_key w) | _ => session_key w end)
  | Release key session => λ _ w', w' = set_server w (release key session (server w)) (session_key w)
  | Persisted key => λ x w', locks w !! key = None ∧ x = persisted key (server w) ∧ w' = w
  | LockCluster key => λ x w', locks w !! key = None ∧ x = persisted key (server w) ∧
      w' = set_locks w (<[key := i]> (locks w))
  | UnlockCluster key => λ _ w', w' = set_locks w (delete key (locks w))
  | Advance key n => λ _ w', w' = set_server w (advance key n (server w)) (session_key w)
  | MakeChan => λ x w', chans w !! x = None ∧ w' = set_chan w x i
  | TryEnqueue b => λ x w',
      match Queue.TryEnqueue (Some b) (queue w) with
      | Ok q' => x = None ∧ w' = add_batch w q' b
      | Err e => x = Some e ∧ w' = w
      end
  | AwaitPersisted c => λ x w', w' = w ∧ (x = None → chans w !! c = Some true)
  | SaveCheckpoint t c n => λ x w', w' = set_saved w (<[Files.checkpoint_path root t c := n]> (saved w)) ∨ (x ≠ None ∧ w' = w)
  | Now | NewUUID | QueueDepth | QueueCapacity | Archive _ => λ _ w', w' = w
  end.

(** The calls of the worker. Its context may end while it waits for a batch. *)
Inductive worker_step : world → world → Prop :=
| work_acquire w m k l q' :
    worker w = Turning (Vis (WAcquire m) k) → Queue.Acquire m (queue w) = Some (l, q') →
    worker_step w (set_worker w q' (chans w) (stored w) (Turning (k (Ok l))))
| work_cancelled w m k e :
    worker w = Turning (Vis (WAcquire m) k) →
    worker_step w (set_worker w (queue w) (chans w) (stored w) (Turning (k (Err e))))
| work_persist w bs k :
    worker w = Turning (Vis (WPersist bs) k) →
    worker_step w (set_worker w (queue w) (chans w) (stored w) (Writing (Persist uuidSHA1 bs) k))
| work_insert w o k' k x st' :
    worker w = Writing (Vis o k') k → store_effect o (stored w) x st' →
    worker_step w (set_worker w (queue w) (chans w) st' (Writing (k' x) k))
| work_persisted w r k :
    worker w = Writing (Ret r) k →
    worker_step w (set_worker w (queue w) (chans w) (stored w) (Turning (k r)))
| work_commit w l k l' q' cs' :
    worker w = Turning (Vis (WCommit l) k) → Queue.Commit l (queue w) (chans w) = Some (l', q', cs') →
    worker_step w (set_worker w q' cs' (stored w) (Turning (k tt)))
| work_retry w l k :
    worker w = Turning (Vis (WRetry l) k) →
    worker_step w (set_worker w (Queue.Retry l (queue w)).2 (chans w) (stored w) (Turning (k tt)))
| work_sleep w d k x :
    worker w = Turning (Vis (WSleep d) k) →
    worker_step w (set_worker w (queue w) (chans w) (stored w) (Turning (k x))).

(** The worker of a process that starts; [turns] bounds its turns. *)
Definition start_worker (turns : nat) : worker_state :=
  Turning (Run turns (NewWorker worker_config) (RetryInitial (NewWorker worker_config))).
Definition start_world (turns : nat) : world :=
  World (Queue.New capacity) ∅ ∅ ∅ [] [] (start_worker turns) initial ∅ ∅ ∅ [].
(** After a crash only the stored rows, the saved checkpoints and the history
    remain. *)
Definition restart (turns : nat) (w : world) : world :=
  World (Queue.New capacity) ∅ ∅ ∅ (taken w) (stored w) (start_worker turns) initial ∅ (saved w) ∅ (sent w).

Section system.
Context (cfg : Config).
Definition handler (p : prog server_ans (option (option go_error))) : Prop :=
  ∃ fuel, p = Connect fuel cfg.
Abbreviation state := (pool (ans := server_ans) (W := world) (A := option (option go_error))).
Inductive system_step : state → state → Prop :=
| sys_step s s' : pool_step worker_step effect handler s s' → system_step s s'
| sys_crash turns s : system_step s (Pool (restart turns (shared s)) []).
End system.

(** ** The invariant *)

(** A batch is durable when it was queued and each of its observations is
    recorded. *)
Definition durable (w : world) (b : Queue.Batch) : Prop :=
  b ∈ taken w ∧ ∀ o, within b o → recorded uuidSHA1 (stored w) b o.
(** Every sequence number from 1 to [n] of the cluster is in a queued batch, and
    recorded. *)
Definition covered (w : world) (key : string) (n : Z) : Prop :=
  ∀ s, 1 ≤ s ≤ n → ∃ b set o, b ∈ taken w ∧ recorded uuidSHA1 (stored w) b o ∧
    clusterKey (Queue.TenantID b) (Queue.ClusterID b) = key ∧
    Queue.ObservationSet b = Some set ∧ o ∈ Observations set ∧ Sequence o = s.
Definition frame_ok (w : world) (key : string) (f : IngestionToAgent) : Prop :=
  match f with
  | IngestionToAgent_Hello h => covered w key (SHello_AcceptedThroughSequence h)
  | IngestionToAgent_Acknowledgement a => covered w key (Ack_PersistedThroughSequence a)
  | _ => True
  end.
Definition queued_ok (ow : gmap nat Queue.Batch) (ob : option Queue.Batch) : Prop :=
  ∃ b c, ob = Some b ∧ Queue.persisted b = Some c ∧ ow !! c = Some b.

(** The batches of the worker's lease are queued ones, and recorded once they are
    written. *)
Definition leased_ok (w : world) (st : stage) : Prop :=
  match st with
  | Free => True
  | Holding l => Forall (queued_ok (owner w)) (Queue.lease_items l)
  | Written l => Forall (queued_ok (owner w)) (Queue.lease_items l) ∧
      ∀ b o, Some b ∈ Queue.lease_items l → within b o → recorded uuidSHA1 (stored w) b o
  end.
Definition worker_ok (w : world) : Prop :=
  match worker w with
  | Turning p => ∃ st, obeys p st ∧ leased_ok w st
  | Writing q k => ∃ l, leased_ok w (Holding l) ∧
      (∀ r, obeys (k r) (match r with None => Written l | Some _ => Holding l end)) ∧
      wp eq (λ st st', (∀ i, i ∈ st → i ∈ st') ∧
               ∀ i, i ∈ st' → i ∈ st ∨ rows_from uuidSHA1 (λ b, Some b ∈ Queue.lease_items l) i)
        store_effect q
        (λ err st', err = None → ∀ b o, Some b ∈ Queue.lease_items l → within b o → recorded uuidSHA1 st' b o)
        (stored w)
  end.

Record inv (w : world) : Prop := {
  inv_closed : ∀ c, chans w !! c = Some true → ∃ b, owner w !! c = Some b ∧ durable w b;
  inv_queued : Forall (queued_ok (owner w)) (Queue.items (queue w));
  inv_worker : worker_ok w;
  inv_made : ∀ c, is_Some (made w !! c) → is_Some (chans w !! c);
  inv_owner : ∀ c b, owner w !! c = Some b → is_Some (made w !! c) ∧ b ∈ taken w;
  inv_stored : ∀ i, i ∈ stored w → rows_from uuidSHA1 (λ b, b ∈ taken w) i;
  inv_clusters : ∀ key st, clusters (server w) !! key = Some st →
    0 ≤ persistedThrough st ∧ covered w key (persistedThrough st);
  inv_saved : ∀ t c n, admitted t c → saved w !! Files.checkpoint_path root t c = Some n →
    0 ≤ n ∧ covered w (clusterKey t c) n;
  inv_sent : ∀ k f, (k, f) ∈ sent w → ∃ key, k = Some key ∧ frame_ok w key f
}.



(** What all steps preserve, and what others leave alone for handler [i]. *)
Record mono (w w' : world) : Prop := {
  mono_taken : ∀ b, b ∈ taken w → b ∈ taken w';
  mono_stored : ∀ i, i ∈ stored w → i ∈ stored w';
  mono_owner : ∀ c b, owner w !! c = Some b → owner w' !! c = Some b
}.
Record mine (i : nat) (w w' : world) : Prop := {
  mine_locks : ∀ key, locks w !! key = Some i →
    locks w' !! key = Some i ∧ persisted key (server w') = persisted key (server w);
  mine_key : session_key w' !! i = session_key w !! i;
  mine_made : ∀ c, made w !! c = Some i → made w' !! c = Some i ∧ owner w' !! c = owner w !! c
}.
Definition rely (i : nat) (w w' : world) : Prop := inv w → inv w' ∧ mono w w' ∧ mine i w w'.
Definition guarantee (i : nat) (w w' : world) : Prop :=
  inv w → inv w' ∧ mono w w' ∧ ∀ j, j ≠ i → mine j w w'.

#[local] Instance mono_refl : Reflexive mono.
Proof. by split. Qed.
#[local] Instance mono_trans : Transitive mono.
Proof. intros ??? [] []. split; eauto. Qed.
#[local] Instance mine_refl i : Reflexive (mine i).
Proof. by split. Qed.
#[local] Instance mine_trans i : Transitive (mine i).
Proof.
  intros w1 w2 w3 [L1 K1 M1] [L2 K2 M2]. split.
  - intros key [Hl Hp]%L1. apply L2 in Hl as [? ?]. split; [done|congruence].
  - congruence.
  - intros c [Hm Ho]%M1. apply M2 in Hm as [? ?]. split; [done|congruence].
Qed.
#[local] Instance rely_refl i : Reflexive (rely i).
Proof. intros w ?. split_and!; done. Qed.
#[local] Instance rely_trans i : Transitive (rely i).
Proof.
  intros w1 w2 w3 H1 H2 Hi. destruct (H1 Hi) as (Hi2 & ? & ?). destruct (H2 Hi2) as (? & ? & ?).
  split_and!; [done|by etrans|by etrans].
Qed.
Lemma guarantee_refl i w : guarantee i w w.
Proof. intros ?. split_and!; done. Qed.

Lemma covered_mono w w' key n : mono w w' → covered w key n → covered w' key n.
Proof.
  intros [Ht Hs _] Hc s Hn. destruct (Hc s Hn) as (b & set & o & Hb & Hr & Hrest). exists b, set, o.
  split; [auto|]. split; [eauto using recorded_mono|exact Hrest].
Qed.
Lemma frame_ok_mono w w' key f : mono w w' → frame_ok w key f → frame_ok w' key f.
Proof. destruct f; simpl; eauto using covered_mono. Qed.
Lemma durable_mono w w' b : mono w w' → durable w b → durable w' b.
Proof. intros [Ht Hs _] [Hb Ho]. split; eauto using recorded_mono. Qed.
Lemma queued_ok_mono w w' ob : mono w w' → queued_ok (owner w) ob → queued_ok (owner w') ob.
Proof. intros [_ _ Ho] (b & c & ? & ? & ?). exists b, c. auto. Qed.
Lemma leased_ok_mono w w' st : mono w w' → leased_ok w st → leased_ok w' st.
Proof.
  intros Hm. assert (∀ l, Forall (queued_ok (owner w)) l → Forall (queued_ok (owner w')) l) as Hq.
  { intros l Hl. eapply Forall_impl; [exact Hl|]. eauto using queued_ok_mono. }
  destruct st as [|l|l]; simpl; [done|auto|]. intros [? Hr]. split; [auto|]. intros b o Hb Ho.
  eapply recorded_mono; [apply Hm|]. by apply Hr.
Qed.
Lemma worker_ok_mono w w' : mono w w' → stored w' = stored w → worker w' = worker w → worker_ok w → worker_ok w'.
Proof.
  intros Hm Hs Hw. unfold worker_ok. rewrite Hs, Hw. destruct (worker w) as [p|q k].
  - intros (st & ? & ?). exists st. eauto using leased_ok_mono.
  - intros (l & ? & ?). exists l. eauto using leased_ok_mono.
Qed.
Lemma covered_zero w key : covered w key 0.
Proof. intros s Hs. lia. Qed.

(** The watermark of any cluster is covered. *)
Lemma inv_watermark w key : inv w → 0 ≤ persisted key (server w) ∧ covered w key (persisted key (server w)).
Proof.
  intros Hi. unfold persisted. destruct (clusters (server w) !! key) as [st|] eqn:E; simpl.
  - by apply (inv_clusters _ Hi).
  - split; [lia|]. apply covered_zero.
Qed.

(** ** Each call keeps the invariant and the others' view *)

Lemma g_send i w key f :
  session_key w !! i = Some key → frame_ok w key f → guarantee i w (add_sent w i f).
Proof.
  intros Hk Hf Hi. split_and!; [|by split|intros; by split]. destruct Hi as [? ? ? ? ? ? ? ? Hs].
  constructor; try done. simpl. intros k f' [Hin|Hin]%elem_of_app; [by apply Hs|].
  apply list_elem_of_singleton in Hin as [= -> ->]. eauto.
Qed.
Lemma g_lock i w key : locks w !! key = None → guarantee i w (set_locks w (<[key := i]> (locks w))).
Proof.
  intros Hl Hi. split_and!; [by destruct Hi; constructor|by split|]. intros j Hj. split; [|done|done].
  simpl. intros k Hk. split; [|done]. rewrite lookup_insert_ne; [done|congruence].
Qed.
Lemma g_unlock i w key : locks w !! key = Some i → guarantee i w (set_locks w (delete key (locks w))).
Proof.
  intros Hl Hi. split_and!; [by destruct Hi; constructor|by split|]. intros j Hj. split; [|done|done].
  simpl. intros k Hk. split; [|done]. rewrite lookup_delete_ne; [done|congruence].
Qed.
Lemma g_advance i w key n :
  locks w !! key = Some i → 0 ≤ n → covered w key n →
  guarantee i w (set_server w (advance key n (server w)) (session_key w)).
Proof.
  intros Hl Hn Hc Hi. split_and!; [|by split|].
  - destruct Hi as [? ? ? ? ? ? Hcl ? ?]. constructor; try done. simpl. intros k st Hk.
    destruct (decide (k = key)) as [->|].
    + rewrite lookup_alter_eq in Hk. destruct (clusters (server w) !! key); simplify_eq/=. done.
    + rewrite lookup_alter_ne in Hk by done. by apply Hcl.
  - intros j Hj. split; [|done|done]. simpl. intros k Hk. split; [done|].
    unfold persisted, advance. simpl. rewrite lookup_alter_ne; [done|congruence].
Qed.
Lemma g_release i w key session :
  guarantee i w (set_server w (release key session (server w)) (session_key w)).
Proof.
  assert (clusters (release key session (server w)) = clusters (server w)) as Hc.
  { unfold release. by repeat case_match. }
  intros Hi. split_and!; [|by split|].
  - destruct Hi. constructor; try done. simpl. by rewrite Hc.
  - intros j Hj. split; [|done|done]. simpl. intros k Hk. unfold persisted. by rewrite Hc.
Qed.
Lemma g_chan i w c : chans w !! c = None → guarantee i w (set_chan w c i).
Proof.
  intros Hc Hi. pose proof (inv_made _ Hi c) as Hmc. split_and!.
  - destruct Hi as [Hcl ? ? Hm Ho ? ? ? ?]. constructor; try done; simpl.
    + intros d Hcd. destruct (decide (c = d)) as [->|].
      * by rewrite lookup_insert_eq in Hcd.
      * rewrite lookup_insert_ne in Hcd by done. eauto.
    + intros d. destruct (decide (c = d)) as [->|]; [rewrite !lookup_insert_eq; eauto|].
      rewrite !lookup_insert_ne by done. apply Hm.
    + intros d b Hd. destruct (Ho _ _ Hd) as [? ?]. split; [|done].
      destruct (decide (c = d)) as [->|]; [rewrite lookup_insert_eq; eauto|by rewrite lookup_insert_ne].
  - by split.
  - intros j Hj. split; [done|done|]. simpl. intros d Hd. split; [|done].
    rewrite lookup_insert_ne; [done|]. intros ->. rewrite Hc in Hmc. by destruct (Hmc (mk_is_Some _ _ Hd)).
Qed.
Lemma add_batch_mono w c b q' :
  owner w !! c = None → Queue.persisted b = Some c → mono w (add_batch w q' b).
Proof.
  intros Ho Hb. split; simpl; [intros ? ?; apply elem_of_app; by left|done|].
  rewrite Hb. intros d b' Hd. rewrite lookup_insert_ne; [done|congruence].
Qed.
Lemma g_enqueue i w c b q' :
  made w !! c = Some i → owner w !! c = None →
  Queue.persisted b = Some c → Queue.TryEnqueue (Some b) (queue w) = Ok q' →
  guarantee i w (add_batch w q' b).
Proof.
  intros Hm Ho Hb Hq Hi. pose proof (add_batch_mono w c b q' Ho Hb) as Hmono. split_and!; [|done|].
  - destruct Hi as [Hcl Hqu Hw ? How Hst Hcs Hsv Hse]. constructor; simpl; try done.
    + intros d (b' & Hd & ?)%Hcl. exists b'. split; [by apply (mono_owner _ _ Hmono)|]. by eapply durable_mono.
    + unfold Queue.TryEnqueue in Hq. case_match; simplify_eq/=. apply Forall_app. split.
      * eapply Forall_impl; [exact Hqu|]. intros x Hx. exact (queued_ok_mono _ _ x Hmono Hx).
      * apply Forall_singleton. exists b, c. rewrite Hb. split_and!; [done|done|apply lookup_insert_eq].
    + by eapply worker_ok_mono.
    + rewrite Hb. intros d b' Hd. destruct (decide (c = d)) as [->|].
      * rewrite lookup_insert_eq in Hd. injection Hd as <-. split; [by eauto|]. apply elem_of_app. right. by left.
      * rewrite lookup_insert_ne in Hd by done. destruct (How _ _ Hd). split; [done|]. apply elem_of_app. by left.
    + intros j Hj. eapply rows_from_mono; [|by apply Hst]. intros b' Hb'. by apply (mono_taken _ _ Hmono).
    + intros key st [? ?]%Hcs. split; [done|]. by eapply covered_mono.
    + intros t k n Ha Hn. destruct (Hsv t k n Ha Hn). split; [done|]. by eapply covered_mono.
    + intros k f (key & -> & Hf)%Hse. exists key. split; [done|]. by eapply frame_ok_mono.
  - intros j Hj. split; [done|done|]. simpl. intros d Hd. split; [done|].
    rewrite Hb, lookup_insert_ne; [done|congruence].
Qed.
Lemma g_save i w t c n :
  files_apart → admitted t c → 0 ≤ n → covered w (clusterKey t c) n →
  guarantee i w (set_saved w (<[Files.checkpoint_path root t c := n]> (saved w))).
Proof.
  intros Hfiles Ha Hn Hc Hi. split_and!; [|by split|intros; by split]. destruct Hi as [? ? ? ? ? ? ? Hs ?].
  constructor; try done. simpl. intros t' c' n' Ha' Hl.
  destruct (decide (Files.checkpoint_path root t c = Files.checkpoint_path root t' c')) as [He|Hne].
  - rewrite He, lookup_insert_eq in Hl. injection Hl as <-. by destruct (Hfiles _ _ _ _ Ha Ha' He) as [<- <-].
  - rewrite lookup_insert_ne in Hl by done. eauto.
Qed.
Lemma g_acquire i w t c load session :
  admitted t c → locks w !! clusterKey t c = None → session_key w !! i = None →
  match load with Ok n => n = 0 ∨ saved w !! Files.checkpoint_path root t c = Some n | Err _ => True end →
  let r := acquire load (clusterKey t c) session (server w) in
  guarantee i w (set_server w r.2
    (match r.1 with Ok (_, true) => <[i := clusterKey t c]> (session_key w) | _ => session_key w end)).
Proof.
  intros Ha Hl Hk Hload r Hi. set (key := clusterKey t c) in *.
  assert (∀ k, k ≠ key → clusters r.2 !! k = clusters (server w) !! k) as Hother.
  { intros k Hne. unfold r, acquire. repeat case_match; simpl; rewrite ?lookup_insert_ne; done. }
  assert (∀ st, clusters r.2 !! key = Some st → 0 ≤ persistedThrough st ∧ covered w key (persistedThrough st)) as Hkey.
  { pose proof (inv_clusters _ Hi key) as Hcl. pose proof (λ n, inv_saved _ Hi t c n Ha) as Hsv.
    pose proof (covered_zero w key).
    unfold r, acquire. destruct (clusters (server w) !! key) as [st0|] eqn:E; simpl;
      repeat case_match; simpl; intros st Hst; rewrite ?lookup_insert_eq in Hst; simplify_eq/=; try (by auto);
      try (by rewrite E in Hst; simplify_eq); destruct Hload as [->|Hload]; auto; by split. }
  split_and!; [|by split|].
  - destruct Hi. constructor; try done. simpl. intros k st Hst.
    destruct (decide (k = key)) as [->|]; [by apply Hkey|]. rewrite Hother in Hst by done. eauto.
  - intros j Hj. split; [|..|done]; simpl.
    + intros k Hlk. split; [done|]. unfold persisted. rewrite Hother; [done|congruence].
    + repeat case_match; try done; by rewrite lookup_insert_ne.
Qed.

(** *** The worker *)

Lemma inv_worker_change w q' cs' st' wk' :
  inv w → (∀ i, i ∈ stored w → i ∈ stored (set_worker w q' cs' st' wk')) →
  (∀ i, i ∈ st' → i ∈ stored w ∨ rows_from uuidSHA1 (λ b, b ∈ taken w) i) →
  (∀ c, cs' !! c = Some true → ∃ b, owner w !! c = Some b ∧ durable (set_worker w q' cs' st' wk') b) →
  (∀ c, is_Some (chans w !! c) → is_Some (cs' !! c)) →
  Forall (queued_ok (owner w)) (Queue.items q') →
  worker_ok (set_worker w q' cs' st' wk') → inv (set_worker w q' cs' st' wk').
Proof.
  intros [Hcl Hq Hw Hm Ho Hst Hcs Hsv Hse] Hgrow Hfrom Hcl' Hch Hq' Hw'.
  assert (mono w (set_worker w q' cs' st' wk')) as Hmono by (by split).
  constructor; simpl; try done.
  - intros c ?%Hm. by apply Hch.
  - intros i [Hi|Hi]%Hfrom; [by apply Hst|done].
  - intros key st [? ?]%Hcs. split; [done|]. by eapply covered_mono.
  - intros t c n Ha Hn. destruct (Hsv t c n Ha Hn). split; [done|]. by eapply covered_mono.
  - intros k f (key & -> & Hf)%Hse. exists key. split; [done|]. by eapply frame_ok_mono.
Qed.
(** The worker makes a call that leaves queue, channels and store alone. *)
Lemma inv_worker_turn w wk' :
  inv w → worker_ok (set_worker w (queue w) (chans w) (stored w) wk') →
  inv (set_worker w (queue w) (chans w) (stored w) wk').
Proof. intros Hi Hw. apply inv_worker_change; try done; try apply Hi. by left. Qed.
Lemma markAll_closes ow bs cs cs' :
  Forall (queued_ok ow) bs → Queue.markAll bs cs = Some cs' →
  (∀ c, cs' !! c = Some true → cs !! c = Some true ∨ ∃ b, ow !! c = Some b ∧ b ∈ omap id bs) ∧
  (∀ c, is_Some (cs !! c) → is_Some (cs' !! c)).
Proof.
  intros Hbs. revert cs. induction Hbs as [|ob bs (b & c & -> & Hb & Ho) _ IH]; intros cs; simpl.
  { intros [= <-]. auto. }
  rewrite Hb. destruct (cs !! c) as [[]|] eqn:Hc; try done. intros [H1 H2]%IH. split.
  - intros d [Hd|(b' & ? & ?)]%H1.
    + destruct (decide (c = d)) as [->|]; [|rewrite lookup_insert_ne in Hd by done; by left].
      right. exists b. split; [done|]. left.
    + right. exists b'. split; [done|]. by right.
  - intros d Hd. apply H2. destruct (decide (c = d)) as [->|]; [rewrite lookup_insert_eq; eauto|].
    by rewrite lookup_insert_ne.
Qed.

Lemma worker_writes_inv w o k' k x st' :
  worker w = Writing (Vis o k') k → store_effect o (stored w) x st' → inv w →
  inv (set_worker w (queue w) (chans w) st' (Writing (k' x) k)).
Proof.
  intros Hw Hs Hi. pose proof (inv_worker _ Hi) as Hok. unfold worker_ok in Hok. rewrite Hw in Hok.
  destruct Hok as (l & Hl & Hk & Hp). simpl in Hp. destruct (Hp _ _ _ eq_refl Hs) as [[Hgrow Hfrom] Hp'].
  assert (mono w (set_worker w (queue w) (chans w) st' (Writing (k' x) k))) as Hmono by (by split).
  apply inv_worker_change; try done; [| |apply Hi|].
  - intros i [?|Hr]%Hfrom; [by left|right]. eapply rows_from_mono; [|exact Hr]. cbn beta. intros b Hb.
    simpl in Hl. rewrite Forall_forall in Hl. destruct (Hl _ Hb) as (b' & c & [= <-] & _ & Ho). by apply (inv_owner _ Hi) in Ho as [_ ?].
  - intros c (b & ? & ?)%(inv_closed _ Hi). exists b. split; [done|]. by eapply durable_mono.
  - exists l. split; [exact Hl|done].
Qed.
Lemma worker_commits_inv w l k l' q' cs' :
  worker w = Turning (Vis (WCommit l) k) → Queue.Commit l (queue w) (chans w) = Some (l', q', cs') → inv w →
  inv (set_worker w q' cs' (stored w) (Turning (k tt))).
Proof.
  intros Hw Hc Hi. pose proof (inv_worker _ Hi) as Hok. unfold worker_ok in Hok. rewrite Hw in Hok.
  destruct Hok as ([|l0|l0] & [Hmay Hk] & Hl); simpl in Hmay; try done. subst l0. destruct Hl as [Hl Hrec].
  assert (worker_ok (set_worker w q' cs' (stored w) (Turning (k tt)))) as Hw' by (exists Free; split; [apply (Hk tt)|done]).
  pose proof (inv_closed _ Hi) as Hcl. unfold Queue.Commit in Hc. destruct (Queue.once l).
  { simplify_eq. by apply inv_worker_turn. }
  destruct (Queue.markAll _ _) as [cs''|] eqn:Hm; [|done]. injection Hc as <- <- <-.
  destruct (markAll_closes _ _ _ _ Hl Hm) as [Hcl' Hch]. apply inv_worker_change; simpl; try done; [by left| |by apply Hi].
  intros c [Hc|(b & Ho & Hb)]%Hcl'; [by apply Hcl|]. exists b. split; [done|].
  split; [by apply (inv_owner _ Hi) in Ho as [_ ?]|]. intros o. apply Hrec.
  apply list_elem_of_omap in Hb as (ob & Hob & Eb). simpl in Eb. by subst ob.
Qed.
(** What the protocol says of the next call of the worker *)
Lemma worker_calls w o k :
  worker w = Turning (Vis o k) → inv w →
  ∃ st, may st o ∧ leased_ok w st ∧ ∀ x, obeys (k x) (next st (existT o x)).
Proof.
  intros Hw Hi. pose proof (inv_worker _ Hi) as Hok. unfold worker_ok in Hok. rewrite Hw in Hok.
  destruct Hok as (st & [? ?] & ?). by exists st.
Qed.
Lemma worker_inv w w' : worker_step w w' → inv w → inv w'.
Proof.
  destruct 1 as [w m k l q' Hw Ha|w m k e Hw|w bs k Hw|w o k' k x st' Hw Hs|w r k Hw|w l k l' q' cs' Hw Hc|w l k Hw|w d k x Hw]; intros Hi.
  - destruct (worker_calls _ _ _ Hw Hi) as ([] & Hmay & Hl & Hk); try done. apply Queue.Concurrent.acquire_spec in Ha as (Hit & _).
    pose proof (inv_queued _ Hi) as Hq. rewrite Hit in Hq. apply Forall_app in Hq as [? ?].
    apply inv_worker_change; try done; [by left|by apply Hi|]. exists (Holding l). split; [apply (Hk (Ok l))|done].
  - destruct (worker_calls _ _ _ Hw Hi) as ([] & Hmay & Hl & Hk); try done.
    apply inv_worker_turn; [done|]. exists Free. split; [apply (Hk (Err e))|done].
  - destruct (worker_calls _ _ _ Hw Hi) as ([|l|] & Hmay & Hl & Hk); try done. simpl in Hmay. subst bs.
    apply inv_worker_turn; [done|]. exists l. split; [done|]. split; [|apply Persist_wp].
    intros r. specialize (Hk r). by destruct r.
  - by eapply worker_writes_inv.
  - pose proof (inv_worker _ Hi) as Hok. unfold worker_ok in Hok. rewrite Hw in Hok. destruct Hok as (l & Hl & Hk & Hp).
    apply inv_worker_turn; [done|]. eexists. split; [apply Hk|]. destruct r; [done|]. split; [done|]. by apply Hp.
  - by eapply worker_commits_inv.
  - destruct (worker_calls _ _ _ Hw Hi) as ([|l0|] & Hmay & Hl & Hk); try done. simpl in Hmay. subst l0.
    apply inv_worker_change; try done; [by left|by apply Hi| |exists Free; split; [apply (Hk tt)|done]].
    unfold Queue.Retry. destruct (Queue.once l); simpl; [by apply Hi|]. apply Forall_app. split; [done|by apply Hi].
  - destruct (worker_calls _ _ _ Hw Hi) as ([] & Hmay & Hl & Hk); try done.
    apply inv_worker_turn; [done|]. exists Free. split; [apply (Hk x)|done].
Qed.
Lemma store_effect_mono o st x st' i : store_effect o st x st' → i ∈ st → i ∈ st'.
Proof. destruct o, x; simpl; [intros [->| ->]|intros ->]; rewrite ?elem_of_app; auto. Qed.
Lemma worker_mono w w' : worker_step w w' → mono w w'.
Proof. destruct 1; split; try done. simpl. intros i Hi. by eapply store_effect_mono. Qed.
Lemma worker_rely j w w' : inv w → worker_step w w' → rely j w w'.
Proof.
  intros _ Hs Hi. split; [by eapply worker_inv|]. split; [by apply worker_mono|].
  by destruct Hs; split.
Qed.

(** ** The handlers *)

Section handlers.
Context (apart : files_apart) (i : nat).
Abbreviation WP := (wp (rely i) (guarantee i) (effect i)).
Ltac wp_op := apply (wp_vis (ans := server_ans) (rely i) (guarantee i) (effect i)).

(** Handler [i] serves the cluster [key]; it holds the cluster's lock at
    watermark [p]; a batch of its own is behind channel [c]. *)
Definition serves (key : string) (w : world) : Prop := inv w ∧ session_key w !! i = Some key.
Definition holds (key : string) (p : Z) (w : world) : Prop :=
  serves key w ∧ locks w !! key = Some i ∧ persisted key (server w) = p.
Definition owns (c : nat) (b : Queue.Batch) (w : world) : Prop := owner w !! c = Some b.
Definition fresh_chan (c : nat) (w : world) : Prop := made w !! c = Some i ∧ owner w !! c = None.

Lemma serves_stable key w w' : rely i w w' → serves key w → serves key w'.
Proof. intros Hr [Hi Hk]. destruct (Hr Hi) as (? & _ & [_ Hk' _]). split; [done|congruence]. Qed.
Lemma holds_stable key p w w' : rely i w w' → holds key p w → holds key p w'.
Proof.
  intros Hr (Hs & Hl & Hp). destruct (Hr (proj1 Hs)) as (_ & _ & [Hm _ _]).
  destruct (Hm _ Hl) as [? ?]. split_and!; [by eapply serves_stable|done|congruence].
Qed.
Lemma owns_stable c b w w' : inv w → rely i w w' → owns c b w → owns c b w'.
Proof. intros Hi Hr Ho. destruct (Hr Hi) as (_ & Hm & _). by apply (mono_owner _ _ Hm). Qed.
Lemma fresh_stable c w w' : inv w → rely i w w' → fresh_chan c w → fresh_chan c w'.
Proof.
  intros Hi Hr [Hm Ho]. destruct (Hr Hi) as (_ & _ & [_ _ Hmm]). destruct (Hmm _ Hm). split; congruence.
Qed.
Lemma covered_stable key p w w' : inv w → rely i w w' → covered w key p → covered w' key p.
Proof. intros Hi Hr. destruct (Hr Hi) as (_ & Hm & _). by apply covered_mono. Qed.

(** Sending a frame that the durable batches justify. *)
Lemma wp_send (P : world → Prop) key f w :
  (∀ w, P w → serves key w ∧ frame_ok w key f) →
  (∀ w w', rely i w w' → P w → P w') → (∀ w, P w → inv (add_sent w i f) → P (add_sent w i f)) →
  P w → WP (srv (Send f)) (λ _, P) w.
Proof.
  intros Hs Hst Hsnd HP. simpl. intros w1 x w2 Hr ->. pose proof (Hst _ _ Hr HP) as HP1.
  destruct (Hs _ HP1) as [[Hi Hk] Hf]. pose proof (g_send i w1 key f Hk Hf) as Hg.
  split; [done|]. intros w3 Hr3. apply (Hst _ _ Hr3), Hsnd; [done|]. by apply Hg.
Qed.
Lemma holds_sent key p w f : inv (add_sent w i f) → holds key p w → holds key p (add_sent w i f).
Proof. intros ? ([? ?] & ? & ?). by split_and!. Qed.

Lemma wp_ack_held key p q batchID received retry rej w :
  holds key p w → covered w key q →
  WP (send_ack batchID received q retry rej) (λ _ w, holds key p w) w.
Proof.
  intros Hh Hc. set (P := λ w, holds key p w ∧ covered w key q).
  assert (∀ w w', rely i w w' → P w → P w') as Hst.
  { intros w1 w2 Hr [Hh1 Hc1]. split; [by eapply holds_stable|].
    eapply covered_stable; [|done|done]. by destruct Hh1 as [[? _] _]. }
  unfold send_ack. wp_op. intros w1 now w2 Hr1 ->. split; [apply guarantee_refl|].
  pose proof (Hst _ _ Hr1 (conj Hh Hc)) as HP1.
  eapply wp_mono; [|eapply (wp_send P key); [|done| |done]].
  - by intros ? ? [? _].
  - intros w' [[? _] ?]. done.
  - intros w' [? ?] ?. split; [by apply holds_sent|done].
Qed.

Lemma covered_extend w key p last b set :
  covered w key p → durable w b → clusterKey (Queue.TenantID b) (Queue.ClusterID b) = key →
  Queue.ObservationSet b = Some set → seq_run (p + 1) (Observations set) →
  Z.of_nat (length (Observations set)) = last - p → covered w key last.
Proof.
  intros Hc [Hb Hrec] Hk Hset Hrun Hlen s Hs. destruct (decide (s ≤ p)); [apply Hc; lia|].
  destruct (lookup_lt_is_Some_2 (Observations set) (Z.to_nat (s - p - 1))) as [o Ho]; [lia|].
  assert (o ∈ Observations set) as Hin by (by eapply list_elem_of_lookup_2).
  exists b, set, o. split_and!; try done; [by apply Hrec; exists set|]. apply Hrun in Ho. lia.
Qed.

(** The accepted part of a batch, relative to the watermark. *)
Definition continues (p : Z) (batch accepted : ObservationBatch) : Prop :=
  0 ≤ p ∧ seq_run (p + 1) (Observations accepted) ∧
  Z.of_nat (length (Observations accepted)) = LastSequence batch - p ∧ p < LastSequence batch.
Definition some_holds (key : string) (w : world) : Prop := ∃ p, holds key p w.

Lemma save_holds t c p n w x w' :
  admitted t c → holds (clusterKey t c) p w → covered w (clusterKey t c) n → 0 ≤ n →
  effect i (SaveCheckpoint t c n) w x w' →
  guarantee i w w' ∧ holds (clusterKey t c) p w' ∧ mono w w'.
Proof.
  intros Ha Hh Hc Hn [->|[_ ->]]; [|split; [apply guarantee_refl|done]].
  pose proof (g_save i w t c n apart Ha Hn Hc) as HG. split; [done|].
  destruct Hh as ([Hi ?] & ? & ?). destruct (HG Hi) as (? & ? & _). by split_and!.
Qed.
Lemma advance_holds key p n w :
  holds key p w → covered w key n → 0 ≤ n →
  let w' := set_server w (advance key n (server w)) (session_key w) in
  guarantee i w w' ∧ some_holds key w'.
Proof.
  intros ([Hi Hk] & Hl & Hp) Hc Hn w'. pose proof (g_advance i w key n Hl Hn Hc) as HG. split; [done|].
  destruct (HG Hi) as [? _]. eexists. by split_and!.
Qed.

Lemma wp_await hello batch accepted p c b w :
  let key := clusterKey (Hello_TenantId hello) (Hello_ClusterId hello) in
  admitted (Hello_TenantId hello) (Hello_ClusterId hello) →
  continues p batch accepted → Queue.ObservationSet b = Some accepted →
  clusterKey (Queue.TenantID b) (Queue.ClusterID b) = key →
  holds key p w → owns c b w →
  WP (await_and_advance key hello batch accepted p c) (λ _, some_holds key) w.
Proof.
  intros key Ha (Hp & Hrun & Hlen & Hlt) Hset Hkey Hh Ho. unfold await_and_advance.
  wp_op. intros w1 x w2 Hr1 [-> Hx]. split; [apply guarantee_refl|].
  pose proof (holds_stable _ _ _ _ Hr1 Hh) as Hh1.
  pose proof (owns_stable _ _ _ _ (proj1 (proj1 Hh)) Hr1 Ho) as Ho1.
  destruct x as [err|]; [apply wp_ret; intros w3 Hr; exists p; by eapply holds_stable|].
  assert (covered w1 key p ∧ covered w1 key (LastSequence batch)) as [Hcp Hcl].
  { pose proof (proj1 (proj1 Hh1)) as Hi1. destruct Hh1 as (_ & _ & <-).
    destruct (inv_watermark _ key Hi1) as [_ ?]. split; [done|].
    destruct (inv_closed _ Hi1 c (Hx eq_refl)) as (b' & Hb' & Hdu). unfold owns in Ho1. simplify_eq.
    by eapply covered_extend. }
  clear Ho Hx Hr1 Hh w Ho1. wp_op. intros w2 saved w3 Hr2 Hsv.
  pose proof (covered_stable _ _ _ _ (proj1 (proj1 Hh1)) Hr2 Hcl) as Hcl2.
  pose proof (covered_stable _ _ _ _ (proj1 (proj1 Hh1)) Hr2 Hcp) as Hcp2.
  pose proof (holds_stable _ _ _ _ Hr2 Hh1) as Hh2.
  destruct (save_holds _ _ _ _ _ _ _ Ha Hh2 Hcl2 ltac:(lia) Hsv) as (HG & Hh3 & Hm3). split; [done|].
  apply (covered_mono _ _ _ _ Hm3) in Hcl2, Hcp2. clear Hsv HG Hr2 Hh2 Hm3. destruct saved as [err|].
  { eapply wp_mono; [|by apply wp_ack_held]. intros ? w' ?. by exists p. }
  wp_op. intros w4 u w5 Hr3 ->.
  pose proof (covered_stable _ _ _ _ (proj1 (proj1 Hh3)) Hr3 Hcl2) as Hcl4.
  pose proof (holds_stable _ _ _ _ Hr3 Hh3) as Hh4.
  destruct (advance_holds key p (LastSequence batch) w4 Hh4 Hcl4 ltac:(lia)) as [HG [p' Hh5]]. split; [done|].
  eapply wp_mono; [|by apply wp_ack_held]. intros ? w' ?. by exists p'.
Qed.

(** Calls that leave the world as it is. *)
Lemma wp_pure_op {A} (P : world → Prop) (o : server_op) (k : server_ans o → prog server_ans A) Q w :
  (∀ w x w', effect i o w x w' → w' = w) → (∀ w w', rely i w w' → P w → P w') → P w →
  (∀ w x, effect i o w x w → P w → WP (k x) Q w) → WP (srv o ≫= k) Q w.
Proof.
  intros Hpure Hst HP Hk. wp_op. intros w1 x w2 Hr He. pose proof (Hpure _ _ _ He) as ->.
  split; [apply guarantee_refl|]. apply Hk; [done|]. by eapply Hst.
Qed.

(** An optional flow-control frame. *)
Lemma wp_flow key p (cond : bool) delay reason w :
  holds key p w →
  WP (if cond then srv (Send (flowControl delay reason)) else Ret None) (λ _, holds key p) w ∧
  WP (if cond then Ret None else srv (Send (flowControl delay reason))) (λ _, holds key p) w.
Proof.
  intros Hh.
  assert (WP (Ret (None : option go_error)) (λ _, holds key p) w).
  { apply wp_ret. intros w' Hr. by eapply holds_stable. }
  assert (WP (srv (Send (flowControl delay reason))) (λ _, holds key p) w).
  { apply (wp_send (holds key p) key); [|by eauto using holds_stable| |done].
    - by intros w' [? _].
    - intros w' ? ?. by apply holds_sent. }
  by destruct cond.
Qed.

Lemma wp_enqueue cfg session hello batch accepted p received flow w :
  let key := clusterKey (Hello_TenantId hello) (Hello_ClusterId hello) in
  admitted (Hello_TenantId hello) (Hello_ClusterId hello) → continues p batch accepted → holds key p w →
  WP (enqueue_and_await cfg key session hello batch accepted p received flow) (λ _, some_holds key) w.
Proof.
  intros key Ha Hcont Hh. unfold enqueue_and_await. wp_op. intros w1 c w2 Hr1 [Hc ->]. simpl in c, Hc.
  pose proof (holds_stable _ _ _ _ Hr1 Hh) as Hh1. pose proof (g_chan i w1 c Hc) as HG. split; [done|].
  assert (holds key p (set_chan w1 c i) ∧ fresh_chan c (set_chan w1 c i)) as [Hh2 Hf2].
  { destruct Hh1 as ([Hi ?] & ? & ?). destruct (HG Hi) as [? _]. split; [by split_and!|].
    split; simpl; [apply lookup_insert_eq|]. apply eq_None_not_Some. intros [b Ho].
    apply (inv_owner _ Hi) in Ho as [Ho%(inv_made _ Hi) _]. rewrite Hc in Ho. by destruct Ho. }
  clear HG Hr1 Hh Hh1 Hc. cbn zeta. set (b := {| Queue.TenantID := _ |}).
  wp_op. intros w3 x w4 Hr3 He. simpl in He. 
  pose proof (fresh_stable _ _ _ (proj1 (proj1 Hh2)) Hr3 Hf2) as [Hm3 Ho3].
  pose proof (holds_stable _ _ _ _ Hr3 Hh2) as Hh3. clear Hh2 Hf2 Hr3.
  destruct (Queue.TryEnqueue (Some b) (queue w3)) as [q'|e] eqn:Hq; destruct He as [-> ->].
  - pose proof (g_enqueue i w3 c b q' Hm3 Ho3 eq_refl Hq) as HG. split; [done|].
    apply (wp_await hello batch accepted p c b); try done; [|apply lookup_insert_eq].
    destruct Hh3 as ([Hi ?] & ? & ?). destruct (HG Hi) as [? _]. by split_and!.
  - split; [apply guarantee_refl|]. cbn beta iota.
    destruct (negb _); [apply wp_ret; intros w5 Hr; exists p; by eapply holds_stable|].
    apply wp_bind; [apply _|]. eapply wp_mono; [|apply (wp_flow key p); done].
    cbn beta. intros sendErr w5 Hh5. destruct sendErr as [err|].
    { apply wp_ret. intros w6 Hr. exists p. by eapply holds_stable. }
    eapply wp_mono; [|apply (wp_ack_held key p); [done|]]; [intros ? w6 ?; by exists p|].
    destruct Hh5 as ([Hi _] & _ & <-). by apply inv_watermark.
Qed.

Lemma wp_accept cfg session hello batch accepted p w :
  let key := clusterKey (Hello_TenantId hello) (Hello_ClusterId hello) in
  admitted (Hello_TenantId hello) (Hello_ClusterId hello) → continues p batch accepted → holds key p w →
  WP (accept_batch cfg key session hello batch accepted p) (λ _, some_holds key) w.
Proof.
  intros key Ha Hcont Hh. unfold accept_batch.
  apply (wp_pure_op (holds key p)); [done|by eauto using holds_stable|done|]. clear w Hh. intros w depth _ Hh.
  apply (wp_pure_op (holds key p)); [done|by eauto using holds_stable|done|]. clear w Hh. intros w cap _ Hh.
  cbn zeta. apply wp_bind; [apply _|]. eapply wp_mono; [|by apply (wp_flow key p)].
  cbn beta. clear w Hh. intros sendErr w Hh. destruct sendErr as [err|].
  { apply wp_ret. intros w' Hr. exists p. by eapply holds_stable. }
  apply (wp_pure_op (holds key p)); [done|by eauto using holds_stable|done|]. clear w Hh. intros w now _ Hh.
  apply (wp_pure_op (holds key p)); [done|by eauto using holds_stable|done|]. clear w Hh. intros w archived _ Hh.
  destruct archived as [err|]; [|by apply wp_enqueue].
  eapply wp_mono; [|apply (wp_ack_held key p); [done|]]; [intros ? w' ?; by exists p|].
  destruct Hh as ([Hi _] & _ & <-). by apply inv_watermark.
Qed.

Lemma wp_locked cfg session hello batch p w :
  let key := clusterKey (Hello_TenantId hello) (Hello_ClusterId hello) in
  admitted (Hello_TenantId hello) (Hello_ClusterId hello) →
  wire_batch batch → validateBatch batch cfg = None → holds key p w →
  WP (handle_locked cfg key session hello batch p) (λ _, some_holds key) w.
Proof.
  intros key Ha Hw Hv Hh. unfold handle_locked.
  assert (0 ≤ p ∧ covered w key p) as [Hp Hc].
  { destruct Hh as ([Hi _] & _ & <-). by apply inv_watermark. }
  assert (∀ bid r retry rej, WP (send_ack bid r p retry rej) (λ _, some_holds key) w) as Hack.
  { intros. eapply wp_mono; [|by apply wp_ack_held]. intros ? w' ?. by exists p. }
  destruct (Z.leb_spec (LastSequence batch) p) as [|Hl]; [apply Hack|].
  destruct Hw as (Hw1 & Hw2 & Hw3). rewrite u64_id by (destruct Hw2; split; lia).
  destruct (Z.ltb_spec (p + 1) (FirstSequence batch)); [apply Hack|].
  apply validateBatch_spec in Hv; [|done].
  destruct (suffix_spec cfg batch p) as (a & -> & Hf & Hla & Hobs & Hrun & _); try done.
  apply wp_accept; [done| |done]. split_and!; try done.
  pose proof (vb_count _ _ Hv). rewrite Hobs, length_drop. lia.
Qed.

Lemma wp_frame_serving key f w :
  serves key w → frame_ok w key f → WP (srv (Send f)) (λ _, serves key) w.
Proof.
  intros Hs Hf. eapply wp_mono; [|apply (wp_send (λ w, serves key w ∧ frame_ok w key f) key)].
  - by intros ? w' [? _].
  - done.
  - intros w1 w2 Hr [Hs1 Hf1]. split; [by eapply serves_stable|].
    destruct (Hr (proj1 Hs1)) as (_ & Hd & _). by eapply frame_ok_mono.
  - intros w1 [[? ?] ?] ?. by split.
  - done.
Qed.
Lemma wp_ack_serving key q batchID received retry rej w :
  serves key w → covered w key q →
  WP (send_ack batchID received q retry rej) (λ _, serves key) w.
Proof.
  intros Hs Hc. unfold send_ack. wp_op. intros w1 now w2 Hr ->. split; [apply guarantee_refl|].
  apply wp_frame_serving; [by eapply serves_stable|]. simpl. eapply covered_stable; [|done|done]. by destruct Hs.
Qed.

Lemma wp_handleBatch cfg session hello batch w :
  let key := clusterKey (Hello_TenantId hello) (Hello_ClusterId hello) in
  admitted (Hello_TenantId hello) (Hello_ClusterId hello) → wire_batch batch → serves key w →
  WP (handleBatch cfg key session hello batch) (λ _, serves key) w.
Proof.
  intros key Ha Hw Hs. unfold handleBatch. destruct (validateBatch batch cfg) as [err|] eqn:Hv.
  - wp_op. intros w1 x w2 Hr1 (_ & -> & ->). split; [apply guarantee_refl|].
    pose proof (serves_stable _ _ _ Hr1 Hs) as Hs1.
    by apply (wp_ack_serving key); [|apply inv_watermark, Hs1].
  - wp_op. intros w1 x w2 Hr1 (Hl & -> & ->). pose proof (serves_stable _ _ _ Hr1 Hs) as Hs1.
    pose proof (g_lock i w1 key Hl) as HG. split; [done|].
    apply wp_bind; [apply _|]. eapply wp_mono; [|apply wp_locked; [done|done|done|]].
    + cbn beta. intros r w3 [p Hh]. wp_op. intros w4 [] w5 Hr4 ->.
      pose proof (holds_stable _ _ _ _ Hr4 Hh) as ([Hi Hk] & Hl4 & _).
      pose proof (g_unlock i w4 key Hl4) as HG4. split; [done|].
      apply wp_ret. intros w6 Hr6. eapply serves_stable; [done|]. split; [by apply HG4|done].
    + destruct Hs1 as [Hi ?]. split_and!; [split; [by apply HG|done]| |done]. apply lookup_insert_eq.
Qed.

Lemma wp_serve fuel cfg session hello w :
  let key := clusterKey (Hello_TenantId hello) (Hello_ClusterId hello) in
  admitted (Hello_TenantId hello) (Hello_ClusterId hello) →
  serves key w → WP (serve fuel cfg key session hello) (λ _, serves key) w.
Proof.
  intros key Ha. revert w. induction fuel as [|fuel IH]; intros w Hs; cbn [serve].
  { intros w' Hr. by eapply serves_stable. }
  assert (∀ (r : option (option go_error)) w, serves key w → WP (Ret r) (λ _, serves key) w) as Hret.
  { intros r w' Hs'. apply wp_ret. intros w2 Hr. by eapply serves_stable. }
  wp_op. intros w1 x w2 Hr1 [-> Hx]. split; [apply guarantee_refl|].
  apply (serves_stable _ _ _ Hr1) in Hs. destruct x as [[h|b|h|]|err]; auto.
  apply wp_bind; [apply _|]. eapply wp_mono; [|by apply wp_handleBatch].
  cbn beta. intros [err|] w3 Hs3; auto.
Qed.

(** The watermark a session is granted is covered. *)
Lemma acquired_covered w key session load p sk :
  let r := acquire load key session (server w) in
  inv (set_server w r.2 sk) → r.1 = Ok (p, true) → covered w key p.
Proof.
  intros r Hi Hr.
  assert (∃ st, clusters r.2 !! key = Some st ∧ persistedThrough st = p) as (st & Hst & <-).
  { unfold r, acquire in *. repeat case_match; simplify_eq/=; eexists; (split; [apply lookup_insert_eq|done]). }
  by apply (inv_clusters _ Hi key st).
Qed.
Lemma wp_hello_release fuel cfg session hello p w :
  let key := clusterKey (Hello_TenantId hello) (Hello_ClusterId hello) in
  admitted (Hello_TenantId hello) (Hello_ClusterId hello) → serves key w → covered w key p →
  WP (now ← srv Now;
      sent ← srv (Send (serverHello session p cfg now));
      result ← match sent with
               | Some err => Ret (Some (Some (Status Unavailable ("send server hello: " +:+ error_text err)%string)))
               | None => serve fuel cfg key session hello
               end;
      _ ← srv (Release key session);
      Ret result) (λ _ _, True) w.
Proof.
  intros key Ha Hs Hc. wp_op. intros w1 now w2 Hr1 ->. split; [apply guarantee_refl|].
  assert (covered w1 key p) as Hc1 by (eapply covered_stable; [|done|done]; by destruct Hs).
  apply (serves_stable _ _ _ Hr1) in Hs.
  apply wp_bind; [apply _|]. eapply wp_mono; [|apply (wp_frame_serving key); [done|exact Hc1]].
  cbn beta. clear w w1 Hr1 Hs Hc Hc1. intros sent w Hs.
  apply wp_bind; [apply _|]. eapply wp_mono with (Q := λ _, serves key).
  - intros r w1 Hs1. wp_op. intros w2 [] w3 Hr2 ->. split; [apply g_release|]. by apply wp_ret.
  - destruct sent as [err|]; [|by apply wp_serve]. apply wp_ret. intros w' Hr. by eapply serves_stable.
Qed.

Lemma wp_Connect fuel cfg w :
  inv w → session_key w !! i = None → WP (Connect fuel cfg) (λ _ _, True) w.
Proof.
  intros Hi Hk. set (P := λ w, inv w ∧ session_key w !! i = None).
  assert (∀ w w', rely i w w' → P w → P w') as Hst.
  { intros w1 w2 Hr [Hi1 Hk1]. destruct (Hr Hi1) as (? & _ & [_ Hk2 _]). split; [done|congruence]. }
  assert (∀ (r : option (option go_error)) w, WP (Ret r) (λ _ _, True) w) as Hret by (intros; by apply wp_ret).
  unfold Connect. apply (wp_pure_op P); [by intros ? ? ? [-> _]|done|done|].
  clear w Hi Hk. intros w first _ HP. destruct first as [[hello|b|h|]|err]; auto.
  destruct (validateHello hello); auto.
  apply (wp_pure_op P); [by intros ? ? ? [-> _]|done|done|]. clear w HP. intros w denied [_ Hlet] HP. destruct denied; auto.
  specialize (Hlet eq_refl).
  destruct (negb _); auto.
  apply (wp_pure_op P); [done|done|done|]. clear w HP. intros w session _ HP. cbn zeta.
  set (key := clusterKey (Hello_TenantId hello) (Hello_ClusterId hello)).
  wp_op. intros w1 x w2 Hr1 (Hl & load & Hload & -> & ->).
  destruct (Hst _ _ Hr1 HP) as [Hi1 Hk1].
  pose proof (g_acquire i w1 _ _ load session Hlet Hl Hk1 Hload) as HG. fold key in HG. split; [done|].
  destruct (HG Hi1) as [Hi2 _]. set (r := acquire load key session (server w1)) in *.
  destruct r.1 as [[p []]|err] eqn:Hr; auto.
  assert (serves key (set_server w1 r.2 (<[i := key]> (session_key w1)))) as Hs
    by (split; [done|apply lookup_insert_eq]).
  assert (covered w1 key p) as Hc by (by eapply acquired_covered).
  apply (wp_hello_release fuel cfg session hello p); done.
Qed.
End handlers.

(** ** The whole service *)

Lemma start_worker_ok w turns : worker w = start_worker turns → worker_ok w.
Proof. intros Hw. unfold worker_ok. rewrite Hw. exists Free. split; [apply Run_obeys|done]. Qed.
Lemma inv_restart turns w : inv w → inv (restart turns w).
Proof.
  intros [_ _ _ _ _ Hst _ Hsv Hse].
  constructor; simpl; try done; try (by eapply start_worker_ok); intros *; rewrite ?lookup_empty; try done; by intros [].
Qed.
Lemma inv_start turns : inv (start_world turns).
Proof.
  constructor; simpl; try done; try (by eapply start_worker_ok); intros *; rewrite ?lookup_empty; try done;
    try (by intros []); by intros ?%not_elem_of_nil.
Qed.

Section properties.
Context (apart : files_apart) (cfg : Config).

Definition unused (i : nat) (w : world) : Prop := session_key w !! i = None.
Abbreviation ok := (pool_ok inv rely guarantee effect unused
  (A := option (option go_error)) (ans := server_ans)).

Lemma system_step_ok s s' : system_step cfg s s' → ok s → ok s'.
Proof.
  destruct 1 as [s s' Hs|turns s].
  - revert Hs. apply pool_step_ok; try apply _.
    + intros i w w' HG Hi. by apply HG.
    + apply worker_inv.
    + intros i j w w' Hij _ HG Hi. destruct (HG Hi) as (? & ? & Hm). split_and!; [done|done|]. by apply Hm.
    + intros j w w' Hi Hw. by apply worker_rely.
    + intros i w w' Hi Hr Hf. destruct (Hr Hi) as (_ & _ & [_ Hk _]). unfold unused in *. congruence.
    + intros i p w [fuel ->] Hi Hf. by apply wp_Connect.
  - intros (Hi & _ & _). split_and!; simpl; [by apply inv_restart|done|done].
Qed.
Lemma system_ok turns s : rtc (system_step cfg) (Pool (start_world turns) []) s → ok s.
Proof.
  intros Hr. assert (ok (Pool (start_world turns) [])) as Hok.
  { split_and!; [apply inv_start|done|done]. }
  revert Hok. induction Hr; eauto using system_step_ok.
Qed.

(** C2: no acknowledged observation is lost, in a deployment whose clusters have
    checkpoint files of their own. In every execution of the service, with any number
    of concurrent streams, the persistence worker making its calls one by one and each
    insert failing or not, and crashes and restarts at any point: whenever a server
    hello or an acknowledgement told an agent that its cluster is persisted through
    sequence [n], every sequence number from 1 to [n] is that of an observation of a
    batch of the cluster that was queued, and its row is stored under the table of its
    kind; observations of a kind without a table (metrics and events) have none. *)
Theorem acknowledged_is_durable turns s k f :
  rtc (system_step cfg) (Pool (start_world turns) []) s →
  (k, f) ∈ sent (shared s) →
  ∃ key, k = Some key ∧ frame_ok (shared s) key f.
Proof. intros (Hi & _ & _)%system_ok. by apply inv_sent. Qed.

(** C3: the checkpoints never run ahead of the stored rows, so a restarted server
    never skips observations: in a deployment whose clusters have checkpoint files of
    their own, every sequence saved for a cluster that was let in, and every watermark
    in memory, is covered by recorded observations in every reachable state. *)
Theorem checkpoints_are_covered turns s t c n :
  rtc (system_step cfg) (Pool (start_world turns) []) s →
  (admitted t c ∧ saved (shared s) !! Files.checkpoint_path root t c = Some n) ∨
    persisted (clusterKey t c) (server (shared s)) = n →
  0 ≤ n ∧ covered (shared s) (clusterKey t c) n.
Proof.
  intros (Hi & _ & _)%system_ok [[Ha Hn]|<-]; [by apply (inv_saved _ Hi)|]. by apply inv_watermark.
Qed.
End properties.

(** ** Concrete executions

    An executable scheduler for one handler: the agent's frames come from a
    list, the worker works whenever the handler waits for it. [None] when a call is
    not enabled. *)

(** The next call of the worker, if it can make one; every insert succeeds. *)
Definition work_call (w : world) (o : worker_op) : (worker_ans o → prog worker_ans (option (option string))) → option world :=
  match o with
  | WAcquire m => λ k, '(l, q') ← Queue.Acquire m (queue w); Some (set_worker w q' (chans w) (stored w) (Turning (k (Ok l))))
  | WPersist bs => λ k, Some (set_worker w (queue w) (chans w) (stored w) (Writing (Persist uuidSHA1 bs) k))
  | WCommit l => λ k, '(_, q', cs') ← Queue.Commit l (queue w) (chans w); Some (set_worker w q' cs' (stored w) (Turning (k tt)))
  | WRetry l => λ k, Some (set_worker w (Queue.Retry l (queue w)).2 (chans w) (stored w) (Turning (k tt)))
  | WSleep _ => λ k, Some (set_worker w (queue w) (chans w) (stored w) (Turning (k true)))
  end.
Definition work_one (w : world) : option world :=
  match worker w with
  | Turning (Ret _) => None
  | Turning (Vis o k) => work_call w o k
  | Writing (Ret r) k => Some (set_worker w (queue w) (chans w) (stored w) (Turning (k r)))
  | Writing (Vis (StoreInsert i) k') k => Some (set_worker w (queue w) (chans w) (stored w ++ [i]) (Writing (k' None) k))
  end.
Fixpoint work (n : nat) (w : world) : world :=
  match n with O => w | S n' => from_option (work n') w (work_one w) end.

Lemma work_one_step w w' : work_one w = Some w' → worker_step w w'.
Proof.
  unfold work_one. destruct (worker w) as [[r|o k]|[r|[i] k'] k] eqn:Hw; [done| |intros [= <-]..].
  - destruct o; simpl.
    + intros ([l q'] & Ha & [= <-])%bind_Some. by eapply work_acquire.
    + intros [= <-]. by apply work_persist.
    + intros [= <-]. by eapply work_retry.
    + intros ([[l' q'] cs'] & Hc & [= <-])%bind_Some. by eapply work_commit.
    + intros [= <-]. by eapply work_sleep.
  - by apply work_persisted.
  - eapply (work_insert w (StoreInsert i) k' k None); done.
Qed.
Lemma work_steps n w : rtc worker_step w (work n w).
Proof.
  revert w. induction n as [|n IH]; intros w; [done|]. cbn [work]. destruct (work_one w) as [w1|] eqn:Hw; [|done].
  eapply rtc_l; [by apply work_one_step|apply IH].
Qed.

#[local] Arguments work : simpl never.

Definition wire_ok (b : ObservationBatch) : bool :=
  (0 <=? FirstSequence b) && (FirstSequence b <? two64) && (0 <=? LastSequence b) && (LastSequence b <? two64)
  && (Z.of_nat (length (Observations b)) <? two63).
Lemma wire_ok_spec b : wire_ok b = true → wire_batch b.
Proof. unfold wire_ok, wire_batch, is_u64. rewrite !andb_true_iff. lia. Qed.

Section scheduler.
Context (lets : string → string → bool) (Hlets : ∀ t c, lets t c = true → admitted t c).
Definition sched (o : server_op) (s : world * list AgentToIngestion)
    : option (server_ans o * (world * list AgentToIngestion)) :=
  let '(w, script) := s in
  match o return option (server_ans o * (world * list AgentToIngestion)) with
  | Recv =>
      match script with
      | [] => Some (Err EOF, (w, []))
      | f :: script' =>
          match f with
          | AgentToIngestion_Batch b => if wire_ok b then Some (Ok f, (w, script')) else None
          | _ => Some (Ok f, (w, script'))
          end
      end
  | Send f => Some (None, (add_sent w 0 f, script))
  | Now => Some (unix_epoch, s)
  | Authenticate hello => if lets (Hello_TenantId hello) (Hello_ClusterId hello) then Some (None, s) else Some (Some "denied"%string, s)
  | NewUUID => Some ("session"%string, s)
  | Acquire t c key session =>
      match locks w !! key with
      | Some _ => None
      | None =>
          let r := acquire (Ok (default 0 (saved w !! Files.checkpoint_path root t c))) key session (server w) in
          Some (r.1, (set_server w r.2 (match r.1 with Ok (_, true) => <[0%nat := key]> (session_key w)
                                        | _ => session_key w end), script))
      end
  | Release key session => Some (tt, (set_server w (release key session (server w)) (session_key w), script))
  | Persisted key => match locks w !! key with Some _ => None | None => Some (persisted key (server w), s) end
  | LockCluster key =>
      match locks w !! key with
      | Some _ => None
      | None => Some (persisted key (server w), (set_locks w (<[key := 0%nat]> (locks w)), script))
      end
  | UnlockCluster key => Some (tt, (set_locks w (delete key (locks w)), script))
  | Advance key n => Some (tt, (set_server w (advance key n (server w)) (session_key w), script))
  | QueueDepth => Some (Queue.Depth (queue w), s)
  | QueueCapacity => Some (Queue.Capacity (queue w), s)
  | Archive _ => Some (None, s)
  | MakeChan =>
      let c := Queue.new_chan (chans w) in
      match chans w !! c with Some _ => None | None => Some (c, (set_chan w c 0, script)) end
  | TryEnqueue b =>
      match Queue.TryEnqueue (Some b) (queue w) with
      | Ok q' => Some (None, (add_batch w q' b, script))
      | Err e => Some (Some e, s)
      end
  | AwaitPersisted c =>
      let w' := work 20 w in
      match chans w' !! c with Some true => Some (None, (w', script)) | _ => None end
  | SaveCheckpoint t c n => Some (None, (set_saved w (<[Files.checkpoint_path root t c := n]> (saved w)), script))
  end.

Lemma sched_sound o w script x w' script' :
  sched o (w, script) = Some (x, (w', script')) → ∃ w1, rtc worker_step w w1 ∧ effect 0 o w1 x w'.
Proof.
  destruct o; simpl; intros Hs.
  all: try (exists w; split; [apply rtc_refl|]; by repeat case_match; simplify_eq/=; eauto using wire_ok_spec).
  - exists w. split; [apply rtc_refl|]. destruct (locks w !! key) eqn:Hl; [done|]. split; [done|].
    exists (Ok (default 0 (saved w !! Files.checkpoint_path root tenant cluster))). injection Hs as <- <- <-. split; [|done].
    destruct (saved w !! Files.checkpoint_path root tenant cluster); auto.
  - exists (work 20 w). split; [apply work_steps|]. destruct (chans (work 20 w) !! c) as [[]|] eqn:Hc; by simplify_eq.
Qed.

(** The handler runs to its end if every call is enabled. *)
Fixpoint drive {A} (p : prog server_ans A) (s : world * list AgentToIngestion)
    : option (A * (world * list AgentToIngestion)) :=
  match p with
  | Ret a => Some (a, s)
  | Vis o k => match sched o s with Some (x, s') => drive (k x) s' | None => None end
  end.
Lemma worker_steps cfg w w' ts :
  rtc worker_step w w' → rtc (system_step cfg) (Pool w ts) (Pool w' ts).
Proof. induction 1; [done|]. eapply rtc_l; [|done]. apply sys_step. by constructor. Qed.
Lemma drive_steps cfg (p : prog server_ans (option (option go_error))) w script r w' script' :
  drive p (w, script) = Some (r, (w', script')) →
  rtc (system_step cfg) (Pool w [p]) (Pool w' [Ret r]).
Proof.
  revert w script. induction p as [a|o k IH]; intros w script; cbn [drive].
  { intros [= -> -> _]. apply rtc_refl. }
  destruct (sched o (w, script)) as [[x [w1 s1]]|] eqn:Hs; [|done]. intros Hd.
  apply sched_sound in Hs as (w2 & Hw & He). apply IH in Hd.
  etrans; [by apply worker_steps|]. eapply rtc_l; [|exact Hd]. apply sys_step.
  by apply (step_thread worker_step effect (handler cfg) w2 [Vis o k] 0 o k x w1).
Qed.
(** A stream of [script] from [w], and the world it leaves. *)
Definition stream (cfg : Config) (turns : nat) (script : list AgentToIngestion) (w : world) : option world :=
  (λ r, r.2.1) <$> drive (Connect turns cfg) (w, script).
Lemma stream_steps cfg turns script w w' :
  stream cfg turns script w = Some w' → ∃ code, rtc (system_step cfg) (Pool w []) (Pool w' code).
Proof.
  unfold stream. intros ([r [w1 s1]] & Hd & ->)%fmap_Some. exists [Ret r].
  eapply rtc_l; [apply sys_step, step_start; by exists turns|]. by eapply drive_steps.
Qed.
End scheduler.
End steps.

Section examples.
#[local] Existing Instance sample_codec.
Definition deployment (lets : string → string → bool) : Deployment := {|
  uuidSHA1 := id; root := "/data"; admitted := λ t c, lets t c = true;
  worker_config := {| BatchSize := 0; RetryInitial := 0; RetryMaximum := 0 |}; capacity := 4
|}.
Definition lets_sample (t c : string) : bool := (t =? "t")%string && (c =? "c")%string.
Definition sample_deployment : Deployment := deployment lets_sample.
#[local] Existing Instance sample_deployment | 0.
Lemma sample_apart : files_apart.
Proof.
  unfold files_apart, admitted, sample_deployment, deployment, lets_sample. intros t c t' c'.
  rewrite !andb_true_iff, !String.eqb_eq. by intros [-> ->] [-> ->].
Qed.

Definition sample_world : world :=
  default (start_world 9) (stream lets_sample sample_config 2
    [AgentToIngestion_Hello sample_hello; AgentToIngestion_Batch (sample_batch 1 3)] (start_world 9)).
Definition ack_through (f : IngestionToAgent) : option Z :=
  match f with IngestionToAgent_Acknowledgement a => Some (Ack_PersistedThroughSequence a) | _ => None end.
Lemma sample_reachable : ∃ code, rtc (system_step sample_config) (Pool (start_world 9) []) (Pool sample_world code).
Proof.
  unfold sample_world. destruct (stream _ _ _ _ _) as [w|] eqn:E; [|by exists []].
  by eapply stream_steps; [|exact E].
Qed.
(** The stream of three observations of a node is acknowledged through sequence 3, after
    one insert into the table of nodes. *)
Lemma sample_acknowledged : ∃ f, (Some (clusterKey "t" "c"), f) ∈ sent sample_world ∧ ack_through f = Some 3.
Proof.
  assert (omap (λ kf, if decide (kf.1 = Some (clusterKey "t" "c")) then ack_through kf.2 else None) (sent sample_world) = [3]) as Hs
    by (vm_compute; reflexivity).
  assert (3 ∈ [3]) as Hin by left. rewrite <- Hs in Hin.
  apply list_elem_of_omap in Hin as ([k f] & Hin & Hf). simpl in Hf. case_decide as Hk; [|discriminate].
  subst k. exists f. split; [exact Hin|exact Hf].
Qed.
Lemma sample_stored : (λ i, (Table i, length (Rows i))) <$> stored sample_world = [("node"%string, 3%nat)].
Proof. vm_compute. reflexivity. Qed.

Lemma acknowledged_is_durable_witness :
  ∃ f, ack_through f = Some 3 ∧ frame_ok sample_world (clusterKey "t" "c") f.
Proof.
  destruct sample_reachable as [code Hr]. destruct sample_acknowledged as (f & Hf & Ha).
  destruct (acknowledged_is_durable sample_apart sample_config 9 _ _ f Hr Hf) as (key & [= <-] & Hok).
  exists f. split; [exact Ha|exact Hok].
Defined.
Lemma checkpoints_are_covered_witness : 0 ≤ 3 ∧ covered sample_world (clusterKey "t" "c") 3.
Proof.
  destruct sample_reachable as [code Hr].
  apply (checkpoints_are_covered sample_apart sample_config 9 _ "t" "c" 3 Hr). left. split; vm_compute; reflexivity.
Defined.
End examples.

(** *** Clusters that share a checkpoint file

    The service runs for the tenant [a/b], restarts, and greets the tenant [a_b], from
    which it has never received anything, with the watermark of the other. *)
Section colliding.
#[local] Existing Instance sample_codec.
Definition lets_both (t c : string) : bool := ((t =? "a/b") || (t =? "a_b"))%string && (c =? "c")%string.
Definition shared_files : Deployment := deployment lets_both.
#[local] Existing Instance shared_files | 0.
Definition hello_of (t : string) : AgentToIngestion := AgentToIngestion_Hello
  {| Hello_TenantId := t; Hello_ClusterId := "c"; Hello_AgentInstanceId := "a"; Hello_AgentVersion := "1";
     Hello_KubernetesVersion := "1.30"; Hello_SupportedProtocolVersions := [{| Major := 1; Minor := 0 |}];
     Hello_Capabilities := []; Hello_ResumeAfterSequence := 0; Hello_ConfigurationRevision := "" |}.
Definition colliding : option world :=
  w ← stream lets_both sample_config 2 [hello_of "a/b"; AgentToIngestion_Batch (sample_batch 1 3)] (start_world 9);
  stream lets_both sample_config 2 [hello_of "a_b"] (restart 9 w).
Definition greeted (w : world) (key : string) : list Z :=
  omap (λ kf, match kf.2 with
              | IngestionToAgent_Hello h => if decide (kf.1 = Some key) then Some (SHello_AcceptedThroughSequence h) else None
              | _ => None end) (sent w).
(** What a cluster without a file of its own is told *)
Lemma colliding_names : ∃ turns w code,
  rtc (system_step sample_config) (Pool (start_world turns) []) (Pool w code) ∧
  greeted w (clusterKey "a_b" "c") = [3] ∧ (Queue.TenantID <$> taken w) = ["a/b"%string].
Proof.
  exists 9%nat. assert (match colliding with Some w => (greeted w (clusterKey "a_b" "c"), Queue.TenantID <$> taken w) | None => ([], []) end
    = ([3], ["a/b"%string])) as Hw by (vm_compute; reflexivity).
  destruct colliding as [w|] eqn:E; [|discriminate]. unfold colliding in E.
  apply bind_Some in E as (w1 & H1 & H2).
  apply stream_steps in H1 as [c1 H1]; [|done]. apply stream_steps in H2 as [c2 H2]; [|done].
  exists w, c2. injection Hw as Hg Ht. split; [|split; [exact Hg|exact Ht]].
  etrans; [exact H1|]. eapply rtc_l; [apply (sys_crash _ 9)|exact H2].
Qed.
End colliding.
End Pipeline.
