(* ===== verification/Client.v ===== *)
(** * The agent's stream client

    [agent/transport/client.go]: the handshake, the loop that takes batches from
    the buffer, sends them and waits for their acknowledgement, and the
    reconnect loop. The client is a program over the buffer's methods, the
    stream, the clock and its [select] statements; [dialOptions] (TLS set-up)
    is the operation [Dial]. *)
From stdpp Require Import base option list gmap strings.
From Stdlib Require Import ZArith Lia Ascii.
From S2P Require Import Prelude Crypto Proto Effects Inventory Buffer Queue Persistence Server.

Module Client.

Record ClientConfig := {
  TenantID : string;
  ClusterID : string;
  AgentInstanceID : string;
  AgentVersion : string;
  KubernetesVersion : string;
  BatchSize : Z
}.

(** Errors of the client, and the ones it distinguishes. *)
Inductive cerror :=
| Canceled
| DeadlineExceeded
| ErrBufferClosed
| StreamFailure (e : StreamError)
| Wrapped (context : string) (e : cerror)
| Other (msg : string).
(** [errors.Is(err, context.Canceled)] *)
Fixpoint is_canceled (e : cerror) : bool :=
  match e with Canceled => true | Wrapped _ e' => is_canceled e' | _ => false end.
Definition is_deadline (e : cerror) : bool := match e with DeadlineExceeded => true | _ => false end.

(** The outcome of a [select]. *)
Inductive event :=
| CtxDone
| ReceiveError (e : cerror)
| HeartbeatTick
| Frame (f : IngestionToAgent)
| Nothing.

Inductive client_op :=
| Dial
| Send (f : AgentToIngestion)
| Recv
| BufferBatch (maximum : Z)
| BufferAcknowledge (persistedThrough : Z) (terminal : list Z)
| BufferHighest
| BufferPersisted
| Poll
| Await
| Sleep (d : Duration)
| Now
| AfterOrDone (d : Duration).
Definition client_ans (o : client_op) : Type :=
  match o with
  | Dial => option cerror
  | Send _ => option cerror
  | Recv => res cerror IngestionToAgent
  | BufferBatch _ => res cerror (list Observation)
  | BufferAcknowledge _ _ => unit
  | BufferHighest => Z
  | BufferPersisted => Z
  | Poll => event
  | Await => event
  | Sleep _ => unit
  | Now => Time
  | AfterOrDone _ => bool (* [true] when the context is done *)
  end.
Definition cl (o : client_op) : prog client_ans (client_ans o) := call o.

Section client.
Context `{Protobuf} (cfg : ClientConfig).

(** The client's copy of the checksum. *)
Fixpoint hashed (os : list Observation) : string :=
  match os with
  | [] => EmptyString
  | o :: os' =>
      match marshalObservation o with
      | Some data => (data +:+ hashed os')%string
      | None => hashed os'
      end
  end.
Definition batchChecksum (os : list Observation) : string := sha256 (hashed os).

Definition capabilities : list Z := [1; 2; 3; 4; 5; 6; 7; 8].
Definition hello (persisted : Z) : AgentHello :=
  {| Hello_TenantId := TenantID cfg; Hello_ClusterId := ClusterID cfg;
     Hello_AgentInstanceId := AgentInstanceID cfg; Hello_AgentVersion := AgentVersion cfg;
     Hello_KubernetesVersion := KubernetesVersion cfg;
     Hello_SupportedProtocolVersions := [{| Major := 1; Minor := 0 |}];
     Hello_Capabilities := capabilities; Hello_ResumeAfterSequence := persisted;
     Hello_ConfigurationRevision := "" |}.

(** The batch built from a non-empty slice; indexing an empty one panics. *)
Definition buildBatch (os : list Observation) (now : Time) : option ObservationBatch :=
  match head os, last os with
  | Some a, Some z =>
      Some {| BatchId := (ClusterID cfg +:+ "-" +:+ dec (Sequence a) +:+ "-" +:+ dec (Sequence z))%string;
              FirstSequence := Sequence a; LastSequence := Sequence z;
              CreatedAt := Some (ts_New now); PayloadChecksum := batchChecksum os; Observations := os |}
  | _, _ => None
  end.

Definition handleFrame (f : IngestionToAgent) : prog client_ans (option cerror) :=
  match f with
  | IngestionToAgent_Error e => Ret (Some (StreamFailure e))
  | IngestionToAgent_FlowControl flow =>
      match Flow_RetryAfter flow with
      | Some d => _ ← cl (Sleep d); Ret None
      | None => Ret None
      end
  | _ => Ret None
  end.

Definition sendHeartbeat : prog client_ans (option cerror) :=
  now ← cl Now;
  highest ← cl BufferHighest;
  persisted ← cl BufferPersisted;
  cl (Send (AgentToIngestion_Heartbeat
    {| Heartbeat_SentAt := Some (ts_New now); Heartbeat_HighestSequenceCreated := highest;
       Heartbeat_HighestSequencePersistedByServer := persisted |})).

Definition terminalSequences (a : BatchAcknowledgement) : list Z :=
  Rejection_Sequence <$> filter (λ r, Rejection_Retryable r = false) (Ack_Rejections a).

(** [awaitAcknowledgement], for at most [fuel] events; the outer [None] when it
    is still waiting. *)
Fixpoint awaitAcknowledgement (fuel : nat) (batchID : string) : prog client_ans (option (option cerror)) :=
  match fuel with
  | O => Ret None
  | S fuel' =>
      ev ← cl Await;
      match ev with
      | CtxDone => Ret (Some (Some Canceled))
      | ReceiveError e => Ret (Some (Some e))
      | HeartbeatTick =>
          failed ← sendHeartbeat;
          match failed with
          | Some e => Ret (Some (Some e))
          | None => awaitAcknowledgement fuel' batchID
          end
      | Frame (IngestionToAgent_Acknowledgement a) =>
          if negb (Ack_BatchId a =? "")%string && negb (Ack_BatchId a =? batchID)%string
          then awaitAcknowledgement fuel' batchID
          else
            _ ← cl (BufferAcknowledge (Ack_PersistedThroughSequence a) (terminalSequences a));
            Ret (Some None)
      | Frame f =>
          failed ← handleFrame f;
          match failed with
          | Some e => Ret (Some (Some e))
          | None => awaitAcknowledgement fuel' batchID
          end
      | Nothing => awaitAcknowledgement fuel' batchID
      end
  end.

(** One turn of the loop of [connect]: [Ok] goes on, [Err] returns. *)
Definition idle_turn : prog client_ans (res (option cerror) unit) :=
  ev ← cl Poll;
  match ev with
  | CtxDone => Ret (Err None)
  | ReceiveError e => Ret (Err (Some e))
  | Frame f =>
      failed ← handleFrame f;
      Ret (match failed with Some e => Err (Some e) | None => Ok tt end)
  | HeartbeatTick =>
      failed ← sendHeartbeat;
      Ret (match failed with Some e => Err (Some e) | None => Ok tt end)
  | Nothing => Ret (Ok tt)
  end.
Definition batch_turn (fuel : nat) (os : list Observation) : prog client_ans (option (res (option cerror) unit)) :=
  now ← cl Now;
  match buildBatch os now with
  | None => Ret (Some (Err (Some (Other "index out of range"))))
  | Some batch =>
      failed ← cl (Send (AgentToIngestion_Batch batch));
      match failed with
      | Some e => Ret (Some (Err (Some (Wrapped "send observation batch: " e))))
      | None =>
          result ← awaitAcknowledgement fuel (BatchId batch);
          Ret (match result with
               | None => None
               | Some (Some e) => Some (Err (Some e))
               | Some None => Some (Ok tt)
               end)
      end
  end.
Definition turn (fuel : nat) : prog client_ans (option (res (option cerror) unit)) :=
  taken ← cl (BufferBatch (BatchSize cfg));
  match taken with
  | Err e =>
      if negb (is_deadline e) && negb (is_canceled e) then Ret (Some (Err (Some e)))
      else (r ← idle_turn; Ret (Some r))
  | Ok [] => r ← idle_turn; Ret (Some r)
  | Ok os => batch_turn fuel os
  end.
Fixpoint loop (fuel : nat) : prog client_ans (option (option cerror)) :=
  match fuel with
  | O => Ret None
  | S fuel' =>
      r ← turn fuel';
      match r with
      | None => Ret None
      | Some (Err e) => Ret (Some e)
      | Some (Ok _) => loop fuel'
      end
  end.

Definition selected_major (h : ServerHello) : Z := from_option Major 0 (SHello_SelectedProtocolVersion h).
Definition connect (fuel : nat) : prog client_ans (option (option cerror)) :=
  dial ← cl Dial;
  match dial with
  | Some e => Ret (Some (Some e))
  | None =>
      persisted ← cl BufferPersisted;
      failed ← cl (Send (AgentToIngestion_Hello (hello persisted)));
      match failed with
      | Some e => Ret (Some (Some (Wrapped "send agent hello: " e)))
      | None =>
          first ← cl Recv;
          match first with
          | Err e => Ret (Some (Some (Wrapped "receive server hello: " e)))
          | Ok (IngestionToAgent_Hello h) =>
              if negb (selected_major h =? 1) then
                Ret (Some (Some (Other "ingestion returned an incompatible handshake")))
              else
                _ ← cl (BufferAcknowledge (SHello_AcceptedThroughSequence h) []);
                loop fuel
          | Ok _ => Ret (Some (Some (Other "ingestion returned an incompatible handshake")))
          end
      end
  end.

(** [Run]: reconnect with a doubled delay. *)
Fixpoint Run (fuel : nat) (backoff : Duration) : prog client_ans bool :=
  match fuel with
  | O => Ret false
  | S fuel' =>
      _ ← connect fuel';
      stop ← cl (AfterOrDone backoff);
      if (stop : bool) then Ret true
      else Run fuel' (if backoff <? 30 * Second then i64 (backoff * 2) else backoff)
  end.
End client.

(** ** The client's batches *)

Section facts.
Context `{Protobuf}.

(** Both sides compute the same checksum. *)
Lemma checksum_same os : batchChecksum os = Server.batchChecksum os.
Proof.
  unfold batchChecksum, Server.batchChecksum. f_equal.
  assert (∀ x xs, String.concat "" (x :: xs) = (x +:+ String.concat "" xs)%string) as Hc.
  { intros x [|y ys]; simpl; [by rewrite StringFacts.string_app_nil_r|].
    by rewrite StringFacts.string_app_nil_l. }
  induction os as [|o os IH]; simpl; [done|]. destruct (marshalObservation o); [|done]. by rewrite Hc, IH.
Qed.

Lemma batchID_ne (a : string) (t : string) : (a +:+ "-" +:+ t)%string ≠ EmptyString.
Proof. by destruct a. Qed.

(** A batch built from what [Buffer.Batch] returned. *)
Lemma built_valid cfg scfg b maximum os now batch :
  Buffer.wf b → 1 ≤ maximum →
  Buffer.Batch maximum b = Buffer.BatchReady os → buildBatch cfg os now = Some batch →
  Server.valid_batch scfg batch ↔
    u32 (Z.of_nat (length os)) ≤ Server.MaxBatchRecords scfg ∧ u64 (sizeBatch batch) ≤ Server.MaxBatchBytes scfg ∧
    Forall (λ o, Server.validateInventoryObservation o = None) os.
Proof.
  intros Hwf Hm Hb Hbuild.
  assert (Buffer.entries b ≠ []) as Hne by (intros He; unfold Buffer.Batch in Hb; rewrite He in Hb; by case_match).
  destruct (Buffer.batch_ready_spec maximum b Hwf Hm Hne) as (a & n & Hb' & Ha & Hn & Hmax & Hrun & _).
  rewrite Hb in Hb'. injection Hb' as ->. set (os := take n (Buffer.entries b)) in *.
  assert (length os = n) as Hlen by (unfold os; rewrite length_take; lia).
  assert (os !! 0%nat = Some a) as Ha0 by (unfold os; rewrite lookup_take_lt by lia; done).
  unfold buildBatch in Hbuild. rewrite head_lookup, Ha0 in Hbuild.
  destruct (last os) as [z|] eqn:Hz; [|done]. rewrite last_lookup, Hlen in Hz. injection Hbuild as <-.
  pose proof (Hrun _ _ Hz) as Hzs.
  assert (∀ j o, os !! j = Some o → o ∈ Buffer.entries b) as Hin.
  { intros j o [Hj _]%lookup_take_Some. by eapply list_elem_of_lookup_2. }
  destruct Hwf as [_ Hr _ _ Hc]. rewrite Forall_forall in Hr, Hc. rewrite Forall_forall. split.
  { intros [_ _ _ _ Hobs _ Hrecs Hbytes]. simpl in *. split_and!; [done|done|].
    intros o [j Ho]%list_elem_of_lookup_1. by destruct (Hobs _ _ Ho) as (_ & _ & _ & ?). }
  intros (Hrecs & Hbytes & Hinv). constructor; simpl; try done.
  - apply batchID_ne.
  - apply (Hr a). by eapply Hin.
  - rewrite Hlen. lia.
  - by intros He; rewrite He in Ha0.
  - intros j o Ho. destruct (Hc o (Hin _ _ Ho)) as [? ?].
    split_and!; [by apply Hrun|done|done|apply Hinv; by eapply list_elem_of_lookup_2].
  - apply checksum_same.
Qed.
Lemma built_wire cfg b maximum os now batch :
  Buffer.wf b → Buffer.Batch maximum b = Buffer.BatchReady os →
  Z.of_nat (length (Buffer.entries b)) < two63 →
  buildBatch cfg os now = Some batch → Server.wire_batch batch.
Proof.
  intros [_ Hr Hn _ _] Hb Hlen Hbuild.
  assert (∃ n, os = take n (Buffer.entries b)) as [n ->].
  { unfold Buffer.Batch in Hb. destruct (Buffer.entries b); [by case_match|].
    cbn zeta in Hb. destruct (_ <? 0); [done|]. injection Hb as <-. by eexists. }
  unfold buildBatch in Hbuild. rewrite Forall_forall in Hr.
  destruct (head _) as [a|] eqn:Ha; [|done]. destruct (last _) as [z|] eqn:Hz; [|done]. injection Hbuild as <-.
  rewrite head_lookup in Ha. rewrite last_lookup in Hz.
  apply lookup_take_Some in Ha as [Ha%list_elem_of_lookup_2%Hr _].
  apply lookup_take_Some in Hz as [Hz%list_elem_of_lookup_2%Hr _].
  unfold Server.wire_batch, is_u64. simpl. rewrite length_take. lia.
Qed.
End facts.

(** ** What the client acknowledges *)

(** The word of the server in an event, and the call that acts on it. *)
Definition said (ev : Effects.event client_ans) : list (Z * list Z) :=
  let 'existT o x := ev in
  match o return client_ans o → list (Z * list Z) with
  | Recv => λ x, match x with Ok (IngestionToAgent_Hello h) => [(SHello_AcceptedThroughSequence h, [])] | _ => [] end
  | Await => λ x,
      match x with
      | Frame (IngestionToAgent_Acknowledgement a) => [(Ack_PersistedThroughSequence a, terminalSequences a)]
      | _ => []
      end
  | _ => λ _, []
  end x.
Definition acked (ev : Effects.event client_ans) : list (Z * list Z) :=
  match projT1 ev with BufferAcknowledge p terminal => [(p, terminal)] | _ => [] end.
(** What the buffer handed out, and what the client sends of it. *)
Definition handed (ev : Effects.event client_ans) : list (list Observation) :=
  let 'existT o x := ev in
  match o return client_ans o → list (list Observation) with
  | BufferBatch _ => λ x, match x with Ok (o :: os) => [o :: os] | _ => [] end
  | _ => λ _, []
  end x.
Definition offered (ev : Effects.event client_ans) : list (list Observation) :=
  match projT1 ev with Send (AgentToIngestion_Batch b) => [Observations b] | _ => [] end.
(** The client repeats the server's words, and sends what the buffer holds. *)
Inductive word := Said (w : Z * list Z) | Handed (os : list Observation).
Definition gives (ev : Effects.event client_ans) : list word := (Said <$> said ev) ++ (Handed <$> handed ev).
Definition needs (ev : Effects.event client_ans) : list word := (Said <$> acked ev) ++ (Handed <$> offered ev).
Abbreviation justified := (causal gives needs).
Abbreviation quiet_call := (causal_call gives needs).

Section traces.
Context `{Protobuf} (cfg : ClientConfig).

Lemma buildBatch_observations ccfg os now batch : buildBatch ccfg os now = Some batch → Observations batch = os.
Proof. unfold buildBatch. destruct (head os), (last os); try done. by intros [= <-]. Qed.

Lemma handleFrame_justified f seen t r : traces (handleFrame f) t r → justified seen t.
Proof.
  unfold handleFrame. destruct f; simpl; try (by intros [-> _]).
  case_match; simpl; [|by intros [-> _]]. intros (x & t' & -> & -> & _). by apply quiet_call.
Qed.
Lemma sendHeartbeat_justified seen t r : traces sendHeartbeat t r → justified seen t.
Proof.
  unfold sendHeartbeat. simpl. intros (x1 & ? & -> & x2 & ? & -> & x3 & ? & -> & x4 & ? & -> & -> & _).
  repeat (apply quiet_call; [done|]). done.
Qed.
Lemma await_justified fuel batchID seen t r :
  traces (awaitAcknowledgement fuel batchID) t r → justified seen t.
Proof.
  revert seen t. induction fuel as [|fuel IH]; intros seen t; cbn [awaitAcknowledgement]; [by intros [-> _]|].
  intros (ev & t' & -> & Ht). apply quiet_call; [done|].
  destruct ev as [|e| |f|]; simpl in Ht.
  - by destruct Ht as [-> _].
  - by destruct Ht as [-> _].
  - eapply (causal_bind gives needs sendHeartbeat); [..|exact Ht]; [intros; by eapply sendHeartbeat_justified|].
    intros [e|] t'' Ht''; [by destruct Ht'' as [-> _]|eauto].
  - assert (∀ t, traces (failed ← handleFrame f; match failed with Some e => Ret (Some (Some e))
        | None => awaitAcknowledgement fuel batchID end) t r → justified (gives (existT Await (Frame f)) ++ seen) t) as Hother.
    { intros t0. apply causal_bind; [intros; by eapply handleFrame_justified|].
      intros [e|] t'' Ht''; [by destruct Ht'' as [-> _]|eauto]. }
    destruct f; try (by apply Hother).
    case_match; [eauto|]. simpl in Ht. destruct Ht as (u & t1 & -> & -> & _).
    split; [|done]. intros x Hx. apply elem_of_app. by left.
  - eauto.
Qed.
Lemma idle_justified seen t r : traces idle_turn t r → justified seen t.
Proof.
  unfold idle_turn. intros (ev & t' & -> & Ht). apply quiet_call; [done|].
  set (k := λ failed : option cerror, Ret (ans := client_ans) match failed with Some e => Err (Some e) | None => Ok tt end).
  destruct ev; try (by destruct Ht as [-> _]).
  - apply (causal_bind gives needs sendHeartbeat k _ _ r); [intros; by eapply sendHeartbeat_justified| |exact Ht].
    by intros ? ? [-> _].
  - apply (causal_bind gives needs (handleFrame f) k _ _ r); [intros; by eapply handleFrame_justified| |exact Ht].
    by intros ? ? [-> _].
Qed.
Lemma turn_justified fuel seen t r : traces (turn cfg fuel) t r → justified seen t.
Proof.
  assert (∀ t, traces (r ← idle_turn; Ret (Some r)) t r → justified seen t) as Hidle.
  { intros t0. apply causal_bind; [intros; by eapply idle_justified|]. by intros ? ? [-> _]. }
  unfold turn. simpl. intros (taken & t' & -> & Ht). apply quiet_call; [done|].
  destruct taken as [[|o os]|e]; simpl in Ht; [by apply Hidle| |].
  - unfold batch_turn in Ht. simpl in Ht. destruct Ht as (now & t1 & -> & Ht). apply quiet_call; [done|].
    destruct (buildBatch _ _ _) as [batch|] eqn:Hb; simpl in Ht; [|by destruct Ht as [-> _]].
    destruct Ht as (failed & t2 & -> & Ht). split.
    { intros w Hw. cbn in Hw. apply list_elem_of_singleton in Hw as ->. rewrite (buildBatch_observations _ _ _ _ Hb).
      apply elem_of_app. right. left. }
    destruct failed; simpl in Ht; [by destruct Ht as [-> _]|].
    eapply (causal_bind gives needs (awaitAcknowledgement fuel (BatchId batch))); [..|exact Ht];
      [intros; by eapply await_justified|]. by intros ? ? [-> _].
  - case_match; simpl in Ht; [by destruct Ht as [-> _]|by apply Hidle].
Qed.
Lemma loop_justified fuel seen t r : traces (loop cfg fuel) t r → justified seen t.
Proof.
  revert t. induction fuel as [|fuel IH]; intros t; cbn [loop]; [by intros [-> _]|].
  apply causal_bind; [intros; by eapply turn_justified|].
  intros [[|]|] t' Ht; [eauto|by destruct Ht as [-> _]|by destruct Ht as [-> _]].
Qed.
Lemma connect_justified fuel seen t r : traces (connect cfg fuel) t r → justified seen t.
Proof.
  unfold connect. simpl. intros (x & t1 & -> & Ht). apply quiet_call; [done|].
  destruct x; simpl in Ht; [by destruct Ht as [-> _]|].
  destruct Ht as (p & t2 & -> & y & t3 & -> & Ht). apply quiet_call; [done|]. apply quiet_call; [done|].
  destruct y; simpl in Ht; [by destruct Ht as [-> _]|].
  destruct Ht as (first & t4 & -> & Ht). apply quiet_call; [done|].
  destruct first as [f|e]; [|by destruct Ht as [-> _]]. destruct f; simpl in Ht; try (by destruct Ht as [-> _]).
  case_match; simpl in Ht; [by destruct Ht as [-> _]|].
  destruct Ht as (u & t5 & -> & Ht). split; [|by eapply loop_justified].
  intros x Hx. apply elem_of_app. by left.
Qed.
Lemma Run_justified fuel backoff seen t r : traces (Run cfg fuel backoff) t r → justified seen t.
Proof.
  revert backoff t. induction fuel as [|fuel IH]; intros backoff t; cbn [Run]; [by intros [-> _]|].
  apply causal_bind; [intros; by eapply connect_justified|].
  intros c t' (stop & t1 & -> & Ht). apply quiet_call; [done|]. destruct stop; simpl in Ht; [by destruct Ht as [-> _]|eauto].
Qed.
End traces.

(** ** Reconnecting *)

Definition delay_of (ev : Effects.event client_ans) : option Duration :=
  match projT1 ev with AfterOrDone d => Some d | _ => None end.
(** [connect] itself never waits for a reconnect delay. *)
Fixpoint silent {A} (p : prog client_ans A) : Prop :=
  match p with
  | Ret _ => True
  | Vis (AfterOrDone _) _ => False
  | Vis _ k => ∀ x, silent (k x)
  end.
Lemma silent_bind {A B} (p : prog client_ans A) (f : A → prog client_ans B) :
  silent p → (∀ a, silent (f a)) → silent (p ≫= f).
Proof.
  induction p as [a|o k IH]; intros Hp Hf; [apply Hf|].
  destruct o; simpl in *; try done; intros x; by apply IH.
Qed.
Lemma silent_traces {A} (p : prog client_ans A) t r :
  silent p → traces p t r → Forall (λ ev, delay_of ev = None) t.
Proof.
  revert t. induction p as [a|o k IH]; intros t Hp; [by intros [-> _]|].
  intros (x & t' & -> & Ht). constructor; [by destruct o|]. eapply IH; [|exact Ht]. by destruct o.
Qed.
Lemma handleFrame_silent f : silent (handleFrame f).
Proof. unfold handleFrame. repeat case_match; simpl; auto. Qed.
Lemma await_silent `{Protobuf} fuel batchID : silent (awaitAcknowledgement fuel batchID).
Proof.
  induction fuel as [|fuel IH]; simpl; [done|]. intros [| | |f|]; simpl; auto.
  - intros ? ? ? [|]; simpl; auto.
  - assert (∀ f, silent (failed ← handleFrame f; match failed with Some e => Ret (Some (Some e))
        | None => awaitAcknowledgement fuel batchID end)) as Hf.
    { intros g. apply silent_bind; [apply handleFrame_silent|]. intros [|]; simpl; auto. }
    destruct f; try apply Hf. case_match; simpl; auto.
Qed.
Lemma idle_silent `{Protobuf} : silent idle_turn.
Proof.
  unfold idle_turn. simpl. intros []; simpl; auto.
  apply (silent_bind (handleFrame f)); [apply handleFrame_silent|]. done.
Qed.
Lemma turn_silent `{Protobuf} cfg fuel : silent (turn cfg fuel).
Proof.
  assert (silent (r ← idle_turn; Ret (Some r))) as Hidle by (apply silent_bind; [apply idle_silent|done]).
  unfold turn. intros [[|o os]|e].
  - exact Hidle.
  - unfold batch_turn. intros now. cbn [prog_bind]. simpl. case_match; simpl; [|done].
    intros [e|]; simpl; [done|]. apply (silent_bind (awaitAcknowledgement fuel _)); [apply await_silent|done].
  - simpl. case_match; [done|exact Hidle].
Qed.
Lemma loop_silent `{Protobuf} cfg fuel : silent (loop cfg fuel).
Proof.
  induction fuel as [|fuel IH]; [done|]. cbn [loop]. apply silent_bind; [apply turn_silent|].
  intros [[|]|]; simpl; auto.
Qed.
Lemma connect_silent `{Protobuf} cfg fuel t r :
  traces (connect cfg fuel) t r → Forall (λ ev, delay_of ev = None) t.
Proof.
  apply silent_traces. unfold connect. simpl. intros [e|]; simpl; [done|].
  intros p [e|]; simpl; [done|]. intros [f|e]; simpl; [|done]. destruct f; simpl; try done.
  case_match; simpl; [done|]. intros _. apply loop_silent.
Qed.

Lemma run_delays `{Protobuf} cfg fuel k t r :
  (k ≤ 5)%nat →
  traces (Run cfg fuel (Second * 2 ^ Z.of_nat k)) t r →
  Forall (λ ev, match delay_of ev with Some d => Second ≤ d ≤ 32 * Second | None => True end) t.
Proof.
  revert k t. induction fuel as [|fuel IH]; intros k t Hk; cbn [Run]; [by intros [-> _]|].
  intros (c & t1 & t2 & -> & Hc & Ht)%traces_bind. apply Forall_app. split.
  { eapply Forall_impl; [exact (connect_silent _ _ _ _ Hc)|]. intros ev Hev. by rewrite Hev. }
  destruct Ht as (stop & t3 & -> & Ht).
  assert (1 ≤ 2 ^ Z.of_nat k ≤ 32) as Hp.
  { split; [apply (Z.pow_le_mono_r 2 0); lia|]. change 32 with (2 ^ 5). apply Z.pow_le_mono_r; lia. }
  constructor; [simpl; unfold Second; lia|].
  destruct stop; simpl in Ht; [by destruct Ht as [-> _]|].
  destruct (Z.ltb_spec (Second * 2 ^ Z.of_nat k) (30 * Second)) as [Hlt|Hge]; [|by eapply IH].
  assert (k ≤ 4)%nat as Hk4.
  { destruct (decide (k = 5%nat)) as [->|]; [|lia]. vm_compute in Hlt. discriminate. }
  apply (IH (S k)); [lia|].
  replace (i64 (Second * 2 ^ Z.of_nat k * 2)) with (Second * 2 ^ Z.of_nat (S k)) in Ht; [done|].
  rewrite Nat2Z.inj_succ, Z.pow_succ_r by lia. rewrite i64_id; [lia|].
  unfold is_i64, two63, Second. lia.
Qed.

(** ** Properties *)

Section properties.
Context `{Protobuf}.

(** C6: what the client builds from its buffer is in order: a batch taken from a
    well-formed buffer has a valid range, contiguous sequences, event ids and
    payloads, and the checksum the server computes. It passes [validateBatch] exactly
    when the rest does, which the client does not look at: the number of observations
    and the size are within the limits of the server (which its hello announces and
    the client ignores), and each inventory record is valid. *)
Theorem client_batch_accepted cfg scfg b maximum os now batch :
  Buffer.wf b → 1 ≤ maximum → Z.of_nat (length (Buffer.entries b)) < two63 →
  Buffer.Batch maximum b = Buffer.BatchReady os → buildBatch cfg os now = Some batch →
  Server.validateBatch batch scfg = None ↔
    u32 (Z.of_nat (length os)) ≤ Server.MaxBatchRecords scfg ∧ u64 (sizeBatch batch) ≤ Server.MaxBatchBytes scfg ∧
    Forall (λ o, Server.validateInventoryObservation o = None) os.
Proof.
  intros Hwf Hm Hlen Hb Hbuild. rewrite Server.validateBatch_spec by (by eapply built_wire). by eapply built_valid.
Qed.

(** C10: the client gives up observations only on the server's word: every
    acknowledgement applied to the buffer repeats the accepted sequence of the
    server's hello, or the persisted sequence and the non-retryable rejections of
    an acknowledgement frame received before it. *)
Theorem client_acknowledges_only_received cfg fuel t1 p terminal u t2 r :
  traces (connect cfg fuel) (t1 ++ existT (BufferAcknowledge p terminal) u :: t2) r →
  ∃ ev, ev ∈ t1 ∧ (p, terminal) ∈ said ev.
Proof.
  intros Ht. apply (connect_justified _ _ []) in Ht.
  apply (causal_lookup _ _ _ _ _ _ (Said (p, terminal))) in Ht as [[]%not_elem_of_nil|(ev & Hev & Hs)]; [|left].
  exists ev. split; [done|]. apply elem_of_app in Hs as [(w & [= <-] & Hw)%list_elem_of_fmap|(os & ? & _)%list_elem_of_fmap]; done.
Qed.

(** The reconnect delay starts at one second and doubles up to at most 32
    seconds, without overflow, for as long as the client runs. *)
Lemma reconnect_delay_bounded cfg fuel t r :
  traces (Run cfg fuel Second) t r →
  Forall (λ ev, match delay_of ev with Some d => Second ≤ d ≤ 32 * Second | None => True end) t.
Proof. intros Ht. by apply (run_delays cfg fuel 0 t r ltac:(lia)). Qed.

(** A restarted agent loses observations. Its new buffer numbers from 1, but
    the server's hello carries the watermark [n] of the previous run, and the
    client acknowledges it: everything published so far is dropped unsent, and
    every later batch up to sequence [n] is answered as an already persisted
    duplicate without being archived or queued. *)
Theorem restarted_agent_loses_observations scfg key session hello n b batch :
  Buffer.wf b → Buffer.next b ≤ n + 1 →
  Server.validateBatch batch scfg = None → LastSequence batch ≤ n →
  Buffer.entries (Buffer.Acknowledge n [] b) = [] ∧
  Server.handleBatch scfg key session hello batch =
    (persisted ← Server.srv (Server.LockCluster key);
     result ← Server.handle_locked scfg key session hello batch persisted;
     _ ← Server.srv (Server.UnlockCluster key);
     Ret result) ∧
  Server.handle_locked scfg key session hello batch n =
    Server.send_ack (BatchId batch) (LastSequence batch) n [] [].
Proof.
  intros [_ Hr _ _ _] Hn Hv Hl. split_and!.
  - simpl. apply ListFacts.filter_none. intros o Ho. rewrite Forall_forall in Hr.
    specialize (Hr o Ho). intros Hneg. apply Hneg. left. lia.
  - unfold Server.handleBatch. by rewrite Hv.
  - unfold Server.handle_locked. destruct (Z.leb_spec (LastSequence batch) n); [done|lia].
Qed.

End properties.

(** *** Concrete runs *)
Definition sample_config : ClientConfig :=
  {| TenantID := "t"; ClusterID := "c"; AgentInstanceID := "a"; AgentVersion := "1";
     KubernetesVersion := "1.30"; BatchSize := 3 |}.
Definition sample_server_hello (accepted : Z) : ServerHello :=
  {| SHello_SessionId := "s"; SHello_SelectedProtocolVersion := Some {| Major := 1; Minor := 0 |};
     SHello_AcceptedThroughSequence := accepted; SHello_MaxBatchRecords := 500; SHello_MaxBatchBytes := 4194304;
     SHello_HeartbeatInterval := 30 * Second; SHello_ServerTime := None |}.
(** A server that greets with watermark 5 and then says nothing. *)
Definition greeting (o : client_op) (w : unit) : client_ans o * unit :=
  match o with
  | Dial => (None, w)
  | Send _ => (None, w)
  | Recv => (Ok (IngestionToAgent_Hello (sample_server_hello 5)), w)
  | BufferBatch _ => (Err DeadlineExceeded, w)
  | BufferAcknowledge _ _ => (tt, w)
  | BufferHighest => (0, w)
  | BufferPersisted => (0, w)
  | Poll => (Nothing, w)
  | Await => (Nothing, w)
  | Sleep _ => (tt, w)
  | Now => (0, w)
  | AfterOrDone _ => (false, w)
  end.
Definition sample_buffer (n : nat) : Buffer.Buffer :=
  {| Buffer.entries := Server.sample_observations 1 n; Buffer.next := Z.of_nat n + 1; Buffer.persisted := 0;
     Buffer.capacity := 10; Buffer.notify := true; Buffer.closed := false |}.
Lemma sample_buffer_wf : Buffer.wf (sample_buffer 3).
Proof.
  constructor; simpl; [repeat constructor| |by vm_compute|done|].
  - repeat constructor; simpl; lia.
  - repeat constructor; simpl; (discriminate || by eexists).
Qed.

Lemma client_batch_accepted_witness :
  ∃ batch, buildBatch (H := sample_codec) sample_config (Server.sample_observations 1 3) 0 = Some batch ∧
           Server.validateBatch (H := sample_codec) batch Server.sample_config = None.
Proof.
  eexists. split; [reflexivity|].
  apply (client_batch_accepted (H := sample_codec) sample_config Server.sample_config (sample_buffer 3) 3
    (Server.sample_observations 1 3) 0 _ sample_buffer_wf).
  - done.
  - reflexivity.
  - reflexivity.
  - reflexivity.
  - split; [vm_compute; discriminate|]. split; [vm_compute; discriminate|]. by repeat constructor.
Defined.
Lemma client_acknowledges_only_received_witness :
  let t := run_trace greeting (connect (H := sample_codec) sample_config 0) tt in
  ∃ ev, ev ∈ take 4 t ∧ (5, []) ∈ said ev.
Proof.
  intros t.
  apply (client_acknowledges_only_received (H := sample_codec) sample_config 0 (take 4 t) 5 [] tt []
    (run greeting (connect (H := sample_codec) sample_config 0) tt).1).
  exact (run_is_trace greeting (connect (H := sample_codec) sample_config 0) tt).
Defined.
Lemma reconnect_delay_bounded_witness :
  Forall (λ ev, match delay_of ev with Some d => Second ≤ d ≤ 32 * Second | None => True end)
    (run_trace greeting (Run (H := sample_codec) sample_config 8 Second) tt).
Proof.
  exact (reconnect_delay_bounded (H := sample_codec) sample_config 8 _ _
    (run_is_trace greeting (Run (H := sample_codec) sample_config 8 Second) tt)).
Defined.
Lemma restarted_agent_loses_observations_witness :
  Buffer.entries (Buffer.Acknowledge 40 [] (sample_buffer 3)) = [].
Proof.
  apply (restarted_agent_loses_observations (H := sample_codec) Server.sample_config "k" "s"
    Server.sample_hello 40 (sample_buffer 3) (Server.sample_batch 4 3) sample_buffer_wf); simpl; try lia.
  exact Server.sample_valid.
Defined.
End Client.
