(* ===== verification/Delivery.v ===== *)
(** * From the agent to the database

    One agent, from its start on, and the ingestion service of [Pipeline.v]: the
    buffer that collectors publish to, the client that drains it over as many
    connections as it takes, the network between them, the stream handlers, the
    worker, and crashes of the service.

    The network may lose, repeat, delay and reorder whole frames and break
    connections at any time; it does not invent frames: what a stream of the agent's
    cluster carries to the service, the client has sent, and what the client hears
    was sent to a stream of its cluster. Streams of other clusters carry anything.
    The agent itself is not restarted.

    Two results: where every published observation is, and that an observation the
    server finds invalid stops the stream of its cluster for good. *)
From stdpp Require Import base option list gmap strings relations.
From Stdlib Require Import ZArith Lia.
From S2P Require Import Prelude Crypto Proto Effects Inventory Buffer Queue Persistence Worker Server Pipeline Client.

Module Delivery.
Import Pipeline.

(** The agent: its buffer, what was published to it, the rest of the client's
    program, and the batches the client has put on the wire. *)
Record agent := Agent {
  buffer : Buffer.Buffer;
  published : list Observation;
  client : prog Client.client_ans bool;
  wire : list ObservationBatch
}.
Record site := Site { service : world; edge : agent }.

Section delivery.
Context `{Protobuf, Deployment} (scfg : Server.Config) (ccfg : Client.ClientConfig) (limit : Z).

(** The cluster of the agent *)
Definition cluster : string := Server.clusterKey (Client.TenantID ccfg) (Client.ClusterID ccfg).

(** *** Steps *)

(** What a call of the client may answer, and what it does to the buffer [b] and
    the wire [ws]. *)
Definition heard (w : world) (f : IngestionToAgent) : Prop := (Some cluster, f) ∈ sent w.
Definition client_call (w : world) (o : Client.client_op) (b : Buffer.Buffer) (ws : list ObservationBatch)
    : Client.client_ans o → Buffer.Buffer → list ObservationBatch → Prop :=
  match o with
  | Client.Send (AgentToIngestion_Batch batch) => λ _ b' ws', b' = b ∧ ws' = ws ++ [batch]
  | Client.Recv => λ x b' ws', b' = b ∧ ws' = ws ∧ ∀ f, x = Ok f → heard w f
  | Client.Poll | Client.Await => λ x b' ws', b' = b ∧ ws' = ws ∧ ∀ f, x = Client.Frame f → heard w f
  | Client.BufferBatch maximum => λ x b' ws', b' = b ∧ ws' = ws ∧
      ∀ os, x = Ok os → Buffer.Batch maximum b = Buffer.BatchReady os
  | Client.BufferAcknowledge p terminal => λ _ b' ws', b' = Buffer.Acknowledge p terminal b ∧ ws' = ws
  | Client.BufferHighest => λ x b' ws', b' = b ∧ ws' = ws ∧ x = Buffer.HighestSequence b
  | Client.BufferPersisted => λ x b' ws', b' = b ∧ ws' = ws ∧ x = Buffer.PersistedThrough b
  | _ => λ _ b' ws', b' = b ∧ ws' = ws
  end.

(** Collectors publish, the token of the buffer is taken, the buffer is closed, and
    the client makes its next call. Sequence numbers are used up after 2^64
    publications, which are not considered. *)
Inductive agent_step (w : world) : agent → agent → Prop :=
| agent_publish b os p ws now event b' o :
    Buffer.Publish now event b = Buffer.Published b' → Buffer.next b + 1 < two64 →
    Buffer.entries b' = Buffer.entries b ++ [o] →
    agent_step w (Agent b os p ws) (Agent b' (os ++ [o]) p ws)
| agent_token b os p ws : agent_step w (Agent b os p ws) (Agent (Buffer.Threads.take_token b) os p ws)
| agent_close b os p ws : agent_step w (Agent b os p ws) (Agent (Buffer.Close b) os p ws)
| agent_call b os ws o k x b' ws' :
    client_call w o b ws x b' ws' →
    agent_step w (Agent b os (Vis o k) ws) (Agent b' os (k x) ws').

Inductive site_env : site → site → Prop :=
| env_worker w w' a : worker_step w w' → site_env (Site w a) (Site w' a)
| env_agent w a a' : agent_step w a a' → site_env (Site w a) (Site w a').

(** A handler of a stream of the cluster receives batches the client has sent. *)
Definition carried (i : nat) (o : Server.server_op) (s : site) : Server.server_ans o → Prop :=
  match o with
  | Server.Recv => λ x, ∀ b, x = Ok (AgentToIngestion_Batch b) →
      session_key (service s) !! i = Some cluster → b ∈ wire (edge s)
  | _ => λ _, True
  end.
Definition site_effect (i : nat) (o : Server.server_op) (s : site) (x : Server.server_ans o) (s' : site) : Prop :=
  edge s' = edge s ∧ effect i o (service s) x (service s') ∧ carried i o s x.

Abbreviation state := (pool (ans := Server.server_ans) (W := site) (A := option (option Server.go_error))).
Inductive site_step : state → state → Prop :=
| site_run s s' : pool_step site_env site_effect (handler scfg) s s' → site_step s s'
| site_crash turns s : site_step s (Pool (Site (restart turns (service (shared s))) (edge (shared s))) []).

(** An agent that starts, and a service that starts. *)
Definition start_agent (fuel : nat) : agent :=
  Agent (Buffer.NewBuffer limit) [] (Client.Run ccfg fuel Second) [].
Definition start_site (fuel turns : nat) : state := Pool (Site (start_world turns) (start_agent fuel)) [].

(** *** What is promised of an observation *)

(** The observation is in a batch of its cluster that was queued, and recorded: its
    row is stored, or its payload has no table. *)
Definition delivered (w : world) (o : Observation) : Prop :=
  ∃ b, b ∈ taken w ∧ Server.clusterKey (Queue.TenantID b) (Queue.ClusterID b) = cluster ∧
    Worker.within b o ∧ Worker.recorded uuidSHA1 (stored w) b o.
Definition refused (ws : list ObservationBatch) (o : Observation) : Prop :=
  ∃ b, b ∈ ws ∧ o ∈ Observations b ∧ Server.validateBatch b scfg ≠ None.

(** *** The projection on the service *)
Definition service_of (s : state) : pool := Pool (service (shared s)) (code s).
Lemma site_step_service s s' :
  site_step s s' → rtc (system_step scfg) (service_of s) (service_of s').
Proof.
  destruct 1 as [s s' Hs|turns s]; [|by apply rtc_once, (sys_crash scfg turns (service_of s))].
  destruct Hs as [w ts i o k x w' Hi (_ & He & _)|w ts w' Henv|w ts p Hp]; unfold service_of; simpl.
  - apply rtc_once, sys_step. by eapply step_thread.
  - destruct Henv as [v v' a Hw|v a a' _]; simpl; [|done]. apply rtc_once, sys_step. by apply step_env.
  - apply rtc_once, sys_step. by apply step_start.
Qed.
Lemma site_steps_service fuel turns s :
  rtc site_step (start_site fuel turns) s → rtc (system_step scfg) (Pool (start_world turns) []) (service_of s).
Proof.
  intros Hs. change (Pool (start_world turns) []) with (service_of (start_site fuel turns)).
  induction Hs as [s|s1 s2 s3 H12 _ IH]; [done|]. etrans; [by apply site_step_service|done].
Qed.

(** *** Invariant *)

(** Queued batches of the cluster hold observations of valid batches that the client
    has sent. *)
Definition genuine (ws : list ObservationBatch) (b : Queue.Batch) : Prop :=
  Server.clusterKey (Queue.TenantID b) (Queue.ClusterID b) = cluster →
  ∀ o, Worker.within b o →
    ∃ b', b' ∈ ws ∧ Server.wire_batch b' ∧ Server.validateBatch b' scfg = None ∧ o ∈ Observations b'.
(** Every number from 1 to [n] is that of a queued observation of the cluster. *)
Definition queued_through (w : world) (n : Z) : Prop :=
  ∀ m, 1 ≤ m ≤ n → ∃ b o, b ∈ taken w ∧ Server.clusterKey (Queue.TenantID b) (Queue.ClusterID b) = cluster ∧
    Worker.within b o ∧ Sequence o = m.
(** Rejections name observations of a batch that fails the validation. *)
Definition honest (ws : list ObservationBatch) (f : IngestionToAgent) : Prop :=
  match f with
  | IngestionToAgent_Acknowledgement a => ∀ r, r ∈ Ack_Rejections a → ∃ b err, b ∈ ws ∧
      Server.validateBatch b scfg = Some err ∧ r ∈ Server.rejectionsForBatch b (Server.rejectionCode err) err
  | _ => True
  end.
Record tidy (ws : list ObservationBatch) (w : world) : Prop := {
  tidy_taken : ∀ b, b ∈ taken w → genuine ws b;
  tidy_gapless : ∀ b o, b ∈ taken w → Server.clusterKey (Queue.TenantID b) (Queue.ClusterID b) = cluster →
    Worker.within b o → queued_through w (Sequence o);
  tidy_sent : ∀ f, heard w f → honest ws f
}.

Definition says (f : IngestionToAgent) : option (Z * list Z) :=
  match f with
  | IngestionToAgent_Hello h => Some (SHello_AcceptedThroughSequence h, [])
  | IngestionToAgent_Acknowledgement a => Some (Ack_PersistedThroughSequence a, Client.terminalSequences a)
  | _ => None
  end.
Definition trusted (fs : list (option string * IngestionToAgent)) (os : list Observation) (x : Client.word) : Prop :=
  match x with
  | Client.Said p => ∃ f, (Some cluster, f) ∈ fs ∧ says f = Some p
  | Client.Handed l => l ≠ [] ∧ ∀ o, o ∈ l → o ∈ os
  end.
Record fair (fs : list (option string * IngestionToAgent)) (a : agent) : Prop := {
  fair_buffer : Buffer.wf (buffer a);
  fair_numbers : seq_run 1 (published a);
  fair_next : Buffer.next (buffer a) = 1 + Z.of_nat (length (published a));
  fair_entries : ∀ o, o ∈ Buffer.entries (buffer a) → o ∈ published a;
  fair_wire : ∀ b, b ∈ wire a → Observations b ≠ [] ∧ ∀ o, o ∈ Observations b → o ∈ published a;
  fair_client : ∃ seen, (∀ x, x ∈ seen → trusted fs (published a) x) ∧ informed Client.gives Client.needs seen (client a)
}.
Definition ginv (s : site) : Prop :=
  tidy (wire (edge s)) (service s) ∧ fair (sent (service s)) (edge s).

Record grows (s s' : site) : Prop := {
  grows_published : ∀ o, o ∈ published (edge s) → o ∈ published (edge s');
  grows_wire : ∀ b, b ∈ wire (edge s) → b ∈ wire (edge s');
  grows_sent : ∀ x, x ∈ sent (service s) → x ∈ sent (service s');
  grows_taken : ∀ b, b ∈ taken (service s) → b ∈ taken (service s')
}.
#[local] Instance grows_refl : Reflexive grows.
Proof. by split. Qed.
#[local] Instance grows_trans : Transitive grows.
Proof. intros ??? [] []. split; eauto. Qed.

Lemma genuine_mono ws ws' b : (∀ b, b ∈ ws → b ∈ ws') → genuine ws b → genuine ws' b.
Proof. intros Hs Hg Hk o Ho. destruct (Hg Hk o Ho) as (b' & ? & ? & ? & ?). exists b'. auto. Qed.
Lemma queued_through_mono w w' n : (∀ b, b ∈ taken w → b ∈ taken w') → queued_through w n → queued_through w' n.
Proof. intros Ht Hq m Hm. destruct (Hq m Hm) as (b & o & ? & ? & ? & ?). exists b, o. auto. Qed.
Lemma honest_mono ws ws' f : (∀ b, b ∈ ws → b ∈ ws') → honest ws f → honest ws' f.
Proof. intros Hs. destruct f; try done. intros Hh r Hr. destruct (Hh r Hr) as (b & err & ? & ?). exists b, err. auto. Qed.
Lemma tidy_mono ws ws' w : (∀ b, b ∈ ws → b ∈ ws') → tidy ws w → tidy ws' w.
Proof. intros Hb []. split; intros; [eapply genuine_mono; eauto|eauto|eapply honest_mono; eauto]. Qed.
(** A queued observation of the cluster was published. *)
Lemma queued_published s b o :
  ginv s → b ∈ taken (service s) → Server.clusterKey (Queue.TenantID b) (Queue.ClusterID b) = cluster →
  Worker.within b o → o ∈ published (edge s).
Proof.
  intros [Ht Hf] Hb Hk Ho. destruct (tidy_taken _ _ Ht b Hb Hk o Ho) as (b' & Hb' & _ & _ & Hin).
  destruct (fair_wire _ _ Hf _ Hb') as [_ Hsub]. auto.
Qed.
Lemma trusted_mono fs fs' os os' x :
  (∀ f, f ∈ fs → f ∈ fs') → (∀ o, o ∈ os → o ∈ os') → trusted fs os x → trusted fs' os' x.
Proof. intros Hf Ho. destruct x as [p|l]; simpl; [intros (f & ? & ?)|intros [? ?]]; eauto. Qed.
Lemma fair_heard fs fs' a : (∀ f, f ∈ fs → f ∈ fs') → fair fs a → fair fs' a.
Proof.
  intros Hf [? ? ? ? ? (seen & Hseen & ?)]. split; try done. exists seen. split; [|done].
  intros x Hx. apply (trusted_mono fs fs' (published a) (published a)); auto.
Qed.

(** *** The agent's steps *)
Lemma client_call_informed w o k x b ws b' ws' os fs :
  client_call w o b ws x b' ws' → (∀ f, heard w f → (Some cluster, f) ∈ fs) →
  (∀ o, o ∈ Buffer.entries b → o ∈ os) →
  (∃ seen, (∀ y, y ∈ seen → trusted fs os y) ∧ informed Client.gives Client.needs seen (Vis o k)) →
  (∀ y, y ∈ Client.needs (existT o x) → trusted fs os y) ∧
  ∃ seen, (∀ y, y ∈ seen → trusted fs os y) ∧ informed (A := bool) Client.gives Client.needs seen (k x).
Proof.
  intros Hcall Hfs Hb (seen & Hseen & Hinf).
  set (t := run_trace Client.greeting (k x) tt).
  destruct (informed_step _ _ _ _ _ _ t _ (run_is_trace Client.greeting (k x) tt) Hinf) as [Hn Hk].
  split; [auto|]. eexists. split; [|exact Hk]. intros y [Hy|Hy]%elem_of_app; [|auto]. unfold Client.gives in Hy.
  apply elem_of_app in Hy as [(p & -> & Hp)%list_elem_of_fmap|(l & -> & Hl)%list_elem_of_fmap].
  - destruct o; simpl in Hp; try (by apply not_elem_of_nil in Hp).
    + destruct Hcall as (_ & _ & Hf). destruct x as [[h|a| | | |]|]; try (by apply not_elem_of_nil in Hp).
      apply list_elem_of_singleton in Hp as ->. exists (IngestionToAgent_Hello h). eauto.
    + destruct Hcall as (_ & _ & Hf). destruct x as [| | |[h|a| | | |]|]; try (by apply not_elem_of_nil in Hp).
      apply list_elem_of_singleton in Hp as ->. eexists. eauto.
  - destruct o; simpl in Hl; try (by apply not_elem_of_nil in Hl).
    destruct Hcall as (_ & _ & Hready). destruct x as [[|o os']|]; try (by apply not_elem_of_nil in Hl).
    apply list_elem_of_singleton in Hl as ->. split; [done|]. intros o' Ho'. apply Hb.
    specialize (Hready _ eq_refl). unfold Buffer.Batch in Hready. destruct (Buffer.entries b) as [|e es] eqn:He; [by case_match|].
    cbv zeta in Hready. destruct (_ <? 0); [done|]. injection Hready as Hready. rewrite <- Hready in Ho'.
    apply elem_of_take in Ho' as (j & Hj & _). by eapply list_elem_of_lookup_2.
Qed.
Lemma seq_run_snoc n os o : seq_run n os → Sequence o = n + Z.of_nat (length os) → seq_run n (os ++ [o]).
Proof.
  intros Hr Ho i x [Hx|[Hi Hx]]%lookup_app_Some; [by apply Hr|].
  apply list_lookup_singleton_Some in Hx as [Hi' <-]. rewrite Ho. lia.
Qed.
Lemma published_fair fs b os p ws now event b' o :
  Buffer.Publish now event b = Buffer.Published b' → Buffer.next b + 1 < two64 →
  Buffer.entries b' = Buffer.entries b ++ [o] →
  fair fs (Agent b os p ws) → fair fs (Agent b' (os ++ [o]) p ws).
Proof.
  intros Hpub Hlim He [Hwf Hnum Hnext Hent Hwire (seen & Hseen & Hinf)]. simpl in *.
  pose proof (Buffer.publish_wf _ _ _ _ Hwf Hlim Hpub) as Hwf'.
  apply Buffer.publish_result in Hpub as (o0 & id & _ & _ & _ & _ & _ & He' & Hn' & _).
  rewrite He in He'. apply app_inj_tail in He' as [_ ->].
  rewrite u64_id in Hn' by (destruct Hwf as [_ _ ? _ _]; split; lia).
  assert (∀ x, x ∈ os → x ∈ os ++ [with_sequence_event o0 (Buffer.next b) id]) as Hin by (intros; apply elem_of_app; by left).
  split; simpl; [done|by apply seq_run_snoc|rewrite Hn', length_app; simpl; lia|..].
  - rewrite He. intros x [Hx|Hx]%elem_of_app; apply elem_of_app; auto.
  - intros b0 Hb0. destruct (Hwire _ Hb0). split; [done|]. auto.
  - exists seen. split; [|done]. intros x Hx. apply (trusted_mono fs fs os); auto.
Qed.
Lemma called_fair w fs b os o k ws x b' ws' :
  client_call w o b ws x b' ws' → (∀ f, heard w f → (Some cluster, f) ∈ fs) →
  fair fs (Agent b os (Vis o k) ws) → fair fs (Agent b' os (k x) ws') ∧ ∀ batch, batch ∈ ws → batch ∈ ws'.
Proof.
  intros Hcall Hfs [Hwf Hnum Hnext Hent Hwire Hcl]. simpl in *.
  destruct (client_call_informed _ _ _ _ _ _ _ _ _ _ Hcall Hfs Hent Hcl) as [Hneeds Hcl'].
  assert (Buffer.wf b' ∧ Buffer.next b' = Buffer.next b ∧ ∀ y, y ∈ Buffer.entries b' → y ∈ Buffer.entries b) as (Hwf' & Hn' & He').
  { destruct o; simpl in Hcall; repeat case_match; destruct_and?; subst; try done.
    split_and!; [by apply Buffer.acknowledge_wf|done|]. simpl. intros y [_ Hy]%list_elem_of_filter. done. }
  assert (∀ batch, batch ∈ ws' → batch ∈ ws ∨ Client.Handed (Observations batch) ∈ Client.needs (existT o x)) as Hws.
  { destruct o; simpl in Hcall; repeat case_match; destruct_and?; subst; auto.
    intros batch [?| ->%list_elem_of_singleton]%elem_of_app; [by left|right]. left. }
  split; [split; simpl|]; [done|done|by rewrite Hn'|by auto| |done|].
  - intros batch [Hb|Hb]%Hws; [by apply Hwire|]. by apply Hneeds in Hb.
  - destruct o; simpl in Hcall; repeat case_match; destruct_and?; subst; try done. intros batch ?. apply elem_of_app. by left.
Qed.
Lemma agent_step_ginv w a a' :
  agent_step w a a' → ginv (Site w a) → ginv (Site w a') ∧ grows (Site w a) (Site w a').
Proof.
  intros Hs [Ht Hf]. simpl in *.
  assert (fair (sent w) a' ∧ (∀ o, o ∈ published a → o ∈ published a') ∧ ∀ b, b ∈ wire a → b ∈ wire a') as (Hf' & Ho & Hb).
  { destruct Hs as [b os p ws now event b' o Hp Hn He|b os p ws|b os p ws|b os ws o k x b' ws' Hc].
    - split_and!; [by eapply published_fair| |done]. intros x Hx. apply elem_of_app. by left.
    - destruct Hf as [[] ? ? ? ? ?]. by split_and!.
    - destruct Hf as [? ? ? ? ? ?]. split_and!; [|done..]. split; try done. by apply Buffer.close_wf.
    - eapply called_fair in Hf as [? ?]; [by split_and!|exact Hc|done]. }
  split; [split; simpl; [|done]|by split]. by eapply tidy_mono.
Qed.

(** *** The worker's steps *)
Lemma worker_tidy ws w w' : worker_step w w' →
  tidy ws w → tidy ws w' ∧ sent w' = sent w ∧ session_key w' = session_key w ∧ taken w' = taken w.
Proof. intros Hs [? ? ?]. split; [split|]; by destruct Hs. Qed.
Lemma env_ginv s s' :
  site_env s s' → ginv s → ginv s' ∧ grows s s' ∧ session_key (service s') = session_key (service s).
Proof.
  destruct 1 as [w w' a Hw|w a a' Ha]; intros Hg.
  - destruct Hg as [Ht Hf]. simpl in *. destruct (worker_tidy _ _ _ Hw Ht) as (Ht' & Hs & Hk & Htk).
    split_and!; [split; simpl; [done|by rewrite Hs]|split; simpl; [done..|by rewrite Hs|by rewrite Htk]|done].
  - destruct (agent_step_ginv _ _ _ Ha Hg). by split_and!.
Qed.
Lemma crash_ginv turns s : ginv s → ginv (Site (restart turns (service s)) (edge s)).
Proof. intros [[] Hf]. split; [by split|done]. Qed.

(** *** The handlers' steps *)
Definition rely (i : nat) (s s' : site) : Prop :=
  ginv s → ginv s' ∧ grows s s' ∧ session_key (service s') !! i = session_key (service s) !! i.
Definition guarantee (i : nat) (s s' : site) : Prop :=
  ginv s → ginv s' ∧ grows s s' ∧ ∀ j, j ≠ i → session_key (service s') !! j = session_key (service s) !! j.
#[local] Instance rely_refl i : Reflexive (rely i).
Proof. intros s Hs. by split_and!. Qed.
#[local] Instance rely_trans i : Transitive (rely i).
Proof.
  intros s1 s2 s3 H1 H2 Hs. destruct (H1 Hs) as (Hs2 & ? & ?). destruct (H2 Hs2) as (? & ? & ?).
  split_and!; [done|by etrans|congruence].
Qed.

Section handlers.
Context (i : nat).
(** The service is in a state of its own invariant. *)
Definition watched (o : Server.server_op) (s : site) (x : Server.server_ans o) (s' : site) : Prop :=
  site_effect i o s x s' ∧ inv (service s).
Abbreviation WP := (wp (rely i) (guarantee i) watched).

(** Handler [i] serves the cluster [key], and what it received of the agent's
    cluster was sent by the client. *)
Definition serving (key : string) (s : site) : Prop := ginv s ∧ session_key (service s) !! i = Some key.
Definition received (key : string) (batch : ObservationBatch) (s : site) : Prop :=
  serving key s ∧ Server.wire_batch batch ∧ (key = cluster → batch ∈ wire (edge s)).
(** It holds the lock, and the watermark was [p]. *)
Definition ready (key : string) (batch : ObservationBatch) (p : Z) (s : site) : Prop :=
  received key batch s ∧ Server.validateBatch batch scfg = None ∧ 0 ≤ p ∧
  (key = cluster → queued_through (service s) p).
Lemma serving_stable key s s' : rely i s s' → serving key s → serving key s'.
Proof. intros Hr [Hs Hk]. destruct (Hr Hs) as (? & _ & Hk'). split; [done|congruence]. Qed.
Lemma received_stable key batch s s' : rely i s s' → received key batch s → received key batch s'.
Proof.
  intros Hr (Hs & ? & Hb). split; [by eapply serving_stable|]. destruct (Hr (proj1 Hs)) as (_ & [] & _). auto.
Qed.
Lemma ready_stable key batch p s s' : rely i s s' → ready key batch p s → ready key batch p s'.
Proof.
  intros Hr (Hs & ? & ? & Hq). split; [by eapply received_stable|]. destruct Hs as [[Hg _] _].
  destruct (Hr Hg) as (_ & [] & _). split_and!; [done..|]. intros Hk. eapply queued_through_mono; [done|auto].
Qed.

(** Calls that neither send, queue nor open a session *)
Definition calm (o : Server.server_op) : Prop :=
  match o with Server.Send _ | Server.TryEnqueue _ | Server.Acquire _ _ _ _ => False | _ => True end.
Lemma calm_effect o w x w' :
  calm o → effect i o w x w' →
  taken w' = taken w ∧ sent w' = sent w ∧ session_key w' = session_key w.
Proof.
  destruct o; simpl; try done; intros _ He; destruct_and?; try (by subst).
  by destruct He as [->|[_ ->]].
Qed.
Lemma quiet_guarantee s s' :
  edge s' = edge s → taken (service s') = taken (service s) → sent (service s') = sent (service s) →
  (∀ j, j ≠ i → session_key (service s') !! j = session_key (service s) !! j) → guarantee i s s'.
Proof.
  intros Ha Ht Hs Hk [[Htk Hgap Hsent] Hf]. split_and!.
  - split; [split|]; unfold heard, queued_through; rewrite ?Ha, ?Ht, ?Hs; done.
  - split; by rewrite ?Ha, ?Hs, ?Ht.
  - done.
Qed.
Lemma calm_step o s x s' : calm o → site_effect i o s x s' →
  guarantee i s s' ∧ session_key (service s') = session_key (service s) ∧ edge s' = edge s ∧
  taken (service s') = taken (service s).
Proof.
  intros Hc (Ha & He & _). destruct (calm_effect _ _ _ _ Hc He) as (? & ? & Hk).
  split_and!; [|done..]. apply quiet_guarantee; try done. intros j _. by rewrite Hk.
Qed.

(** Stable facts of a handler: kept by the surroundings and by its calm calls *)
Record kept (P : site → Prop) : Prop := {
  kept_ginv : ∀ s, P s → ginv s;
  kept_rely : ∀ s s', rely i s s' → P s → P s';
  kept_calm : ∀ s s', ginv s' → edge s' = edge s → session_key (service s') = session_key (service s) →
    (∀ b, b ∈ taken (service s) → b ∈ taken (service s')) → P s → P s'
}.
Lemma kept_serving key : kept (serving key).
Proof. split; [by intros s []|intros; by eapply serving_stable|]. intros s s' Hg _ Hk _ [_ ?]. split; [done|by rewrite Hk]. Qed.
Lemma kept_received key batch : kept (received key batch).
Proof.
  split; [by intros s [[]]|intros; by eapply received_stable|]. intros s s' Hg Ha Hk _ ([_ Hs] & ? & Hb).
  split; [split; [done|by rewrite Hk]|by rewrite Ha].
Qed.
Lemma kept_ready key batch p : kept (ready key batch p).
Proof.
  split; [by intros s [[[]]]|intros; by eapply ready_stable|]. intros s s' Hg Ha Hk Ht (Hr & ? & ? & Hq).
  split; [by eapply (kept_calm _ (kept_received key batch)); [..|exact Hr]|]. split_and!; [done..|].
  intros Hc. eapply queued_through_mono; [done|auto].
Qed.
Lemma wp_calm {A} P o (k : Server.server_ans o → prog Server.server_ans A) Q s :
  kept P → calm o → P s → (∀ x s s', P s → watched o s x s' → P s' → WP (k x) Q s') → WP (Server.srv o ≫= k) Q s.
Proof.
  intros HP Hc Hs Hk. apply (wp_vis (ans := Server.server_ans)). intros s1 x s2 Hr He.
  pose proof (kept_rely _ HP _ _ Hr Hs) as Hs1. destruct (calm_step _ _ _ _ Hc (proj1 He)) as (Hg & Hsk & Ha & Ht).
  split; [done|]. apply (Hk x s1); [done..|]. apply (kept_calm _ HP s1); [|done|done|by rewrite Ht|done].
  by apply Hg, (kept_ginv _ HP).
Qed.
Lemma wp_done {A} P (a : A) s : kept P → P s → WP (Ret a) (λ _, P) s.
Proof. intros HP Hs. apply wp_ret. intros s' Hr. by eapply kept_rely. Qed.
(** Sending a frame whose rejections are honest if it goes to the agent *)
Lemma wp_tell P key f s :
  kept P → (∀ s, P s → session_key (service s) !! i = Some key) →
  (∀ s, P s → key = cluster → honest (wire (edge s)) f) →
  P s → WP (Server.srv (Server.Send f)) (λ _, P) s.
Proof.
  intros HP Hkey Hh Hs. simpl. intros s1 x s2 Hr [(Ha & Hw & _) _]. pose proof (kept_rely _ HP _ _ Hr Hs) as Hs1.
  assert (guarantee i s1 s2) as Hg.
  { intros [[Htk Hgap Hsent] Hf]. split_and!.
    - split; [split|]; rewrite ?Ha, ?Hw; simpl; [exact Htk|exact Hgap|..].
      + intros g Hg. unfold heard in Hg. simpl in Hg. apply elem_of_app in Hg as [Hg|Hg]; [by apply Hsent|].
        apply list_elem_of_singleton in Hg. injection Hg as Hg ->. rewrite (Hkey _ Hs1) in Hg. injection Hg as <-. by apply Hh.
      + eapply fair_heard; [|exact Hf]. intros y Hy. apply elem_of_app. by left.
    - split; rewrite ?Ha, ?Hw; simpl; try done. intros y Hy. apply elem_of_app. by left.
    - by rewrite Hw. }
  split; [done|]. intros s3 Hr3. eapply kept_rely; [done|exact Hr3|].
  apply (kept_calm _ HP s1); [by apply Hg, (kept_ginv _ HP)|done|by rewrite Hw|by rewrite Hw|done].
Qed.

(** The next call of a handler is calm and keeps [P]. *)
Ltac calmly P := apply (wp_calm P); [auto|exact I|assumption|].
Lemma wp_tell_ack P key batchID received_through persisted retry rej s :
  kept P → (∀ s, P s → session_key (service s) !! i = Some key) →
  (∀ s now, P s → key = cluster → honest (wire (edge s)) (Server.acknowledgement batchID received_through persisted retry rej now)) →
  P s → WP (Server.send_ack batchID received_through persisted retry rej) (λ _, P) s.
Proof.
  intros HP Hkey Hh Hs. unfold Server.send_ack. calmly P. intros now s1 s2 _ _ Hs2.
  by apply (wp_tell P key); [|..|intros; by apply Hh|].
Qed.
Lemma accepting batchID received_through persisted retry now ws :
  honest ws (Server.acknowledgement batchID received_through persisted retry [] now).
Proof. intros r Hr. by apply not_elem_of_nil in Hr. Qed.
Lemma wp_accepting P key batchID received_through persisted retry s :
  kept P → (∀ s, P s → session_key (service s) !! i = Some key) → P s →
  WP (Server.send_ack batchID received_through persisted retry []) (λ _, P) s.
Proof. intros HP Hkey Hs. apply (wp_tell_ack P key); auto using accepting. Qed.

Lemma serving_key key s : serving key s → session_key (service s) !! i = Some key.
Proof. by intros []. Qed.
Hint Resolve kept_serving kept_received kept_ready serving_key : core.

Lemma wp_awaits key hello batch accepted p c s :
  serving key s → WP (Server.await_and_advance key hello batch accepted p c) (λ _, serving key) s.
Proof.
  intros Hs. unfold Server.await_and_advance. calmly (serving key). clear s Hs. intros [err|] _ s _ _ Hs.
  { by apply wp_done. }
  calmly (serving key). clear s Hs. intros [err|] _ s _ _ Hs.
  { by apply (wp_accepting (serving key) key); auto. }
  calmly (serving key). clear s Hs. intros _ _ s _ _ Hs.
  by apply (wp_accepting (serving key) key); auto.
Qed.
(** What is queued: the observations of the received batch above the watermark,
    which leave no gap. *)
Definition rest_of (batch : ObservationBatch) (p : Z) (set : ObservationBatch) : Prop :=
  (∀ o, o ∈ Observations set → o ∈ Observations batch) ∧ seq_run (p + 1) (Observations set).
Lemma queued_tidy key q batch set p ws w :
  Server.clusterKey (Queue.TenantID q) (Queue.ClusterID q) = key → Queue.ObservationSet q = Some set →
  rest_of batch p set → Server.wire_batch batch → Server.validateBatch batch scfg = None → 0 ≤ p →
  (key = cluster → batch ∈ ws) →
  (key = cluster → queued_through w p) → ∀ w', taken w' = taken w ++ [q] → sent w' = sent w →
  tidy ws w → tidy ws w'.
Proof.
  intros Hkey Hset [Hsub Hrun] Hwb Hv Hp Hw Hq w' Ht Hs [Htk Hgap Hsent].
  assert (∀ b, b ∈ taken w → b ∈ taken w') as Hm by (rewrite Ht; intros b ?; apply elem_of_app; by left).
  assert (q ∈ taken w') as Hin by (rewrite Ht; apply elem_of_app; right; left).
  split; [..|unfold heard; by rewrite Hs].
  - rewrite Ht. intros b [Hb| ->%list_elem_of_singleton]%elem_of_app; [by apply Htk|].
    intros Hc o (set' & Hset' & Ho). rewrite Hset in Hset'. injection Hset' as <-. rewrite Hkey in Hc. exists batch. auto.
  - intros b o Hb Hc Ho. rewrite Ht in Hb. apply elem_of_app in Hb as [Hb| ->%list_elem_of_singleton].
    { eapply queued_through_mono; [exact Hm|by eapply Hgap]. }
    intros m Hn. destruct (Z.leb_spec m p) as [Hle|Hgt].
    { assert (queued_through w p) as Hqp by (apply Hq; congruence).
      by eapply queued_through_mono; [exact Hm|exact Hqp|lia]. }
    destruct Ho as (set' & Hset' & Ho). rewrite Hset in Hset'. injection Hset' as <-.
    apply list_elem_of_lookup_1 in Ho as (j & Hj). pose proof (Hrun _ _ Hj) as Hjs.
    destruct (lookup_lt_is_Some_2 (Observations set) (Z.to_nat (m - (p + 1)))) as [o' Ho'].
    { apply lookup_lt_Some in Hj. lia. }
    exists q, o'. split_and!; [done|done|by exists set; split; [done|eapply list_elem_of_lookup_2]|].
    apply Hrun in Ho'. lia.
Qed.
Lemma wp_queues key q batch set p (k : Server.server_ans (Server.TryEnqueue q) → prog Server.server_ans (option Server.go_error)) s :
  Server.clusterKey (Queue.TenantID q) (Queue.ClusterID q) = key → Queue.ObservationSet q = Some set →
  rest_of batch p set → ready key batch p s →
  (∀ x s, serving key s → WP (k x) (λ _, serving key) s) →
  WP (Server.srv (Server.TryEnqueue q) ≫= k) (λ _, serving key) s.
Proof.
  intros Hkey Hset Hrest Hs Hk. apply (wp_vis (ans := Server.server_ans)). intros s1 x s2 Hr [(Ha & He & _) _].
  pose proof (ready_stable _ _ _ _ _ Hr Hs) as Hs1. clear s Hr Hs.
  simpl in He. assert (guarantee i s1 s2 ∧ session_key (service s2) = session_key (service s1)) as [Hg Hsk].
  { destruct (Queue.TryEnqueue (Some q) (queue (service s1))) as [q'|err] eqn:Hq; destruct He as [_ He]; rewrite He.
    2: { split; [|done]. apply quiet_guarantee; by rewrite ?He. }
    split; [|done]. intros [Htidy Hf]. destruct Hs1 as ((_ & Hwb & Hw) & Hv & Hp & Hqt). split_and!.
    - split; [|rewrite Ha, He; by destruct Hf]. rewrite Ha, He. by eapply queued_tidy.
    - split; rewrite ?Ha, ?He; simpl; try done. intros b ?. apply elem_of_app. by left.
    - by rewrite He. }
  split; [done|]. apply Hk. destruct Hs1 as (([Hg1 Hk1] & _) & _). split; [by apply Hg|by rewrite Hsk].
Qed.
Lemma wp_flows {P : site → Prop} key (cond : bool) delay reason s :
  kept P → (∀ s, P s → session_key (service s) !! i = Some key) → P s →
  WP (if cond then Server.srv (Server.Send (Server.flowControl delay reason)) else Ret None) (λ _, P) s ∧
  WP (if cond then Ret None else Server.srv (Server.Send (Server.flowControl delay reason))) (λ _, P) s.
Proof.
  intros HP Hkey Hs. assert (WP (Server.srv (Server.Send (Server.flowControl delay reason))) (λ _, P) s) by (by apply (wp_tell P key)).
  assert (WP (Ret (None : option Server.go_error)) (λ _, P) s) by (by apply wp_done). by destruct cond.
Qed.
Lemma received_key key batch s : received key batch s → session_key (service s) !! i = Some key.
Proof. by intros [[] _]. Qed.
Lemma ready_key key batch p s : ready key batch p s → session_key (service s) !! i = Some key.
Proof. by intros [[[] _] _]. Qed.
Lemma ready_serving key batch p s : ready key batch p s → serving key s.
Proof. by intros [[] _]. Qed.
Hint Resolve ready_serving : core.

Lemma wp_enqueues session hello batch accepted p now flow s :
  let key := Server.clusterKey (Hello_TenantId hello) (Hello_ClusterId hello) in
  rest_of batch p accepted → ready key batch p s →
  WP (Server.enqueue_and_await scfg key session hello batch accepted p now flow) (λ _, serving key) s.
Proof.
  intros key Hrest Hs. unfold Server.enqueue_and_await.
  calmly (ready key batch p). clear s Hs. intros c _ s _ _ Hs. cbv zeta.
  eapply wp_queues; [done|done|exact Hrest|exact Hs|]. clear s Hs. intros [err|] s Hs; [|by apply wp_awaits].
  destruct (negb _); [by apply wp_done|].
  apply wp_bind; [apply _|]. eapply wp_mono; [|apply (wp_flows (P := serving key) key); auto].
  cbn beta. clear s Hs. intros [e|] s Hs; [by apply wp_done|]. by apply (wp_accepting (serving key) key); auto.
Qed.
Lemma wp_accepts session hello batch accepted p s :
  let key := Server.clusterKey (Hello_TenantId hello) (Hello_ClusterId hello) in
  rest_of batch p accepted → ready key batch p s →
  WP (Server.accept_batch scfg key session hello batch accepted p) (λ _, serving key) s.
Proof.
  intros key Hrest Hs. unfold Server.accept_batch.
  calmly (ready key batch p). clear s Hs. intros depth _ s _ _ Hs.
  calmly (ready key batch p). clear s Hs. intros cap _ s _ _ Hs. cbv zeta.
  apply wp_bind; [apply _|]. eapply wp_mono; [|apply (wp_flows (P := ready key batch p) key); [auto|apply ready_key|done]].
  cbn beta. clear s Hs. intros [e|] s Hs; [by apply wp_done; eauto|].
  calmly (ready key batch p). clear s Hs. intros now _ s _ _ Hs.
  calmly (ready key batch p). clear s Hs. intros [e|] _ s _ _ Hs; [|by apply wp_enqueues].
  by apply (wp_accepting (serving key) key); eauto.
Qed.
Lemma suffix_rest batch p a :
  Server.wire_batch batch → Server.validateBatch batch scfg = None → 0 ≤ p →
  FirstSequence batch ≤ p + 1 → p < LastSequence batch →
  Server.suffixAfter batch p = Some a → rest_of batch p a.
Proof.
  intros Hw Hv%Server.validateBatch_spec Hp Hf Hl Ha; [|done].
  destruct (Server.suffix_spec _ _ _ Hv Hw Hp Hf Hl) as (a' & Ha' & _ & _ & Hobs & Hrun & _).
  rewrite Ha in Ha'. injection Ha' as <-. split; [|done]. rewrite Hobs. intros o (j & Hj)%list_elem_of_lookup_1.
  rewrite lookup_drop in Hj. by eapply list_elem_of_lookup_2.
Qed.
Lemma wp_locks session hello batch p s :
  let key := Server.clusterKey (Hello_TenantId hello) (Hello_ClusterId hello) in
  ready key batch p s → WP (Server.handle_locked scfg key session hello batch p) (λ _, serving key) s.
Proof.
  intros key Hs. pose proof (ready_serving _ _ _ _ Hs) as Hs'. unfold Server.handle_locked.
  destruct (Z.leb_spec (LastSequence batch) p) as [|Hl]; [by apply (wp_accepting (serving key) key); auto|].
  destruct (Z.ltb_spec (u64 (p + 1)) (FirstSequence batch)) as [|Hf]; [by apply (wp_accepting (serving key) key); auto|].
  destruct (Server.suffixAfter batch p) as [a|] eqn:Ha; [|by apply wp_done].
  apply wp_accepts; [|done]. destruct Hs as ((_ & Hw & _) & Hv & Hp & _).
  apply suffix_rest; try done. destruct Hw as (_ & [_ Hw] & _). rewrite u64_id in Hf; [done|]. split; lia.
Qed.
Lemma covered_queued w n : covered w cluster n → queued_through w n.
Proof.
  intros Hc m Hm. destruct (Hc m Hm) as (b & set & o & Hb & _ & Hk & Hset & Ho & He). exists b, o.
  split_and!; try done. by exists set.
Qed.
(** The watermark of the service covers what was queued. *)
Lemma watermark_queued w : inv w →
  0 ≤ Server.persisted cluster (Pipeline.server w) ∧ queued_through w (Server.persisted cluster (Pipeline.server w)).
Proof.
  intros Hi. destruct (inv_watermark _ cluster Hi) as [? Hc]. split; [done|]. by apply covered_queued.
Qed.
Lemma wp_handles session hello batch s :
  let key := Server.clusterKey (Hello_TenantId hello) (Hello_ClusterId hello) in
  received key batch s → WP (Server.handleBatch scfg key session hello batch) (λ _, serving key) s.
Proof.
  intros key Hs. unfold Server.handleBatch. destruct (Server.validateBatch batch scfg) as [err|] eqn:Hv.
  - calmly (received key batch). clear s Hs. intros p _ s _ _ Hs.
    eapply wp_mono; [|apply (wp_tell_ack (received key batch) key); [auto|apply received_key| |exact Hs]].
    { by intros ? s' []. }
    intros s' now (_ & _ & Hw) Hc r Hr. exists batch, err. split_and!; [by apply Hw|done|exact Hr].
  - calmly (received key batch). clear s Hs. intros p s0 s _ [(_ & He & _) Hi] Hs. simpl in He.
    destruct He as (_ & -> & Hw). assert (ready key batch (Server.persisted key (Pipeline.server (service s0))) s) as Hs'.
    { destruct (inv_watermark _ key Hi) as [Hp _]. split; [done|]. split_and!; [done..|]. intros ->. rewrite Hw.
      eapply queued_through_mono; [|by apply watermark_queued]. done. }
    apply wp_bind; [apply _|]. eapply wp_mono; [|by apply wp_locks]. cbn beta. clear s Hs Hw Hs'. intros r s Hs.
    calmly (serving key). clear s Hs. intros _ _ s _ _ Hs. by apply wp_done.
Qed.
Lemma wp_serves fuel session hello s :
  let key := Server.clusterKey (Hello_TenantId hello) (Hello_ClusterId hello) in
  serving key s → WP (Server.serve fuel scfg key session hello) (λ _, serving key) s.
Proof.
  intros key. revert s. induction fuel as [|fuel IH]; intros s Hs; cbn [Server.serve]; [by apply wp_done|].
  calmly (serving key). clear s Hs. intros [[h|b|h|]|err] s0 s Hs0 [(Ha & He & Hcar) _] Hs;
    try (by apply wp_done); [|by apply IH].
  apply wp_bind; [apply _|]. eapply wp_mono; [|apply wp_handles].
  - cbn beta. intros [err|] s' Hs'; [by apply wp_done|by apply IH].
  - split; [done|]. split; [by destruct He|]. intros Hc. rewrite Ha. apply Hcar; [done|]. rewrite <- Hc. by destruct Hs0.
Qed.
Lemma wp_connects fuel s :
  ginv s → session_key (service s) !! i = None → WP (Server.Connect fuel scfg) (λ _ _, True) s.
Proof.
  intros Hg Hk. set (P := λ s, ginv s ∧ session_key (service s) !! i = None).
  assert (kept P) as HP.
  { split; [by intros s' []| |].
    - intros s1 s2 Hr [Hs1 Hk1]. destruct (Hr Hs1) as (? & _ & ?). split; [done|congruence].
    - intros s1 s2 Hs2 _ Hsk _ [_ Hk1]. split; [done|by rewrite Hsk]. }
  assert (P s) as Hs by done. clear Hg Hk. assert (∀ (r : option (option Server.go_error)) s, WP (Ret r) (λ _ _, True) s) as Hret by (intros; by apply wp_ret).
  unfold Server.Connect. calmly P. clear s Hs. intros [[hello|b|h|]|err] _ s _ _ Hs; auto.
  destruct (Server.validateHello hello); auto. calmly P. clear s Hs. intros [err|] _ s _ _ Hs; auto.
  destruct (negb _); auto. calmly P. clear s Hs. intros session _ s _ _ Hs. cbv zeta.
  set (key := Server.clusterKey (Hello_TenantId hello) (Hello_ClusterId hello)).
  apply (wp_vis (ans := Server.server_ans)). intros s1 x s2 Hr [(Ha & He & _) _]. pose proof (kept_rely _ HP _ _ Hr Hs) as [Hg1 Hk1].
  destruct He as (_ & load & _ & -> & Hw). set (r := Server.acquire load key session (server (service s1))) in *.
  assert (guarantee i s1 s2) as Hgu.
  { apply quiet_guarantee; [done|by rewrite Hw..|]. intros j Hj. rewrite Hw. simpl. repeat case_match; try done. by rewrite lookup_insert_ne. }
  split; [done|]. destruct (Hgu Hg1) as [Hg2 _]. destruct r.1 as [[p []]|err]; [|by auto..].
  assert (serving key s2) as Hs2 by (split; [done|rewrite Hw; apply lookup_insert_eq]).
  calmly (serving key). intros now _ s3 _ _ Hs3.
  apply wp_bind; [apply _|]. eapply wp_mono; [|apply (wp_tell (serving key) key); [auto..|done|done]].
  cbn beta. intros sent0 s4 Hs4. apply wp_bind; [apply _|]. eapply wp_mono with (Q := λ _, serving key).
  - intros res s5 Hs5. calmly (serving key). intros _ _ s6 _ _ _. apply Hret.
  - destruct sent0 as [err|]; [by apply wp_done|by apply wp_serves].
Qed.
End handlers.

(** *** The whole system *)
Definition unused (i : nat) (s : site) : Prop := session_key (service s) !! i = None.
Abbreviation ok := (pool_ok ginv rely guarantee watched unused
  (A := option (option Server.go_error)) (ans := Server.server_ans)).
Lemma site_step_ok s s' : inv (service (shared s)) → site_step s s' → ok s → ok s'.
Proof.
  intros Hinv. destruct 1 as [s s' Hs|turns s].
  - assert (pool_step site_env watched (handler scfg) s s') as Hs' by (destruct Hs; [by eapply step_thread|by constructor..]).
    revert Hs'. apply pool_step_ok; try apply _.
    + intros i s1 s2 HG Hi. by apply HG.
    + intros s1 s2 He Hi. by apply env_ginv in He as [? _].
    + intros i j s1 s2 Hij _ HG Hi. destruct (HG Hi) as (? & ? & Hk). split_and!; [done|done|]. by apply Hk.
    + intros j s1 s2 Hi He _. destruct (env_ginv _ _ He Hi) as (? & ? & Hk). split_and!; [done|done|by rewrite Hk].
    + intros i s1 s2 Hi Hr Hf. destruct (Hr Hi) as (_ & _ & Hk). unfold unused in *. congruence.
    + intros i p s1 [fuel ->] Hi Hf. by apply wp_connects.
  - intros (Hi & _ & _). split_and!; simpl; [by apply crash_ginv|done|done].
Qed.
Lemma start_ginv fuel turns : ginv (Site (start_world turns) (start_agent fuel)).
Proof.
  split.
  - split; unfold heard; simpl; intros; by match goal with Hx : _ ∈ [] |- _ => apply not_elem_of_nil in Hx end.
  - split; simpl; [apply Buffer.NewBuffer_wf|done|done|intros ? []%not_elem_of_nil|intros ? []%not_elem_of_nil|].
    exists []. split; [intros x []%not_elem_of_nil|]. intros t r. apply Client.Run_justified.
Qed.
(** *** Nothing is lost *)
Section lossless.
Context (apart : files_apart).
Lemma site_inv fuel turns s : rtc site_step (start_site fuel turns) s → inv (service (shared s)).
Proof. intros Hr%site_steps_service. by destruct (system_ok apart _ _ _ Hr) as [? _]. Qed.
Lemma site_ok fuel turns s : rtc site_step (start_site fuel turns) s → ginv (shared s).
Proof.
  intros Hr. assert (ok s) as [? _]; [|done]. revert s Hr. apply rtc_ind_r.
  - by split_and!; [apply start_ginv|..].
  - intros s1 s2 H1 H12. apply site_step_ok; [by eapply site_inv|done].
Qed.

Lemma published_unique os o o' : seq_run 1 os → o ∈ os → o' ∈ os → Sequence o = Sequence o' → o = o'.
Proof.
  intros Hr (j & Hj)%list_elem_of_lookup_1 (j' & Hj')%list_elem_of_lookup_1 He.
  pose proof (Hr _ _ Hj). pose proof (Hr _ _ Hj'). assert (j = j') as -> by lia. congruence.
Qed.
(** An acknowledged observation is delivered. *)
Lemma covered_delivered s n o :
  ginv s → covered (service s) cluster n → o ∈ published (edge s) → Sequence o ≤ n →
  delivered (service s) o.
Proof.
  intros Hg Hc Ho Hn. destruct Hg as [Ht Hf] eqn:Heq. clear Heq. destruct (list_elem_of_lookup_1 _ _ Ho) as (j & Hj).
  pose proof (fair_numbers _ _ Hf _ _ Hj). destruct (Hc (Sequence o)) as (b & set & o' & Hb & Hrec & Hk & Hset & Ho' & He); [lia|].
  assert (Worker.within b o') as Hin by (by exists set).
  assert (o' = o) as ->; [|by exists b].
  eapply published_unique; [exact (fair_numbers _ _ Hf)|by eapply queued_published|done|done].
Qed.
(** A rejected observation is in a batch that fails the validation. *)
Lemma rejected_refused s a o :
  ginv s → honest (wire (edge s)) (IngestionToAgent_Acknowledgement a) → o ∈ published (edge s) →
  Sequence o ∈ Client.terminalSequences a → refused (wire (edge s)) o.
Proof.
  intros [_ Hf] Hh Ho (r & Hs & Hr)%list_elem_of_fmap. apply list_elem_of_filter in Hr as [_ Hr].
  destruct (Hh r Hr) as (b & err & Hb & Hv & Hin). exists b. split_and!; [done| |by rewrite Hv].
  destruct (fair_wire _ _ Hf _ Hb) as [Hne Hsub]. unfold Server.rejectionsForBatch in Hin.
  assert (∃ o', o' ∈ Observations b ∧ Sequence o' = Sequence o) as (o' & Ho' & He).
  { destruct (Observations b) as [|o1 os]; [done|]. apply list_elem_of_fmap in Hin as (o' & -> & Ho'). by exists o'. }
  assert (o' = o) as <-; [|done]. eapply published_unique; [exact (fair_numbers _ _ Hf)|by apply Hsub|done|done].
Qed.

(** History and rows only grow. *)
Record kept_data (w w' : world) : Prop := {
  kept_taken : ∀ b, b ∈ taken w → b ∈ taken w';
  kept_stored : ∀ i, i ∈ stored w → i ∈ stored w'
}.
#[local] Instance kept_data_refl : Reflexive kept_data.
Proof. by split. Qed.
Lemma delivered_mono w w' o : kept_data w w' → delivered w o → delivered w' o.
Proof. intros [Ht Hs] (b & ? & ? & ? & ?). exists b. split_and!; eauto using Worker.recorded_mono. Qed.

(** Every observation is in the buffer, delivered or refused. *)
Definition settled (s : site) : Prop :=
  ∀ o, o ∈ published (edge s) →
    o ∈ Buffer.entries (buffer (edge s)) ∨ delivered (service s) o ∨ refused (wire (edge s)) o.
Lemma settled_mono s s' :
  published (edge s') = published (edge s) →
  (∀ o, o ∈ Buffer.entries (buffer (edge s)) → o ∈ Buffer.entries (buffer (edge s'))) →
  kept_data (service s) (service s') → (∀ b, b ∈ wire (edge s) → b ∈ wire (edge s')) →
  settled s → settled s'.
Proof.
  intros Hp He Hd Hw Hs o Ho. rewrite Hp in Ho. destruct (Hs o Ho) as [?|[?|(b & ? & ?)]]; [by auto|..].
  - right. left. by eapply delivered_mono.
  - right. right. exists b. auto.
Qed.
Lemma acknowledge_settled w b os p ws q terminal k :
  inv w → ginv (Site w (Agent b os (Vis (Client.BufferAcknowledge q terminal) k) ws)) →
  settled (Site w (Agent b os (Vis (Client.BufferAcknowledge q terminal) k) ws)) →
  settled (Site w (Agent (Buffer.Acknowledge q terminal b) os p ws)).
Proof.
  intros Hi Hg Hs o Ho. destruct (Hs o Ho) as [He|?]; [|by right]. simpl in *.
  destruct (decide (Sequence o ≤ q ∨ Sequence o ∈ (list_to_set terminal : gset Z))) as [Hd|Hd].
  2: { left. apply list_elem_of_filter. by split. }
  right. assert (∃ f, heard w f ∧ says f = Some (q, terminal)) as (f & Hf & Hsays).
  { destruct Hg as [_ [_ _ _ _ _ (seen & Hseen & Hinf)]]. simpl in *.
    set (t := run_trace Client.greeting (k tt) tt).
    destruct (informed_step _ _ _ _ _ _ t _ (run_is_trace Client.greeting (k tt) tt) Hinf) as [Hn _].
    apply (Hseen (Client.Said (q, terminal))), Hn. by left. }
  destruct (inv_sent _ Hi _ _ Hf) as (key & [= <-] & Hok). pose proof (tidy_sent _ _ (proj1 Hg) _ Hf) as Hh. simpl in Hh.
  destruct f as [h|a| | | |]; try done; injection Hsays as <- <-; simpl in Hok.
  - left. destruct Hd as [Hd|Hd]; [by apply (covered_delivered _ _ _ Hg Hok Ho)|]. by apply elem_of_list_to_set, not_elem_of_nil in Hd.
  - destruct Hd as [Hd|Hd]; [left; by apply (covered_delivered _ _ _ Hg Hok Ho)|right].
    apply elem_of_list_to_set in Hd. by apply (rejected_refused _ _ _ Hg Hh Ho).
Qed.
Lemma agent_step_settled w a a' :
  inv w → agent_step w a a' → ginv (Site w a) → settled (Site w a) → settled (Site w a').
Proof.
  intros Hi Hstep Hg Hs. destruct Hstep as [b os p ws now event b' o Hp Hn He|b os p ws|b os p ws|b os ws o k x b' ws' Hc].
  - intros y [Hy|Hy]%elem_of_app; simpl; rewrite He.
    + destruct (Hs y Hy) as [?|?]; [left; apply elem_of_app; by left|by right].
    + left. apply elem_of_app. by right.
  - by eapply settled_mono; [..|exact Hs].
  - by eapply settled_mono; [..|exact Hs].
  - assert (∀ batch, batch ∈ ws → batch ∈ ws') as Hws.
    { destruct Hg as [_ Hf]. by eapply called_fair in Hf as [_ ?]; [|exact Hc|done]. }
    destruct o; simpl in Hc; repeat case_match; destruct_and?; subst; try (by eapply settled_mono; [..|exact Hs]).
    by eapply acknowledge_settled.
Qed.
Lemma effect_kept i o w x w' : effect i o w x w' → kept_data w w'.
Proof.
  intros He. assert ((taken w' = taken w ∨ ∃ b, taken w' = taken w ++ [b]) ∧ stored w' = stored w) as [Ht Hs].
  { destruct o; simpl in He; repeat case_match; destruct_and?; subst; eauto;
      repeat match goal with Hx : _ ∧ _ |- _ => destruct Hx | Hx : ∃ _, _ |- _ => destruct Hx | Hx : _ ∨ _ |- _ => destruct Hx end;
      subst; simpl; eauto. }
  split; [|by rewrite Hs]. intros b Hb. destruct Ht as [->|[b' ->]]; [done|]. apply elem_of_app. by left.
Qed.
Lemma service_kept s s' : site_step s s' → kept_data (service (shared s)) (service (shared s')).
Proof.
  destruct 1 as [s s' Hs|turns s]; [|by split].
  destruct Hs as [w ts i o k x w' Hi (_ & He & _)|w ts w' Henv|]; simpl; [by eapply effect_kept| |done].
  destruct Henv as [v v' a Hw|]; simpl; [|done]. apply worker_mono in Hw as []. by split.
Qed.
Lemma site_step_settled fuel turns s s' :
  rtc site_step (start_site fuel turns) s → site_step s s' → settled (shared s) → settled (shared s').
Proof.
  intros Hr Hstep Hs. pose proof (site_ok _ _ _ Hr) as Hg.
  pose proof (site_inv _ _ _ Hr) as Hi.
  pose proof (service_kept _ _ Hstep) as Hd.
  destruct Hstep as [s s' Hp|turns' s]; [|by eapply settled_mono; [..|exact Hs]].
  destruct Hp as [w ts i o k x w' _ (Ha & _)|w ts w' Henv|w ts p _]; [|destruct Henv as [v v' a Hw|v a a' Ha]|done]; simpl in *.
  - eapply settled_mono; [..|exact Hs]; rewrite ?Ha; done.
  - by eapply settled_mono; [..|exact Hs].
  - by eapply agent_step_settled.
Qed.

Lemma site_settled fuel turns s : rtc site_step (start_site fuel turns) s → settled (shared s).
Proof.
  refine (rtc_ind_r (R := site_step) (λ s, settled (shared s)) (start_site fuel turns) _ _ s).
  - intros o Ho. by apply not_elem_of_nil in Ho.
  - intros s1 s2 H1 H12. by eapply site_step_settled.
Qed.

End lossless.

(** C1: nothing is lost between the agent and the database, and nothing is made up,
    in a deployment whose clusters have checkpoint files of their own. From the start
    of an agent and of the service on, whatever the network, the worker and crashes of
    the service do, and however often the client reconnects: every observation
    published to the agent's buffer is still buffered, or recorded from a batch of its
    cluster (its row is in the store, unless it is of a kind that has no table, metrics
    and events), or was refused by the validation of the server in a batch the client
    sent; and every row in the store is that of an observation of some queued batch,
    which is a published observation, under the number it was published with, if the
    batch is one of the agent's cluster. The agent is not restarted;
    [Client.restarted_agent_loses_observations] shows what a restart does. *)
Theorem observations_delivered fuel turns s :
  files_apart → rtc site_step (start_site fuel turns) s →
  (∀ o, o ∈ published (edge (shared s)) →
     o ∈ Buffer.entries (buffer (edge (shared s))) ∨ delivered (service (shared s)) o ∨
     refused (wire (edge (shared s))) o) ∧
  (∀ i vs, i ∈ stored (service (shared s)) → vs ∈ Persistence.Rows i →
     ∃ b o r, b ∈ taken (service (shared s)) ∧ Worker.within b o ∧
       Persistence.mapObservation uuidSHA1 b (Some o) = Ok (Some r) ∧
       Persistence.table r = Persistence.Table i ∧ Persistence.values r = vs ∧
       (Server.clusterKey (Queue.TenantID b) (Queue.ClusterID b) = cluster → o ∈ published (edge (shared s)))) ∧
  seq_run 1 (published (edge (shared s))).
Proof.
  intros apart Hr. pose proof (site_ok apart _ _ _ Hr) as Hg. pose proof (site_inv apart _ _ _ Hr) as Hi.
  split_and!; [by apply (site_settled apart) in Hr| |apply Hg]. intros i vs Hin Hvs.
  destruct (inv_stored _ Hi i Hin vs Hvs) as (b & o & r & Hb & Ho & Hm & Htab & Hv). exists b, o, r.
  split_and!; try done. intros Hk. by eapply queued_published.
Qed.

(** *** The first refused observation blocks all later ones *)

(** An observation of which no valid batch was sent is not queued, and neither is any
    observation after it. *)
Lemma unsent_blocks s o b o' :
  ginv s → o ∈ published (edge s) →
  (∀ b, b ∈ wire (edge s) → Server.wire_batch b → o ∈ Observations b → Server.validateBatch b scfg ≠ None) →
  b ∈ taken (service s) → Server.clusterKey (Queue.TenantID b) (Queue.ClusterID b) = cluster → Worker.within b o' →
  Sequence o' < Sequence o.
Proof.
  intros Hg Ho Hbad Hb Hk Hw. destruct (Z.lt_ge_cases (Sequence o') (Sequence o)) as [?|Hge]; [done|]. exfalso.
  pose proof Hg as [Ht Hf]. pose proof (fair_numbers _ _ Hf) as Hrun.
  destruct (tidy_gapless _ _ Ht b o' Hb Hk Hw (Sequence o)) as (b1 & o1 & Hb1 & Hk1 & Hw1 & He).
  { apply list_elem_of_lookup_1 in Ho as (j & Hj). pose proof (Hrun _ _ Hj). lia. }
  assert (o1 = o) as -> by (eapply published_unique; [done|by eapply queued_published|done|done]).
  destruct (tidy_taken _ _ Ht b1 Hb1 Hk1 o Hw1) as (b2 & Hb2 & Hwb & Hv & Hin). by eapply Hbad.
Qed.
(** An invalid inventory record makes every batch with it invalid. *)
Lemma invalid_record_refused b o :
  Server.wire_batch b → Server.validateInventoryObservation o ≠ None → o ∈ Observations b →
  Server.validateBatch b scfg ≠ None.
Proof.
  intros Hw Hinv (j & Hj)%list_elem_of_lookup_1 Hv%Server.validateBatch_spec; [|done].
  apply (Server.vb_observations _ _ Hv) in Hj as (_ & _ & _ & ?). done.
Qed.
Lemma watermark_below w n m :
  inv w → queued_through w m → (∀ b o', b ∈ taken w →
    Server.clusterKey (Queue.TenantID b) (Queue.ClusterID b) = cluster → Worker.within b o' → Sequence o' < n) →
  1 ≤ n → m < n.
Proof.
  intros Hi Hq Hlt Hn. destruct (Z.lt_ge_cases m n) as [?|Hge]; [done|].
  destruct (Hq n) as (b & o & Hb & Hk & Hw & He); [lia|]. specialize (Hlt b o Hb Hk Hw). lia.
Qed.

(** C11: one observation with an invalid inventory record stops the delivery of its
    cluster for good. [Publish] accepts such an observation and the server refuses
    every batch with it, but never moves its watermark past it. In every state that the
    agent and the service reach after its publication, however many batches are
    exchanged, streams opened and crashes survived: no observation with its number or a
    later one has been queued; the watermark and everything the agent was told is
    persisted stay below it; and every later observation sits in the buffer or was in a
    batch the server refused. (In particular the agent's answer to a refusal, to drop the
    observations of the refused batch, does not help.) *)
Theorem invalid_observation_wedges_stream fuel turns s o :
  files_apart → rtc site_step (start_site fuel turns) s →
  o ∈ published (edge (shared s)) → Server.validateInventoryObservation o ≠ None →
  (∀ b o', b ∈ taken (service (shared s)) →
     Server.clusterKey (Queue.TenantID b) (Queue.ClusterID b) = cluster → Worker.within b o' →
     Sequence o' < Sequence o) ∧
  Server.persisted cluster (Pipeline.server (service (shared s))) < Sequence o ∧
  (∀ f n terminal, heard (service (shared s)) f → says f = Some (n, terminal) → n < Sequence o) ∧
  (∀ o', o' ∈ published (edge (shared s)) → Sequence o ≤ Sequence o' →
     o' ∈ Buffer.entries (buffer (edge (shared s))) ∨ refused (wire (edge (shared s))) o').
Proof.
  intros apart Hr Ho Hinv. pose proof (site_ok apart _ _ _ Hr) as Hg. pose proof (site_inv apart _ _ _ Hr) as Hi.
  assert (1 ≤ Sequence o) as H1.
  { apply list_elem_of_lookup_1 in Ho as (j & Hj). pose proof (fair_numbers _ _ (proj2 Hg) _ _ Hj). lia. }
  assert (∀ b o', b ∈ taken (service (shared s)) →
     Server.clusterKey (Queue.TenantID b) (Queue.ClusterID b) = cluster → Worker.within b o' →
     Sequence o' < Sequence o) as Hblock.
  { intros b o' Hb Hk Hw. eapply (unsent_blocks _ o); [done|done| |done..]. intros b1 _ Hw1. by apply invalid_record_refused. }
  split_and!; [done|eapply watermark_below; [done|by apply watermark_queued|done..]| |].
  - intros f n terminal Hf Hsays. destruct (inv_sent _ Hi _ _ Hf) as (key & [= <-] & Hok).
    destruct f as [h|a| | | |]; try done; injection Hsays as <- _; simpl in Hok;
      (eapply watermark_below; [done|by apply covered_queued|done..]).
  - intros o' Ho' Hge. destruct (site_settled apart _ _ _ Hr o' Ho') as [?|[(b & Hb & Hk & Hw & _)|?]]; [by left| |by right].
    specialize (Hblock b o' Hb Hk Hw). lia.
Qed.

(** If the server finds nothing wrong with the batches the client sends, nothing is
    refused. *)
Lemma valid_observations_delivered fuel turns s o :
  files_apart → rtc site_step (start_site fuel turns) s →
  (∀ b, b ∈ wire (edge (shared s)) → Server.validateBatch b scfg = None) →
  o ∈ published (edge (shared s)) → o ∉ Buffer.entries (buffer (edge (shared s))) →
  delivered (service (shared s)) o.
Proof.
  intros apart Hr%(site_settled apart) Hv Ho He. destruct (Hr o Ho) as [?|[?|(b & Hb & _ & Hn)]]; [done..|]. by rewrite Hv in Hn.
Qed.
End delivery.

(** *** A concrete execution

    An event is published; the service greets the agent and crashes; the batch of the
    event is delivered, written and acknowledged on a stream after the restart. *)
Section drivers.
Context `{Protobuf, Deployment} (scfg : Server.Config) (ccfg : Client.ClientConfig).
Context (lets : string → string → bool) (Hlets : ∀ t c, lets t c = true → admitted t c).

(** The last frame for the cluster that [f] selects *)
Definition last_frame (w : world) (f : IngestionToAgent → bool) : option IngestionToAgent :=
  last (omap (λ kf, if decide (kf.1 = Some (cluster ccfg)) then if f kf.2 then Some kf.2 else None else None) (sent w)).
Lemma last_frame_heard w f g : last_frame w f = Some g → heard ccfg w g.
Proof.
  intros Hl%last_Some_elem_of. apply list_elem_of_omap in Hl as ([k f'] & Hin & Hk). simpl in Hk. case_decide; [|done].
  subst. destruct (f f'); [|done]. by injection Hk as ->.
Qed.
Definition is_hello (f : IngestionToAgent) : bool := match f with IngestionToAgent_Hello _ => true | _ => false end.
Definition client_answer (w : world) (o : Client.client_op) (b : Buffer.Buffer) (ws : list ObservationBatch)
    : option (Client.client_ans o * Buffer.Buffer * list ObservationBatch) :=
  match o return option (Client.client_ans o * Buffer.Buffer * list ObservationBatch) with
  | Client.Dial => Some (None, b, ws)
  | Client.Send f => Some (None, b, match f with AgentToIngestion_Batch batch => ws ++ [batch] | _ => ws end)
  | Client.Recv => f ← last_frame w is_hello; Some (Ok f, b, ws)
  | Client.BufferBatch maximum =>
      Some (match Buffer.Batch maximum b with Buffer.BatchReady os => Ok os | _ => Err Client.DeadlineExceeded end, b, ws)
  | Client.BufferAcknowledge p terminal => Some (tt, Buffer.Acknowledge p terminal b, ws)
  | Client.BufferHighest => Some (Buffer.HighestSequence b, b, ws)
  | Client.BufferPersisted => Some (Buffer.PersistedThrough b, b, ws)
  | Client.Poll => Some (Client.Nothing, b, ws)
  | Client.Await => f ← last_frame w (λ f, negb (is_hello f)); Some (Client.Frame f, b, ws)
  | Client.Sleep _ => Some (tt, b, ws)
  | Client.Now => Some (unix_epoch, b, ws)
  | Client.AfterOrDone _ => Some (false, b, ws)
  end.
Lemma client_answer_sound w o b ws x b' ws' :
  client_answer w o b ws = Some (x, b', ws') → client_call ccfg w o b ws x b' ws'.
Proof.
  destruct o; simpl; intros Ha; repeat case_match; simplify_eq/=; try done.
  - destruct (last_frame _ _) eqn:Hl; [|done]. simplify_eq/=. split_and!; [done..|].
    intros f [= <-]. by eapply last_frame_heard.
  - split_and!; try done. by intros os [= <-].
  - destruct (last_frame _ _) eqn:Hl; [|done]. simplify_eq/=. split_and!; [done..|].
    intros f [= <-]. by eapply last_frame_heard.
Qed.
Fixpoint drive_client (n : nat) (w : world) (a : agent) : option agent :=
  match n, client a with
  | S n', Vis o k =>
      '(x, b', ws') ← client_answer w o (buffer a) (wire a);
      drive_client n' w (Agent b' (published a) (k x) ws')
  | _, _ => Some a
  end.
Lemma drive_client_steps n w a a' ts :
  drive_client n w a = Some a' → rtc (site_step scfg ccfg) (Pool (Site w a) ts) (Pool (Site w a') ts).
Proof.
  revert a. induction n as [|n IH]; intros a; simpl; [by intros [= ->]|].
  destruct a as [b os [r|o k] ws]; simpl; [by intros [= ->]|].
  destruct (client_answer w o b ws) as [[[x b'] ws']|] eqn:Ha; [|done]. simpl. intros Hd.
  eapply rtc_l; [|by apply IH]. apply site_run, step_env, env_agent, agent_call. by apply client_answer_sound.
Qed.

Lemma sched_script o w script x w' script' w1 a i :
  sched lets o (w, script) = Some (x, (w', script')) →
  (∀ b, AgentToIngestion_Batch b ∈ script → b ∈ wire a) →
  carried ccfg i o (Site w1 a) x ∧ ∀ b, AgentToIngestion_Batch b ∈ script' → b ∈ wire a.
Proof.
  intros Hs Hw. destruct o; simpl in Hs; repeat case_match; simplify_eq/=; split; try done.
  all: try (intros b1 Hb1; apply Hw; by right).
  all: try (intros b1 Hb1 _; simplify_eq; apply Hw; left).
Qed.
Lemma worker_site w w' a ts :
  rtc worker_step w w' → rtc (site_step scfg ccfg) (Pool (Site w a) ts) (Pool (Site w' a) ts).
Proof. induction 1; [done|]. eapply rtc_l; [|done]. by apply site_run, step_env, env_worker. Qed.
Lemma drive_site (p : prog Server.server_ans (option (option Server.go_error))) w script r w' script' a :
  drive lets p (w, script) = Some (r, (w', script')) → (∀ b, AgentToIngestion_Batch b ∈ script → b ∈ wire a) →
  rtc (site_step scfg ccfg) (Pool (Site w a) [p]) (Pool (Site w' a) [Ret r]).
Proof.
  revert w script. induction p as [v|o k IH]; intros w script; cbn [drive]; [by intros [= -> -> _]|].
  destruct (sched lets o (w, script)) as [[x [w1 s1]]|] eqn:Hs; [|done]. intros Hd Hscript.
  destruct (sched_sound lets Hlets _ _ _ _ _ _ Hs) as (w2 & Hw & He).
  destruct (sched_script _ _ _ _ _ _ w2 a 0 Hs Hscript) as [Hcar Hscript'].
  etrans; [by apply worker_site|]. eapply rtc_l; [|by eapply IH]. apply site_run.
  by apply (step_thread (site_env ccfg) (site_effect ccfg) (handler scfg) (Site w2 a) [Vis o k] 0 o k x (Site w1 a)).
Qed.
End drivers.

Section example.
#[local] Existing Instance sample_codec.
#[local] Existing Instance sample_deployment.
Abbreviation steps := (rtc (site_step Server.sample_config Client.sample_config)).
Definition node_event (uid : string) : Event :=
  {| Key := "node/" +:+ uid; EventObservation := Some (Persistence.sample_observation 0
       (Observation_NodeInventory (Persistence.sample_node uid 1))) |}.
Definition agent0 : agent := start_agent Client.sample_config 2 9.
Definition publish (event : Event) (a : agent) : option agent :=
  match Buffer.Publish "now" event (buffer a) with
  | Buffer.Published b' =>
      guard (Buffer.next (buffer a) + 1 < two64);;
      o ← last (Buffer.entries b');
      Some (Agent b' (published a ++ [o]) (client a) (wire a))
  | _ => None
  end.
Definition greet : AgentToIngestion := AgentToIngestion_Hello Server.sample_hello.
(** A stream of a greeting and everything the client has sent, and a crash after it *)
Definition resend (turns : nat) (a : agent) (w : world) : option world :=
  stream lets_sample Server.sample_config turns (greet :: (AgentToIngestion_Batch <$> wire a)) w.
Lemma resend_site turns w w' a :
  resend turns a w = Some w' → steps (Pool (Site w a) []) (Pool (Site (restart 9 w') a) []).
Proof.
  unfold resend, stream. intros ([r [w1 s1]] & Hd & ->)%fmap_Some.
  eapply rtc_l; [apply site_run, step_start; by exists turns|].
  assert (∀ t c, lets_sample t c = true → admitted t c) as Hlets by done.
  apply (drive_site Server.sample_config Client.sample_config lets_sample Hlets _ _ _ _ _ _ a) in Hd.
  2:{ intros b [?|(b' & [= ->] & Hb)%list_elem_of_fmap]%elem_of_cons; done. }
  etrans; [exact Hd|]. eapply rtc_once, (site_crash _ _ 9).
Qed.
Definition execution : option site :=
  a0 ← publish (node_event "u") agent0;
  a1 ← drive_client Client.sample_config 3 (start_world 9) a0;
  w1 ← resend 2 a1 (start_world 9);
  a2 ← drive_client Client.sample_config 5 (restart 9 w1) a1;
  w2 ← resend 2 a2 (restart 9 w1);
  a3 ← drive_client Client.sample_config 2 (restart 9 w2) a2;
  Some (Site (restart 9 w2) a3).
Definition final : site := default (Site (start_world 9) agent0) execution.
(** One observation was published; the buffer is empty; one row is stored. *)
Definition counts (s : site) : nat * nat * list nat :=
  (length (published (edge s)), length (Buffer.entries (buffer (edge s))),
   (λ i, length (Persistence.Rows i)) <$> stored (service s)).
Lemma execution_ends : counts <$> execution = Some (1%nat, 0%nat, [1%nat]).
Proof. vm_compute. reflexivity. Qed.

Lemma publish_step w event a a' ts :
  publish event a = Some a' → steps (Pool (Site w a) ts) (Pool (Site w a') ts).
Proof.
  unfold publish. destruct (Buffer.Publish "now" event (buffer a)) as [b'| | | |] eqn:Hp; [|done..].
  pose proof Hp as (o & id & _ & _ & _ & _ & _ & He & _)%Buffer.publish_result.
  rewrite He, last_snoc. intros (Hn & _ & [= <-])%bind_Some. destruct a as [b os p ws]. simpl in *.
  apply rtc_once, site_run, step_env, env_agent. eapply (agent_publish Client.sample_config w b os p ws "now"); done.
Qed.
(** The steps of such an execution, one after the other *)
Ltac replay He :=
  repeat (apply bind_Some in He as (? & ? & He)); injection He as <-;
  unfold start_site; change (start_agent Client.sample_config 2 9) with agent0;
  repeat match goal with
  | Hp : publish _ ?a = Some _ |- steps (Pool (Site _ ?a) _) _ => etrans; [by apply (publish_step _ _ _ _ _ Hp)|]
  | Hd : drive_client _ _ ?w ?a = Some _ |- steps (Pool (Site ?w ?a) _) _ => etrans; [by apply (drive_client_steps _ _ _ _ _ _ _ Hd)|]
  | Hs : resend _ ?a ?w = Some _ |- steps (Pool (Site ?w ?a) _) _ => etrans; [by apply (resend_site _ _ _ _ Hs)|]
  end; try apply rtc_refl.
Lemma execution_reachable : steps (start_site Client.sample_config 2 9 9) (Pool final []).
Proof.
  pose proof execution_ends as Hend. unfold final. destruct execution as [s|] eqn:He; [|done]. clear Hend. simpl.
  unfold execution in He. replay He.
Qed.
Lemma observations_delivered_witness :
  length (published (edge final)) = 1%nat ∧ Buffer.entries (buffer (edge final)) = [] ∧
  ∀ o, o ∈ published (edge final) →
    delivered Client.sample_config (service final) o ∨ refused Server.sample_config (wire (edge final)) o.
Proof.
  split; [vm_compute; reflexivity|]. split; [vm_compute; reflexivity|]. intros o Ho.
  destruct (observations_delivered Server.sample_config Client.sample_config 2 9 9 _ sample_apart execution_reachable) as [Hall _].
  destruct (Hall o Ho) as [Hb|Hd]; [|exact Hd].
  assert (Buffer.entries (buffer (edge final)) = []) as He by (vm_compute; reflexivity).
  change (shared (Pool final [])) with final in Hb. rewrite He in Hb. destruct (not_elem_of_nil o Hb).
Defined.

(** *** A wedged stream

    A node without a uid is published; the server refuses its batch and the client drops
    it. The batch of the next node, a valid one, is answered with a retry range. *)
Definition wedging : option site :=
  a0 ← publish (node_event "") agent0;
  a1 ← drive_client Client.sample_config 3 (start_world 9) a0;
  w1 ← resend 2 a1 (start_world 9);
  a2 ← drive_client Client.sample_config 5 (restart 9 w1) a1;
  w2 ← resend 2 a2 (restart 9 w1);
  a3 ← drive_client Client.sample_config 2 (restart 9 w2) a2;
  a4 ← publish (node_event "u") a3;
  a5 ← drive_client Client.sample_config 3 (restart 9 w2) a4;
  w3 ← resend 3 a5 (restart 9 w2);
  a6 ← drive_client Client.sample_config 2 (restart 9 w3) a5;
  Some (Site (restart 9 w3) a6).
Definition wedged : site := default (Site (start_world 9) agent0) wedging.
(** What was published, what is left in the buffer, and what was sent *)
Definition numbers (s : site) : list Z * list Z * list (list Z) :=
  (Sequence <$> published (edge s), Sequence <$> Buffer.entries (buffer (edge s)),
   (λ b, Sequence <$> Observations b) <$> wire (edge s)).
Lemma wedging_ends : numbers <$> wedging = Some ([1; 2], [2], [[1]; [2]]).
Proof. vm_compute. reflexivity. Qed.
Lemma wedged_reachable : steps (start_site Client.sample_config 2 9 9) (Pool wedged []).
Proof.
  pose proof wedging_ends as Hend. unfold wedged. destruct wedging as [s|] eqn:He; [|done]. clear Hend. simpl.
  unfold wedging in He. replay He.
Qed.
Definition first_published : Observation :=
  default (Persistence.sample_observation 1 (Observation_NodeInventory (Persistence.sample_node "" 1)))
    (head (published (edge wedged))).
Lemma invalid_observation_wedges_stream_witness :
  numbers wedged = ([1; 2], [2], [[1]; [2]]) ∧
  ∀ f n terminal, heard Client.sample_config (service wedged) f → says f = Some (n, terminal) → n < 1.
Proof.
  split; [vm_compute; reflexivity|]. intros f n terminal Hf Hs.
  assert (Sequence first_published = 1) as <- by (vm_compute; reflexivity).
  refine (proj1 (proj2 (proj2 (invalid_observation_wedges_stream Server.sample_config Client.sample_config 2 9 9 _ _
    sample_apart wedged_reachable _ _))) f n terminal Hf Hs).
  - apply list_elem_of_lookup_2 with 0%nat. vm_compute. reflexivity.
  - vm_compute. discriminate.
Defined.
End example.
End Delivery.
