(* ===== verification/Allocation.v ===== *)
(** * Cost allocation

    [services/allocation/types.go] and [engine.go]: the query window, and the
    distribution of node, control-plane and network cost over namespaces by CPU
    request, with the unrequested part of each node as idle cost.

    The code computes in [float64]. Its definitions are stated over the
    operations of the class [Arith] and have two readings: [binary64], the IEEE
    754 double-precision arithmetic of the Standard Library's [SpecFloat], and
    [exact], rational arithmetic, in which the conservation of cost is stated.
    Go's map iteration order is arbitrary, so the loops over maps take the order
    of the keys as an argument. *)
From stdpp Require Import base option list gmap strings sorting.
From Stdlib Require Import ZArith Lia QArith Qcanon SpecFloat.
From S2P Require Import Prelude Proto Stores.

Module Allocation.
Open Scope Z_scope.

(** ** Arithmetic *)

Class Arith (F : Type) := {
  of_Z : Z → F;
  add : F → F → F;
  mul : F → F → F;
  div : F → F → F;
  ltb : F → F → bool;
  leb : F → F → bool
}.
#[export] Instance binary64 : Arith spec_float := {|
  of_Z z := binary_normalize 53 1024 z 0 false;
  add := SFadd 53 1024;
  mul := SFmul 53 1024;
  div := SFdiv 53 1024;
  ltb := SFltb;
  leb := SFleb
|}.
#[export] Instance exact : Arith Qc := {|
  of_Z z := Q2Qc (inject_Z z);
  add := Qcplus;
  mul := Qcmult;
  div := Qcdiv;
  ltb a b := match (a ?= b)%Qc with Lt => true | _ => false end;
  leb a b := match (a ?= b)%Qc with Gt => false | _ => true end
|}.

(** ** Data *)

Definition defaultCurrency : string := "USD".
Definition allocationMethodCPU : string := "cpu_request_allocatable".
Definition computationVersionV1 : string := "allocation-v1-cpu-request-overhead-idle".
Definition idleNamespaceUID : string := "__idle__".
Definition idleNamespaceName : string := "__idle__".

Record Query := { Q_TenantID : string; Q_ClusterID : string; Q_Start : Time; Q_End : Time }.

Record NodeNamespaceRequest := {
  TenantID : string;
  ClusterID : string;
  NodeUID : string;
  NamespaceUID : string;
  NamespaceName : string;
  BucketStart : Time;
  CPURequestCoreMilliseconds : Z;
  NetworkBytes : Z;
  NodeAllocatableMillicores : Z
}.

Section costs.
Context {F : Type} `{Arith F}.

Record NamespaceCost := {
  C_TenantID : string;
  C_ClusterID : string;
  C_NamespaceUID : string;
  C_NamespaceName : string;
  C_BucketStart : string;
  C_CPURequestCoreMilliseconds : Z;
  C_NetworkBytes : Z;
  AllocationWeight : F;
  DirectCost : F;
  IdleCost : F;
  NetworkCost : F;
  ControlPlaneCost : F;
  SystemNamespaceCost : F;
  AllocatedCost : F;
  Currency : string;
  AllocationMethod : string;
  ComputationVersion : string
}.
Record AllocationOptions := {
  NodeHourlyCostUSD : F;
  ControlPlaneHourlyCostUSD : F;
  NetworkCostPerGiBUSD : F
}.
Record Result := {
  R_Currency : string;
  R_AllocationMethod : string;
  R_options : AllocationOptions;
  R_Start : Time;
  R_End : Time;
  Items : list NamespaceCost
}.

Definition zero : F := of_Z 0.
Definition defaultNodeHourlyCostUSD : F := div (of_Z 1) (of_Z 10).
Definition defaultControlPlaneHourlyCostUSD : F := div (of_Z 1) (of_Z 20).
Definition defaultNetworkCostPerGiBUSD : F := div (of_Z 1) (of_Z 100).

Definition normalizeAllocationOptions (o : AllocationOptions) : AllocationOptions :=
  {| NodeHourlyCostUSD := if leb (NodeHourlyCostUSD o) zero then defaultNodeHourlyCostUSD else NodeHourlyCostUSD o;
     ControlPlaneHourlyCostUSD :=
       if ltb (ControlPlaneHourlyCostUSD o) zero then defaultControlPlaneHourlyCostUSD else ControlPlaneHourlyCostUSD o;
     NetworkCostPerGiBUSD :=
       if ltb (NetworkCostPerGiBUSD o) zero then defaultNetworkCostPerGiBUSD else NetworkCostPerGiBUSD o |}.

(** ** Keys *)

Definition joined (parts : list string) : string := Strings.Join parts nul.
Definition nodeBucketKey (r : NodeNamespaceRequest) : string :=
  joined [TenantID r; ClusterID r; NodeUID r; Paths.rfc3339 (BucketStart r)].
Definition namespaceBucketKey (r : NodeNamespaceRequest) : string :=
  joined [TenantID r; ClusterID r; NamespaceUID r; Paths.rfc3339 (BucketStart r)].
Definition idleNamespaceBucketKey (r : NodeNamespaceRequest) : string :=
  joined [TenantID r; ClusterID r; idleNamespaceUID; Paths.rfc3339 (BucketStart r)].
Definition clusterBucketKey (r : NodeNamespaceRequest) : string :=
  joined [TenantID r; ClusterID r; Paths.rfc3339 (BucketStart r)].

Definition isSystemNamespace (name uid : string) : bool :=
  bool_decide (name ∈ ["kube-system"; "kube-public"; "kube-node-lease"]%string)
  || bool_decide (uid ∈ ["kube-system"; "kube-public"; "kube-node-lease"]%string).
Definition bytesToGiB (bytes : Z) : F := div (of_Z bytes) (of_Z 1073741824).
Definition maxUint64 (left right : Z) : Z := if right <? left then left else right.
Definition zeroRequest : NodeNamespaceRequest :=
  {| TenantID := ""; ClusterID := ""; NodeUID := ""; NamespaceUID := ""; NamespaceName := "";
     BucketStart := 0; CPURequestCoreMilliseconds := 0; NetworkBytes := 0; NodeAllocatableMillicores := 0 |}.
Fixpoint firstNodeRequest (nodeKey : string) (rs : list NodeNamespaceRequest) : NodeNamespaceRequest :=
  match rs with
  | [] => zeroRequest
  | r :: rs' => if (nodeBucketKey r =? nodeKey)%string then r else firstNodeRequest nodeKey rs'
  end.

(** ** The three loops of [allocateCosts] *)

(** Reading a Go map of integers gives 0 for a missing key. *)
Definition at_ (m : gmap string Z) (k : string) : Z := default 0 (m !! k).

Record totals := Totals {
  nodeTotals : gmap string Z;
  nodeAllocatable : gmap string Z;
  clusterTotals : gmap string Z
}.
Definition total_step (t : totals) (r : NodeNamespaceRequest) : totals :=
  if (NodeUID r =? "")%string || (CPURequestCoreMilliseconds r =? 0) then t
  else
    let nodeKey := nodeBucketKey r in
    let clusterKey := clusterBucketKey r in
    let allocatable := u64 (NodeAllocatableMillicores r * 3600) in
    Totals
      (<[nodeKey := u64 (at_ (nodeTotals t) nodeKey + CPURequestCoreMilliseconds r)]> (nodeTotals t))
      (if at_ (nodeAllocatable t) nodeKey <? allocatable
       then <[nodeKey := allocatable]> (nodeAllocatable t) else nodeAllocatable t)
      (<[clusterKey := u64 (at_ (clusterTotals t) clusterKey + CPURequestCoreMilliseconds r)]> (clusterTotals t)).
Definition totals_of (rs : list NodeNamespaceRequest) : totals := foldl total_step (Totals ∅ ∅ ∅) rs.

Definition denominator (t : totals) (nodeKey : string) : Z :=
  maxUint64 (at_ (nodeTotals t) nodeKey) (at_ (nodeAllocatable t) nodeKey).

Definition newItem (r : NodeNamespaceRequest) (uid name : string) : NamespaceCost :=
  {| C_TenantID := TenantID r; C_ClusterID := ClusterID r; C_NamespaceUID := uid; C_NamespaceName := name;
     C_BucketStart := Paths.rfc3339 (BucketStart r); C_CPURequestCoreMilliseconds := 0; C_NetworkBytes := 0;
     AllocationWeight := zero; DirectCost := zero; IdleCost := zero; NetworkCost := zero;
     ControlPlaneCost := zero; SystemNamespaceCost := zero; AllocatedCost := zero;
     Currency := ""; AllocationMethod := ""; ComputationVersion := "" |}.

Definition nodeWeight (t : totals) (r : NodeNamespaceRequest) : F :=
  div (of_Z (CPURequestCoreMilliseconds r)) (of_Z (denominator t (nodeBucketKey r))).
Definition controlPlaneWeight (t : totals) (r : NodeNamespaceRequest) : F :=
  let clusterTotal := at_ (clusterTotals t) (clusterBucketKey r) in
  if 0 <? clusterTotal then div (of_Z (CPURequestCoreMilliseconds r)) (of_Z clusterTotal) else zero.
(** [directCost + networkCost + controlPlaneCost] of a request *)
Definition directOf (o : AllocationOptions) t r : F := mul (NodeHourlyCostUSD o) (nodeWeight t r).
Definition networkOf (o : AllocationOptions) r : F := mul (bytesToGiB (NetworkBytes r)) (NetworkCostPerGiBUSD o).
Definition controlPlaneOf (o : AllocationOptions) t r : F :=
  mul (ControlPlaneHourlyCostUSD o) (controlPlaneWeight t r).
Definition requestCost (o : AllocationOptions) t r : F :=
  add (add (directOf o t r) (networkOf o r)) (controlPlaneOf o t r).

Definition charge (o : AllocationOptions) (t : totals) (r : NodeNamespaceRequest) (item : NamespaceCost)
    : NamespaceCost :=
  {| C_TenantID := C_TenantID item; C_ClusterID := C_ClusterID item; C_NamespaceUID := C_NamespaceUID item;
     C_NamespaceName := C_NamespaceName item; C_BucketStart := C_BucketStart item;
     C_CPURequestCoreMilliseconds := u64 (C_CPURequestCoreMilliseconds item + CPURequestCoreMilliseconds r);
     C_NetworkBytes := u64 (C_NetworkBytes item + NetworkBytes r);
     AllocationWeight := add (AllocationWeight item) (nodeWeight t r);
     DirectCost := add (DirectCost item) (directOf o t r);
     IdleCost := IdleCost item;
     NetworkCost := add (NetworkCost item) (networkOf o r);
     ControlPlaneCost := add (ControlPlaneCost item) (controlPlaneOf o t r);
     SystemNamespaceCost :=
       if isSystemNamespace (NamespaceName r) (NamespaceUID r)
       then add (SystemNamespaceCost item) (requestCost o t r) else SystemNamespaceCost item;
     AllocatedCost := add (AllocatedCost item) (requestCost o t r);
     Currency := Currency item; AllocationMethod := AllocationMethod item;
     ComputationVersion := ComputationVersion item |}.

Definition counted (t : totals) (r : NodeNamespaceRequest) : bool :=
  negb ((denominator t (nodeBucketKey r) =? 0) || (CPURequestCoreMilliseconds r =? 0)).
Definition request_step (o : AllocationOptions) (t : totals) (m : gmap string NamespaceCost)
    (r : NodeNamespaceRequest) : gmap string NamespaceCost :=
  if counted t r then
    let key := namespaceBucketKey r in
    <[key := charge o t r (default (newItem r (NamespaceUID r) (NamespaceName r)) (m !! key))]> m
  else m.

Definition idleCostOf (o : AllocationOptions) (t : totals) (nodeKey : string) : F :=
  let d := denominator t nodeKey in
  mul (NodeHourlyCostUSD o) (div (of_Z (u64 (d - at_ (nodeTotals t) nodeKey))) (of_Z d)).
Definition add_idle (cost : F) (item : NamespaceCost) : NamespaceCost :=
  {| C_TenantID := C_TenantID item; C_ClusterID := C_ClusterID item; C_NamespaceUID := C_NamespaceUID item;
     C_NamespaceName := C_NamespaceName item; C_BucketStart := C_BucketStart item;
     C_CPURequestCoreMilliseconds := C_CPURequestCoreMilliseconds item; C_NetworkBytes := C_NetworkBytes item;
     AllocationWeight := AllocationWeight item; DirectCost := DirectCost item;
     IdleCost := add (IdleCost item) cost; NetworkCost := NetworkCost item;
     ControlPlaneCost := ControlPlaneCost item; SystemNamespaceCost := SystemNamespaceCost item;
     AllocatedCost := add (AllocatedCost item) cost;
     Currency := Currency item; AllocationMethod := AllocationMethod item;
     ComputationVersion := ComputationVersion item |}.
Definition idle_step (o : AllocationOptions) (t : totals) (rs : list NodeNamespaceRequest)
    (m : gmap string NamespaceCost) (nodeKey : string) : gmap string NamespaceCost :=
  let d := denominator t nodeKey in
  if (d =? 0) || (d <=? at_ (nodeTotals t) nodeKey) then m
  else
    let r := firstNodeRequest nodeKey rs in
    let key := idleNamespaceBucketKey r in
    <[key := add_idle (idleCostOf o t nodeKey)
               (default (newItem r idleNamespaceUID idleNamespaceName) (m !! key))]> m.

Definition stamp (item : NamespaceCost) : NamespaceCost :=
  {| C_TenantID := C_TenantID item; C_ClusterID := C_ClusterID item; C_NamespaceUID := C_NamespaceUID item;
     C_NamespaceName := C_NamespaceName item; C_BucketStart := C_BucketStart item;
     C_CPURequestCoreMilliseconds := C_CPURequestCoreMilliseconds item; C_NetworkBytes := C_NetworkBytes item;
     AllocationWeight := AllocationWeight item; DirectCost := DirectCost item; IdleCost := IdleCost item;
     NetworkCost := NetworkCost item; ControlPlaneCost := ControlPlaneCost item;
     SystemNamespaceCost := SystemNamespaceCost item; AllocatedCost := AllocatedCost item;
     Currency := defaultCurrency; AllocationMethod := allocationMethodCPU;
     ComputationVersion := computationVersionV1 |}.

(** The comparison of [sort.Slice], as a total preorder on the three fields. *)
Definition less_eq (a b : NamespaceCost) : Prop :=
  if decide (C_BucketStart a = C_BucketStart b) then
    if decide (C_ClusterID a = C_ClusterID b) then String.le (C_NamespaceUID a) (C_NamespaceUID b)
    else String.le (C_ClusterID a) (C_ClusterID b)
  else String.le (C_BucketStart a) (C_BucketStart b).
#[export] Instance less_eq_dec a b : Decision (less_eq a b).
Proof. unfold less_eq. repeat case_decide; apply _. Defined.

(** [allocateCosts]: [nodeOrder] and [itemOrder] are the iteration orders of
    [nodeTotals] and [byNamespace]. *)
Definition namespaceCosts (rs : list NodeNamespaceRequest) (o : AllocationOptions) (nodeOrder : list string)
    : gmap string NamespaceCost :=
  let t := totals_of rs in
  foldl (idle_step o t rs) (foldl (request_step o t) ∅ rs) nodeOrder.
Definition allocateCosts (rs : list NodeNamespaceRequest) (options : AllocationOptions)
    (nodeOrder itemOrder : list string) : list NamespaceCost :=
  let o := normalizeAllocationOptions options in
  let byNamespace := namespaceCosts rs o nodeOrder in
  merge_sort less_eq (stamp <$> omap (λ k, byNamespace !! k) itemOrder).
Definition allocateByCPURequest (rs : list NodeNamespaceRequest) (nodeHourlyCostUSD : F)
    (nodeOrder itemOrder : list string) : list NamespaceCost :=
  allocateCosts rs {| NodeHourlyCostUSD := nodeHourlyCostUSD; ControlPlaneHourlyCostUSD := zero;
                      NetworkCostPerGiBUSD := zero |} nodeOrder itemOrder.

(** ** Queries *)

Definition normalizeQuery (q : Query) (now : Time) : res string Query :=
  let tenant := TrimSpace (Q_TenantID q) in
  let cluster := TrimSpace (Q_ClusterID q) in
  if (tenant =? "")%string then Err "invalid allocation query: tenant_id is required"%string
  else
    let end_ := if IsZero (Q_End q) then Truncate now Hour else Q_End q in
    let start := if IsZero (Q_Start q) then end_ - Hour else Q_Start q in
    if negb (start <? end_) then Err "invalid allocation query: start must be before end"%string
    else if negb (start =? Truncate start Hour) || negb (end_ =? Truncate end_ Hour)
    then Err "invalid allocation query: start and end must be aligned to whole hours"%string
    else Ok {| Q_TenantID := tenant; Q_ClusterID := cluster; Q_Start := start; Q_End := end_ |}.

(** [Engine.NamespaceCosts] with the repository's answer *)
Definition NamespaceCosts (options : AllocationOptions) (repository : Query → res string (list NamespaceCost))
    (q : Query) (now : Time) : res string Result :=
  normalized ← normalizeQuery q now;
  items ← repository normalized;
  mret {| R_Currency := defaultCurrency; R_AllocationMethod := allocationMethodCPU;
          R_options := options; R_Start := Q_Start normalized; R_End := Q_End normalized;
          Items := stamp <$> items |}.
Definition NewEngineWithOptions (options : AllocationOptions) : AllocationOptions :=
  normalizeAllocationOptions options.
Definition NewEngine (nodeHourlyCostUSD : F) : AllocationOptions :=
  NewEngineWithOptions {| NodeHourlyCostUSD := nodeHourlyCostUSD; ControlPlaneHourlyCostUSD := zero;
                          NetworkCostPerGiBUSD := zero |}.
End costs.
Arguments NamespaceCost : clear implicits.
Arguments AllocationOptions : clear implicits.

(** ** Conservation of cost, in exact arithmetic *)

Section exact_sums.
Open Scope Qc_scope.
Implicit Types (r : NodeNamespaceRequest) (rs : list NodeNamespaceRequest).

Lemma of_Z_add (a b : Z) : of_Z (a + b) = (of_Z a : Qc) + of_Z b.
Proof. simpl. apply Qc_is_canon. simpl. rewrite !Qred_correct. by rewrite inject_Z_plus. Qed.
Lemma of_Z_0 : (of_Z 0 : Qc) = 0.
Proof. by apply Qc_is_canon. Qed.
Lemma of_Z_1 : (of_Z 1 : Qc) = 1.
Proof. by apply Qc_is_canon. Qed.
Lemma of_Z_ne (a : Z) : a ≠ 0%Z → (of_Z a : Qc) ≠ 0.
Proof.
  intros Ha Heq. apply Ha. simpl in Heq. apply (f_equal this) in Heq. simpl in Heq.
  apply (Qred_eq_iff (inject_Z a) 0) in Heq. unfold Qeq in Heq. simpl in Heq. lia.
Qed.

Fixpoint qsum {A} (f : A → Qc) (l : list A) : Qc :=
  match l with [] => 0 | x :: l' => f x + qsum f l' end.

Lemma qsum_perm {A} (f : A → Qc) l l' : l ≡ₚ l' → qsum f l = qsum f l'.
Proof. induction 1; simpl; [done|congruence|ring|congruence]. Qed.
Lemma qsum_ext {A} (f g : A → Qc) l : (∀ x, x ∈ l → f x = g x) → qsum f l = qsum g l.
Proof.
  induction l as [|x l IH]; intros He; simpl; [done|].
  rewrite (He x) by left. f_equal. apply IH. intros y Hy. apply He. by right.
Qed.
Lemma qsum_add {A} (f g : A → Qc) l : qsum (λ x, f x + g x) l = qsum f l + qsum g l.
Proof. induction l as [|x l IH]; simpl; [ring|]. rewrite IH. ring. Qed.
Lemma qsum_app {A} (f : A → Qc) l1 l2 : qsum f (l1 ++ l2) = qsum f l1 + qsum f l2.
Proof. induction l1 as [|x l IH]; simpl; [ring|]. rewrite IH. ring. Qed.
Lemma qsum_const {A} c (l : list A) : qsum (λ _, c) l = c * of_Z (Z.of_nat (length l)).
Proof.
  induction l as [|x l IH]; cbn [qsum length]; [change (Z.of_nat 0) with 0%Z; rewrite of_Z_0; ring|].
  rewrite IH, Nat2Z.inj_succ, <- Z.add_1_r, of_Z_add, of_Z_1. ring.
Qed.

(** *** Integer totals *)

Definition eligible r : Prop := NodeUID r ≠ ""%string ∧ CPURequestCoreMilliseconds r ≠ 0%Z.
#[local] Instance eligible_dec r : Decision (eligible r) := _.
Fixpoint ztotal (key : NodeNamespaceRequest → string) rs (k : string) : Z :=
  match rs with
  | [] => 0
  | r :: rs' =>
      (if decide (eligible r ∧ key r = k) then CPURequestCoreMilliseconds r else 0) + ztotal key rs' k
  end%Z.
Fixpoint zsum rs : Z :=
  match rs with [] => 0 | r :: rs' => CPURequestCoreMilliseconds r + zsum rs' end%Z.

Lemma ztotal_app key rs1 rs2 k : ztotal key (rs1 ++ rs2) k = (ztotal key rs1 k + ztotal key rs2 k)%Z.
Proof. induction rs1 as [|r rs1 IH]; simpl; [lia|]. rewrite IH. lia. Qed.
Lemma zsum_app rs1 rs2 : zsum (rs1 ++ rs2) = (zsum rs1 + zsum rs2)%Z.
Proof. induction rs1 as [|r rs1 IH]; simpl; [lia|]. rewrite IH. lia. Qed.
Lemma ztotal_bound key rs k :
  Forall (λ r, 0 ≤ CPURequestCoreMilliseconds r)%Z rs → (0 ≤ ztotal key rs k ≤ zsum rs)%Z.
Proof. induction 1 as [|r rs Hr _ IH]; simpl; [lia|]. case_decide; lia. Qed.
Lemma ztotal_pos key rs k :
  Forall (λ r, 0 ≤ CPURequestCoreMilliseconds r)%Z rs →
  (∃ r, r ∈ rs ∧ eligible r ∧ key r = k) → (0 < ztotal key rs k)%Z.
Proof.
  intros Hf (r & Hr & He & <-). apply list_elem_of_split in Hr as (l1 & l2 & ->).
  apply Forall_app in Hf as [H1 H2]. apply Forall_cons in H2 as [Hr H2]. rewrite ztotal_app. simpl.
  rewrite decide_True by done. pose proof (ztotal_bound key l1 (key r) H1).
  pose proof (ztotal_bound key l2 (key r) H2). destruct He. lia.
Qed.
Lemma zsum_nonneg rs : Forall (λ r, 0 ≤ CPURequestCoreMilliseconds r)%Z rs → (0 ≤ zsum rs)%Z.
Proof. induction 1; simpl; lia. Qed.

(** Requests whose totals do not overflow. *)
Definition fits rs : Prop :=
  Forall (λ r, 0 ≤ CPURequestCoreMilliseconds r)%Z rs ∧ (zsum rs < two64)%Z.
Lemma fits_app rs1 rs2 : fits (rs1 ++ rs2) → fits rs1.
Proof.
  intros [Hr Hs]. rewrite zsum_app in Hs. apply Forall_app in Hr as [H1 H2].
  pose proof (zsum_nonneg _ H2). split; [done|lia].
Qed.

Lemma totals_snoc rs r : totals_of (rs ++ [r]) = total_step (totals_of rs) r.
Proof. unfold totals_of. by rewrite foldl_app. Qed.
Lemma total_step_skip t r : ¬ eligible r → total_step t r = t.
Proof.
  unfold eligible, total_step. intros He. destruct (String.eqb_spec (NodeUID r) ""); [done|].
  destruct (Z.eqb_spec (CPURequestCoreMilliseconds r) 0); [done|]. tauto.
Qed.

Lemma exists_snoc (P : NodeNamespaceRequest → Prop) rs r :
  (∃ r', r' ∈ rs ++ [r] ∧ P r') ↔ (∃ r', r' ∈ rs ∧ P r') ∨ P r.
Proof.
  split.
  - intros (r' & [?| ->%list_elem_of_singleton]%elem_of_app & ?); eauto.
  - intros [(r' & ? & ?)|?]; eexists; rewrite elem_of_app, list_elem_of_singleton; eauto.
Qed.

(** Both maps of totals hold the sums of their key's requests, and have exactly
    the keys of eligible requests. *)
Lemma totals_spec rs :
  fits rs →
  (∀ k, at_ (nodeTotals (totals_of rs)) k = ztotal nodeBucketKey rs k) ∧
  (∀ k, at_ (clusterTotals (totals_of rs)) k = ztotal clusterBucketKey rs k) ∧
  (∀ k, k ∈ dom (nodeTotals (totals_of rs)) ↔ ∃ r, r ∈ rs ∧ eligible r ∧ nodeBucketKey r = k) ∧
  (∀ k, k ∈ dom (clusterTotals (totals_of rs)) ↔ ∃ r, r ∈ rs ∧ eligible r ∧ clusterBucketKey r = k).
Proof.
  induction rs as [|r rs IH] using rev_ind; intros Hf.
  { split_and!; try done; intros k; simpl; rewrite dom_empty_L; (split; [by intros ?%elem_of_empty|]);
      by intros (? & ?%not_elem_of_nil & _). }
  destruct (IH (fits_app _ _ Hf)) as (IHn & IHc & IHdn & IHdc). clear IH.
  rewrite totals_snoc. destruct (decide (eligible r)) as [He|He].
  2: { rewrite total_step_skip by done. split_and!; intros k.
       1,2: rewrite ztotal_app; simpl; rewrite decide_False by tauto; rewrite ?IHn, ?IHc; lia.
       all: rewrite ?IHdn, ?IHdc, exists_snoc; tauto. }
  destruct Hf as [Hnn Hsum]. rewrite zsum_app in Hsum. simpl in Hsum. apply Forall_app in Hnn as [Hn1 Hn2].
  rewrite Forall_singleton in Hn2.
  assert (∀ key k, ztotal key (rs ++ [r]) k = ztotal key rs k + (if decide (key r = k) then CPURequestCoreMilliseconds r else 0))%Z as Hsnoc.
  { intros key k. rewrite ztotal_app. simpl. repeat case_decide; lia || tauto. }
  unfold total_step. destruct He as [He1 He2].
  destruct (String.eqb_spec (NodeUID r) ""); [done|].
  destruct (Z.eqb_spec (CPURequestCoreMilliseconds r) 0); [done|]. simpl.
  split_and!; intros k.
  1,2: rewrite Hsnoc; unfold at_; case_decide as Hk; [subst k; rewrite lookup_insert_eq|rewrite lookup_insert_ne by done]; simpl.
  - rewrite <- (IHn (nodeBucketKey r)) in *. rewrite u64_id; [done|].
    pose proof (ztotal_bound nodeBucketKey rs (nodeBucketKey r) Hn1). rewrite <- IHn in *. unfold at_ in *. split; lia.
  - rewrite Z.add_0_r. apply IHn.
  - pose proof (ztotal_bound clusterBucketKey rs (clusterBucketKey r) Hn1). rewrite <- IHc in *. unfold at_ in *.
    rewrite u64_id; [done|]. split; lia.
  - rewrite Z.add_0_r. apply IHc.
  - rewrite dom_insert_L, elem_of_union, elem_of_singleton, IHdn, exists_snoc. unfold eligible. intuition congruence.
  - rewrite dom_insert_L, elem_of_union, elem_of_singleton, IHdc, exists_snoc. unfold eligible. intuition congruence.
Qed.

(** Summing per request and summing per key agree. *)
Lemma qsum_point (g : string → Qc) ks k c :
  NoDup ks → k ∈ ks → qsum (λ k', if decide (k = k') then c * g k' else 0) ks = c * g k.
Proof.
  induction 1 as [|k' ks Hk' _ IH]; simpl; intros Hk; [by apply not_elem_of_nil in Hk|].
  case_decide as Heq.
  - subst k'. rewrite (qsum_ext _ (λ _, 0)); [rewrite qsum_const; ring|].
    intros x Hx. case_decide; [by subst|done].
  - apply elem_of_cons in Hk as [?|Hk]; [done|]. rewrite IH by done. ring.
Qed.
Lemma qsum_by_key (key : NodeNamespaceRequest → string) (g : string → Qc) rs ks :
  NoDup ks → (∀ r, r ∈ rs → eligible r → key r ∈ ks) →
  qsum (λ r, if decide (eligible r) then of_Z (CPURequestCoreMilliseconds r) * g (key r) else 0) rs =
  qsum (λ k, of_Z (ztotal key rs k) * g k) ks.
Proof.
  intros Hnd. induction rs as [|r rs IH]; intros Hin; cbn [qsum ztotal].
  { rewrite (qsum_ext _ (λ _, 0)); [rewrite qsum_const; ring|]. intros k _. rewrite of_Z_0. ring. }
  rewrite IH by (intros r' ?; apply Hin; by right).
  rewrite (qsum_ext (λ k, of_Z (_ + _) * g k)
    (λ k, (if decide (eligible r) then if decide (key r = k) then of_Z (CPURequestCoreMilliseconds r) * g k else 0 else 0)
          + of_Z (ztotal key rs k) * g k)).
  - rewrite qsum_add. f_equal. case_decide as He.
    + rewrite qsum_point; [done|done|]. apply Hin; [left|done].
    + rewrite qsum_const. ring.
  - intros k _. rewrite of_Z_add. repeat case_decide; rewrite ?of_Z_0; (tauto || ring).
Qed.

(** *** The cost held by the map of items *)

Definition cost_at (m : gmap string (NamespaceCost Qc)) (k : string) : Qc := from_option AllocatedCost 0 (m !! k).
Lemma cost_insert m k x ks :
  NoDup ks → k ∈ ks → qsum (cost_at (<[k := x]> m)) ks = qsum (cost_at m) ks + (AllocatedCost x - cost_at m k).
Proof.
  intros Hnd Hk. rewrite (qsum_ext _ (λ k', cost_at m k' + (if decide (k = k') then (AllocatedCost x - cost_at m k) * (λ _, 1) k' else 0))).
  - rewrite qsum_add, (qsum_point (λ _, 1)) by done. ring.
  - intros k' _. unfold cost_at. case_decide; [subst; rewrite lookup_insert_eq|rewrite lookup_insert_ne by done]; simpl; ring.
Qed.
Lemma foldl_dom {A} (f : gmap string (NamespaceCost Qc) → A → gmap string (NamespaceCost Qc)) l m :
  (∀ m x, dom m ⊆ dom (f m x)) → dom m ⊆ dom (foldl f m l).
Proof. intros Hf. revert m. induction l as [|x l IH]; intros m; simpl; [done|]. etrans; [apply Hf|apply IH]. Qed.
Lemma dom_subset_insert (m : gmap string (NamespaceCost Qc)) k x : dom m ⊆ dom (<[k := x]> m).
Proof. rewrite dom_insert_L. apply union_subseteq_r. Qed.

(** A loop whose steps each add a given cost to an item adds up the costs. *)
Lemma foldl_costs {A} (f : gmap string (NamespaceCost Qc) → A → gmap string (NamespaceCost Qc)) (c : A → Qc) ks l m :
  NoDup ks →
  (∀ m x, dom m ⊆ dom (f m x)) →
  (∀ m x, (∀ k, k ∈ dom (f m x) → k ∈ ks) → qsum (cost_at (f m x)) ks = qsum (cost_at m) ks + c x) →
  (∀ k, k ∈ dom (foldl f m l) → k ∈ ks) →
  qsum (cost_at (foldl f m l)) ks = qsum (cost_at m) ks + qsum c l.
Proof.
  intros Hnd Hdom Hstep. revert m. induction l as [|x l IH]; intros m Hks; simpl in *; [ring|].
  rewrite IH by done. rewrite Hstep; [ring|].
  intros k Hk. apply Hks. eapply foldl_dom; [apply Hdom|exact Hk].
Qed.

Lemma request_step_dom o t m r : dom m ⊆ dom (request_step (F := Qc) o t m r).
Proof. unfold request_step. case_match; [apply dom_subset_insert|done]. Qed.
Lemma idle_step_dom o t rs m k : dom m ⊆ dom (idle_step (F := Qc) o t rs m k).
Proof. unfold idle_step. case_match; [done|apply dom_subset_insert]. Qed.
Lemma request_step_cost o t ks m r :
  NoDup ks → (∀ k, k ∈ dom (request_step o t m r) → k ∈ ks) →
  qsum (cost_at (request_step o t m r)) ks =
  qsum (cost_at m) ks + (if counted t r then requestCost o t r else 0).
Proof.
  intros Hnd Hks. unfold request_step in *. destruct (counted t r); [|ring].
  rewrite cost_insert; [|done|apply Hks; rewrite dom_insert_L; set_solver].
  unfold cost_at. destruct (m !! namespaceBucketKey r); cbn [default from_option id charge AllocatedCost newItem];
    change (add ?a ?b) with (a + b); unfold zero; rewrite ?of_Z_0; ring.
Qed.
Definition idle_of (o : AllocationOptions Qc) t k : Qc :=
  if ((denominator t k =? 0) || (denominator t k <=? at_ (nodeTotals t) k))%Z then 0 else idleCostOf o t k.
Lemma idle_step_cost o t rs ks m k :
  NoDup ks → (∀ k', k' ∈ dom (idle_step o t rs m k) → k' ∈ ks) →
  qsum (cost_at (idle_step o t rs m k)) ks = qsum (cost_at m) ks + idle_of o t k.
Proof.
  intros Hnd Hks. unfold idle_step, idle_of in *. destruct (_ || _)%bool; [ring|].
  rewrite cost_insert; [|done|apply Hks; rewrite dom_insert_L; set_solver].
  unfold cost_at. set (key := idleNamespaceBucketKey _).
  destruct (m !! key); cbn [default from_option id add_idle AllocatedCost newItem];
    change (add ?a ?b) with (a + b); unfold zero; rewrite ?of_Z_0; ring.
Qed.

(** The items' cost is the cost charged per request and per idle node. *)
Lemma namespaceCosts_cost rs o nodeOrder ks :
  NoDup ks → (∀ k, k ∈ dom (namespaceCosts rs o nodeOrder) → k ∈ ks) →
  let t := totals_of rs in
  qsum (cost_at (namespaceCosts rs o nodeOrder)) ks =
  qsum (λ r, if counted t r then requestCost o t r else 0) rs + qsum (idle_of o t) nodeOrder.
Proof.
  intros Hnd Hks t. unfold namespaceCosts in *. fold t in Hks |- *.
  rewrite (foldl_costs _ (idle_of o t) ks); [|done|apply idle_step_dom|by intros; apply idle_step_cost|done].
  rewrite (foldl_costs _ (λ r, if counted t r then requestCost o t r else 0) ks);
    [|done|apply request_step_dom|by intros; apply request_step_cost|].
  - rewrite (qsum_ext _ (λ _, 0)) by done. rewrite qsum_const. ring.
  - intros k Hk. apply Hks. eapply foldl_dom; [apply idle_step_dom|exact Hk].
Qed.

(** *** Weights *)

(** A request without a node does not share the bucket of one with a node. *)
Definition named_apart rs : Prop :=
  ∀ r r', r ∈ rs → r' ∈ rs → eligible r' → nodeBucketKey r' = nodeBucketKey r → NodeUID r ≠ ""%string.
Lemma no_total rs k :
  (∀ r, r ∈ rs → eligible r → nodeBucketKey r ≠ k) →
  ztotal nodeBucketKey rs k = 0%Z ∧ at_ (nodeAllocatable (totals_of rs)) k = 0%Z.
Proof.
  induction rs as [|r rs IH] using rev_ind; [done|]. intros Hk.
  destruct IH as [IH1 IH2]; [intros r' Hr'; apply Hk, elem_of_app; by left|].
  assert (eligible r → nodeBucketKey r ≠ k) as Hr by (apply Hk, elem_of_app; right; left).
  rewrite ztotal_app, totals_snoc. simpl. split; [case_decide; [tauto|lia]|].
  destruct (decide (eligible r)) as [He|He]; [|by rewrite total_step_skip].
  unfold total_step. case_match; [done|]. simpl. case_match; [|done]. unfold at_ in *. rewrite lookup_insert_ne; auto.
Qed.
Lemma counted_eligible rs r :
  fits rs → named_apart rs → r ∈ rs →
  counted (totals_of rs) r = bool_decide (eligible r) ∧
  (eligible r → (0 < ztotal nodeBucketKey rs (nodeBucketKey r))%Z ∧ (0 < ztotal clusterBucketKey rs (clusterBucketKey r))%Z).
Proof.
  intros Hf Hu Hr. destruct (totals_spec rs Hf) as (Hn & _).
  assert (∀ key, eligible r → (0 < ztotal key rs (key r))%Z) as Hpos
    by (intros key He; apply ztotal_pos; [apply Hf|eauto]).
  split; [|by intros He; split; apply Hpos].
  unfold counted, denominator, maxUint64. rewrite Hn. destruct (decide (eligible r)) as [He|He].
  - rewrite bool_decide_eq_true_2 by done. pose proof (Hpos nodeBucketKey He). destruct He as [_ He].
    destruct (Z.eqb_spec (CPURequestCoreMilliseconds r) 0); [done|].
    destruct (Z.ltb_spec (at_ (nodeAllocatable (totals_of rs)) (nodeBucketKey r)) (ztotal nodeBucketKey rs (nodeBucketKey r)));
      match goal with |- context [(?a =? 0)%Z] => destruct (Z.eqb_spec a 0); [lia|done] end.
  - rewrite bool_decide_eq_false_2 by done. unfold eligible in He.
    destruct (Z.eqb_spec (CPURequestCoreMilliseconds r) 0); [by rewrite orb_true_r|].
    destruct (no_total rs (nodeBucketKey r)) as [-> ->]; [|done]. intros r' Hr' He' Hk.
    apply He. split; [|done]. by apply (Hu r r').
Qed.
Lemma denominator_ge t k : (at_ (nodeTotals t) k ≤ denominator t k)%Z.
Proof. unfold denominator, maxUint64. case_match; lia. Qed.
Lemma allocatable_u64 rs k : (0 ≤ at_ (nodeAllocatable (totals_of rs)) k < two64)%Z.
Proof.
  induction rs as [|r rs IH] using rev_ind; [done|]. rewrite totals_snoc. unfold total_step.
  case_match; [done|]. simpl. case_match; [|done]. unfold at_ in *.
  destruct (decide (nodeBucketKey r = k)) as [<-|]; [|by rewrite lookup_insert_ne].
  rewrite lookup_insert_eq. simpl. apply u64_range.
Qed.

(** A node's requests and its idle part add up to the node's cost. *)
Lemma node_whole rs (o : AllocationOptions Qc) k :
  fits rs → (0 < ztotal nodeBucketKey rs k)%Z →
  of_Z (ztotal nodeBucketKey rs k) * (NodeHourlyCostUSD o / of_Z (denominator (totals_of rs) k)) + idle_of o (totals_of rs) k
  = NodeHourlyCostUSD o.
Proof.
  intros Hf Hpos. set (t := totals_of rs). destruct (totals_spec rs Hf) as (Hn & _). specialize (Hn k).
  pose proof (denominator_ge t k) as Hge. fold t in Hn. rewrite Hn in Hge.
  assert (denominator t k < two64)%Z as Hd.
  { unfold denominator, maxUint64. rewrite Hn. pose proof (allocatable_u64 rs k).
    pose proof (ztotal_bound nodeBucketKey rs k (proj1 Hf)). pose proof (proj2 Hf). case_match; unfold t in *; lia. }
  assert (of_Z (denominator t k) ≠ (0 : Qc)) as Hne by (apply of_Z_ne; lia).
  unfold idle_of. rewrite Hn. destruct (Z.eqb_spec (denominator t k) 0); [lia|].
  destruct (Z.leb_spec (denominator t k) (ztotal nodeBucketKey rs k)); simpl orb; cbn iota.
  - replace (ztotal nodeBucketKey rs k) with (denominator t k) by lia. field. done.
  - unfold idleCostOf. rewrite Hn, u64_id by (split; lia). unfold Z.sub. rewrite of_Z_add.
    assert (of_Z (- ztotal nodeBucketKey rs k) = - (of_Z (ztotal nodeBucketKey rs k) : Qc)) as ->.
    { pose proof (of_Z_add (ztotal nodeBucketKey rs k) (- ztotal nodeBucketKey rs k)) as Hz.
      rewrite Z.add_opp_diag_r, of_Z_0 in Hz. rewrite <- (Qcplus_0_l (- _)), Hz. ring. }
    cbn [mul div exact]. field. done.
Qed.

Lemma requestCost_split rs (o : AllocationOptions Qc) r :
  fits rs → named_apart rs → r ∈ rs →
  let t := totals_of rs in
  (if counted t r then requestCost o t r else 0) =
  (if decide (eligible r) then of_Z (CPURequestCoreMilliseconds r) * (NodeHourlyCostUSD o / of_Z (denominator t (nodeBucketKey r))) else 0)
  + ((if decide (eligible r) then of_Z (CPURequestCoreMilliseconds r) * (ControlPlaneHourlyCostUSD o / of_Z (ztotal clusterBucketKey rs (clusterBucketKey r))) else 0)
  + (if decide (eligible r) then networkOf o r else 0)).
Proof.
  intros Hf Hu Hr t. destruct (counted_eligible rs r Hf Hu Hr) as [Hc Hpos]. fold t in Hc. rewrite Hc.
  destruct (totals_spec rs Hf) as (_ & Hct & _).
  destruct (decide (eligible r)) as [He|He]; [rewrite bool_decide_eq_true_2 by done|rewrite bool_decide_eq_false_2 by done; ring].
  destruct (Hpos He) as [Hp1 Hp2].
  unfold requestCost, directOf, controlPlaneOf, nodeWeight, controlPlaneWeight. fold t in Hct. rewrite Hct.
  destruct (Z.ltb_spec 0 (ztotal clusterBucketKey rs (clusterBucketKey r))); [|lia].
  cbn [add mul div exact].
  assert (of_Z (denominator t (nodeBucketKey r)) ≠ (0 : Qc)).
  { apply of_Z_ne. pose proof (denominator_ge t (nodeBucketKey r)). destruct (totals_spec rs Hf) as (Hn & _).
    fold t in Hn. rewrite Hn in *. lia. }
  assert (of_Z (ztotal clusterBucketKey rs (clusterBucketKey r)) ≠ (0 : Qc)) by (apply of_Z_ne; lia).
  field. done.
Qed.

Lemma qsum_filter (P : NodeNamespaceRequest → Prop) `{!∀ r, Decision (P r)} (f : NodeNamespaceRequest → Qc) rs :
  qsum (λ r, if decide (P r) then f r else 0) rs = qsum f (filter P rs).
Proof. induction rs as [|r rs IH]; [done|]. rewrite filter_cons. simpl. rewrite IH. case_decide; simpl; ring. Qed.
Lemma qsum_items (m : gmap string (NamespaceCost Qc)) ks :
  (∀ k, k ∈ ks → is_Some (m !! k)) →
  qsum AllocatedCost (stamp <$> omap (λ k, m !! k) ks) = qsum (cost_at m) ks.
Proof.
  induction ks as [|k ks IH]; intros Hks; [done|]. destruct (Hks k ltac:(left)) as [x Hx].
  simpl. rewrite Hx. unfold cost_at at 1. rewrite Hx. csimpl. rewrite IH; [done|].
  intros k' ?. apply Hks. by right.
Qed.

(** C17: read in exact arithmetic (the code computes in doubles and rounds) the
    allocation neither creates nor loses cost, for requests whose sum does not overflow
    an unsigned 64-bit integer and in which none without a node has the bucket key of
    one with a node (the keys are joined with NUL bytes). For any iteration order of
    Go's maps, the allocated costs of all namespaces (idle included) add up to one node
    cost per node bucket that has requests, one control-plane cost per cluster bucket
    that has requests, and the network cost of every request with a node and with CPU;
    the others are not billed. *)
Theorem costs_conserved rs options nodeOrder itemOrder :
  let o := normalizeAllocationOptions options in
  let t := totals_of rs in
  fits rs → named_apart rs →
  nodeOrder ≡ₚ elements (dom (nodeTotals t)) →
  itemOrder ≡ₚ elements (dom (namespaceCosts rs o nodeOrder)) →
  qsum AllocatedCost (allocateCosts rs options nodeOrder itemOrder) =
  NodeHourlyCostUSD o * of_Z (Z.of_nat (size (nodeTotals t)))
  + (ControlPlaneHourlyCostUSD o * of_Z (Z.of_nat (size (clusterTotals t)))
     + qsum (networkOf o) (filter eligible rs)).
Proof.
  intros o t Hf Hu Hno Hio.
  destruct (totals_spec rs Hf) as (Hn & Hct & Hdn & Hdc). fold t in Hn, Hct, Hdn, Hdc.
  unfold allocateCosts. fold o. rewrite (qsum_perm _ _ _ (merge_sort_Permutation _ _)).
  assert (NoDup itemOrder) as Hnd by (rewrite Hio; apply NoDup_elements).
  rewrite qsum_items by (intros k; rewrite Hio, elem_of_elements; apply elem_of_dom).
  rewrite namespaceCosts_cost; [|done|intros k; by rewrite Hio, elem_of_elements]. cbv zeta.
  rewrite (qsum_ext _ _ rs (λ r Hr, requestCost_split rs o r Hf Hu Hr)). fold t. rewrite !qsum_add.
  assert (NoDup nodeOrder) as Hnn by (rewrite Hno; apply NoDup_elements).
  set (clusterOrder := elements (dom (clusterTotals t))).
  rewrite (qsum_by_key nodeBucketKey (λ k, NodeHourlyCostUSD o / of_Z (denominator t k)) rs nodeOrder);
    [|done|intros r Hr He; rewrite Hno, elem_of_elements, Hdn; eauto].
  rewrite (qsum_by_key clusterBucketKey (λ k, ControlPlaneHourlyCostUSD o / of_Z (ztotal clusterBucketKey rs k)) rs clusterOrder);
    [|apply NoDup_elements|intros r Hr He; unfold clusterOrder; rewrite elem_of_elements, Hdc; eauto].
  pose proof (λ key k, ztotal_pos key rs k (proj1 Hf)) as Hpos.
  rewrite (qsum_filter eligible).
  rewrite (qsum_ext (λ k, of_Z (ztotal clusterBucketKey rs k) * _) (λ _, ControlPlaneHourlyCostUSD o) clusterOrder).
  2: { intros k Hk. unfold clusterOrder in Hk. rewrite elem_of_elements, Hdc in Hk. apply Hpos in Hk.
       assert (of_Z (ztotal clusterBucketKey rs k) ≠ (0 : Qc)) by (apply of_Z_ne; lia). field. done. }
  assert (∀ a b c d : Qc, a + (b + c) + d = (a + d) + (b + c)) as Hsh by (intros; ring).
  rewrite Hsh, <- qsum_add.
  rewrite (qsum_ext _ (λ _, NodeHourlyCostUSD o) nodeOrder).
  2: { intros k Hk. rewrite Hno, elem_of_elements, Hdn in Hk. apply Hpos in Hk. by apply node_whole. }
  rewrite !qsum_const. unfold clusterOrder. rewrite Hno.
  change (length (elements (dom (nodeTotals t)))) with (size (dom (nodeTotals t))).
  change (length (elements (dom (clusterTotals t)))) with (size (dom (clusterTotals t))).
  by rewrite !size_dom.
Qed.
End exact_sums.

(** *** Concrete inputs *)
Definition sample_request (node ns : string) (cpu bytes : Z) : NodeNamespaceRequest :=
  {| TenantID := "t"; ClusterID := "c"; NodeUID := node; NamespaceUID := ns; NamespaceName := ns;
     BucketStart := unix_epoch; CPURequestCoreMilliseconds := cpu; NetworkBytes := bytes;
     NodeAllocatableMillicores := 4000 |}.
(** A node of 4 cores with two namespaces that request 3 and one core for half
    an hour, and a node whose requests exceed its allocatable CPU. *)
Definition sample_requests : list NodeNamespaceRequest :=
  [sample_request "n1" "shop" 5400000 1073741824; sample_request "n1" "kube-system" 1800000 0;
   sample_request "n2" "shop" 16000000 0].
Definition sample_options {F} `{Arith F} : AllocationOptions F :=
  {| NodeHourlyCostUSD := of_Z 2; ControlPlaneHourlyCostUSD := of_Z 1; NetworkCostPerGiBUSD := of_Z 3 |}.
Definition sample_nodes : list string := elements (dom (nodeTotals (totals_of sample_requests))).
Definition sample_items {F} `{Arith F} : list string :=
  elements (dom (namespaceCosts sample_requests (normalizeAllocationOptions sample_options) sample_nodes)).

(** In double precision: the shop pays 0.75 + 2 for nodes, 3 for network and its
    share of the control plane; idle is the other half of the first node. *)
Example sample_float :
  (λ c, (C_NamespaceUID c, AllocatedCost c)) <$>
    allocateCosts (H := binary64) sample_requests sample_options sample_nodes sample_items =
  [("__idle__"%string, of_Z 1);
   ("kube-system"%string, add (div (of_Z 1) (of_Z 4)) (div (of_Z 9) (of_Z 116)));
   ("shop"%string, add (add (add (div (of_Z 3) (of_Z 4)) (of_Z 3)) (div (of_Z 27) (of_Z 116)))
                       (add (of_Z 2) (div (of_Z 80) (of_Z 116))))].
Proof. vm_compute. reflexivity. Qed.

Lemma costs_conserved_witness :
  qsum AllocatedCost (allocateCosts (H := exact) sample_requests sample_options sample_nodes sample_items) =
  (of_Z 2 * of_Z 2 + (of_Z 1 * of_Z 1 + of_Z 3))%Qc.
Proof.
  rewrite (costs_conserved sample_requests sample_options sample_nodes sample_items).
  - vm_compute. apply Qc_is_canon. reflexivity.
  - split; [by repeat constructor|reflexivity].
  - intros r r' Hr _ _ _. assert (Forall (λ r, NodeUID r ≠ ""%string) sample_requests) as Hall by (by repeat constructor).
    rewrite Forall_forall in Hall. by apply Hall.
  - reflexivity.
  - reflexivity.
Defined.

(** ** Query windows *)

(** An accepted query names a tenant and covers at least one hour between two
    whole hours, the hour before the current one by default; accepting it once
    more changes nothing. *)
Lemma query_window q now q' :
  normalizeQuery q now = Ok q' →
  Q_TenantID q' ≠ ""%string ∧ Q_TenantID q' = TrimSpace (Q_TenantID q) ∧
  Q_Start q' mod Hour = 0 ∧ Q_End q' mod Hour = 0 ∧ Q_Start q' + Hour ≤ Q_End q' ∧
  normalizeQuery q' now = Ok q'.
Proof.
  unfold normalizeQuery. destruct (String.eqb_spec (TrimSpace (Q_TenantID q)) ""); [done|].
  set (end_ := if IsZero (Q_End q) then Truncate now Hour else Q_End q).
  set (start := if IsZero (Q_Start q) then end_ - Hour else Q_Start q).
  destruct (Z.ltb_spec start end_) as [Hlt|]; [|done]. cbn [negb].
  destruct (Z.eqb_spec start (Truncate start Hour)) as [Hs|]; [|done].
  destruct (Z.eqb_spec end_ (Truncate end_ Hour)) as [He|]; [|done]. cbn [negb orb].
  intros [= <-]. simpl. rewrite !StringFacts.TrimSpace_idemp.
  assert (start mod Hour = 0 ∧ end_ mod Hour = 0) as [Hs0 He0].
  { unfold Truncate in Hs, He. change (Hour <=? 0) with false in *. cbn iota in *. lia. }
  split_and!; try done.
  - apply Z.mod_divide in Hs0 as [a ->], He0 as [b ->]; [|done..]. change Hour with 3600000000000 in *. nia.
  - destruct (String.eqb_spec (TrimSpace (Q_TenantID q)) ""); [done|].
    assert ((if IsZero end_ then Truncate now Hour else end_) = end_) as ->.
    { unfold IsZero in *. destruct (Z.eqb_spec end_ 0) as [H0|]; [|done]. unfold end_ in H0 |- *.
      destruct (Z.eqb_spec (Q_End q) 0); [done|congruence]. }
    assert ((if IsZero start then end_ - Hour else start) = start) as ->.
    { unfold IsZero in *. destruct (Z.eqb_spec start 0) as [H0|]; [|done]. unfold start in H0 |- *.
      destruct (Z.eqb_spec (Q_Start q) 0); [done|congruence]. }
    destruct (Z.ltb_spec start end_); [|lia]. cbn [negb].
    destruct (Z.eqb_spec start (Truncate start Hour)); [|done].
    by destruct (Z.eqb_spec end_ (Truncate end_ Hour)).
Qed.
Lemma query_window_witness :
  let q := {| Q_TenantID := " t "; Q_ClusterID := ""; Q_Start := 0; Q_End := 0 |} in
  ∃ q', normalizeQuery q (unix_epoch + 90 * Minute) = Ok q' ∧ Q_Start q' mod Hour = 0.
Proof.
  eexists. split; [vm_compute; reflexivity|].
  eapply (query_window {| Q_TenantID := " t "; Q_ClusterID := ""; Q_Start := 0; Q_End := 0 |}
    (unix_epoch + 90 * Minute)). vm_compute. reflexivity.
Defined.

End Allocation.
