(* ===== verification/Http.v ===== *)
(** * HTTP requests between the gateway and the services

    The parts of [net/http], [net/url] and [httputil] the services use, the
    signed requests of [internal/gatewayauth], and the check every service
    behind the gateway makes on the requests it receives ([trustedGateway] and
    [authenticatedTenant], which each service declares with the same body). *)
From stdpp Require Import base option list gmap strings pretty.
From Stdlib Require Import ZArith Lia Ascii String.
From S2P Require Import Prelude Crypto Proto Stores.

(** ** Headers, requests and responses *)

Module Http.
Import Strings.

Definition upper_byte (c : ascii) : ascii :=
  let z := Z_of_byte c in if (97 <=? z) && (z <=? 122) then byte_of (z - 32) else c.
Definition lower_byte (c : ascii) : ascii :=
  let z := Z_of_byte c in if (65 <=? z) && (z <=? 90) then byte_of (z + 32) else c.
Definition token_byte (c : ascii) : bool :=
  Auth.alphanumeric (Z_of_byte c)
  || bool_decide (c ∈ ["!"; "#"; "$"; "%"; "&"; "'"; "*"; "+"; "-"; "."; "^"; "_"; "`"; "|"; "~"]%char).
Fixpoint canonical (upper : bool) (s : string) : string :=
  match s with
  | EmptyString => EmptyString
  | String c s' =>
      String (if upper then upper_byte c else lower_byte c) (canonical (Ascii.eqb c "-") s')
  end.
(** [http.CanonicalHeaderKey] *)
Definition CanonicalHeaderKey (s : string) : string :=
  if forallb token_byte (list_ascii_of_string s) then canonical true s else s.

(** [http.Header]: the values per canonical key *)
Abbreviation header := (gmap string (list string)).
Definition Get (h : header) (key : string) : string :=
  match h !! CanonicalHeaderKey key with Some (v :: _) => v | _ => EmptyString end.
Definition Set_ (h : header) (key value : string) : header := <[CanonicalHeaderKey key := [value]]> h.
Definition Del (h : header) (key : string) : header := delete (CanonicalHeaderKey key) h.

(** [http.Request]; [PathValues] holds the wildcards the serve mux matched. *)
Record Request := {
  Method : string;
  Url : Auth.URL;
  RawQuery : string;
  ReqHost : string;
  Header : header;
  PathValues : gmap string string
}.
Definition with_header (r : Request) (h : header) : Request :=
  {| Method := Method r; Url := Url r; RawQuery := RawQuery r; ReqHost := ReqHost r; Header := h; PathValues := PathValues r |}.
Definition with_url (r : Request) (u : Auth.URL) : Request :=
  {| Method := Method r; Url := u; RawQuery := RawQuery r; ReqHost := ReqHost r; Header := Header r; PathValues := PathValues r |}.
Definition PathValue (r : Request) (name : string) : string := default EmptyString (PathValues r !! name).

(** [url.QueryUnescape] and [url.Values.Get] on a parsed query: segments with a
    semicolon or an invalid escape are dropped. *)
Fixpoint plus_to_space (s : string) : string :=
  match s with
  | EmptyString => EmptyString
  | String c s' => String (if Ascii.eqb c "+" then " "%char else c) (plus_to_space s')
  end.
Definition QueryUnescape (s : string) : option string := Auth.PathUnescape (plus_to_space s).
Definition query_pair (segment : string) : option (string * string) :=
  if Contains segment ";" || (segment =? "")%string then None
  else let '(k, v, _) := Cut segment "=" in
       match QueryUnescape k, QueryUnescape v with Some k', Some v' => Some (k', v') | _, _ => None end.
Definition ParseQuery (raw : string) : list (string * string) := omap query_pair (Split raw "&").
Fixpoint values_get (vs : list (string * string)) (key : string) : string :=
  match vs with
  | [] => EmptyString
  | (k, v) :: vs' => if (k =? key)%string then v else values_get vs' key
  end.
Definition QueryGet (r : Request) (key : string) : string := values_get (ParseQuery (RawQuery r)) key.

(** What a JSON decoder makes of a request body. *)
Inductive body (T : Type) :=
| NoBody
| EmptyBody
| MalformedBody
| JSONBody (value : T).
Arguments NoBody {T}.
Arguments EmptyBody {T}.
Arguments MalformedBody {T}.
Arguments JSONBody {T} value.

Definition StatusOK := 200.
Definition StatusCreated := 201.
Definition StatusAccepted := 202.
Definition StatusNoContent := 204.
Definition StatusBadRequest := 400.
Definition StatusUnauthorized := 401.
Definition StatusForbidden := 403.
Definition StatusNotFound := 404.
Definition StatusConflict := 409.
Definition StatusInternalServerError := 500.
Definition StatusServiceUnavailable := 503.
Definition StatusText (status : Z) : string :=
  match status with
  | 200 => "OK" | 201 => "Created" | 202 => "Accepted" | 204 => "No Content"
  | 400 => "Bad Request" | 401 => "Unauthorized" | 403 => "Forbidden" | 404 => "Not Found"
  | 409 => "Conflict" | 500 => "Internal Server Error" | 503 => "Service Unavailable"
  | _ => ""
  end.
Record problem := {
  problem_type : string; problem_title : string; problem_status : Z; problem_code : string; problem_detail : string }.
Inductive response (T : Type) :=
| JSON (status : Z) (value : T)
| Problem (p : problem).
Arguments JSON {T} status value.
Arguments Problem {T} p.

Definition writeJSON {T} (status : Z) (value : T) : response T := JSON status value.
Definition problem_of (status : Z) (code detail : string) : problem :=
  {| problem_type := "https://kube-cost.dev/problems/" +:+ code; problem_title := StatusText status;
     problem_status := status; problem_code := code; problem_detail := detail |}.
Definition writeProblem {T} (status : Z) (code detail : string) : response T := Problem (problem_of status code detail).

(** *** [httputil.NewSingleHostReverseProxy] and the wire *)

(** [textproto.TrimString] *)
Definition ascii_spaces : list (list ascii) := enc <$> [[32]; [9]; [10]; [13]].
Definition TrimString (s : string) : string :=
  let l := list_ascii_of_string s in
  let l1 := trim_left ascii_spaces (List.length l) l in
  string_of_list_ascii (reverse (trim_left (reverse <$> ascii_spaces) (List.length l1) (reverse l1))).

Definition hopHeaders : list string :=
  ["Connection"; "Proxy-Connection"; "Keep-Alive"; "Proxy-Authenticate"; "Proxy-Authorization"; "Te";
   "Trailer"; "Transfer-Encoding"; "Upgrade"]%string.
(** The options of the [Connection] header *)
Definition connection_options (h : header) : list string :=
  filter (λ o, o ≠ EmptyString)
    (mjoin ((λ f, TrimString <$> Split f ",") <$> default [] (h !! "Connection"%string))).
Definition removeHopByHopHeaders (h : header) : header :=
  foldl Del (foldl Del h (connection_options h)) hopHeaders.

Definition HasSuffix (s p : string) : bool :=
  let n := (String.length s - String.length p)%nat in
  (String.length p <=? String.length s)%nat && (String.substring n (String.length p) s =? p)%string.
Definition tail (s : string) : string := match s with EmptyString => EmptyString | String _ s' => s' end.
Definition singleJoiningSlash (a b : string) : string :=
  if HasSuffix a "/" && HasPrefix b "/" then a +:+ tail b
  else if negb (HasSuffix a "/") && negb (HasPrefix b "/") then a +:+ "/" +:+ b
  else a +:+ b.
Definition joinURLPath (a b : Auth.URL) : string * string :=
  if (Auth.RawPath a =? "")%string && (Auth.RawPath b =? "")%string
  then (singleJoiningSlash (Auth.Path a) (Auth.Path b), EmptyString)
  else
    let apath := Auth.EscapedPath a in
    let bpath := Auth.EscapedPath b in
    if HasSuffix apath "/" && HasPrefix bpath "/" then (Auth.Path a +:+ tail (Auth.Path b), apath +:+ tail bpath)
    else if negb (HasSuffix apath "/") && negb (HasPrefix bpath "/")
         then (Auth.Path a +:+ "/" +:+ Auth.Path b, apath +:+ "/" +:+ bpath)
    else (Auth.Path a +:+ Auth.Path b, apath +:+ bpath).
(** [url.URL.setPath], as a server parses the path of a request line *)
Definition setPath (scheme host p : string) : option Auth.URL :=
  match Auth.PathUnescape p with
  | Some path =>
      Some {| Auth.Scheme := scheme; Auth.Host := host; Auth.Path := path;
              Auth.RawPath := if (p =? Auth.escape Auth.should_escape_path path)%string then EmptyString else p |}
  | None => None
  end.

(** The request a backend at [target] (without a query of its own) receives for
    a proxied request: the director's URL and host, hop-by-hop headers removed,
    and header values trimmed by the transport. [X-Forwarded-For] and the
    headers of protocol upgrades, which no service reads, are left out. *)
Definition ReverseProxy (target : Auth.URL) (r : Request) : option Request :=
  let '(path, rawpath) := joinURLPath target (Url r) in
  let out := {| Auth.Scheme := Auth.Scheme target; Auth.Host := Auth.Host target; Auth.Path := path; Auth.RawPath := rawpath |} in
  match setPath EmptyString EmptyString (Auth.EscapedPath out) with
  | Some u =>
      Some {| Method := Method r; Url := u; RawQuery := RawQuery r; ReqHost := Auth.Host target;
              Header := (λ vs : list string, TrimString <$> vs) <$> removeHopByHopHeaders (Header r); PathValues := ∅ |}
  | None => None
  end.

(** *** Facts *)
Section headers.
Implicit Types (h : header) (key : string).
Lemma Get_Set_eq h key v : Get (Set_ h key v) key = v.
Proof. unfold Get, Set_. by rewrite lookup_insert_eq. Qed.
Lemma Get_Set_ne h key key' v :
  CanonicalHeaderKey key ≠ CanonicalHeaderKey key' → Get (Set_ h key v) key' = Get h key'.
Proof. intros Hne. unfold Get, Set_. by rewrite lookup_insert_ne. Qed.
Lemma Get_Del_eq h key : Get (Del h key) key = EmptyString.
Proof. unfold Get, Del. by rewrite lookup_delete_eq. Qed.
Lemma Get_Del_ne h key key' :
  CanonicalHeaderKey key ≠ CanonicalHeaderKey key' → Get (Del h key) key' = Get h key'.
Proof. intros Hne. unfold Get, Del. by rewrite lookup_delete_ne. Qed.
Lemma Get_Dels h keys key :
  Forall (λ k, CanonicalHeaderKey k ≠ CanonicalHeaderKey key) keys → Get (foldl Del h keys) key = Get h key.
Proof.
  intros Hks. revert h. induction Hks as [|k ks Hk _ IH]; intros h; [done|].
  simpl. rewrite IH. by apply Get_Del_ne.
Qed.
Lemma TrimString_nil : TrimString EmptyString = EmptyString.
Proof. reflexivity. Qed.
Lemma Get_trimmed h key : Get ((λ vs : list string, TrimString <$> vs) <$> h) key = TrimString (Get h key).
Proof. unfold Get. rewrite lookup_fmap. by destruct (h !! _) as [[|v vs]|]. Qed.
(** Hop-by-hop removal keeps a header that is neither hop-by-hop nor listed as a
    connection option. *)
Lemma Get_removeHopByHop h key :
  Forall (λ k, CanonicalHeaderKey k ≠ CanonicalHeaderKey key) (connection_options h) →
  Forall (λ k, CanonicalHeaderKey k ≠ CanonicalHeaderKey key) hopHeaders →
  Get (removeHopByHopHeaders h) key = Get h key.
Proof. intros. unfold removeHopByHopHeaders. by rewrite !Get_Dels. Qed.
End headers.

Lemma strip_one_subset small big l :
  Forall (λ e, e ∈ big) small → strip_one big l = None → strip_one small l = None.
Proof.
  intros Hs Hb. induction Hs as [|e small He _ IH]; [done|]. simpl. rewrite IH.
  assert (strip_prefix e l = None) as ->; [|done].
  induction big as [|f big IHb]; [by apply elem_of_nil in He|]. simpl in Hb.
  destruct (strip_prefix f l) eqn:Hf; [done|]. apply elem_of_cons in He as [->|He]; auto.
Qed.
Lemma list_trimmed s : TrimSpace s = s → trim_list (list_ascii_of_string s) = list_ascii_of_string s.
Proof.
  intros Hs. rewrite <- Hs at 2. unfold TrimSpace. by rewrite list_ascii_of_string_of_list_ascii.
Qed.
(** A string without surrounding Unicode space has no surrounding ASCII space. *)
Lemma TrimString_trimmed s : TrimSpace s = s → TrimString s = s.
Proof.
  intros Hs%list_trimmed. unfold TrimString. set (l := list_ascii_of_string s) in *.
  unfold trim_list in Hs. set (l1 := trim_left space_encodings (List.length l) l) in Hs.
  destruct (StringFacts.trim_left_stuck space_encodings (List.length l) l StringFacts.space_encodings_ne) as [Hl [p Hp]]; [done|].
  fold l1 in Hl, Hp.
  destruct (StringFacts.trim_left_stuck (reverse <$> space_encodings) (List.length l1) (reverse l1)
    StringFacts.space_encodings_rev_ne) as [Hr [q Hq]]; [by rewrite length_reverse|].
  set (r := trim_left (reverse <$> space_encodings) (List.length l1) (reverse l1)) in *.
  assert (List.length l1 ≤ List.length l)%nat by (apply (f_equal List.length) in Hp; rewrite length_app in Hp; lia).
  assert (List.length r = List.length l) as Hlen by (apply (f_equal List.length) in Hs; by rewrite length_reverse in Hs).
  assert (List.length q + List.length r = List.length l1)%nat as Hq' by (rewrite <- length_app, <- Hq; apply length_reverse).
  assert (p = []) as -> by (destruct p; [done|]; apply (f_equal List.length) in Hp; simpl in Hp; rewrite length_app in Hp; lia).
  simpl in Hp.
  rewrite (StringFacts.trim_left_id ascii_spaces (List.length l) l).
  2: { assert (strip_one space_encodings l = None) as Hl' by congruence.
       apply (strip_one_subset _ space_encodings); [|exact Hl']. vm_compute. repeat constructor; set_solver. }
  rewrite StringFacts.trim_left_id.
  - rewrite reverse_involutive. apply string_of_list_ascii_of_string.
  - apply (strip_one_subset _ (reverse <$> space_encodings)); [vm_compute; repeat constructor; set_solver|].
    rewrite <- Hs, reverse_involutive. done.
Qed.

(** *** Escaped paths *)
Lemma path_escape_bytes c :
  Auth.valid_byte (Auth.upper_hex (Z_of_byte c / 16)) && Auth.valid_byte (Auth.upper_hex (Z_of_byte c mod 16))
  && (Auth.should_escape_path c || Auth.valid_byte c) = true.
Proof. revert c. apply Auth.byte_cases. vm_compute. reflexivity. Qed.
Lemma escape_valid s : Auth.valid_encoded (Auth.escape Auth.should_escape_path s) = true.
Proof.
  induction s as [|c s IH]; [done|]. simpl. pose proof (path_escape_bytes c) as Hc.
  apply andb_true_iff in Hc as [[H1 H2]%andb_true_iff H3].
  destruct (Auth.should_escape_path c); cbn [Auth.valid_encoded orb] in *; rewrite IH, ?H1, ?H2, ?H3; reflexivity.
Qed.
Lemma unescape_path s : Auth.PathUnescape (Auth.escape Auth.should_escape_path s) = Some s.
Proof.
  pose proof (Auth.unescape_escape Auth.should_escape_path s "" eq_refl) as H.
  rewrite StringFacts.string_app_nil_r in H. rewrite H. simpl. by rewrite StringFacts.string_app_nil_r.
Qed.
(** [EscapedPath] is a valid encoding of the path. *)
Lemma EscapedPath_spec u :
  Auth.valid_encoded (Auth.EscapedPath u) = true ∧ Auth.PathUnescape (Auth.EscapedPath u) = Some (Auth.Path u).
Proof.
  assert (∀ s, s = (if (Auth.Path u =? "*")%string then "*"%string else Auth.escape Auth.should_escape_path (Auth.Path u)) →
    Auth.valid_encoded s = true ∧ Auth.PathUnescape s = Some (Auth.Path u)) as Hfb.
  { intros s ->. destruct (String.eqb_spec (Auth.Path u) "*") as [->|]; [done|].
    split; [apply escape_valid|apply unescape_path]. }
  unfold Auth.EscapedPath. destruct (_ && _) eqn:Hraw; [|by apply Hfb].
  destruct (Auth.PathUnescape (Auth.RawPath u)) as [q|] eqn:Hq; [|by apply Hfb].
  destruct (String.eqb_spec q (Auth.Path u)) as [->|]; [|by apply Hfb]. to_prop. done.
Qed.
Lemma EscapedPath_raw u :
  Auth.RawPath u ≠ EmptyString → Auth.valid_encoded (Auth.RawPath u) = true →
  Auth.PathUnescape (Auth.RawPath u) = Some (Auth.Path u) → Auth.EscapedPath u = Auth.RawPath u.
Proof.
  intros Hne Hv Hu. unfold Auth.EscapedPath. rewrite Hv, Hu, String.eqb_refl.
  by destruct (String.eqb_spec (Auth.RawPath u) "").
Qed.
Definition rooted (p : string) : bool := HasPrefix p "/".
Lemma rooted_cons p : rooted p = true → ∃ q, p = String "/" q.
Proof.
  unfold rooted, HasPrefix. destruct p as [|c p]; [done|]. cbn [String.prefix].
  destruct (ascii_dec "/" c) as [<-|]; [eauto|done].
Qed.
Lemma rooted_unescape p q : rooted p = true → Auth.PathUnescape p = Some q → rooted q = true.
Proof.
  intros (p' & ->)%rooted_cons. simpl. destruct (Auth.PathUnescape p'); [|done]. intros [= <-].
  by destruct s.
Qed.
(** A server that parses a rooted, valid path of a request line sees that path. *)
Lemma setPath_EscapedPath scheme host p q :
  rooted p = true → Auth.valid_encoded p = true → Auth.PathUnescape p = Some q →
  ∃ u, setPath scheme host p = Some u ∧ Auth.Path u = q ∧ Auth.EscapedPath u = p.
Proof.
  intros Hr Hv Hu. unfold setPath. rewrite Hu. eexists. split; [done|]. split; [done|].
  destruct (String.eqb_spec p (Auth.escape Auth.should_escape_path q)) as [->|Hne].
  - unfold Auth.EscapedPath. simpl. destruct (String.eqb_spec q "*") as [->|]; [|done]. by apply rooted_cons in Hr as [? ?].
  - apply EscapedPath_raw; simpl; [|done|done]. by apply rooted_cons in Hr as [? ->].
Qed.

(** A target that is a bare host: no path, query or fragment of its own. *)
Definition bare_target (target : Auth.URL) : Prop :=
  (Auth.Path target = EmptyString ∨ Auth.Path target = "/"%string) ∧ Auth.RawPath target = EmptyString.
Lemma EscapedPath_eq u v :
  Auth.Path u = Auth.Path v → Auth.RawPath u = Auth.RawPath v → Auth.EscapedPath u = Auth.EscapedPath v.
Proof. unfold Auth.EscapedPath. by intros -> ->. Qed.
(** Joining a bare target and a rooted request path keeps the escaped path. *)
Lemma joinURLPath_bare target u :
  bare_target target → rooted (Auth.EscapedPath u) = true →
  let '(p, raw) := joinURLPath target u in
  ∀ scheme host, Auth.EscapedPath {| Auth.Scheme := scheme; Auth.Host := host; Auth.Path := p; Auth.RawPath := raw |}
                 = Auth.EscapedPath u.
Proof.
  intros [Hp Hraw] Hr. destruct (EscapedPath_spec u) as [Hv Hu].
  pose proof (rooted_unescape _ _ Hr Hu) as Hpath. unfold joinURLPath. rewrite Hraw. simpl.
  assert (∀ a b, (a = EmptyString ∨ a = "/"%string) → rooted b = true → singleJoiningSlash a b = b) as Hjoin.
  { intros a b [->| ->] (b' & ->)%rooted_cons; unfold singleJoiningSlash, HasPrefix; simpl; by destruct b'. }
  destruct (String.eqb_spec (Auth.RawPath u) "") as [H0|Hne].
  - intros scheme host. apply EscapedPath_eq; simpl; [by apply Hjoin|done].
  - assert (Auth.EscapedPath target = Auth.Path target) as Ht.
    { unfold Auth.EscapedPath. rewrite Hraw. simpl. destruct Hp as [-> | ->]; reflexivity. }
    rewrite Ht. pose proof (Hjoin _ _ Hp Hr) as J1. pose proof (Hjoin _ _ Hp Hpath) as J2.
    unfold singleJoiningSlash in J1, J2. unfold rooted in Hr, Hpath. rewrite Hr in *. rewrite Hpath in *.
    rewrite !andb_true_r, !andb_false_r in *.
    destruct (HasSuffix (Auth.Path target) "/"); intros scheme host; rewrite J1, J2;
      (apply (EscapedPath_raw (Auth.Build_URL scheme host (Auth.Path u) (Auth.EscapedPath u))); simpl;
        [by apply rooted_cons in Hr as [? ->]|done|done]).
Qed.
(** What a backend at a bare target receives of a proxied request. *)
Lemma ReverseProxy_received target r :
  bare_target target → rooted (Auth.EscapedPath (Url r)) = true →
  ∃ r', ReverseProxy target r = Some r' ∧ Method r' = Method r ∧ RawQuery r' = RawQuery r ∧
        Auth.EscapedPath (Url r') = Auth.EscapedPath (Url r) ∧ Auth.Path (Url r') = Auth.Path (Url r) ∧
        Header r' = (λ vs : list string, TrimString <$> vs) <$> removeHopByHopHeaders (Header r).
Proof.
  intros Ht Hr. destruct (EscapedPath_spec (Url r)) as [Hv Hu].
  pose proof (joinURLPath_bare target (Url r) Ht Hr) as Hj. unfold ReverseProxy.
  destruct (joinURLPath target (Url r)) as [p raw]. rewrite Hj.
  destruct (setPath_EscapedPath "" "" _ _ Hr Hv Hu) as (u & -> & Hq & He). eexists. split; [done|]. done.
Qed.
End Http.

(** ** Signed gateway requests *)

Module Gatewayauth.
Import Strings Http.

(** [time.Unix(seconds, 0)], whose [int64] seconds wrap, and [Time.Sub], which
    saturates at the ends of [Duration]. *)
Definition time_Unix (seconds : Z) : Time := i64 (seconds + 62135596800) * Second.
Definition Sub (t u : Time) : Duration :=
  if t - u <? - two63 then - two63 else if two63 <=? t - u then two63 - 1 else t - u.

Definition TenantHeader : string := "X-Kube-Cost-Tenant-ID".
Definition IdentityHeader : string := "X-Kube-Cost-Gateway-Identity".
Definition TimestampHeader : string := "X-Kube-Cost-Gateway-Timestamp".
Definition SignatureHeader : string := "X-Kube-Cost-Gateway-Signature".
Definition ErrMissingSignature : string := "gateway signature is required".
Definition ErrInvalidTimestamp : string := "gateway signature timestamp is invalid".
Definition ErrExpiredSignature : string := "gateway signature timestamp is outside allowed skew".
Definition ErrInvalidSignature : string := "gateway signature is invalid".

(** The bytes [signature] writes to the MAC *)
Definition message (r : Request) (identity timestamp : string) : string :=
  Method r +:+ newline +:+ Auth.EscapedPath (Url r) +:+ newline +:+ RawQuery r +:+ newline
  +:+ Get (Header r) TenantHeader +:+ newline +:+ identity +:+ newline +:+ timestamp.
Definition signature (r : Request) (identity timestamp key : string) : string :=
  base64_rawurl (hmac_sha256 key (message r identity timestamp)).

Definition SignRequest (r : Request) (identity key : string) (now : Time) : Request :=
  let key := TrimSpace key in
  if (key =? "")%string then r
  else
    let identity := TrimSpace identity in
    let identity := if (identity =? "")%string then "gateway"%string else identity in
    let timestamp := dec (Unix now) in
    let r := with_header r (Set_ (Header r) IdentityHeader identity) in
    let r := with_header r (Set_ (Header r) TimestampHeader timestamp) in
    with_header r (Set_ (Header r) SignatureHeader (signature r identity timestamp key)).

(** [None] is the nil error. *)
Definition VerifyRequest (r : Request) (key : string) (now : Time) (maxSkew : Duration) : option string :=
  let key := TrimSpace key in
  if (key =? "")%string then None
  else
    let identity := TrimSpace (Get (Header r) IdentityHeader) in
    let timestamp := TrimSpace (Get (Header r) TimestampHeader) in
    let actual := TrimSpace (Get (Header r) SignatureHeader) in
    if (identity =? "")%string || (timestamp =? "")%string || (actual =? "")%string then Some ErrMissingSignature
    else match Strconv.ParseInt timestamp with
         | None => Some ErrInvalidTimestamp
         | Some seconds =>
             let signedAt := time_Unix seconds in
             if (0 <? maxSkew) && ((maxSkew <? Sub now signedAt) || (maxSkew <? Sub signedAt now))
             then Some ErrExpiredSignature
             else if negb (actual =? signature r identity timestamp key)%string then Some ErrInvalidSignature
             else None
         end.

(** *** The check of a service behind the gateway *)

Definition gatewaySecretHeader : string := "X-Kube-Cost-Gateway-Secret".
Definition principalHeader : string := "X-Kube-Cost-Principal-ID".
Definition maxSkew : Duration := 5 * Minute.

Section service.
Context (Getenv : string → string).
Definition trustedGateway (now : Time) (r : Request) : option problem :=
  let expected := TrimSpace (Getenv "TRUSTED_GATEWAY_SECRET"%string) in
  if negb (expected =? "")%string && negb (Get (Header r) gatewaySecretHeader =? expected)%string
  then Some (problem_of StatusForbidden "forbidden" (gatewaySecretHeader +:+ " is required"))
  else
    let signingKey := TrimSpace (Getenv "TRUSTED_GATEWAY_SIGNING_KEY"%string) in
    match VerifyRequest r signingKey now maxSkew with
    | Some err => Some (problem_of StatusForbidden "forbidden" err)
    | None => None
    end.
Definition authenticatedTenant (now : Time) (r : Request) : res problem string :=
  match trustedGateway now r with
  | Some p => Err p
  | None =>
      let tenantID := TrimSpace (Get (Header r) TenantHeader) in
      if (tenantID =? "")%string
      then Err (problem_of StatusUnauthorized "unauthenticated" (TenantHeader +:+ " is required"))
      else Ok tenantID
  end.
End service.

(** *** Signing and verifying *)

(** Clocks show a time between the years 1 and 10000. *)
Definition clock (t : Time) : Prop := 0 ≤ t < 10000 * 366 * 24 * Hour.
(** [now] is at most [skew] away from the whole second at which a request was signed. *)
Definition within (skew : Duration) (signed now : Time) : Prop :=
  now - Truncate signed Second ≤ skew ∧ Truncate signed Second - now ≤ skew.

Lemma signing_time t : clock t → is_i64 (Unix t) ∧ time_Unix (Unix t) = Truncate t Second.
Proof.
  intros [Hlo Hhi]. unfold Unix, time_Unix, Truncate, is_i64, unix_epoch. change (Second <=? 0) with false. cbn iota.
  replace ((t - 62135596800 * Second) / Second) with (t / Second - 62135596800)
    by (replace (t - 62135596800 * Second) with (t + - 62135596800 * Second) by ring;
        rewrite Z.div_add; [lia|done]).
  pose proof (Z.div_mod t Second ltac:(done)). pose proof (Z.mod_pos_bound t Second ltac:(done)).
  unfold Hour, Minute, Second, two63 in *. rewrite i64_id; unfold is_i64, two63; lia.
Qed.
Lemma Sub_within skew signed now :
  clock signed → clock now → 0 < skew < two63 - 1 → within skew signed now →
  (skew <? Sub now (Truncate signed Second)) || (skew <? Sub (Truncate signed Second) now) = false.
Proof.
  intros _ _ ? [? ?]. unfold Sub. apply orb_false_iff.
  split; apply Z.ltb_ge; repeat case_match; unfold two63 in *; lia.
Qed.

(** The request of which [r] carries everything the signature covers. *)
Record carries (signed r : Request) : Prop := {
  carries_method : Method r = Method signed;
  carries_path : Auth.EscapedPath (Url r) = Auth.EscapedPath (Url signed);
  carries_query : RawQuery r = RawQuery signed;
  carries_headers : Forall (λ k, Get (Header r) k = Get (Header signed) k)
    [TenantHeader; IdentityHeader; TimestampHeader; SignatureHeader]
}.
Lemma carries_message signed r identity timestamp :
  carries signed r → message r identity timestamp = message signed identity timestamp.
Proof.
  intros [Hm Hp Hq Hh]. apply Forall_cons in Hh as [Ht _]. unfold message. by rewrite Hm, Hp, Hq, Ht.
Qed.

(** The identity [SignRequest] puts on a request *)
Definition signing_identity (identity : string) : string :=
  let identity := TrimSpace identity in if (identity =? "")%string then "gateway"%string else identity.
Lemma signing_identity_spec identity :
  TrimSpace (signing_identity identity) = signing_identity identity ∧ signing_identity identity ≠ EmptyString.
Proof.
  unfold signing_identity. destruct (String.eqb_spec (TrimSpace identity) ""); [done|].
  by rewrite StringFacts.TrimSpace_idemp.
Qed.
(** What [SignRequest] with a key writes. *)
Lemma SignRequest_headers r identity key now :
  TrimSpace key ≠ EmptyString →
  let r' := SignRequest r identity key now in
  Method r' = Method r ∧ Url r' = Url r ∧ RawQuery r' = RawQuery r ∧ PathValues r' = PathValues r ∧
  Get (Header r') IdentityHeader = signing_identity identity ∧
  Get (Header r') TimestampHeader = dec (Unix now) ∧
  Get (Header r') SignatureHeader = signature r' (signing_identity identity) (dec (Unix now)) (TrimSpace key).
Proof.
  intros Hk. unfold SignRequest. destruct (String.eqb_spec (TrimSpace key) ""); [done|].
  fold (signing_identity identity). cbn [Method Url RawQuery Header PathValues with_header]. split_and!; try done.
  - rewrite !Get_Set_ne by done. by rewrite Get_Set_eq.
  - rewrite Get_Set_ne by done. by rewrite Get_Set_eq.
  - rewrite Get_Set_eq. unfold signature, message. cbn [Method Url RawQuery Header with_header].
    by rewrite !Get_Set_ne by done.
Qed.
Lemma SignRequest_other r identity key now k :
  Forall (λ k', CanonicalHeaderKey k' ≠ CanonicalHeaderKey k) [IdentityHeader; TimestampHeader; SignatureHeader] →
  Get (Header (SignRequest r identity key now)) k = Get (Header r) k.
Proof.
  rewrite !Forall_cons. intros (H1 & H2 & H3 & _). unfold SignRequest. case_match; [done|].
  cbn [Header with_header]. by rewrite !Get_Set_ne.
Qed.

(** A request that carries a signed one is accepted within the skew. *)
Lemma verify_carried r r' identity key now now' skew :
  clock now → clock now' → 0 < skew < two63 - 1 → within skew now now' →
  carries (SignRequest r identity key now) r' → VerifyRequest r' key now' skew = None.
Proof.
  intros Hc Hc' Hs Hw Hcarry. unfold VerifyRequest. destruct (String.eqb_spec (TrimSpace key) "") as [|Hk]; [done|].
  pose proof (λ i t, carries_message _ _ i t Hcarry) as Hmsg. destruct Hcarry as [_ _ _ Hh].
  rewrite !Forall_cons in Hh. destruct Hh as (_ & Hi & Ht & Hsig & _).
  destruct (SignRequest_headers r identity key now Hk) as (_ & _ & _ & _ & Hi' & Ht' & Hsig').
  rewrite Hi, Ht, Hsig, Hi', Ht', Hsig'.
  destruct (signing_identity_spec identity) as [Hid Hidne].
  rewrite Hid, (StringFacts.TrimSpace_visible (dec _)) by apply StringFacts.dec_visible.
  destruct (hmac_base64_visible (TrimSpace key)
    (message (SignRequest r identity key now) (signing_identity identity) (dec (Unix now)))) as [Hvis Hne].
  fold (signature (SignRequest r identity key now) (signing_identity identity) (dec (Unix now)) (TrimSpace key)) in Hvis, Hne.
  set (sg := signature (SignRequest r identity key now) _ _ _) in *.
  rewrite (StringFacts.TrimSpace_visible _ Hvis).
  destruct (String.eqb_spec (signing_identity identity) ""); [done|].
  destruct (String.eqb_spec (dec (Unix now)) "") as [H0|_]; [by apply Paths.dec_nonempty in H0|].
  destruct (String.eqb_spec sg ""); [done|]. cbn [orb].
  destruct (signing_time now Hc) as [Hu Hut]. rewrite Strconv.ParseInt_dec by done. rewrite Hut.
  rewrite Sub_within by done. rewrite andb_false_r.
  unfold sg, signature. by rewrite Hmsg, String.eqb_refl.
Qed.

(** What an accepted request proves. *)
Lemma verify_accepts r key now skew :
  VerifyRequest r key now skew = None → TrimSpace key ≠ EmptyString →
  let identity := TrimSpace (Get (Header r) IdentityHeader) in
  let timestamp := TrimSpace (Get (Header r) TimestampHeader) in
  TrimSpace (Get (Header r) SignatureHeader) = signature r identity timestamp (TrimSpace key) ∧
  ∃ seconds, Strconv.ParseInt timestamp = Some seconds ∧
    (0 < skew → Sub now (time_Unix seconds) ≤ skew ∧ Sub (time_Unix seconds) now ≤ skew).
Proof.
  intros Hv Hk. unfold VerifyRequest in Hv. destruct (String.eqb_spec (TrimSpace key) ""); [done|].
  cbv zeta in *. destruct (_ || _ || _); [done|]. destruct (Strconv.ParseInt _) as [seconds|]; [|done].
  destruct ((0 <? skew) && _) eqn:Hw; [done|].
  destruct (String.eqb_spec (TrimSpace (Get (Header r) SignatureHeader))
    (signature r (TrimSpace (Get (Header r) IdentityHeader)) (TrimSpace (Get (Header r) TimestampHeader)) (TrimSpace key)))
    as [Heq|]; [|done].
  split; [done|]. exists seconds. split; [done|]. intros Hs.
  destruct (Z.ltb_spec 0 skew); [|lia]. simpl in Hw. to_prop. rewrite !Z.ltb_ge in *. lia.
Qed.

(** *** What a signature binds *)

(** Neither a request line nor a header value holds a line feed. *)
Definition line_feed : ascii := byte_of 10.
Definition one_line (s : string) : Prop := StringFacts.has_byte line_feed s = false.
Record wire_clean (r : Request) : Prop := {
  clean_method : one_line (Method r);
  clean_query : one_line (RawQuery r);
  clean_headers : Forall (λ k, one_line (Get (Header r) k)) [TenantHeader; IdentityHeader; TimestampHeader]
}.
Definition signed_fields (r : Request) : list string :=
  [Method r; Auth.EscapedPath (Url r); RawQuery r; Get (Header r) TenantHeader;
   TrimSpace (Get (Header r) IdentityHeader); TrimSpace (Get (Header r) TimestampHeader)].

Lemma EscapedPath_one_line u : one_line (Auth.EscapedPath u).
Proof.
  destruct (EscapedPath_spec u) as [Hv _]. revert Hv. generalize (Auth.EscapedPath u). unfold one_line, StringFacts.has_byte.
  induction s as [|c s IH]; [done|]. cbn [Auth.valid_encoded list_ascii_of_string existsb]. intros [Hc Hs]%andb_true_iff.
  rewrite IH by done. destruct (Ascii.eqb_spec line_feed c) as [<-|]; [by vm_compute in Hc|done].
Qed.
Lemma TrimSpace_one_line s : one_line s → one_line (TrimSpace s).
Proof.
  unfold one_line, StringFacts.has_byte, TrimSpace. rewrite list_ascii_of_string_of_list_ascii. unfold trim_list.
  set (l := list_ascii_of_string s). clearbody l. intros Hl.
  destruct (StringFacts.trim_left_stuck space_encodings (List.length l) l StringFacts.space_encodings_ne) as [_ [p Hp]]; [done|].
  set (l1 := trim_left space_encodings _ l) in *. clearbody l1. subst l.
  destruct (StringFacts.trim_left_stuck (reverse <$> space_encodings) (List.length l1) (reverse l1)
    StringFacts.space_encodings_rev_ne) as [_ [q Hq]]; [by rewrite length_reverse|].
  set (l2 := trim_left _ _ _) in *. clearbody l2.
  assert (l1 = reverse l2 ++ reverse q) as -> by (rewrite <- reverse_app, <- Hq; by rewrite reverse_involutive).
  rewrite !existsb_app in Hl. by apply orb_false_iff in Hl as [_ [? _]%orb_false_iff].
Qed.
Lemma line_split s1 s2 t1 t2 :
  one_line s1 → one_line s2 → (s1 +:+ newline +:+ t1 = s2 +:+ newline +:+ t2)%string → s1 = s2 ∧ t1 = t2.
Proof.
  unfold one_line, StringFacts.has_byte. change newline with (String line_feed EmptyString).
  revert s2. induction s1 as [|c s1 IH]; intros [|d s2] H1 H2; rewrite ?StringFacts.string_app_cons, ?StringFacts.string_app_nil_l;
    intros He; cbn [list_ascii_of_string existsb] in *; to_prop.
  - by simplify_eq.
  - injection He as <- _. by rewrite Ascii.eqb_refl in *.
  - injection He as -> _. by rewrite Ascii.eqb_refl in *.
  - injection He as -> He. destruct (IH s2) as [-> ->]; done.
Qed.
(** The message that is signed *)
Definition signed_message (r : Request) : string :=
  message r (TrimSpace (Get (Header r) IdentityHeader)) (TrimSpace (Get (Header r) TimestampHeader)).
Lemma signed_fields_message r1 r2 : signed_fields r1 = signed_fields r2 → signed_message r1 = signed_message r2.
Proof. unfold signed_fields, signed_message, message. by intros [= -> -> -> -> -> ->]. Qed.
Lemma message_injective r1 r2 :
  wire_clean r1 → wire_clean r2 → signed_message r1 = signed_message r2 → signed_fields r1 = signed_fields r2.
Proof.
  unfold signed_message. intros [Hm1 Hq1 Hh1] [Hm2 Hq2 Hh2]. rewrite !Forall_cons in Hh1, Hh2.
  destruct Hh1 as (Ht1 & Hi1 & _), Hh2 as (Ht2 & Hi2 & _). unfold message, signed_fields. intros He.
  apply line_split in He as [Em He]; [|done..].
  apply line_split in He as [Ep He]; [|apply EscapedPath_one_line..].
  apply line_split in He as [Eq He]; [|done..].
  apply line_split in He as [Et He]; [|done..].
  apply line_split in He as [Ei He]; [|by apply TrimSpace_one_line..].
  by rewrite Em, Ep, Eq, Et, Ei, He.
Qed.

(** C18: an accepted signature binds the method, the path, the query, the tenant, the
    gateway's identity and the timestamp, and nothing else (not the principal, not the
    body). A request with a key is accepted only if its signature is the MAC of the
    message built from these fields and its timestamp is a number of seconds at most the
    allowed skew away from the clock of the service; two requests without line feeds in
    these fields have the same message exactly if they agree on all of them. So if one
    is accepted with the signature of the other and they differ in a field, the MAC of
    their two messages, which are different, is the same. *)
Theorem signature_binds_request key now1 now2 skew r1 r2 :
  TrimSpace key ≠ EmptyString → wire_clean r1 → wire_clean r2 →
  VerifyRequest r1 key now1 skew = None → VerifyRequest r2 key now2 skew = None →
  TrimSpace (Get (Header r1) SignatureHeader) = TrimSpace (Get (Header r2) SignatureHeader) →
  (∃ seconds, Strconv.ParseInt (TrimSpace (Get (Header r1) TimestampHeader)) = Some seconds ∧
     (0 < skew → Sub now1 (time_Unix seconds) ≤ skew ∧ Sub (time_Unix seconds) now1 ≤ skew)) ∧
  (signed_message r1 = signed_message r2 ↔ signed_fields r1 = signed_fields r2) ∧
  TrimSpace (Get (Header r1) SignatureHeader) = base64_rawurl (hmac_sha256 (TrimSpace key) (signed_message r1)) ∧
  hmac_sha256 (TrimSpace key) (signed_message r1) = hmac_sha256 (TrimSpace key) (signed_message r2).
Proof.
  intros Hk Hc1 Hc2 Hv1 Hv2 Hsig.
  destruct (verify_accepts _ _ _ _ Hv1 Hk) as [Hs1 Ht1]. destruct (verify_accepts _ _ _ _ Hv2 Hk) as [Hs2 _].
  split; [done|]. split; [split; [by apply message_injective|apply signed_fields_message]|]. split; [exact Hs1|].
  rewrite Hs1, Hs2 in Hsig. unfold signature in Hsig. apply (f_equal base64_rawurl_decode) in Hsig.
  rewrite !base64_roundtrip in Hsig. exact (inj Some _ _ Hsig).
Qed.
(** The signature does not depend on other headers. *)
Lemma other_headers_not_signed r key now skew k v :
  Forall (λ k', CanonicalHeaderKey k ≠ CanonicalHeaderKey k') [TenantHeader; IdentityHeader; TimestampHeader; SignatureHeader] →
  VerifyRequest (with_header r (Set_ (Header r) k v)) key now skew = VerifyRequest r key now skew.
Proof.
  rewrite !Forall_cons. intros (H1 & H2 & H3 & H4 & _). unfold VerifyRequest, signature, message. cbn [Header with_header Method Url RawQuery].
  by rewrite !(Get_Set_ne (Header r) k) by done.
Qed.
Definition sample_request (method path query : string) (headers : list (string * string)) : Request :=
  {| Method := method; Url := {| Auth.Scheme := ""; Auth.Host := ""; Auth.Path := path; Auth.RawPath := "" |};
     RawQuery := query; ReqHost := "gateway.local"; Header := foldl (λ h '(k, v), Set_ h k v) ∅ headers; PathValues := ∅ |}.
Definition sample_signed : Request :=
  SignRequest (sample_request "GET" "/api/v1/usage" "cluster_id=a" [(TenantHeader, "tenant-a"%string)])
    "public-gateway" "signing-key" (unix_epoch + 1781870400 * Second).
Lemma signature_binds_request_witness :
  VerifyRequest sample_signed "signing-key" (unix_epoch + 1781870460 * Second) (5 * Minute) = None ∧
  TrimSpace (Get (Header sample_signed) SignatureHeader) =
    base64_rawurl (hmac_sha256 (TrimSpace "signing-key") (signed_message sample_signed)).
Proof.
  assert (VerifyRequest sample_signed "signing-key" (unix_epoch + 1781870460 * Second) (5 * Minute) = None) as Hv
    by (vm_compute; reflexivity).
  split; [done|].
  apply (signature_binds_request "signing-key" (unix_epoch + 1781870460 * Second) (unix_epoch + 1781870460 * Second) (5 * Minute)
    sample_signed sample_signed); [vm_compute; discriminate| | |done|done|reflexivity].
  all: split; [vm_compute; reflexivity..|]; repeat constructor; vm_compute; reflexivity.
Defined.
End Gatewayauth.
