(* ===== verification/Gateway.v ===== *)
(** * The gateway and the identity service

    [services/gateway/config.go] and [server.go]: bearer tokens, the headers the
    gateway injects, signing, and the routes to the backends behind their
    reverse proxies; [services/identity/server.go], the backend that reports the
    injected principal. *)
From stdpp Require Import base option list gmap strings.
From Stdlib Require Import ZArith Lia Ascii String.
From S2P Require Import Prelude Crypto Proto Stores Http.

Module Gateway.
Import Strings Http Gatewayauth.

(** ** Configuration *)

Definition tenantHeader : string := "X-Kube-Cost-Tenant-ID".
Definition principalHeader : string := "X-Kube-Cost-Principal-ID".
Definition authorizationHeader : string := "Authorization".
Definition gatewaySecretHeader : string := "X-Kube-Cost-Gateway-Secret".
Definition defaultHTTPAddress : string := ":8080".
Definition defaultGatewayID : string := "gateway".

Record Config := {
  HTTPAddress : string;
  TokenTenants : gmap string string;
  TokenPrincipals : gmap string string;
  QueryURL : Auth.URL;
  ClusterRegistryURL : Auth.URL;
  PricingURL : Auth.URL;
  WorkflowURL : Auth.URL;
  ExportURL : Auth.URL;
  TenantURL : Auth.URL;
  AuditURL : Auth.URL;
  IdentityURL : Auth.URL;
  PolicyURL : Auth.URL;
  IntegrationsURL : Auth.URL;
  BackendSharedSecret : string;
  BackendSigningKey : string;
  GatewayIdentity : string
}.

Definition valueOrDefault (value fallback : string) : string :=
  if (TrimSpace value =? "")%string then fallback else TrimSpace value.

Definition token_item (result : gmap string string) (item : string) : gmap string string :=
  let item := TrimSpace item in
  if (item =? "")%string then result
  else
    let '(token, tenantID, ok) :=
      let '(token, tenantID, ok) := Cut item ":" in
      if negb ok then Cut item "=" else (token, tenantID, ok) in
    let token := TrimSpace token in
    let tenantID := TrimSpace tenantID in
    if ok && negb (token =? "")%string && negb (tenantID =? "")%string then <[token := tenantID]> result else result.
Definition parseTokenTenants (value : string) : gmap string string := foldl token_item ∅ (Split value ",").

Section config.
Context (Parse : string → option Auth.URL) (Getenv : string → string).
Definition parseRequiredURL (name value : string) : res string Auth.URL :=
  let value := TrimSpace value in
  if (value =? "")%string then Err (name +:+ " is required")
  else match Parse value with
       | Some parsed =>
           if (Auth.Scheme parsed =? "")%string || (Auth.Host parsed =? "")%string
           then Err (name +:+ " must be an absolute URL") else Ok parsed
       | None => Err (name +:+ " must be an absolute URL")
       end.
Definition required (name : string) : res string Auth.URL := parseRequiredURL name (Getenv name).
Definition ConfigFromEnv : res string Config :=
  query ← required "QUERY_URL"; clusterRegistry ← required "CLUSTER_REGISTRY_URL";
  pricing ← required "PRICING_URL"; workflow ← required "WORKFLOW_URL"; export ← required "EXPORT_URL";
  tenant ← required "TENANT_URL"; audit ← required "AUDIT_URL"; identity ← required "IDENTITY_URL";
  policy ← required "POLICY_URL"; integrations ← required "INTEGRATIONS_URL";
  let tokenTenants := parseTokenTenants (Getenv "GATEWAY_TOKEN_TENANTS"%string) in
  if decide (tokenTenants = ∅)
  then Err "GATEWAY_TOKEN_TENANTS must contain at least one token to tenant mapping"%string
  else Ok {|
    HTTPAddress := valueOrDefault (Getenv "GATEWAY_HTTP_ADDRESS"%string) defaultHTTPAddress;
    TokenTenants := tokenTenants;
    TokenPrincipals := parseTokenTenants (Getenv "GATEWAY_TOKEN_PRINCIPALS"%string);
    QueryURL := query; ClusterRegistryURL := clusterRegistry; PricingURL := pricing; WorkflowURL := workflow;
    ExportURL := export; TenantURL := tenant; AuditURL := audit; IdentityURL := identity; PolicyURL := policy;
    IntegrationsURL := integrations;
    BackendSharedSecret := TrimSpace (Getenv "GATEWAY_BACKEND_SHARED_SECRET"%string);
    BackendSigningKey := TrimSpace (Getenv "GATEWAY_BACKEND_SIGNING_KEY"%string);
    GatewayIdentity := valueOrDefault (Getenv "GATEWAY_IDENTITY"%string) defaultGatewayID
  |}.
End config.

(** ** The server *)

(** The proxied services; [Server] keeps a proxy per service. *)
Inductive backend :=
| query | clusterRegistry | pricing | workflow | export | tenant | audit | identity | policy | integrations.

Record Server := {
  tokenTenants : gmap string string;
  tokenPrincipals : gmap string string;
  proxies : backend → Auth.URL;
  backendSecret : string;
  signingKey : string;
  gatewayIdentity : string
}.
Definition NewServer (config : Config) : res string Server :=
  if decide (TokenTenants config = ∅) then Err "token tenant mappings are required"%string
  else Ok {|
    tokenTenants := TokenTenants config; tokenPrincipals := TokenPrincipals config;
    proxies b := match b with
      | query => QueryURL config | clusterRegistry => ClusterRegistryURL config | pricing => PricingURL config
      | workflow => WorkflowURL config | export => ExportURL config | tenant => TenantURL config
      | audit => AuditURL config | identity => IdentityURL config | policy => PolicyURL config
      | integrations => IntegrationsURL config end;
    backendSecret := BackendSharedSecret config; signingKey := BackendSigningKey config;
    gatewayIdentity := GatewayIdentity config
  |}.

Definition TrimPrefix (s p : string) : string :=
  if HasPrefix s p then String.substring (String.length p) (String.length s - String.length p) s else s.
Definition TrimSuffix (s p : string) : string :=
  if HasSuffix s p then String.substring 0 (String.length s - String.length p) s else s.

Definition identityFromRequest (s : Server) (r : Request) : res problem (string * string) :=
  let auth := TrimSpace (Get (Header r) authorizationHeader) in
  let prefix := "Bearer "%string in
  if negb (HasPrefix auth prefix)
  then Err (problem_of StatusUnauthorized "unauthenticated" "Bearer token is required")
  else
    let token := TrimSpace (TrimPrefix auth prefix) in
    let tenantID := default EmptyString (tokenTenants s !! token) in
    if (tenantID =? "")%string
    then Err (problem_of StatusForbidden "forbidden" "token is not mapped to a tenant")
    else Ok (tenantID, default EmptyString (tokenPrincipals s !! token)).

(** The headers [authenticate] sets *)
Definition inject (s : Server) (h : header) (tenantID principalID : string) : header :=
  let h := Del h tenantHeader in
  let h := Del h principalHeader in
  let h := Del h authorizationHeader in
  let h := Del h gatewaySecretHeader in
  let h := Set_ h tenantHeader tenantID in
  let h := if negb (principalID =? "")%string then Set_ h principalHeader principalID else h in
  if negb (backendSecret s =? "")%string then Set_ h gatewaySecretHeader (backendSecret s) else h.
(** The request [authenticate] passes on *)
Definition authenticate (s : Server) (now : Time) (r : Request) : res problem Request :=
  match identityFromRequest s r with
  | Err p => Err p
  | Ok (tenantID, principalID) =>
      Ok (SignRequest (with_header r (inject s (Header r) tenantID principalID)) (gatewayIdentity s) (signingKey s) now)
  end.

(** The text after the last [sep], if there is one *)
Fixpoint after_last (sep : ascii) (s : string) : option string :=
  match s with
  | EmptyString => None
  | String c s' =>
      match after_last sep s' with Some t => Some t | None => if Ascii.eqb c sep then Some s' else None end
  end.
Definition recommendationAction (path : string) : string :=
  default EmptyString (after_last "/" (TrimSuffix path "/")).
Definition isRecommendationRead (r : Request) : bool :=
  (Method r =? "GET")%string && HasPrefix (Auth.Path (Url r)) "/api/v1/recommendations/".
Definition isRecommendationCommand (r : Request) : bool :=
  if negb (Method r =? "POST")%string || negb (HasPrefix (Auth.Path (Url r)) "/api/v1/recommendations/") then false
  else bool_decide (recommendationAction (Auth.Path (Url r)) ∈ ["approve"; "reject"; "suppress"; "execute"]%string).

Definition route (r : Request) : option backend :=
  let path := Auth.Path (Url r) in
  let at_ p := (path =? p)%string in
  if at_ "/api/v1/clusters" || HasPrefix path "/api/v1/clusters/" then Some clusterRegistry
  else if at_ "/api/v1/prices/catalog" || at_ "/api/v1/prices/effective" || at_ "/api/v1/billing/charges" then Some pricing
  else if at_ "/api/v1/recommendations" || isRecommendationRead r then Some query
  else if isRecommendationCommand r then Some workflow
  else if at_ "/api/v1/data-quality" || at_ "/api/v1/usage" || at_ "/api/v1/costs" || at_ "/api/v1/allocation" then Some query
  else if at_ "/api/v1/exports" || HasPrefix path "/api/v1/exports/" then Some export
  else if at_ "/api/v1/tenant" || HasPrefix path "/api/v1/tenant/" then Some tenant
  else if at_ "/api/v1/audit/events" then Some audit
  else if at_ "/api/v1/identity/principal" then Some identity
  else if at_ "/api/v1/policies" || HasPrefix path "/api/v1/policies/" then Some policy
  else if at_ "/api/v1/integrations" || HasPrefix path "/api/v1/integrations/" then Some integrations
  else None.

(** What becomes of a request: the health check answers, the gateway refuses, or
    a backend receives a request ([None] where its URL cannot be parsed). *)
Inductive outcome :=
| Healthy
| Refused (p : problem)
| Proxied (b : backend) (received : option Request).

Definition proxy (target : Auth.URL) (r : Request) : option Request := ReverseProxy target r.
(** [Routes] on a clean path; the serve mux redirects other paths. [GET]
    patterns match [HEAD] too. *)
Definition Routes (s : Server) (now : Time) (r : Request) : outcome :=
  if ((Method r =? "GET")%string || (Method r =? "HEAD")%string) && (Auth.Path (Url r) =? "/healthz")%string then Healthy
  else match authenticate s now r with
       | Err p => Refused p
       | Ok r' =>
           match route r' with
           | Some b => Proxied b (proxy (proxies s b) r')
           | None => Refused (problem_of StatusNotFound "not_found" "route not found")
           end
       end.

(** ** What backends receive *)

(** The token of a request *)
Definition bearer (r : Request) : option string :=
  let auth := TrimSpace (Get (Header r) authorizationHeader) in
  if HasPrefix auth "Bearer " then Some (TrimSpace (TrimPrefix auth "Bearer ")) else None.
Lemma identity_bearer s r t p :
  identityFromRequest s r = Ok (t, p) →
  ∃ token, bearer r = Some token ∧ tokenTenants s !! token = Some t ∧ t ≠ EmptyString ∧
           p = default EmptyString (tokenPrincipals s !! token).
Proof.
  unfold identityFromRequest, bearer. destruct (HasPrefix _ _); [|done]. cbn [negb].
  set (token := TrimSpace (TrimPrefix _ _)). destruct (tokenTenants s !! token) as [t'|] eqn:Ht; [|done].
  simpl. destruct (String.eqb_spec t' ""); [done|]. intros [= -> <-]. eauto.
Qed.
Lemma parseTokenTenants_trimmed v token t :
  parseTokenTenants v !! token = Some t → TrimSpace t = t ∧ t ≠ EmptyString.
Proof.
  unfold parseTokenTenants. revert token t. generalize (Split v ","). intros items.
  induction items as [|item items IH] using rev_ind; intros token t; [done|].
  rewrite foldl_app. simpl. set (m := foldl token_item ∅ items) in *. unfold token_item.
  destruct (_ =? "")%string; [apply IH|].
  destruct (let '(_, _, _) := Cut (TrimSpace item) ":" in _) as [[k x] ok].
  destruct ok; [|apply IH]. destruct (TrimSpace k =? "")%string; [apply IH|].
  destruct (String.eqb_spec (TrimSpace x) ""); [apply IH|]. cbn [negb andb].
  destruct (decide (TrimSpace k = token)) as [<-|]; [|rewrite lookup_insert_ne by done; apply IH].
  rewrite lookup_insert_eq. intros [= <-]. by rewrite StringFacts.TrimSpace_idemp.
Qed.
Lemma inject_get s h t p :
  Get (inject s h t p) tenantHeader = t ∧ Get (inject s h t p) principalHeader = p ∧
  Get (inject s h t p) gatewaySecretHeader = backendSecret s.
Proof.
  unfold inject. cbv zeta. split_and!.
  - destruct (backendSecret s =? "")%string, (p =? "")%string; cbn [negb]; rewrite ?Get_Set_ne by done; apply Get_Set_eq.
  - destruct (backendSecret s =? "")%string; cbn [negb]; rewrite ?(Get_Set_ne _ gatewaySecretHeader) by done;
      (destruct (String.eqb_spec p "") as [->|]; cbn [negb]; [|apply Get_Set_eq]);
      rewrite Get_Set_ne, !(Get_Del_ne _ _ principalHeader) by done; apply Get_Del_eq.
  - destruct (String.eqb_spec (backendSecret s) "") as [->|]; cbn [negb]; [|apply Get_Set_eq].
    destruct (p =? "")%string; cbn [negb]; rewrite ?Get_Set_ne by done; apply Get_Del_eq.
Qed.

(** The headers the gateway vouches for *)
Definition gateway_headers : list string :=
  [TenantHeader; principalHeader; gatewaySecretHeader; IdentityHeader; TimestampHeader; SignatureHeader].
Definition names (o k : string) : Prop := CanonicalHeaderKey o = CanonicalHeaderKey k.
#[local] Instance names_dec o k : Decision (names o k) := decide (_ = _).

Lemma Connection_kept s now r r' :
  authenticate s now r = Ok r' → connection_options (Header r') = connection_options (Header r).
Proof.
  unfold authenticate. destruct (identityFromRequest s r) as [[t p]|]; [|done]. intros [= <-].
  unfold connection_options. do 3 f_equal.
  assert (∀ h k v, CanonicalHeaderKey k ≠ "Connection"%string → Set_ h k v !! "Connection"%string = h !! "Connection"%string) as HS
    by (intros; by apply lookup_insert_ne).
  assert (∀ h k, CanonicalHeaderKey k ≠ "Connection"%string → Del h k !! "Connection"%string = h !! "Connection"%string) as HD
    by (intros; by apply lookup_delete_ne).
  assert (inject s (Header r) t p !! "Connection"%string = Header r !! "Connection"%string) as Hi.
  { unfold inject. destruct (backendSecret s =? "")%string, (p =? "")%string; cbn [negb];
      rewrite ?HS by done; by rewrite !HD by done. }
  unfold SignRequest. destruct (_ =? "")%string; cbn [Header with_header]; rewrite ?HS by done; by rewrite Hi.
Qed.
(** A backend receives a gateway header as it was set, unless the caller lists it
    as a connection option, which makes the proxy drop it. *)
Lemma removeHopByHop_listed h k : Exists (λ o, names o k) (connection_options h) → Get (removeHopByHopHeaders h) k = EmptyString.
Proof.
  unfold removeHopByHopHeaders. intros Hl.
  assert (∀ ks h, Exists (λ o, names o k) ks ∨ h !! CanonicalHeaderKey k = None → foldl Del h ks !! CanonicalHeaderKey k = None) as Hgo.
  { intros ks. induction ks as [|o ks IH]; intros h' Hk; simpl; [destruct Hk as [Hk|?]; [by apply Exists_nil in Hk|done]|].
    apply IH. unfold Del. destruct (decide (names o k)) as [Hn|Hn].
    - right. rewrite Hn. apply lookup_delete_eq.
    - rewrite lookup_delete_ne by done. rewrite Exists_cons in Hk. tauto. }
  unfold Get. by rewrite (Hgo hopHeaders) by auto.
Qed.
Lemma received_headers s now r r' target :
  authenticate s now r = Ok r' → bare_target target → rooted (Auth.EscapedPath (Url r)) = true →
  ∃ received, proxy target r' = Some received ∧ Method received = Method r ∧ RawQuery received = RawQuery r ∧
    Auth.EscapedPath (Url received) = Auth.EscapedPath (Url r) ∧
    ∀ k, k ∈ gateway_headers → Get (Header received) k =
      if decide (Exists (λ o, names o k) (connection_options (Header r))) then EmptyString
      else TrimString (Get (Header r') k).
Proof.
  intros Ha Ht Hr. pose proof (Connection_kept _ _ _ _ Ha) as Hc.
  assert (Method r' = Method r ∧ Url r' = Url r ∧ RawQuery r' = RawQuery r) as (Hm & Hu & Hq).
  { unfold authenticate in Ha. destruct (identityFromRequest s r) as [[t p]|]; [|done]. injection Ha as <-.
    unfold SignRequest. by destruct (_ =? "")%string. }
  rewrite <- Hu in Hr. destruct (ReverseProxy_received target r' Ht Hr) as (received & Hp & Hm' & Hq' & He & _ & Hh).
  exists received. unfold proxy. rewrite Hp, Hm', Hq', He, Hm, Hu, Hq. split_and!; try done. intros k Hk. rewrite Hh, Get_trimmed, <- Hc.
  destruct (decide _) as [Hl|Hl]; [by rewrite removeHopByHop_listed|].
  f_equal. apply Get_removeHopByHop; [by apply not_Exists_Forall in Hl; [|apply _]|].
  clear Hl. revert k Hk. apply Forall_forall. repeat constructor; vm_compute; discriminate.
Qed.

(** A backend that checks at most the gateway's own secret and signing key. *)
Record trusts (config : Config) (Getenv : string → string) : Prop := {
  trusts_secret : TrimSpace (Getenv "TRUSTED_GATEWAY_SECRET") ∈ [EmptyString; BackendSharedSecret config];
  trusts_key : TrimSpace (Getenv "TRUSTED_GATEWAY_SIGNING_KEY") ∈ [EmptyString; BackendSigningKey config]
}.

(** Everything a gateway configured from the environment injects is trimmed. *)
Record trimmed_server (s : Server) : Prop := {
  trimmed_tenant token t : tokenTenants s !! token = Some t → TrimSpace t = t ∧ t ≠ EmptyString;
  trimmed_principal token p : tokenPrincipals s !! token = Some p → TrimSpace p = p ∧ p ≠ EmptyString;
  trimmed_secret : TrimSpace (backendSecret s) = backendSecret s;
  trimmed_key : TrimSpace (signingKey s) = signingKey s
}.
Lemma configured_server Parse env config s :
  ConfigFromEnv Parse env = Ok config → NewServer config = Ok s →
  trimmed_server s ∧ tokenTenants s = TokenTenants config ∧ tokenPrincipals s = TokenPrincipals config ∧
  backendSecret s = BackendSharedSecret config ∧ signingKey s = BackendSigningKey config.
Proof.
  unfold ConfigFromEnv, NewServer. intros Hcfg Hnew.
  do 10 (apply bind_Ok in Hcfg as (? & _ & Hcfg)).
  match type of Hcfg with context [decide ?P] => destruct (decide P) end; [done|]. injection Hcfg as <-. cbn [TokenTenants] in Hnew. rewrite decide_False in Hnew by done. injection Hnew as <-.
  split; [|done]. split; cbn [tokenTenants tokenPrincipals backendSecret signingKey TokenTenants TokenPrincipals].
  - intros token t. apply parseTokenTenants_trimmed.
  - intros token t. apply parseTokenTenants_trimmed.
  - apply StringFacts.TrimSpace_idemp.
  - apply StringFacts.TrimSpace_idemp.
Qed.
(** Decidable facts about constants. *)
Ltac by_evaluation := apply (bool_decide_unpack _); vm_compute; exact I.
(** What a backend receives of an authenticated request. *)
Lemma received_values s now r t p target :
  trimmed_server s → identityFromRequest s r = Ok (t, p) → bare_target target → rooted (Auth.EscapedPath (Url r)) = true →
  let r' := SignRequest (with_header r (inject s (Header r) t p)) (gatewayIdentity s) (signingKey s) now in
  let dropped k := Exists (λ o, names o k) (connection_options (Header r)) in
  ∃ q, proxy target r' = Some q ∧
    Get (Header q) TenantHeader = (if decide (dropped TenantHeader) then EmptyString else t) ∧
    Get (Header q) principalHeader = (if decide (dropped principalHeader) then EmptyString else p) ∧
    Get (Header q) gatewaySecretHeader = (if decide (dropped gatewaySecretHeader) then EmptyString else backendSecret s) ∧
    (signingKey s ≠ EmptyString →
     Forall (λ k, ¬ dropped k) [TenantHeader; IdentityHeader; TimestampHeader; SignatureHeader] → carries r' q).
Proof.
  intros Hs Hid Ht Hr r' dropped. subst dropped. cbv beta.
  assert (authenticate s now r = Ok r') as Ha by (unfold authenticate; by rewrite Hid).
  destruct (received_headers _ _ _ _ _ Ha Ht Hr) as (q & Hq & Hm & Hrq & He & Hh). exists q. split; [done|].
  apply identity_bearer in Hid as (token & _ & Htok & _ & Hp).
  assert (TrimSpace t = t) as Htt by (by eapply trimmed_tenant).
  assert (TrimSpace p = p) as Hpp
    by (rewrite Hp; destruct (tokenPrincipals s !! token) eqn:E; [by eapply trimmed_principal|done]).
  destruct (inject_get s (Header r) t p) as (Gt & Gp & Gs). change tenantHeader with TenantHeader in Gt.
  assert (∀ k, Forall (λ k', CanonicalHeaderKey k' ≠ CanonicalHeaderKey k) [IdentityHeader; TimestampHeader; SignatureHeader] →
    Get (Header r') k = Get (inject s (Header r) t p) k) as Hother
    by (intros k ?; unfold r'; by rewrite SignRequest_other).
  split_and!.
  - rewrite Hh by (simpl; set_solver). case_decide; [done|].
    rewrite Hother, Gt by by_evaluation. by apply TrimString_trimmed.
  - rewrite Hh by (simpl; set_solver). case_decide; [done|].
    rewrite Hother, Gp by by_evaluation. by apply TrimString_trimmed.
  - rewrite Hh by (simpl; set_solver). case_decide; [done|].
    rewrite Hother, Gs by by_evaluation. apply TrimString_trimmed, Hs.
  - intros Hk Hd. assert (TrimSpace (signingKey s) ≠ EmptyString) as Hk' by (by rewrite (trimmed_key s Hs)).
    destruct (SignRequest_headers (with_header r (inject s (Header r) t p)) (gatewayIdentity s) (signingKey s) now Hk')
      as (Em & Eu & Eq & _ & Gi & Gts & Gsig). fold r' in Em, Eu, Eq, Gi, Gts, Gsig.
    rewrite !Forall_cons in Hd. destruct Hd as (D1 & D2 & D3 & D4 & _).
    split; [by rewrite Em|by rewrite Eu|by rewrite Eq|].
    repeat constructor; rewrite Hh by (simpl; set_solver); rewrite decide_False by done; apply TrimString_trimmed.
    + by rewrite Hother, Gt by by_evaluation.
    + rewrite Gi. apply signing_identity_spec.
    + rewrite Gts. apply StringFacts.TrimSpace_visible, StringFacts.dec_visible.
    + rewrite Gsig. apply StringFacts.TrimSpace_visible, hmac_base64_visible.
Qed.
Lemma trusted_received config env s now now' t p r q :
  trusts config env → clock now → clock now' → within maxSkew now now' →
  trimmed_server s → backendSecret s = BackendSharedSecret config → signingKey s = BackendSigningKey config →
  let r' := SignRequest (with_header r (inject s (Header r) t p)) (gatewayIdentity s) (signingKey s) now in
  TrimSpace t = t → t ≠ EmptyString → Get (Header q) TenantHeader = t →
  Get (Header q) gatewaySecretHeader = backendSecret s → (signingKey s ≠ EmptyString → carries r' q) →
  authenticatedTenant env now' q = Ok t.
Proof.
  intros [Hsec Hkey] Hc Hc' Hw Hs Es Ek r' Ht Hne Gt Gs Hcarry. unfold authenticatedTenant, trustedGateway.
  change Gatewayauth.gatewaySecretHeader with gatewaySecretHeader. rewrite Gs, Es.
  assert (negb (TrimSpace (env "TRUSTED_GATEWAY_SECRET") =? "")%string &&
    negb (BackendSharedSecret config =? TrimSpace (env "TRUSTED_GATEWAY_SECRET"))%string = false) as ->.
  { rewrite !elem_of_cons, elem_of_nil in Hsec. destruct Hsec as [-> |[-> |[]]]; [done|].
    by rewrite String.eqb_refl, andb_false_r. }
  assert (VerifyRequest q (TrimSpace (env "TRUSTED_GATEWAY_SIGNING_KEY")) now' maxSkew = None) as ->.
  { rewrite !elem_of_cons, elem_of_nil, <- Ek in Hkey. destruct Hkey as [-> |[-> |[]]]; [done|].
    destruct (decide (signingKey s = EmptyString)) as [-> |Hk]; [done|].
    by eapply (verify_carried (with_header r (inject s (Header r) t p)) q (gatewayIdentity s)); [..|apply Hcarry]. }
  rewrite Gt, Ht. by destruct (String.eqb_spec t "").
Qed.

(** A header the proxy drops because the caller lists it as a connection option *)
Definition dropped (r : Request) (k : string) : Prop := Exists (λ o, names o k) (connection_options (Header r)).
#[local] Instance dropped_dec r k : Decision (dropped r k) := _.
Lemma authenticated_header env now q t :
  authenticatedTenant env now q = Ok t → t = TrimSpace (Get (Header q) TenantHeader) ∧ TrimSpace (Get (Header q) TenantHeader) ≠ EmptyString.
Proof.
  unfold authenticatedTenant. destruct (trustedGateway _ _ _); [done|]. cbv zeta.
  destruct (String.eqb_spec (TrimSpace (Get (Header q) TenantHeader)) ""); [done|]. by intros [= <-].
Qed.
Lemma proxied_values Parse env config s now r b received :
  ConfigFromEnv Parse env = Ok config → NewServer config = Ok s →
  Routes s now r = Proxied b received → bare_target (proxies s b) → rooted (Auth.EscapedPath (Url r)) = true →
  clock now →
  ∃ token t q, bearer r = Some token ∧ TokenTenants config !! token = Some t ∧ received = Some q ∧
    (Get (Header q) TenantHeader = EmptyString ∨ Get (Header q) TenantHeader = t ∧ TrimSpace t = t) ∧
    Get (Header q) principalHeader =
      (if decide (dropped r principalHeader) then EmptyString else default EmptyString (TokenPrincipals config !! token)) ∧
    ∀ env' now', trusts config env' → clock now' → within maxSkew now now' →
      Forall (λ k, ¬ dropped r k) [TenantHeader; gatewaySecretHeader; IdentityHeader; TimestampHeader; SignatureHeader] →
      authenticatedTenant env' now' q = Ok t.
Proof.
  intros Hcfg Hnew Hroutes Ht Hr Hc. destruct (configured_server _ _ _ _ Hcfg Hnew) as (Hs & Et & Ep & Es & Ek).
  unfold Routes in Hroutes. destruct (_ && _); [done|]. unfold authenticate in Hroutes.
  destruct (identityFromRequest s r) as [[t p]|] eqn:Hid; [|done]. case_match; [|done]. injection Hroutes as <- <-.
  pose proof (received_values s now r t p (proxies s b0) Hs Hid Ht Hr) as (q & Hq & Gt & Gp & Gs & Hcarry).
  apply identity_bearer in Hid as (token & Hb & Htok & Hne & Hp). exists token, t, q.
  assert (TrimSpace t = t) as Htrim by (by eapply (trimmed_tenant s Hs token)).
  rewrite <- Et, <- Ep. split_and!; [done..|rewrite Gt; destruct (decide _); [by left|by right]|by rewrite Gp, Hp|].
  intros env' now' Htr Hc' Hw Hd. rewrite !Forall_cons in Hd. destruct Hd as (D1 & D2 & D3 & D4 & D5 & _).
  rewrite decide_False in Gt by done. rewrite decide_False in Gs by done.
  eapply (trusted_received config env' s now now' t p r q); try done; try (by eapply trimmed_tenant).
  intros Hk. apply Hcarry; [done|]. by repeat constructor.
Qed.

(** C19: whatever headers a caller sends, a backend takes a request that the gateway
    forwarded to be of the tenant the bearer token is mapped to, or refuses it, and
    sees the principal the token is mapped to, or none. The principal is missing exactly
    if the caller names its header as a connection option, which the proxy removes; and
    if the caller names none of the other gateway headers so, the request is accepted by
    every backend that checks the gateway's secret and signature within the allowed
    skew. This is for a gateway configured from its environment, whose clock and whose
    backends' clocks show a time between the years 1 and 10000, backend addresses
    without path and query, and paths that start with a slash. *)
Theorem proxied_request_authenticated Parse env config s now r b received :
  ConfigFromEnv Parse env = Ok config → NewServer config = Ok s →
  Routes s now r = Proxied b received → bare_target (proxies s b) → rooted (Auth.EscapedPath (Url r)) = true →
  clock now →
  ∃ token t q, bearer r = Some token ∧ TokenTenants config !! token = Some t ∧ received = Some q ∧
    Get (Header q) principalHeader =
      (if decide (dropped r principalHeader) then EmptyString else default EmptyString (TokenPrincipals config !! token)) ∧
    (∀ env' now' t', authenticatedTenant env' now' q = Ok t' → t' = t) ∧
    (Forall (λ k, ¬ dropped r k) [TenantHeader; gatewaySecretHeader; IdentityHeader; TimestampHeader; SignatureHeader] →
     ∀ env' now', trusts config env' → clock now' → within maxSkew now now' → authenticatedTenant env' now' q = Ok t).
Proof.
  intros Hcfg Hnew Hroutes Ht Hr Hc.
  destruct (proxied_values _ _ _ _ _ _ _ _ Hcfg Hnew Hroutes Ht Hr Hc) as (token & t & q & Hb & Htok & Hq & Htq & Hp & Hauth).
  exists token, t, q. split_and!; [done..| |intros; by apply Hauth].
  intros env' now' t' Ha. apply authenticated_header in Ha as [-> Hne]. destruct Htq as [Htq|[Htq <-]]; [|by rewrite Htq].
  by rewrite Htq in Hne.
Qed.

(** A caller can make the proxy drop the principal the gateway injected, by
    naming its header, in any spelling, as the only connection option. The backend still accepts
    the request for the tenant and sees no principal. *)
Lemma principal_can_be_stripped Parse env config s now r b received o :
  ConfigFromEnv Parse env = Ok config → NewServer config = Ok s →
  Routes s now r = Proxied b received → bare_target (proxies s b) → rooted (Auth.EscapedPath (Url r)) = true →
  connection_options (Header r) = [o] → names o principalHeader → clock now →
  ∃ token t q, bearer r = Some token ∧ TokenTenants config !! token = Some t ∧ received = Some q ∧
    Get (Header q) principalHeader = EmptyString ∧
    ∀ env' now', trusts config env' → clock now' → within maxSkew now now' → authenticatedTenant env' now' q = Ok t.
Proof.
  intros Hcfg Hnew Hroutes Ht Hr Hd Ho Hc.
  destruct (proxied_values _ _ _ _ _ _ _ _ Hcfg Hnew Hroutes Ht Hr Hc) as (token & t & q & Hb & Htok & Hq & _ & Hp & Hauth).
  exists token, t, q. rewrite decide_True in Hp by (unfold dropped; rewrite Hd; by constructor). split_and!; [done..|].
  intros env' now' Htr Hc' Hw. apply Hauth; try done. unfold dropped, names in *. rewrite Hd.
  apply Forall_forall. intros k Hk [Hn|Hn%Exists_nil]%Exists_cons; [|done]. rewrite Ho in Hn. revert k Hk Hn.
  refine (proj1 (Forall_forall (λ k, CanonicalHeaderKey principalHeader ≠ CanonicalHeaderKey k) _) _). by_evaluation.
Qed.

(** *** A concrete gateway *)
Definition sample_parse (s : string) : option Auth.URL :=
  if HasPrefix s "http://"
  then Some {| Auth.Scheme := "http"; Auth.Host := TrimPrefix s "http://"; Auth.Path := ""; Auth.RawPath := "" |} else None.
Definition sample_env (name : string) : string :=
  if (name =? "GATEWAY_TOKEN_TENANTS")%string then "token-a:tenant-a, token-b = tenant-b"
  else if (name =? "GATEWAY_TOKEN_PRINCIPALS")%string then "token-a:user-a"
  else if (name =? "GATEWAY_BACKEND_SIGNING_KEY")%string then "signing-key"
  else if (name =? "GATEWAY_BACKEND_SHARED_SECRET")%string then "secret"
  else if HasSuffix name "_URL" then "http://backend:8080" else "".
Definition sample_backend_env (name : string) : string :=
  if (name =? "TRUSTED_GATEWAY_SIGNING_KEY")%string then "signing-key"
  else if (name =? "TRUSTED_GATEWAY_SECRET")%string then "secret" else "".
Definition sample_time : Time := unix_epoch + 1781870400 * Second.
(** A policy request with a forged tenant, and one that drops the principal *)
Definition forged : Request :=
  sample_request "POST" "/api/v1/policies/scale/versions" "" [("authorization", "Bearer token-a"); (tenantHeader, "tenant-b")]%string.
Definition stripping : Request :=
  sample_request "POST" "/api/v1/policies/scale/versions" ""
    [("authorization", "Bearer token-a"); ("connection", "x-kube-cost-principal-id")]%string.
Definition sample_config : res string Config := ConfigFromEnv sample_parse sample_env.
Definition received_by (o : outcome) : option Request := match o with Proxied _ q => q | _ => None end.

Lemma proxied_request_authenticated_witness :
  ∃ config s q, sample_config = Ok config ∧ NewServer config = Ok s ∧
    received_by (Routes s sample_time forged) = Some q ∧
    authenticatedTenant sample_backend_env (sample_time + 3 * Minute) q = Ok "tenant-a"%string ∧
    Get (Header q) principalHeader = "user-a"%string.
Proof.
  destruct sample_config as [config|] eqn:Hc; [|by vm_compute in Hc].
  destruct (NewServer config) as [s|] eqn:Hs; [|vm_compute in Hc; injection Hc as <-; by vm_compute in Hs].
  assert (∃ received, Routes s sample_time forged = Proxied policy received) as (received & Hr)
    by (vm_compute in Hc; injection Hc as <-; injection Hs as <-; eexists; vm_compute; reflexivity).
  assert (TokenTenants config = parseTokenTenants "token-a:tenant-a, token-b = tenant-b" ∧
    TokenPrincipals config = parseTokenTenants "token-a:user-a" ∧ bare_target (proxies s policy) ∧
    trusts config sample_backend_env) as (Et & Ep & Hb & Htr).
  { vm_compute in Hc. injection Hc as <-. injection Hs as <-. split_and!; [vm_compute; reflexivity..| |].
    - split; [by left|done].
    - split; by_evaluation. }
  destruct (proxied_request_authenticated sample_parse sample_env config s sample_time forged policy received)
    as (token & t & q & Htok & Ht & Hq & Hp & _ & Hauth);
    [exact Hc|exact Hs|exact Hr|exact Hb|vm_compute; reflexivity|split; vm_compute; [discriminate|reflexivity]|].
  - vm_compute in Htok. injection Htok as <-. rewrite Et in Ht. vm_compute in Ht. injection Ht as <-.
    exists config, s, q. rewrite Hr. split_and!; [reflexivity|exact Hs|exact Hq| |].
    + apply Hauth; [by_evaluation|exact Htr|split; vm_compute; [discriminate|reflexivity]|split; vm_compute; discriminate].
    + rewrite Hp, Ep, decide_False by by_evaluation. vm_compute. reflexivity.
Defined.
Lemma principal_can_be_stripped_witness :
  ∃ config s q, sample_config = Ok config ∧ NewServer config = Ok s ∧
    received_by (Routes s sample_time stripping) = Some q ∧
    authenticatedTenant sample_backend_env (sample_time + 3 * Minute) q = Ok "tenant-a"%string ∧
    Get (Header q) principalHeader = EmptyString.
Proof.
  destruct sample_config as [config|] eqn:Hc; [|by vm_compute in Hc].
  destruct (NewServer config) as [s|] eqn:Hs; [|vm_compute in Hc; injection Hc as <-; by vm_compute in Hs].
  assert (∃ received, Routes s sample_time stripping = Proxied policy received) as (received & Hr)
    by (vm_compute in Hc; injection Hc as <-; injection Hs as <-; eexists; vm_compute; reflexivity).
  assert (TokenTenants config = parseTokenTenants "token-a:tenant-a, token-b = tenant-b" ∧
    bare_target (proxies s policy) ∧ trusts config sample_backend_env) as (Et & Hb & Htr).
  { vm_compute in Hc. injection Hc as <-. injection Hs as <-. split_and!; [vm_compute; reflexivity..| |].
    - split; [by left|done].
    - split; by_evaluation. }
  destruct (principal_can_be_stripped sample_parse sample_env config s sample_time stripping policy received "x-kube-cost-principal-id")
    as (token & t & q & Htok & Ht & Hq & Hp & Hauth);
    [exact Hc|exact Hs|exact Hr|exact Hb|vm_compute; reflexivity..|split; vm_compute; [discriminate|reflexivity]|].
  - vm_compute in Htok. injection Htok as <-. rewrite Et in Ht. vm_compute in Ht. injection Ht as <-.
    exists config, s, q. rewrite Hr. split_and!; [reflexivity|exact Hs|exact Hq| |exact Hp].
    apply Hauth; [exact Htr|split; vm_compute; [discriminate|reflexivity]|split; vm_compute; discriminate].
Defined.
(** Asynchronous query jobs of the query service have no route. *)
Lemma queries_not_routed s now r :
  Auth.Path (Url r) = "/api/v1/queries"%string →
  match Routes s now r with Refused p => problem_status p ∈ [401; 403; 404] | _ => False end.
Proof.
  intros Hp. unfold Routes. rewrite Hp, andb_false_r. unfold authenticate, identityFromRequest.
  destruct (negb _); [simpl; set_solver|]. destruct (_ =? "")%string; [simpl; set_solver|].
  match goal with |- context [route ?x] => assert (Url x = Url r) as Hu by (unfold SignRequest; by destruct (_ =? "")%string);
    assert (route x = None) as -> end; [|simpl; set_solver].
  unfold route, isRecommendationRead, isRecommendationCommand. rewrite Hu, Hp. cbn. rewrite andb_false_r, orb_true_r. reflexivity.
Qed.
End Gateway.

(** ** The identity service *)

Module Identity.
Import Strings Http Gatewayauth.
Record PrincipalProfile := { TenantID : string; PrincipalID : string; Source : string; SeenAt : Time }.
Definition authenticatedPrincipal (Getenv : string → string) (now : Time) (r : Request) : res problem (string * string) :=
  match trustedGateway Getenv now r with
  | Some p => Err p
  | None =>
      let tenantID := TrimSpace (Get (Header r) TenantHeader) in
      if (tenantID =? "")%string
      then Err (problem_of StatusUnauthorized "unauthenticated" (TenantHeader +:+ " is required"))
      else
        let principalID := TrimSpace (Get (Header r) principalHeader) in
        if (principalID =? "")%string
        then Err (problem_of StatusUnauthorized "unauthenticated" (principalHeader +:+ " is required"))
        else Ok (tenantID, principalID)
  end.
Definition principal (Getenv : string → string) (now : Time) (r : Request) : response PrincipalProfile :=
  match authenticatedPrincipal Getenv now r with
  | Err p => Problem p
  | Ok (tenantID, principalID) =>
      writeJSON StatusOK {| TenantID := tenantID; PrincipalID := principalID; Source := "gateway"; SeenAt := now |}
  end.
End Identity.
