(* ===== verification/Mux.v ===== *)
(** * Serve muxes

    The part of [http.ServeMux] the programs use: patterns with a method, literal
    segments, wildcards and trailing slashes, matched on the escaped path; clean
    paths, redirects and the handler that is found. *)
From stdpp Require Import base option list gmap strings.
From Stdlib Require Import ZArith Lia Ascii String.
From S2P Require Import Prelude Crypto Proto Stores Http.

(** ** Segments of paths *)
Module Segments.
Import Strings Http StringFacts.

(** [pathUnescape] of net/http: an invalid escape is left as it is. *)
Definition pathUnescape (s : string) : string := default s (Auth.PathUnescape s).
(** The segments [firstSegment] finds one by one; a trailing slash is the
    segment ["/"]. *)
Fixpoint mark_last (ws : list string) : list string :=
  match ws with
  | [] => []
  | [w] => [if (w =? "")%string then "/"%string else pathUnescape w]
  | w :: ws' => pathUnescape w :: mark_last ws'
  end.
Definition path_segments (path : string) : list string := mark_last (Split (tail path) "/").

(** [cleanPath] *)
Definition cleanPath (p : string) : string :=
  if (p =? "")%string then "/"%string
  else
    let p := if rooted p then p else ("/" +:+ p)%string in
    let np := Paths.Clean p in
    if HasSuffix p "/" && negb (np =? "/")%string then (np +:+ "/")%string else np.

Lemma rooted_slash s : rooted (String "/" s) = true.
Proof. by destruct s. Qed.
Lemma cleanPath_rooted p : rooted (cleanPath p) = true.
Proof.
  unfold cleanPath. destruct (p =? "")%string; [done|].
  set (q := if rooted p then p else _).
  assert (Paths.is_rooted q = true) as Hq.
  { subst q. destruct (rooted p) eqn:H; [|done]. by apply rooted_cons in H as [? ->]. }
  unfold Paths.Clean. rewrite Hq. change ("/" +:+ ?s)%string with (String "/" s).
  destruct (_ && _); apply rooted_slash.
Qed.

Lemma Join_Split_list sep l :
  String.concat (String sep "") (string_of_list_ascii <$> split_list sep l) = string_of_list_ascii l.
Proof.
  induction l as [|c l IH]; [done|]. simpl. destruct (Ascii.eqb_spec c sep) as [->|].
  - destruct (split_list sep l) eqn:E; [by destruct l; simpl in E; repeat case_match|]. rewrite <- IH. done.
  - destruct (split_list sep l) as [|w ws]; [by rewrite <- IH|]. rewrite <- IH. by destruct ws.
Qed.
Lemma Join_Split s : Join (Split s "/") "/" = s.
Proof. unfold Join, Split. by rewrite (Join_Split_list "/"), string_of_list_ascii_of_string. Qed.
Lemma Split_nonempty s sep : Split s sep ≠ [].
Proof.
  unfold Split. generalize (list_ascii_of_string s). intros l H%fmap_nil_inv.
  destruct l; simpl in H; repeat case_match; done.
Qed.

(** A slash is no part of an escape. *)
Lemma unescape_slash a b q :
  Auth.PathUnescape (a +:+ "/" +:+ b) = Some q →
  ∃ qa qb, Auth.PathUnescape a = Some qa ∧ Auth.PathUnescape b = Some qb ∧ q = (qa +:+ "/" +:+ qb)%string.
Proof.
  remember (String.length a) as n eqn:Hn. revert a Hn q. induction n as [n IHn] using lt_wf_ind. intros a -> q.
  assert (∀ a', (String.length a' < String.length a)%nat → ∀ q, Auth.PathUnescape (a' +:+ "/" +:+ b) = Some q →
    ∃ qa qb, Auth.PathUnescape a' = Some qa ∧ Auth.PathUnescape b = Some qb ∧ q = (qa +:+ "/" +:+ qb)%string) as IH
    by (intros a' Ha; by apply (IHn _ Ha)).
  clear IHn. destruct a as [|c [|x [|y a]]].
  - rewrite string_app_nil_l. change ("/" +:+ b)%string with (String "/" b). simpl.
    destruct (Auth.PathUnescape b) as [qb|]; [|done]. intros [= <-]. by exists ""%string, qb.
  - rewrite string_app_cons, string_app_nil_l. change ("/" +:+ b)%string with (String "/" b).
    simpl. destruct (Ascii.eqb c Auth.percent).
    + destruct b as [|y b]; [done|]. done.
    + destruct (Auth.PathUnescape b) as [qb|]; [|done]. intros [= <-]. by exists (String c ""), qb.
  - rewrite !string_app_cons, string_app_nil_l. change ("/" +:+ b)%string with (String "/" b).
    cbn [Auth.PathUnescape]. destruct (Ascii.eqb c Auth.percent) eqn:Hc.
    + by destruct (Auth.hex_value x).
    + intros H. specialize (IH (String x EmptyString) ltac:(simpl; lia)). rewrite string_app_cons, string_app_nil_l in IH.
      change ("/" +:+ b)%string with (String "/" b) in IH.
      match type of H with match ?t with _ => _ end = _ => destruct t eqn:Hp; [|done] end. injection H as <-.
      destruct (IH _ Hp) as (qa & qb & Ha & -> & ->). exists (String c qa), qb. cbn [Auth.PathUnescape] in Ha |- *.
      rewrite Ha. done.
  - rewrite !string_app_cons. cbn [Auth.PathUnescape]. destruct (Ascii.eqb c Auth.percent) eqn:Hc.
    + destruct (Auth.hex_value x), (Auth.hex_value y); try done. intros H.
      destruct (Auth.PathUnescape (a +:+ _)%string) eqn:Hp; [|done]. injection H as <-.
      destruct (IH a ltac:(simpl; lia) _ Hp) as (qa & qb & -> & -> & ->). eexists _, qb. done.
    + intros H. specialize (IH (String x (String y a)) ltac:(simpl; lia)). rewrite !string_app_cons in IH.
      match type of H with match ?t with _ => _ end = _ => destruct t eqn:Hp; [|done] end. injection H as <-.
      destruct (IH _ Hp) as (qa & qb & Ha & -> & ->). exists (String c qa), qb. cbn [Auth.PathUnescape] in Ha |- *.
      rewrite Ha. done.
Qed.
(** The unescaped path is made of the unescaped segments. *)
Lemma unescape_Join ws q :
  ws ≠ [] → Auth.PathUnescape (Join ws "/") = Some q → q = Join (pathUnescape <$> ws) "/".
Proof.
  revert q. induction ws as [|w [|w' ws] IH]; intros q Hne H; [done| |].
  - unfold pathUnescape. simpl in *. by rewrite H.
  - change (Join (w :: w' :: ws) "/") with (w +:+ "/" +:+ Join (w' :: ws) "/")%string in H.
    apply unescape_slash in H as (qa & qb & Ha & Hb & ->).
    rewrite (IH qb ltac:(done) Hb).
    change (Join (pathUnescape <$> w :: w' :: ws) "/")
      with (pathUnescape w +:+ "/" +:+ Join (pathUnescape <$> w' :: ws) "/")%string.
    assert (pathUnescape w = qa) as -> by (unfold pathUnescape; by rewrite Ha). done.
Qed.
Lemma mark_last_spec ws :
  last (mark_last ws) ≠ Some "/"%string → mark_last ws = pathUnescape <$> ws.
Proof.
  induction ws as [|w [|w' ws] IH]; [done| |].
  - simpl. destruct (w =? "")%string; done.
  - cbn [mark_last fmap list_fmap]. intros H. f_equal. apply IH. intros Hl. apply H.
    change (last (pathUnescape w :: mark_last (w' :: ws)) = Some "/"%string).
    destruct (mark_last (w' :: ws)) eqn:E; [|by rewrite last_cons_cons]. by destruct ws.
Qed.
Lemma path_Join u :
  rooted (Auth.EscapedPath u) = true →
  Auth.Path u = ("/" +:+ Join (pathUnescape <$> Split (tail (Auth.EscapedPath u)) "/") "/")%string.
Proof.
  destruct (EscapedPath_spec u) as [_ Hq]. intros (p & Hp)%rooted_cons. rewrite Hp in *. simpl tail. simpl in Hq.
  destruct (Auth.PathUnescape p) as [r|] eqn:Hr; [|done]. injection Hq as <-.
  rewrite <- (Join_Split p) in Hr. by rewrite (unescape_Join _ _ (Split_nonempty _ _) Hr).
Qed.
(** A path without a trailing slash is its segments. *)
Lemma segments_path u :
  rooted (Auth.EscapedPath u) = true → last (path_segments (Auth.EscapedPath u)) ≠ Some "/"%string →
  Auth.Path u = ("/" +:+ Join (path_segments (Auth.EscapedPath u)) "/")%string.
Proof. intros Hr Hl. unfold path_segments in *. rewrite mark_last_spec by done. by apply path_Join. Qed.
Lemma Join_no_slash ws w :
  Join ws "/" = w → w ≠ EmptyString → StringFacts.has_byte "/" w = false → ws = [w].
Proof.
  destruct ws as [|x [|y ws]]; intros <-; [done..|]. intros _ H. exfalso.
  change (Join (x :: y :: ws) "/") with (x +:+ String "/" (Join (y :: ws) "/"))%string in H. revert H.
  unfold StringFacts.has_byte. rewrite Auth.list_ascii_app, existsb_app. simpl. by rewrite orb_true_r.
Qed.
End Segments.

(** ** The serve mux *)
Module Mux.
Import Strings Http Segments.

Inductive segment := Lit (s : string) | Wild (name : string) | Multi.
#[export] Instance segment_eq_dec : EqDecision segment.
Proof. solve_decision. Defined.
Record pattern := { pattern_method : option string; pattern_segments : list segment }.
#[export] Instance pattern_eq_dec : EqDecision pattern.
Proof. solve_decision. Defined.

(** [parsePattern] for patterns without a host: an optional method and a path
    whose segments are literal or one wildcard, with a trailing slash for a
    subtree. *)
Definition parse_segment (s : string) : segment :=
  if HasPrefix s "{" && HasSuffix s "}" then Wild (String.substring 1 (String.length s - 2) s) else Lit (pathUnescape s).
Fixpoint parse_segments (ws : list string) : list segment :=
  match ws with
  | [] => []
  | [w] => [if (w =? "")%string then Multi else parse_segment w]
  | w :: ws' => parse_segment w :: parse_segments ws'
  end.
Definition parsePattern (s : string) : pattern :=
  let '(method, path, found) := Cut s " " in
  if found then {| pattern_method := Some method; pattern_segments := parse_segments (Split (tail path) "/") |}
  else {| pattern_method := None; pattern_segments := parse_segments (Split (tail s) "/") |}.

Section mux.
Context {H : Type}.
Implicit Types (es : list (pattern * H)) (path : list string) (method : string) (r : Request).
(** A node of the routing tree: the patterns below it, with the segments left. *)
Notation node := (list (list segment * (pattern * H))).
Implicit Types cs : node.

Definition below (s : segment) cs : node :=
  omap (λ '(segs, e), match segs with t :: segs' => if decide (s = t) then Some (segs', e) else None | [] => None end) cs.
Definition below_wild cs : node :=
  omap (λ '(segs, e), match segs with Wild _ :: segs' => Some (segs', e) | _ => None end) cs.
(** [routingNode.matchPath]: a literal segment is tried before a wildcard, and a
    wildcard before the rest of a subtree. *)
Fixpoint matchPath cs path (vals : list string) : option (pattern * H * list string) :=
  match path with
  | [] => match list_find (λ c, c.1 = []) cs with Some (_, (_, e)) => Some (e, vals) | None => None end
  | seg :: rest =>
      match matchPath (below (Lit seg) cs) rest vals with
      | Some m => Some m
      | None =>
          match (if (seg =? "/")%string then None else matchPath (below_wild cs) rest (vals ++ [seg])) with
          | Some m => Some m
          | None =>
              match list_find (λ c, c.1 = [Multi]) cs with Some (_, (_, e)) => Some (e, vals) | None => None end
          end
      end
  end.
(** [routingNode.matchMethodAndPath]: the method itself, then [GET] for [HEAD],
    then the patterns without a method. *)
Definition of_method es (m : option string) : node :=
  omap (λ e, if decide (pattern_method e.1 = m) then Some (pattern_segments e.1, e) else None) es.
Definition match_ es method path : option (pattern * H * list string) :=
  match matchPath (of_method es (Some method)) path [] with
  | Some m => Some m
  | None =>
      match (if (method =? "HEAD")%string then matchPath (of_method es (Some "GET"%string)) path [] else None) with
      | Some m => Some m
      | None => matchPath (of_method es None) path []
      end
  end.
(** [exactMatch]: a subtree matches exactly when nothing of the path is left to it. *)
Definition exactMatch (m : option (pattern * H * list string)) path : bool :=
  match m with
  | None => false
  | Some (p, _, _) =>
      negb (bool_decide (last (pattern_segments p) = Some Multi)) ||
      (bool_decide (last path = Some "/"%string) && bool_decide (List.length (pattern_segments p) = List.length path))
  end.

Inductive dispatched : Type :=
| Handled (h : H) (r : Request)
| Redirected (path : string)
| MethodNotAllowed
| NotFound.

Definition wild_names (p : pattern) : list string :=
  omap (λ s, match s with Wild name => Some name | _ => None end) (pattern_segments p).
Definition with_values r (vs : gmap string string) : Request :=
  {| Method := Method r; Url := Url r; RawQuery := RawQuery r; ReqHost := ReqHost r; Header := Header r; PathValues := vs |}.
(** [ServeMux.findHandler] *)
Definition dispatch es r : dispatched :=
  let escapedPath := Auth.EscapedPath (Url r) in
  let path := if (Method r =? "CONNECT")%string then escapedPath else cleanPath escapedPath in
  let m := match_ es (Method r) (path_segments path) in
  if negb (exactMatch m (path_segments path)) && negb (HasSuffix path "/") &&
     exactMatch (match_ es (Method r) (path_segments (path +:+ "/"))) (path_segments (path +:+ "/"))
  then Redirected (cleanPath (Auth.Path (Url r)) +:+ "/")
  else if negb (path =? escapedPath)%string then Redirected path
  else
    match m with
    | Some (p, h, vals) => Handled h (with_values r (list_to_map (zip (wild_names p) vals)))
    | None =>
        if existsb (λ e, bool_decide (is_Some (matchPath [(pattern_segments e.1, e)] (path_segments path) [])) ||
                         (negb (HasSuffix path "/") &&
                          bool_decide (is_Some (matchPath [(pattern_segments e.1, e)] (path_segments (path +:+ "/")) [])))) es
        then MethodNotAllowed else NotFound
    end.
Definition register (rs : list (string * H)) : list (pattern * H) := prod_map parsePattern id <$> rs.

(** *** What a match means *)
Inductive matches : list segment → list string → list string → Prop :=
| matches_nil : matches [] [] []
| matches_lit s segs path w : matches segs path w → matches (Lit s :: segs) (s :: path) w
| matches_wild n segs seg path w : seg ≠ "/"%string → matches segs path w → matches (Wild n :: segs) (seg :: path) (seg :: w)
| matches_multi seg path : matches [Multi] (seg :: path) [].

Lemma matchPath_sound cs path vals e vals' :
  matchPath cs path vals = Some (e, vals') →
  ∃ segs w, (segs, e) ∈ cs ∧ vals' = vals ++ w ∧ matches segs path w.
Proof.
  revert cs vals. induction path as [|seg path IH]; intros cs vals; simpl.
  - destruct (list_find _ cs) as [[i [segs e']]|] eqn:E; [|done]. intros [= -> ->].
    apply list_find_Some in E as (Hi & Hs & _). simpl in Hs. subst. exists [], [].
    rewrite app_nil_r. split_and!; [by eapply list_elem_of_lookup_2|done|constructor].
  - destruct (matchPath (below _ cs) path vals) as [[e1 v1]|] eqn:E1.
    { intros [= -> ->]. apply IH in E1 as (segs & w & Hin & -> & Hm).
      apply list_elem_of_omap in Hin as ([segs' e''] & Hin & Hs). destruct segs' as [|t segs']; [done|].
      case_decide; [|done]. injection Hs as -> ->. subst t. exists (Lit seg :: segs), w. split_and!; [done..|by constructor]. }
    destruct (if (seg =? "/")%string then None else matchPath _ _ _) as [[e2 v2]|] eqn:E2.
    { intros [= -> ->]. destruct (String.eqb_spec seg "/"); [done|].
      apply IH in E2 as (segs & w & Hin & -> & Hm).
      apply list_elem_of_omap in Hin as ([segs' e''] & Hin & Hs). destruct segs' as [|[|name|] segs']; try done.
      injection Hs as -> ->. exists (Wild name :: segs), (seg :: w). rewrite <- app_assoc. split_and!; [done..|by constructor]. }
    destruct (list_find _ cs) as [[i [segs e']]|] eqn:E; [|done]. intros [= -> ->].
    apply list_find_Some in E as (Hi & Hs & _). simpl in Hs. subst. exists [Multi], [].
    rewrite app_nil_r. split_and!; [by eapply list_elem_of_lookup_2|done|constructor].
Qed.

Definition method_matches (p : pattern) method : Prop :=
  match pattern_method p with
  | Some m => m = method ∨ method = "HEAD"%string ∧ m = "GET"%string
  | None => True
  end.
Lemma match_sound es method path p h vals :
  match_ es method path = Some (p, h, vals) →
  (p, h) ∈ es ∧ method_matches p method ∧ matches (pattern_segments p) path vals.
Proof.
  assert (∀ m, matchPath (of_method es m) path [] = Some (p, h, vals) →
    (p, h) ∈ es ∧ pattern_method p = m ∧ matches (pattern_segments p) path vals) as Hone.
  { intros m (segs & w & Hin & -> & Hm)%matchPath_sound. apply list_elem_of_omap in Hin as (e & He & Hs).
    case_decide; [|done]. injection Hs as <- ->. done. }
  unfold match_, method_matches. destruct (matchPath (of_method es (Some method)) path []) as [m|] eqn:E1.
  { intros [= ->]. apply Hone in E1 as (? & -> & ?). auto. }
  destruct (if (method =? "HEAD")%string then matchPath _ _ _ else None) as [m|] eqn:E2.
  { intros [= ->]. destruct (String.eqb_spec method "HEAD") as [->|]; [|done].
    apply Hone in E2 as (? & -> & ?). auto. }
  intros (? & -> & ?)%Hone. auto.
Qed.

Lemma dispatch_handled es r h r' :
  dispatch es r = Handled h r' →
  ∃ p vals, (p, h) ∈ es ∧ method_matches p (Method r) ∧
    matches (pattern_segments p) (path_segments (Auth.EscapedPath (Url r))) vals ∧
    (Method r ≠ "CONNECT"%string → cleanPath (Auth.EscapedPath (Url r)) = Auth.EscapedPath (Url r)) ∧
    r' = with_values r (list_to_map (zip (wild_names p) vals)).
Proof.
  unfold dispatch. cbv zeta. set (path := if (Method r =? "CONNECT")%string then _ else _).
  destruct (_ && _); [done|]. destruct (String.eqb_spec path (Auth.EscapedPath (Url r))) as [Hp|]; [|done].
  cbn [negb]. destruct (match_ es _ _) as [[[p h'] vals]|] eqn:Hm; [|by destruct (existsb _ _)]. intros [= -> <-].
  apply match_sound in Hm as (Hin & Hmm & Hseg). rewrite Hp in Hseg. exists p, vals. split_and!; try done.
  intros Hc. subst path. destruct (String.eqb_spec (Method r) "CONNECT"); done.
Qed.
(** Requests with the same method and escaped path go to the same handler with
    the same path values. *)
Lemma dispatch_ext es r q h r' :
  Method q = Method r → Auth.EscapedPath (Url q) = Auth.EscapedPath (Url r) →
  dispatch es r = Handled h r' → dispatch es q = Handled h (with_values q (PathValues r')).
Proof.
  unfold dispatch. intros -> ->. destruct (_ && _); [done|]. destruct (negb (_ =? _)%string); [done|].
  destruct (match_ es _ _) as [[[p h'] vals]|]; [|by destruct (existsb _ _)]. by intros [= -> <-].
Qed.

(** *** Registration *)
(** Patterns that can match the same request and of which neither is more
    specific make [Handle] panic; patterns a service registers are disjoint. *)
Definition segments_disjoint (a b : list segment) : bool :=
  negb (List.length a =? List.length b)%nat ||
  existsb (λ '(s, t), match s, t with Lit x, Lit y => negb (x =? y)%string | _, _ => false end) (zip a b).
Definition single (segs : list segment) : bool := forallb (λ s, bool_decide (s ≠ Multi)) segs.
Definition disjoint_patterns (p q : pattern) : bool :=
  single (pattern_segments p) && single (pattern_segments q) &&
  (segments_disjoint (pattern_segments p) (pattern_segments q) ||
   match pattern_method p, pattern_method q with
   | Some m, Some m' =>
       negb (m =? m')%string && negb ((m =? "GET")%string && (m' =? "HEAD")%string) &&
       negb ((m =? "HEAD")%string && (m' =? "GET")%string)
   | _, _ => false
   end).
Fixpoint pairwise_disjoint es : bool :=
  match es with
  | [] => true
  | e :: es' => forallb (λ e', disjoint_patterns e.1 e'.1 && disjoint_patterns e'.1 e.1) es' && pairwise_disjoint es'
  end.
Lemma matches_length segs path w : single segs = true → matches segs path w → List.length segs = List.length path.
Proof. intros Hs Hm. induction Hm; simpl in *; [done|auto..|done]. Qed.
Lemma matches_disjoint a b path w w' :
  segments_disjoint a b = true → single a = true → single b = true →
  matches a path w → matches b path w' → False.
Proof.
  intros Hd Ha Hb Hm Hm'. unfold segments_disjoint in Hd.
  rewrite (matches_length _ _ _ Ha Hm), (matches_length _ _ _ Hb Hm'), Nat.eqb_refl in Hd. simpl in Hd.
  clear Ha Hb. revert b w' Hm' Hd. induction Hm as [|s segs path w Hm IH|n segs seg path w Hne Hm IH|seg path]; intros b w' Hm' Hd.
  - by inversion Hm'; subst.
  - inversion Hm'; subst; simpl in Hd; [rewrite String.eqb_refl in Hd; by eapply IH|by eapply IH|by destruct segs].
  - inversion Hm'; subst; simpl in Hd; [by eapply IH..|by destruct segs].
  - inversion Hm'; subst; done.
Qed.
Lemma unique_handler es r e e' w w' :
  pairwise_disjoint es = true → e ∈ es → e' ∈ es →
  method_matches e.1 (Method r) → method_matches e'.1 (Method r) →
  matches (pattern_segments e.1) (path_segments (Auth.EscapedPath (Url r))) w →
  matches (pattern_segments e'.1) (path_segments (Auth.EscapedPath (Url r))) w' → e = e'.
Proof.
  assert (∀ p q, disjoint_patterns p q = true → method_matches p (Method r) → method_matches q (Method r) →
    ∀ path v v', matches (pattern_segments p) path v → matches (pattern_segments q) path v' → False) as Hne.
  { intros p q Hd Hp Hq path v v' Hv Hv'. unfold disjoint_patterns in Hd.
    apply andb_true_iff in Hd as [[Hsp Hsq]%andb_true_iff [Hd|Hd]%orb_true_iff];
      [by eapply matches_disjoint; [exact Hd|..]|].
    unfold method_matches in *. destruct (pattern_method p) as [m|], (pattern_method q) as [m'|]; try done.
    destruct Hp as [->|[Hm ->]], Hq as [->|[Hm' ->]];
      rewrite ?Hm, ?Hm', ?String.eqb_refl in Hd; try done; by rewrite !andb_false_r in Hd. }
  induction es as [|e0 es IH]; simpl; [by rewrite elem_of_nil|]. intros [Hall Hp]%andb_true_iff He He' Hm Hm' Hw Hw'.
  rewrite forallb_forall in Hall. apply elem_of_cons in He as [->|He]; apply elem_of_cons in He' as [->|He']; [done|..|by apply IH];
    exfalso.
  - apply list_elem_of_In, Hall in He'. apply andb_true_iff in He' as [Hd _]. by eapply Hne.
  - apply list_elem_of_In, Hall in He. apply andb_true_iff in He as [_ Hd]. by eapply Hne; [exact Hd|..].
Qed.
End mux.
Arguments dispatched H : clear implicits.
End Mux.
