(* ===== verification/Routes.v ===== *)
(** * Routes from the gateway to the services

    What every service registers ([services/*/server.go],
    [integrations/control_server.go], [integrations/main.go]), composed with
    the mux, the authentication and the routes of the gateway. *)
From stdpp Require Import base option list gmap strings.
From Stdlib Require Import ZArith Lia Ascii String.
From S2P Require Import Prelude Crypto Proto Stores Http Gateway Mux.

(** ** The routes of the services *)
Module ServiceRoutes.
Import Strings Http Gatewayauth Gateway Segments Mux.

(** The handlers, by their method of [API] or [ControlAPI] *)
Inductive handler :=
| health
| dataQuality | usage | costs | allocation | createQueryJob | queryJob | recommendations | recommendation
| registerCluster | listClusters | getCluster
| importCatalogPrices | effectiveCatalogPrice | importBillingCharges
| approve | reject | suppress | execute
| createExport | getExport
| profile | listMembers | putMember | deleteMember
| appendEvent | listEvents
| principal
| listPolicies | createVersion | activateVersion
| createIntegration | listIntegrations | validateIntegration
| snapshot | scores
| namespaceCost.

Definition query_Routes : list (string * handler) :=
  [("GET /healthz", health); ("GET /api/v1/data-quality", dataQuality); ("GET /api/v1/usage", usage);
   ("GET /api/v1/costs", costs); ("GET /api/v1/allocation", allocation); ("POST /api/v1/queries", createQueryJob);
   ("GET /api/v1/queries/{query_id}", queryJob); ("GET /api/v1/recommendations", recommendations);
   ("GET /api/v1/recommendations/{recommendation_id}", recommendation)]%string.
Definition cluster_registry_Routes : list (string * handler) :=
  [("GET /healthz", health); ("POST /api/v1/clusters", registerCluster); ("GET /api/v1/clusters", listClusters);
   ("GET /api/v1/clusters/{cluster_id}", getCluster)]%string.
Definition pricing_Routes : list (string * handler) :=
  [("GET /healthz", health); ("POST /api/v1/prices/catalog", importCatalogPrices);
   ("GET /api/v1/prices/effective", effectiveCatalogPrice); ("POST /api/v1/billing/charges", importBillingCharges)]%string.
Definition workflow_Routes : list (string * handler) :=
  [("GET /healthz", health); ("POST /api/v1/recommendations/{recommendation_id}/approve", approve);
   ("POST /api/v1/recommendations/{recommendation_id}/reject", reject);
   ("POST /api/v1/recommendations/{recommendation_id}/suppress", suppress);
   ("POST /api/v1/recommendations/{recommendation_id}/execute", execute)]%string.
Definition export_Routes : list (string * handler) :=
  [("GET /healthz", health); ("POST /api/v1/exports", createExport); ("GET /api/v1/exports/{export_id}", getExport)]%string.
Definition tenant_Routes : list (string * handler) :=
  [("GET /healthz", health); ("GET /api/v1/tenant", profile); ("GET /api/v1/tenant/members", listMembers);
   ("PUT /api/v1/tenant/members/{principal_id}", putMember);
   ("DELETE /api/v1/tenant/members/{principal_id}", deleteMember)]%string.
Definition audit_Routes : list (string * handler) :=
  [("GET /healthz", health); ("POST /api/v1/audit/events", appendEvent); ("GET /api/v1/audit/events", listEvents)]%string.
Definition identity_Routes : list (string * handler) :=
  [("GET /healthz", health); ("GET /api/v1/identity/principal", principal)]%string.
Definition policy_Routes : list (string * handler) :=
  [("GET /healthz", health); ("GET /api/v1/policies", listPolicies);
   ("POST /api/v1/policies/{family}/versions", createVersion);
   ("POST /api/v1/policies/{family}/versions/{version}/activate", activateVersion)]%string.
Definition control_Routes : list (string * handler) :=
  [("GET /healthz", health); ("POST /api/v1/integrations", createIntegration);
   ("GET /api/v1/integrations", listIntegrations);
   ("POST /api/v1/integrations/{integration_id}/validate", validateIntegration)]%string.
Definition karpenter_Routes : list (string * handler) :=
  [("GET /healthz", health); ("GET /api/v1/karpenter/snapshot", snapshot); ("GET /api/v1/karpenter/scores", scores)]%string.
Definition allocation_Routes : list (string * handler) :=
  [("GET /healthz", health); ("GET /api/v1/namespaces/cost", namespaceCost)]%string.

(** The three programs [integrations/main.go] can run *)
Inductive api_mode := ControlAPI | CombinedAPI | KarpenterAPI.
Inductive part := controlAPI | karpenterAPI.
Definition combined_mux : list (string * part) :=
  [("/", controlAPI); ("GET /api/v1/karpenter/snapshot", karpenterAPI); ("GET /api/v1/karpenter/scores", karpenterAPI)]%string.
Definition part_Routes (p : part) : list (string * handler) :=
  match p with controlAPI => control_Routes | karpenterAPI => karpenter_Routes end.
Definition combined_handler (r : Request) : dispatched handler :=
  match dispatch (register combined_mux) r with
  | Handled p r' => dispatch (register (part_Routes p)) r'
  | Redirected path => Redirected path
  | MethodNotAllowed => MethodNotAllowed
  | NotFound => NotFound
  end.

(** What a service does with a request *)
Definition serve (mode : api_mode) (b : backend) : Request → dispatched handler :=
  match b with
  | query => dispatch (register query_Routes)
  | clusterRegistry => dispatch (register cluster_registry_Routes)
  | pricing => dispatch (register pricing_Routes)
  | workflow => dispatch (register workflow_Routes)
  | export => dispatch (register export_Routes)
  | tenant => dispatch (register tenant_Routes)
  | audit => dispatch (register audit_Routes)
  | identity => dispatch (register identity_Routes)
  | policy => dispatch (register policy_Routes)
  | integrations =>
      match mode with
      | ControlAPI => dispatch (register control_Routes)
      | CombinedAPI => combined_handler
      | KarpenterAPI => dispatch (register karpenter_Routes)
      end
  end.

(** The gateway behind its own mux; [Gateway.Routes] is its behaviour on clean
    paths. *)
Inductive gateway_handler := gateway_health | gateway_route.
Definition gateway_mux : list (string * gateway_handler) := [("GET /healthz", gateway_health); ("/", gateway_route)]%string.
Definition gateway_serve (s : Server) (now : Time) (r : Request) : dispatched outcome :=
  match dispatch (register gateway_mux) r with
  | Handled gateway_health r' => Handled Healthy r'
  | Handled gateway_route r' =>
      Handled match authenticate s now r' with
                | Err p => Refused p
                | Ok r'' =>
                    match route r'' with
                    | Some b => Proxied b (proxy (proxies s b) r'')
                    | None => Refused (problem_of StatusNotFound "not_found" "route not found")
                    end
                end r'
  | Redirected path => Redirected path
  | MethodNotAllowed => MethodNotAllowed
  | NotFound => NotFound
  end.

(** The handlers no request reaches through the gateway *)
Definition reached (h : handler) (method : string) : bool :=
  match h with
  | createQueryJob | queryJob | snapshot | scores => false
  | recommendation => negb (method =? "HEAD")%string
  | _ => true
  end.

(** *** Registration does not panic *)
Example services_disjoint :
  forallb (λ rs, pairwise_disjoint (register rs))
    [query_Routes; cluster_registry_Routes; pricing_Routes; workflow_Routes; export_Routes; tenant_Routes; audit_Routes;
     identity_Routes; policy_Routes; control_Routes; karpenter_Routes; allocation_Routes] = true.
Proof. vm_compute. reflexivity. Qed.

(** *** Lemmas *)
(** [after_last] and suffixes of paths that end in a word *)
Lemma after_last_app sep a b : after_last sep b = None → after_last sep (a +:+ String sep b)%string = Some b.
Proof.
  intros Hb. induction a as [|c a IH].
  - simpl. by rewrite Hb, Ascii.eqb_refl.
  - rewrite StringFacts.string_app_cons. simpl. by rewrite IH.
Qed.
Lemma substring_app n m a b : String.substring (String.length a + n) m (a +:+ b)%string = String.substring n m b.
Proof. induction a as [|c a IH]; [done|]. rewrite StringFacts.string_app_cons. simpl. exact IH. Qed.
Lemma length_string_app (a b : string) : String.length (a +:+ b)%string = (String.length a + String.length b)%nat.
Proof. induction a as [|c a IH]; [done|]. rewrite StringFacts.string_app_cons. simpl. by rewrite IH. Qed.
Lemma HasSuffix_app a b p : (String.length p ≤ String.length b)%nat → HasSuffix (a +:+ b)%string p = HasSuffix b p.
Proof.
  intros Hl. unfold HasSuffix. cbv zeta. rewrite length_string_app, <- Nat.add_sub_assoc, substring_app by done. f_equal.
  by rewrite !(proj2 (Nat.leb_le _ _)) by lia.
Qed.
Lemma recommendationAction_app a b :
  after_last "/" b = None → HasSuffix b "/" = false → b ≠ EmptyString → recommendationAction (a +:+ String "/" b)%string = b.
Proof.
  intros Hb Hs Hne. unfold recommendationAction, TrimSuffix.
  change (String "/" b) with ("/" +:+ b)%string. rewrite StringFacts.string_app_assoc, HasSuffix_app, Hs by (destruct b; simpl; [done|lia]).
  rewrite <- StringFacts.string_app_assoc. change ("/" +:+ b)%string with (String "/" b). by rewrite after_last_app.
Qed.

(** [route] reads the method and the path. *)
Definition route_of (method path : string) : option backend := route (sample_request method path "" []).
Lemma route_eq r : route r = route_of (Method r) (Auth.Path (Url r)).
Proof. reflexivity. Qed.
Lemma route_command x a :
  a ∈ ["approve"; "reject"; "suppress"; "execute"]%string →
  route_of "POST" ("/api/v1/recommendations/" +:+ x +:+ "/" +:+ a)%string = Some workflow.
Proof.
  intros Ha. assert (recommendationAction ("/api/v1/recommendations/" +:+ x +:+ "/" +:+ a)%string = a) as Hr.
  { rewrite StringFacts.string_app_assoc. apply recommendationAction_app; revert Ha; rewrite !elem_of_cons, elem_of_nil;
      intros [-> |[-> |[-> |[-> |[]]]]]; done. }
  unfold route_of, route, isRecommendationCommand. cbn [Method Url Auth.Path sample_request]. rewrite Hr.
  rewrite bool_decide_true by done. clear. destruct x; vm_compute; reflexivity.
Qed.

(** A pattern with a method and without a trailing slash *)
Definition plain_pattern (p : pattern) : bool :=
  match pattern_method p with Some m => negb (m =? "CONNECT")%string | None => false end &&
  forallb (λ s, match s with Lit x => negb (x =? "/")%string | Wild _ => true | Multi => false end) (pattern_segments p).
Lemma matches_last segs path w :
  forallb (λ s, match s with Lit x => negb (x =? "/")%string | Wild _ => true | Multi => false end) segs = true →
  matches segs path w → last path ≠ Some "/"%string.
Proof.
  intros Hp Hm. induction Hm as [|s segs path w Hm IH|n segs seg path w Hne Hm IH|seg path]; [done| | |done].
  - apply andb_true_iff in Hp as [Hs Hp]. specialize (IH Hp). destruct path as [|t path]; [|by rewrite last_cons_cons].
    simpl. by destruct (String.eqb_spec s "/"); [|intros [= ->]].
  - simpl in Hp. specialize (IH Hp). destruct path as [|t path]; [|by rewrite last_cons_cons].
    simpl. by intros [= ->].
Qed.
Lemma handled_plain {H : Type} (es : list (pattern * H)) r h r' :
  forallb (λ e, plain_pattern e.1) es = true → dispatch es r = Handled h r' →
  ∃ p vals, let path := path_segments (Auth.EscapedPath (Url r)) in
    (p, h) ∈ es ∧ method_matches p (Method r) ∧ matches (pattern_segments p) path vals ∧
    Auth.Path (Url r) = ("/" +:+ Join path "/")%string ∧ Method r ≠ "CONNECT"%string ∧
    cleanPath (Auth.EscapedPath (Url r)) = Auth.EscapedPath (Url r).
Proof.
  intros Hall (p & vals & Hin & Hm & Hs & Hc & _)%dispatch_handled. rewrite forallb_forall in Hall.
  assert (plain_pattern p = true) as Hp by (apply (Hall (p, h)); by apply list_elem_of_In).
  apply andb_true_iff in Hp as [Hpm Hps].
  assert (Method r ≠ "CONNECT"%string) as Hne.
  { intros E. rewrite E in Hm. unfold method_matches in Hm. destruct (pattern_method p) as [m|]; [|done].
    destruct Hm as [-> |[? _]]; done. }
  specialize (Hc Hne). exists p, vals. split_and!; try done.
  apply segments_path; [|by eapply matches_last]. rewrite <- Hc. apply cleanPath_rooted.
Qed.

(** What the gateway does with the requests a service registers *)
Definition routed (b : backend) (e : pattern * handler) : Prop :=
  ∀ method path vals, method_matches e.1 method → matches (pattern_segments e.1) path vals → e.2 ≠ health →
    path ≠ ["healthz"%string] ∧ route_of method ("/" +:+ Join path "/")%string = if reached e.2 method then Some b else None.

Ltac route_by_cases :=
  let method := fresh in let path := fresh in let vals := fresh in let Hm := fresh in let Hs := fresh in
  intros method path vals Hm Hs ?; cbn [fst snd pattern_segments] in *;
  repeat match goal with H : matches _ _ _ |- _ => inversion H; clear H; subst end;
  unfold method_matches in Hm; cbn [pattern_method] in Hm;
  destruct Hm as [<-|[-> Hm]]; [|try discriminate Hm];
  (split; [done|]); first [ done | vm_compute; reflexivity
        | apply route_command; repeat first [left | right]
        | match goal with x : string |- _ => destruct x; vm_compute; reflexivity end ].
Ltac routes_by_cases rs :=
  let l := eval vm_compute in (register rs) in
  replace (register rs) with l by (vm_compute; reflexivity);
  repeat apply Forall_cons_2; [..|apply Forall_nil_2]; route_by_cases.

Lemma query_routed : Forall (routed query) (register query_Routes).
Proof. routes_by_cases query_Routes. Qed.
Lemma cluster_registry_routed : Forall (routed clusterRegistry) (register cluster_registry_Routes).
Proof. routes_by_cases cluster_registry_Routes. Qed.
Lemma pricing_routed : Forall (routed pricing) (register pricing_Routes).
Proof. routes_by_cases pricing_Routes. Qed.
Lemma workflow_routed : Forall (routed workflow) (register workflow_Routes).
Proof. routes_by_cases workflow_Routes. Qed.
Lemma export_routed : Forall (routed export) (register export_Routes).
Proof. routes_by_cases export_Routes. Qed.
Lemma tenant_routed : Forall (routed tenant) (register tenant_Routes).
Proof. routes_by_cases tenant_Routes. Qed.
Lemma audit_routed : Forall (routed audit) (register audit_Routes).
Proof. routes_by_cases audit_Routes. Qed.
Lemma identity_routed : Forall (routed identity) (register identity_Routes).
Proof. routes_by_cases identity_Routes. Qed.
Lemma policy_routed : Forall (routed policy) (register policy_Routes).
Proof. routes_by_cases policy_Routes. Qed.
Lemma control_routed : Forall (routed integrations) (register control_Routes).
Proof. routes_by_cases control_Routes. Qed.
Lemma karpenter_routed : Forall (routed integrations) (register karpenter_Routes).
Proof. routes_by_cases karpenter_Routes. Qed.

(** What is known of a request some service handles *)
Record handled (b : backend) (h : handler) (r : Request) : Prop := {
  handled_clean : cleanPath (Auth.EscapedPath (Url r)) = Auth.EscapedPath (Url r);
  handled_method : Method r ≠ "CONNECT"%string;
  handled_healthz : h ≠ health → path_segments (Auth.EscapedPath (Url r)) ≠ ["healthz"%string];
  handled_route : h ≠ health → route r = if reached h (Method r) then Some b else None
}.
Lemma dispatch_routed b rs r h r' :
  Forall (routed b) (register rs) → forallb (λ e, plain_pattern e.1) (register rs) = true →
  dispatch (register rs) r = Handled h r' → handled b h r.
Proof.
  intros Hall Hplain Hd. destruct (handled_plain _ _ _ _ Hplain Hd) as (p & vals & Hin & Hm & Hs & Hp & Hc & Hclean).
  rewrite Forall_forall in Hall. specialize (Hall _ Hin _ _ _ Hm Hs). simpl in Hall.
  split; [done..| |]; intros Hh; destruct (Hall Hh) as [? Hr]; [done|]. by rewrite route_eq, Hp.
Qed.
Lemma with_values_handled b h r vs : handled b h (with_values r vs) → handled b h r.
Proof. by intros []; split. Qed.
Lemma serve_handled mode b r h r' : serve mode b r = Handled h r' → handled b h r.
Proof.
  assert (∀ rs b', Forall (routed b') (register rs) → forallb (λ e, plain_pattern e.1) (register rs) = true →
    ∀ r r', dispatch (register rs) r = Handled h r' → handled b' h r) as Hd by (intros; by eapply dispatch_routed).
  destruct b; cbn [serve]; [..|destruct mode].
  - apply Hd; [exact query_routed|by vm_compute].
  - apply Hd; [exact cluster_registry_routed|by vm_compute].
  - apply Hd; [exact pricing_routed|by vm_compute].
  - apply Hd; [exact workflow_routed|by vm_compute].
  - apply Hd; [exact export_routed|by vm_compute].
  - apply Hd; [exact tenant_routed|by vm_compute].
  - apply Hd; [exact audit_routed|by vm_compute].
  - apply Hd; [exact identity_routed|by vm_compute].
  - apply Hd; [exact policy_routed|by vm_compute].
  - apply Hd; [exact control_routed|by vm_compute].
  - unfold combined_handler. destruct (dispatch (register combined_mux) r) as [p r1|?| |] eqn:Hp; [|done..].
    apply dispatch_handled in Hp as (q & vals & _ & _ & _ & _ & ->). intros Hr.
    apply (with_values_handled _ _ _ (list_to_map (zip (wild_names q) vals))). revert Hr.
    destruct p; apply Hd; [exact control_routed|by vm_compute|exact karpenter_routed|by vm_compute].
  - apply Hd; [exact karpenter_routed|by vm_compute].
Qed.
(** A service treats requests with the same method and escaped path alike. *)
Lemma serve_ext mode b r q h r' :
  Method q = Method r → Auth.EscapedPath (Url q) = Auth.EscapedPath (Url r) →
  serve mode b r = Handled h r' → serve mode b q = Handled h (with_values q (PathValues r')).
Proof.
  intros Hm He. destruct b; cbn [serve]; [..|destruct mode]; try by apply dispatch_ext.
  unfold combined_handler. destruct (dispatch (register combined_mux) r) as [p r1|?| |] eqn:Hp; [|done..].
  pose proof (dispatch_handled _ _ _ _ Hp) as (? & ? & _ & _ & _ & _ & Er).
  rewrite (dispatch_ext _ _ _ _ _ Hm He Hp). intros Hh.
  apply (dispatch_ext _ _ (with_values q (PathValues r1))) in Hh; [exact Hh|by subst..].
Qed.

Lemma length_mark_last ws : List.length (mark_last ws) = List.length ws.
Proof. induction ws as [|w [|w' ws] IH]; [done..|]. cbn [mark_last List.length] in *. by rewrite IH. Qed.
Lemma path_segments_nonempty p : path_segments p ≠ [].
Proof.
  unfold path_segments. intros H%(f_equal List.length). rewrite length_mark_last in H.
  by destruct (Split (tail p) "/") eqn:E; [eapply Split_nonempty|].
Qed.
Lemma path_segments_slash p : p ≠ EmptyString → (2 ≤ List.length (path_segments (p +:+ "/")))%nat.
Proof.
  destruct p as [|c p]; [done|]. intros _. rewrite StringFacts.string_app_cons. unfold path_segments. simpl tail.
  rewrite length_mark_last. change (Split (p +:+ "/") "/") with (Split (p +:+ "/" +:+ "") Paths.slash).
  rewrite (Paths.Split_join_cons p ""), length_app. pose proof (Split_nonempty p Paths.slash).
  destruct (Split p Paths.slash); [done|]. simpl. lia.
Qed.
Definition root_pattern : pattern := {| pattern_method := None; pattern_segments := [Multi] |}.
Lemma gateway_matches m path e vals :
  matchPath (of_method (register gateway_mux) m) path [] = Some (e, vals) →
  path = ["healthz"%string] ∨ m = None ∧ e.1 = root_pattern.
Proof.
  intros (segs & w & Hin & _ & Hm)%matchPath_sound. apply list_elem_of_omap in Hin as (e' & He & Hs).
  case_decide as Hpm; [|done]. injection Hs as <- <-.
  change (register gateway_mux) with
    [({| pattern_method := Some "GET"%string; pattern_segments := [Lit "healthz"] |}, gateway_health); (root_pattern, gateway_route)] in He.
  rewrite !elem_of_cons, elem_of_nil in He. destruct He as [-> |[-> |[]]]; simpl in *.
  - left. inversion Hm as [|? ? ? ? H'| |]; subst. by inversion H'.
  - by right.
Qed.
Lemma matchPath_nil {H : Type} path vals : matchPath (H := H) [] path vals = None.
Proof. revert vals. induction path as [|seg path IH]; intros vals; [done|]. simpl. rewrite !IH. by destruct (seg =? "/")%string. Qed.
Lemma gateway_match method path :
  path ≠ [] → path ≠ ["healthz"%string] →
  match_ (register gateway_mux) method path = Some (root_pattern, gateway_route, []).
Proof.
  intros Hne Hz.
  assert (∀ m, matchPath (of_method (register gateway_mux) (Some m)) path [] = None) as Hnone.
  { intros m. destruct (matchPath _ _ _) as [[e vals]|] eqn:E; [|done].
    by apply gateway_matches in E as [? |[? _]]. }
  unfold match_. rewrite !Hnone.
  assert ((if (method =? "HEAD")%string then None else None) = @None (pattern * gateway_handler * list string)) as ->
    by (by destruct (method =? "HEAD")%string).
  change (of_method (register gateway_mux) None) with [([Multi], (root_pattern, gateway_route))].
  destruct path as [|seg path]; [done|]. simpl. rewrite !matchPath_nil. by destruct (seg =? "/")%string.
Qed.
(** The gateway's mux hands everything else on a clean path to [route]. *)
Lemma gateway_routes r :
  cleanPath (Auth.EscapedPath (Url r)) = Auth.EscapedPath (Url r) → path_segments (Auth.EscapedPath (Url r)) ≠ ["healthz"%string] →
  dispatch (register gateway_mux) r = Handled gateway_route (with_values r ∅).
Proof.
  intros Hc Hz. unfold dispatch. cbv zeta. rewrite Hc.
  assert ((if (Method r =? "CONNECT")%string then Auth.EscapedPath (Url r) else Auth.EscapedPath (Url r)) = Auth.EscapedPath (Url r)) as ->
    by (by destruct (_ =? _)%string).
  set (p := Auth.EscapedPath (Url r)) in *. pose proof (cleanPath_rooted p) as Hr. rewrite Hc in Hr.
  assert (2 ≤ List.length (path_segments (p +:+ "/")))%nat as Hl
    by (apply path_segments_slash; apply rooted_cons in Hr as [? ->]; done).
  rewrite (gateway_match _ (path_segments (p +:+ "/"))) by (destruct (path_segments (p +:+ "/")) as [|? [|??]]; simpl in *; [lia..|done]).
  rewrite gateway_match by (done || apply path_segments_nonempty).
  assert (exactMatch (Some (root_pattern, gateway_route, [])) (path_segments (p +:+ "/")) = false) as ->.
  { unfold exactMatch. cbn. rewrite (bool_decide_false (1%nat = _)) by lia. by rewrite andb_false_r. }
  rewrite andb_false_r, String.eqb_refl. done.
Qed.
Lemma authenticate_with_values s now r vs t p :
  identityFromRequest s r = Ok (t, p) →
  ∃ r', authenticate s now (with_values r vs) = Ok r' ∧ Method r' = Method r ∧ Url r' = Url r.
Proof.
  intros Hid. unfold authenticate. change (identityFromRequest s (with_values r vs)) with (identityFromRequest s r). rewrite Hid.
  eexists. split; [done|]. unfold SignRequest. by destruct (_ =? "")%string.
Qed.

(** On clean paths the mux of the gateway is [Gateway.Routes]. *)
Lemma gateway_serve_routes s now r :
  cleanPath (Auth.EscapedPath (Url r)) = Auth.EscapedPath (Url r) → path_segments (Auth.EscapedPath (Url r)) ≠ ["healthz"%string] →
  gateway_serve s now r = Handled (Routes s now (with_values r ∅)) (with_values r ∅).
Proof.
  intros Hc Hz. unfold gateway_serve. rewrite gateway_routes by done. f_equal. unfold Routes.
  replace (Auth.Path (Url (with_values r ∅)) =? "/healthz")%string with false; [by rewrite andb_false_r|].
  symmetry. apply String.eqb_neq. intros Hp. apply Hz. change (Url (with_values r ∅)) with (Url r) in Hp.
  pose proof (cleanPath_rooted (Auth.EscapedPath (Url r))) as Hr. rewrite Hc in Hr. rewrite (path_Join _ Hr) in Hp.
  unfold path_segments. set (ws := Split _ _) in *. injection Hp as Hp.
  apply Join_no_slash in Hp; [|done..]. destruct ws as [|w [|? ?]]; [done| |done]. injection Hp as Hw. simpl.
  destruct (String.eqb_spec w "") as [-> |]; [done|]. by rewrite Hw.
Qed.
Lemma gateway_refuses s now r t p :
  cleanPath (Auth.EscapedPath (Url r)) = Auth.EscapedPath (Url r) → path_segments (Auth.EscapedPath (Url r)) ≠ ["healthz"%string] →
  identityFromRequest s r = Ok (t, p) → route r = None →
  gateway_serve s now r =
    Handled (Refused (problem_of StatusNotFound "not_found" "route not found")) (with_values r ∅).
Proof.
  intros Hc Hz Hid Hr. unfold gateway_serve. rewrite gateway_routes by done. f_equal.
  destruct (authenticate_with_values s now r ∅ t p Hid) as (r' & -> & Hm & Hu).
  by rewrite route_eq, Hm, Hu, <- route_eq, Hr.
Qed.
Lemma gateway_proxies s now r t p b :
  cleanPath (Auth.EscapedPath (Url r)) = Auth.EscapedPath (Url r) → path_segments (Auth.EscapedPath (Url r)) ≠ ["healthz"%string] →
  identityFromRequest s r = Ok (t, p) → route r = Some b → bare_target (proxies s b) →
  ∃ q, gateway_serve s now r = Handled (Proxied b (Some q)) (with_values r ∅) ∧
    Method q = Method r ∧ Auth.EscapedPath (Url q) = Auth.EscapedPath (Url r).
Proof.
  intros Hc Hz Hid Hr Ht. unfold gateway_serve. rewrite gateway_routes by done.
  destruct (authenticate_with_values s now r ∅ t p Hid) as (r' & -> & Hm & Hu).
  rewrite route_eq, Hm, Hu, <- route_eq, Hr.
  pose proof (cleanPath_rooted (Auth.EscapedPath (Url r))) as Hroot. rewrite Hc, <- Hu in Hroot.
  destruct (ReverseProxy_received (proxies s b) r' Ht Hroot) as (q & Hq & Hm' & _ & He & _).
  exists q. unfold proxy. rewrite Hq. split_and!; [done|by rewrite Hm'|by rewrite He, Hu].
Qed.

(** The allocation service stands beside the gateway. *)
Lemma allocation_not_routed r q :
  dispatch (register allocation_Routes) r = Handled namespaceCost q →
  cleanPath (Auth.EscapedPath (Url r)) = Auth.EscapedPath (Url r) ∧
  path_segments (Auth.EscapedPath (Url r)) ≠ ["healthz"%string] ∧ route r = None.
Proof.
  intros (p & vals & Hin & Hm & Hs & Hp & _ & Hc)%handled_plain; [|by vm_compute]. split; [done|].
  rewrite route_eq, Hp. revert Hin Hm Hs. generalize (path_segments (Auth.EscapedPath (Url r))). intros path Hin Hm Hs.
  unfold register in Hin. simpl in Hin. rewrite !elem_of_cons, elem_of_nil in Hin. destruct Hin as [[=]|[[= ->]|[]]].
  change (pattern_segments _) with [Lit "api"; Lit "v1"; Lit "namespaces"; Lit "cost"]%string in Hs.
  change (method_matches _ _) with ("GET" = Method r ∨ Method r = "HEAD" ∧ "GET" = "GET")%string in Hm.
  repeat match goal with H : matches _ _ _ |- _ => inversion H; clear H; subst end. split; [done|].
  destruct Hm as [<-|[-> _]]; vm_compute; reflexivity.
Qed.

(** C37: the routes of the services behind the gateway. An authenticated request that one
    of the ten services with a backend would hand to a handler is forwarded to that
    service, which hands it to the same handler, with the same path values; and a
    service that trusts the gateway, has a working clock within the allowed skew and
    receives all headers of the gateway (none is named in [Connection]) accepts it for
    the tenant of the token. The exceptions are the query jobs, the Karpenter endpoints,
    [HEAD] of one recommendation and the namespace costs of the allocation service, which
    has no backend: the gateway answers them with 404. The backend's URL is assumed to
    have no path or query of its own. *)
Theorem requests_reach_handlers Parse env config s now r t p :
  ConfigFromEnv Parse env = Ok config → NewServer config = Ok s → clock now → identityFromRequest s r = Ok (t, p) →
  let not_found := Handled (Refused (problem_of StatusNotFound "not_found" "route not found")) (with_values r ∅) in
  (∀ mode b h r', bare_target (proxies s b) → serve mode b r = Handled h r' → h ≠ health →
     if reached h (Method r)
     then ∃ q, gateway_serve s now r = Handled (Proxied b (Some q)) (with_values r ∅) ∧
            serve mode b q = Handled h (with_values q (PathValues r')) ∧
            ∀ env' now', trusts config env' → clock now' → within maxSkew now now' →
              Forall (λ k, ¬ dropped r k) gateway_headers →
              authenticatedTenant env' now' (with_values q (PathValues r')) = Ok t
     else gateway_serve s now r = not_found) ∧
  (∀ r', dispatch (register allocation_Routes) r = Handled namespaceCost r' → gateway_serve s now r = not_found).
Proof.
  intros Hcfg Hnew Hclock Hid. split; [|by intros r' (? & ? & ?)%allocation_not_routed; eapply gateway_refuses].
  intros mode b h r' Ht Hserve Hh. destruct (serve_handled _ _ _ _ _ Hserve) as [Hc _ Hz Hr].
  specialize (Hz Hh). specialize (Hr Hh). destruct (reached h (Method r)); [|by eapply gateway_refuses].
  destruct (gateway_proxies s now r t p b Hc Hz Hid Hr Ht) as (q & Hg & Hm & He). exists q.
  split_and!; [done|by apply (serve_ext mode b r q)|]. intros env' now' Htr Hc' Hw Hd.
  rewrite gateway_serve_routes in Hg by done. injection Hg as Hg.
  pose proof (cleanPath_rooted (Auth.EscapedPath (Url r))) as Hroot. rewrite Hc in Hroot.
  destruct (proxied_values _ _ _ _ _ _ _ _ Hcfg Hnew Hg Ht Hroot Hclock) as (token & t' & q' & Hb & Htok & [= <-] & _ & Hauth).
  change (authenticatedTenant env' now' (with_values q (PathValues r'))) with (authenticatedTenant env' now' q).
  destruct (configured_server _ _ _ _ Hcfg Hnew) as (_ & Et & _).
  apply identity_bearer in Hid as (token' & Hb' & Htok' & _).
  change (bearer (with_values r ∅)) with (bearer r) in Hb. rewrite Hb' in Hb. injection Hb as ->.
  rewrite <- Et, Htok' in Htok. injection Htok as ->.
  apply Hauth; try done. unfold gateway_headers in Hd. rewrite !Forall_cons in Hd. destruct Hd as (D1 & D2 & D3 & D4 & D5 & D6 & _).
  by repeat constructor.
Qed.

(** The services do not compete for requests. *)
Lemma one_service_reached mode mode' b b' r h h' q q' :
  serve mode b r = Handled h q → serve mode' b' r = Handled h' q' → h ≠ health → h' ≠ health →
  reached h (Method r) = true → reached h' (Method r) = true → b = b'.
Proof.
  intros [_ _ _ H]%serve_handled [_ _ _ H']%serve_handled Hh Hh' R R'. specialize (H Hh). specialize (H' Hh').
  rewrite R in H. rewrite R' in H'. rewrite H in H'. by injection H'.
Qed.
(** *** A concrete gateway *)
#[local] Instance dropped_decision r k : Decision (dropped r k).
Proof. unfold dropped, names. apply _. Defined.
Definition sample_activation : Request :=
  sample_request "POST" "/api/v1/policies/scale/versions/7/activate" "" [("authorization", "Bearer token-a")]%string.
Definition sample_job : Request := sample_request "POST" "/api/v1/queries" "" [("authorization", "Bearer token-a")]%string.
Definition values_of {H : Type} (d : dispatched H) : list (string * string) :=
  match d with Handled _ r => map_to_list (PathValues r) | _ => [] end.
Example activation_values :
  values_of (serve ControlAPI policy sample_activation) = [("version", "7"); ("family", "scale")]%string.
Proof. vm_compute. reflexivity. Qed.
Example trailing_slash : serve ControlAPI clusterRegistry (sample_request "GET" "/api/v1/clusters/" "" []) = NotFound.
Proof. vm_compute. reflexivity. Qed.
Example wrong_method : serve ControlAPI policy (sample_request "DELETE" "/api/v1/policies" "" []) = MethodNotAllowed.
Proof. vm_compute. reflexivity. Qed.
Example dirty_path :
  serve ControlAPI policy (sample_request "GET" "/api//v1/x/../policies" "" []) = Redirected "/api/v1/policies".
Proof. vm_compute. reflexivity. Qed.
Example encoded_slash :
  values_of (serve ControlAPI clusterRegistry
    (with_url (sample_request "GET" "" "" []) {| Auth.Scheme := ""; Auth.Host := ""; Auth.Path := "/api/v1/clusters/a/b";
       Auth.RawPath := "/api/v1/clusters/a%2Fb" |})) = [("cluster_id", "a/b")]%string.
Proof. vm_compute. reflexivity. Qed.

Lemma requests_reach_handlers_witness :
  ∃ config s q, sample_config = Ok config ∧ NewServer config = Ok s ∧
    gateway_serve s sample_time sample_activation = Handled (Proxied policy (Some q)) (with_values sample_activation ∅) ∧
    (∃ q', serve ControlAPI policy q = Handled activateVersion q' ∧ PathValue q' "version" = "7"%string ∧
       authenticatedTenant sample_backend_env (sample_time + 3 * Minute) q' = Ok "tenant-a"%string) ∧
    gateway_serve s sample_time sample_job =
      Handled (Refused (problem_of StatusNotFound "not_found" "route not found")) (with_values sample_job ∅).
Proof.
  destruct sample_config as [config|] eqn:Hc; [|by vm_compute in Hc].
  destruct (NewServer config) as [s|] eqn:Hs; [|vm_compute in Hc; injection Hc as <-; by vm_compute in Hs].
  assert (identityFromRequest s sample_activation = Ok ("tenant-a", "user-a")%string ∧
    identityFromRequest s sample_job = Ok ("tenant-a", "user-a")%string ∧ bare_target (proxies s policy) ∧
    bare_target (proxies s query) ∧ trusts config sample_backend_env) as (Hi & Hi' & Hb & Hb' & Htr).
  { vm_compute in Hc. injection Hc as <-. injection Hs as <-. split_and!; [vm_compute; reflexivity..| | |].
    - split; [by left|done].
    - split; [by left|done].
    - split; by_evaluation. }
  assert (clock sample_time) as Hclock by (split; vm_compute; [discriminate|reflexivity]).
  assert (∃ r', serve ControlAPI policy sample_activation = Handled activateVersion r' ∧ PathValue r' "version" = "7"%string)
    as (r' & Hr & Hv) by (eexists; split; vm_compute; reflexivity).
  assert (∃ r'', serve ControlAPI query sample_job = Handled createQueryJob r'') as (r'' & Hr'') by (eexists; vm_compute; reflexivity).
  destruct (requests_reach_handlers sample_parse sample_env config s sample_time sample_activation "tenant-a" "user-a"
    Hc Hs Hclock Hi) as [Hreach _].
  destruct (Hreach ControlAPI policy activateVersion r' Hb Hr ltac:(discriminate)) as (q & Hg & Hq & Hauth).
  destruct (requests_reach_handlers sample_parse sample_env config s sample_time sample_job "tenant-a" "user-a"
    Hc Hs Hclock Hi') as [Hreach' _].
  pose proof (Hreach' ControlAPI query createQueryJob r'' Hb' Hr'' ltac:(discriminate)) as Hrefused.
  exists config, s, q. split_and!; [reflexivity|exact Hs|exact Hg| |exact Hrefused].
  eexists. split_and!; [exact Hq|exact Hv|].
  apply Hauth; [exact Htr|split; vm_compute; [discriminate|reflexivity]|split; vm_compute; discriminate|by_evaluation].
Defined.
End ServiceRoutes.
