(* ===== verification/Workflow.v ===== *)
(** * The recommendation workflow

    [services/workflow]: the commands that approve, reject, suppress or execute a
    recommendation, from the HTTP handler ([server.go]) to the rows they write
    ([repository.go]), against a model of the two ClickHouse tables they use.

    [shopspring/decimal] and [google/uuid] are not part of the repository and
    [encoding/json] documents are not looked into: they are parameters. *)
From stdpp Require Import base option list gmap strings.
From Stdlib Require Import ZArith Lia.
From S2P Require Import Prelude Proto Stores Effects Http.

Module Workflow.
Import Http Gatewayauth.

(** ** Data *)

Record Recommendation := {
  TenantID : string;
  RecommendationID : string;
  ClusterID : string;
  NamespaceUID : string;
  TargetKind : string;
  TargetUID : string;
  RecommendationType : string;
  SafetyClass : string;
  Status : string;
  AnalysisWindowStart : Time;
  AnalysisWindowEnd : Time;
  GeneratedAt : Time;
  ExpiresAt : Time;
  CurrentConfiguration : string;
  ProposedConfiguration : string;
  Evidence : string;
  Currency : string;
  MonthlyGrossSavings : string;
  MonthlyNetSavings : string;
  Confidence : string;
  RiskScore : string;
  PolicyVersion : string;
  ModelVersion : string;
  ComputationVersion : string;
  Version : Z
}.
Record ExecutionRequest := {
  Exec_ExecutionID : string;
  Exec_TenantID : string;
  Exec_RecommendationID : string;
  Exec_ActionID : string;
  Exec_ClusterID : string;
  Exec_NamespaceUID : string;
  Exec_TargetKind : string;
  Exec_TargetUID : string;
  Exec_RecommendationType : string;
  Exec_SafetyClass : string;
  Exec_PolicyVersion : string;
  Exec_CurrentConfiguration : string;
  Exec_ProposedConfiguration : string;
  Exec_Evidence : string;
  Exec_RequestedAt : Time;
  Exec_Status : string
}.
Record ActionReference := {
  Act_TenantID : string;
  Act_RecommendationID : string;
  Act_ActionID : string;
  Act_Action : string;
  Act_ExecutionID : string;
  Act_Status : string;
  Act_OccurredAt : Time
}.
Record WorkflowResult := {
  Result_Recommendation : Recommendation;
  Result_Action : ActionReference;
  Result_ExecutionRequest : option ExecutionRequest
}.

(** Errors of a command; [Panicked] is a run-time panic. *)
Inductive error :=
| ErrRecommendationNotFound
| ErrVersionConflict
| ErrInvalidTransition (current next : string)
| Failed (detail : string)
| Panicked.

Definition transitionAllowed (current next : string) : bool :=
  if (next =? "approved")%string then (current =? "open")%string || (current =? "acknowledged")%string
  else if (next =? "rejected")%string || (next =? "suppressed")%string
  then (current =? "open")%string || (current =? "acknowledged")%string || (current =? "approved")%string
  else if (next =? "executing")%string then (current =? "approved")%string
  else false.

Definition recommendationColumns : list string :=
  ["tenant_id"; "recommendation_id"; "cluster_id"; "namespace_uid"; "target_kind"; "target_uid";
   "recommendation_type"; "safety_class"; "status"; "analysis_window_start"; "analysis_window_end";
   "generated_at"; "expires_at"; "current_configuration"; "proposed_configuration"; "evidence";
   "currency"; "monthly_gross_savings"; "monthly_net_savings"; "confidence"; "risk_score";
   "policy_version"; "model_version"; "computation_version"; "version"]%string.
Definition actionColumns : list string :=
  ["tenant_id"; "recommendation_id"; "action_id"; "action"; "actor_type"; "actor_id";
   "reason"; "occurred_at"; "execution_id"; "result"; "details"]%string.
Fixpoint joinColumns (columns : list string) : string :=
  match columns with
  | [] => ""
  | [column] => column
  | column :: columns' => column +:+ ", " +:+ joinColumns columns'
  end.

Section workflow.
(** [decimal.Decimal] with [String] and [NewFromString], JSON values with
    [json.Marshal] of a map ([None] is the nil map), and the conversion of an
    execution request to a JSON value *)
Context {decimal any : Type}.
Context (decimal_String : decimal → string) (NewFromString : string → option decimal).
Context (Marshal : option (gmap string any) → option string) (json_of : ExecutionRequest → any).

Record CommandRequest := {
  Request_ActorID : string;
  Request_Reason : string;
  Request_ExpectedVersion : Z;
  Request_Details : option (gmap string any)
}.
Record WorkflowCommand := {
  Cmd_TenantID : string;
  Cmd_RecommendationID : string;
  Cmd_Action : string;
  Cmd_NextStatus : string;
  Cmd_ActorID : string;
  Cmd_Reason : string;
  Cmd_ExpectedVersion : Z;
  Cmd_Details : option (gmap string any);
  Cmd_OccurredAt : Time
}.

(** ** Rows *)

Inductive cell :=
| CString (s : string)
| CTime (t : Time)
| CDecimal (d : decimal)
| CUint64 (z : Z)
| CUUID (s : string).

(** [None]: [decimal.RequireFromString] panics. *)
Definition recommendationRow (r : Recommendation) : option (list cell) :=
  gross ← NewFromString (MonthlyGrossSavings r); net ← NewFromString (MonthlyNetSavings r);
  confidence ← NewFromString (Confidence r); risk ← NewFromString (RiskScore r);
  Some [CString (TenantID r); CString (RecommendationID r); CString (ClusterID r); CString (NamespaceUID r);
        CString (TargetKind r); CString (TargetUID r); CString (RecommendationType r); CString (SafetyClass r);
        CString (Status r); CTime (AnalysisWindowStart r); CTime (AnalysisWindowEnd r); CTime (GeneratedAt r);
        CTime (ExpiresAt r); CString (CurrentConfiguration r); CString (ProposedConfiguration r);
        CString (Evidence r); CString (Currency r); CDecimal gross; CDecimal net; CDecimal confidence; CDecimal risk;
        CString (PolicyVersion r); CString (ModelVersion r); CString (ComputationVersion r); CUint64 (Version r)].
Definition scanRecommendation (row : list cell) : res error Recommendation :=
  match row with
  | [CString tenantID; CString recommendationID; CString clusterID; CString namespaceUID; CString targetKind;
     CString targetUID; CString recommendationType; CString safetyClass; CString status; CTime windowStart;
     CTime windowEnd; CTime generatedAt; CTime expiresAt; CString currentConfiguration;
     CString proposedConfiguration; CString evidence; CString currency; CDecimal gross; CDecimal net;
     CDecimal confidence; CDecimal risk; CString policyVersion; CString modelVersion;
     CString computationVersion; CUint64 version] =>
      Ok {| TenantID := tenantID; RecommendationID := recommendationID; ClusterID := clusterID;
            NamespaceUID := namespaceUID; TargetKind := targetKind; TargetUID := targetUID;
            RecommendationType := recommendationType; SafetyClass := safetyClass; Status := status;
            AnalysisWindowStart := windowStart; AnalysisWindowEnd := windowEnd; GeneratedAt := generatedAt;
            ExpiresAt := expiresAt; CurrentConfiguration := currentConfiguration;
            ProposedConfiguration := proposedConfiguration; Evidence := evidence; Currency := currency;
            MonthlyGrossSavings := decimal_String gross; MonthlyNetSavings := decimal_String net;
            Confidence := decimal_String confidence; RiskScore := decimal_String risk;
            PolicyVersion := policyVersion; ModelVersion := modelVersion;
            ComputationVersion := computationVersion; Version := version |}
  | _ => Err (Failed "scan recommendation row")
  end.

Definition executionRequestFor (id : string) (r : Recommendation) (action : ActionReference) (requestedAt : Time) : ExecutionRequest :=
  {| Exec_ExecutionID := id; Exec_TenantID := TenantID r; Exec_RecommendationID := RecommendationID r;
     Exec_ActionID := Act_ActionID action; Exec_ClusterID := ClusterID r; Exec_NamespaceUID := NamespaceUID r;
     Exec_TargetKind := TargetKind r; Exec_TargetUID := TargetUID r; Exec_RecommendationType := RecommendationType r;
     Exec_SafetyClass := SafetyClass r; Exec_PolicyVersion := PolicyVersion r;
     Exec_CurrentConfiguration := CurrentConfiguration r; Exec_ProposedConfiguration := ProposedConfiguration r;
     Exec_Evidence := Evidence r; Exec_RequestedAt := requestedAt; Exec_Status := "pending_executor" |}.
Definition actionDetails (command : WorkflowCommand) (request : option ExecutionRequest) : option string :=
  match request with
  | None => Marshal (Cmd_Details command)
  | Some request => Marshal (Some (<["execution_request"%string := json_of request]> (default ∅ (Cmd_Details command))))
  end.

(** ** The repository *)

(** Calls to the database driver and the random source. An insert is one batch
    of one row; it can fail before or while it is sent. *)
Inductive table := recommendation_table | recommendation_action_table.
Inductive select_answer := QueryFailed (e : string) | ReadFailed (e : string) | NoRow | FirstRow (row : list cell).
Inductive insert_answer := Sent | PrepareFailed (e : string) | AppendFailed (e : string) | SendFailed (e : string).
Inductive repo_op :=
| SelectRecommendation (tenantID recommendationID : string)
| NewString
| InsertRow (t : table) (columns : string) (row : list cell).
Definition repo_ans (o : repo_op) : Type :=
  match o with
  | SelectRecommendation _ _ => select_answer
  | NewString => string
  | InsertRow _ _ _ => insert_answer
  end.
Abbreviation prog := (prog repo_ans).

Definition recommendation (tenantID recommendationID : string) : prog (res error Recommendation) :=
  answer ← call (SelectRecommendation tenantID recommendationID);
  match (answer : select_answer) with
  | QueryFailed e => Ret (Err (Failed ("query recommendation: " +:+ e)))
  | ReadFailed e => Ret (Err (Failed ("read recommendation row: " +:+ e)))
  | NoRow => Ret (Err ErrRecommendationNotFound)
  | FirstRow row => Ret (scanRecommendation row)
  end.
Definition insertRecommendation (r : Recommendation) : prog (option error) :=
  match recommendationRow r with
  | None => Ret (Some Panicked)
  | Some row =>
      answer ← call (InsertRow recommendation_table (joinColumns recommendationColumns) row);
      Ret (match (answer : insert_answer) with
           | Sent => None
           | PrepareFailed e => Some (Failed ("prepare recommendation batch: " +:+ e))
           | AppendFailed e => Some (Failed ("append recommendation row: " +:+ e))
           | SendFailed e => Some (Failed ("send recommendation batch: " +:+ e))
           end)
  end.
Definition actionRow (command : WorkflowCommand) (action : ActionReference) (details : string) : list cell :=
  [CString (Act_TenantID action); CString (Act_RecommendationID action); CUUID (Act_ActionID action);
   CString (Act_Action action); CString "user"; CString (Cmd_ActorID command); CString (Cmd_Reason command);
   CTime (Act_OccurredAt action); CString (Act_ExecutionID action); CString (Act_Status action); CString details].
Definition insertAction (command : WorkflowCommand) (action : ActionReference) (request : option ExecutionRequest)
    : prog (option error) :=
  match actionDetails command request with
  | None => Ret (Some (Failed "encode action details"))
  | Some details =>
      answer ← call (InsertRow recommendation_action_table (joinColumns actionColumns) (actionRow command action details));
      Ret (match (answer : insert_answer) with
           | Sent => None
           | PrepareFailed e => Some (Failed ("prepare recommendation action batch: " +:+ e))
           | AppendFailed e => Some (Failed ("append recommendation action row: " +:+ e))
           | SendFailed e => Some (Failed ("send recommendation action batch: " +:+ e))
           end)
  end.

Definition with_status (r : Recommendation) (status : string) (version : Z) : Recommendation :=
  {| TenantID := TenantID r; RecommendationID := RecommendationID r; ClusterID := ClusterID r;
     NamespaceUID := NamespaceUID r; TargetKind := TargetKind r; TargetUID := TargetUID r;
     RecommendationType := RecommendationType r; SafetyClass := SafetyClass r; Status := status;
     AnalysisWindowStart := AnalysisWindowStart r; AnalysisWindowEnd := AnalysisWindowEnd r;
     GeneratedAt := GeneratedAt r; ExpiresAt := ExpiresAt r; CurrentConfiguration := CurrentConfiguration r;
     ProposedConfiguration := ProposedConfiguration r; Evidence := Evidence r; Currency := Currency r;
     MonthlyGrossSavings := MonthlyGrossSavings r; MonthlyNetSavings := MonthlyNetSavings r;
     Confidence := Confidence r; RiskScore := RiskScore r; PolicyVersion := PolicyVersion r;
     ModelVersion := ModelVersion r; ComputationVersion := ComputationVersion r; Version := version |}.

(** The rows a checked command writes *)
Definition record_command (command : WorkflowCommand) (updated : Recommendation) (action : ActionReference)
    (request : option ExecutionRequest) : prog (res error WorkflowResult) :=
  inserted ← insertRecommendation updated;
  match inserted with
  | Some e => Ret (Err e)
  | None =>
      recorded ← insertAction command action request;
      match recorded with
      | Some e => Ret (Err e)
      | None => Ret (Ok {| Result_Recommendation := updated; Result_Action := action; Result_ExecutionRequest := request |})
      end
  end.
(** [ApplyCommand] after the recommendation was read *)
Definition apply_to (command : WorkflowCommand) (current : Recommendation) : prog (res error WorkflowResult) :=
  if negb (Cmd_ExpectedVersion command =? 0) && negb (Cmd_ExpectedVersion command =? Version current)
  then Ret (Err ErrVersionConflict)
  else if negb (transitionAllowed (Status current) (Cmd_NextStatus command))
  then Ret (Err (ErrInvalidTransition (Status current) (Cmd_NextStatus command)))
  else
    let updated := with_status current (Cmd_NextStatus command) (u64 (UnixNano (Cmd_OccurredAt command))) in
    actionID ← call NewString;
    let action := {|
      Act_TenantID := Cmd_TenantID command; Act_RecommendationID := Cmd_RecommendationID command;
      Act_ActionID := actionID; Act_Action := Cmd_Action command; Act_ExecutionID := "";
      Act_Status := "recorded"; Act_OccurredAt := Cmd_OccurredAt command |} in
    if (Cmd_Action command =? "request_execution")%string then
      executionID ← call NewString;
      let request := executionRequestFor executionID current action (Cmd_OccurredAt command) in
      record_command command updated
        {| Act_TenantID := Act_TenantID action; Act_RecommendationID := Act_RecommendationID action;
           Act_ActionID := Act_ActionID action; Act_Action := Act_Action action;
           Act_ExecutionID := Exec_ExecutionID request; Act_Status := "handoff_requested";
           Act_OccurredAt := Act_OccurredAt action |} (Some request)
    else record_command command updated action None.
Definition ApplyCommand (command : WorkflowCommand) : prog (res error WorkflowResult) :=
  current ← recommendation (Cmd_TenantID command) (Cmd_RecommendationID command);
  match current with
  | Err e => Ret (Err e)
  | Ok current => apply_to command current
  end.

(** ** The HTTP handlers *)

Definition decodeCommandRequest (b : body CommandRequest) : res problem CommandRequest :=
  let zero := {| Request_ActorID := ""; Request_Reason := ""; Request_ExpectedVersion := 0; Request_Details := None |} in
  match b with
  | NoBody | EmptyBody => Ok zero
  | MalformedBody => Err (problem_of StatusBadRequest "invalid_request" "request body must be valid JSON")
  | JSONBody request =>
      Ok {| Request_ActorID := TrimSpace (Request_ActorID request); Request_Reason := TrimSpace (Request_Reason request);
            Request_ExpectedVersion := Request_ExpectedVersion request; Request_Details := Request_Details request |}
  end.
Definition writeCommandError (e : error) : response WorkflowResult :=
  match e with
  | ErrRecommendationNotFound => writeProblem StatusNotFound "not_found" "recommendation not found"
  | ErrVersionConflict => writeProblem StatusConflict "version_conflict" "recommendation version does not match expected_version"
  | ErrInvalidTransition _ _ => writeProblem StatusConflict "invalid_transition" "recommendation status does not allow this transition"
  | Failed _ | Panicked => writeProblem StatusInternalServerError "command_failed" "recommendation workflow command failed"
  end.
Definition command (Getenv : string → string) (clock now : Time) (r : Request) (b : body CommandRequest)
    (action nextStatus : string) : prog (response WorkflowResult) :=
  match authenticatedTenant Getenv clock r with
  | Err p => Ret (Problem p)
  | Ok tenantID =>
      let recommendationID := TrimSpace (PathValue r "recommendation_id") in
      if (recommendationID =? "")%string
      then Ret (writeProblem StatusBadRequest "invalid_request" "recommendation_id is required")
      else match decodeCommandRequest b with
           | Err p => Ret (Problem p)
           | Ok request =>
               result ← ApplyCommand {|
                 Cmd_TenantID := tenantID; Cmd_RecommendationID := recommendationID; Cmd_Action := action;
                 Cmd_NextStatus := nextStatus; Cmd_ActorID := Request_ActorID request;
                 Cmd_Reason := Request_Reason request; Cmd_ExpectedVersion := Request_ExpectedVersion request;
                 Cmd_Details := Request_Details request; Cmd_OccurredAt := now |};
               match result with
               | Err e => Ret (writeCommandError e)
               | Ok result => Ret (writeJSON StatusOK result)
               end
           end
  end.
Definition approve Getenv clock now r b := command Getenv clock now r b "approve" "approved".
Definition reject Getenv clock now r b := command Getenv clock now r b "reject" "rejected".
Definition suppress Getenv clock now r b := command Getenv clock now r b "suppress" "suppressed".
Definition execute Getenv clock now r b := command Getenv clock now r b "request_execution" "executing".

(** ** The tables

    [kube_cost.recommendation] is a [ReplacingMergeTree(version)]: a query with
    [FINAL] sees, per sorting key, the inserted row with the highest version
    (the last inserted of equal ones). [recommendation_action] keeps every row. *)

Record db := { recommendations : list Recommendation; actions : list (list cell) }.
Definition sort_key (r : Recommendation) : list string :=
  [TenantID r; ClusterID r; RecommendationType r; TargetKind r; TargetUID r; RecommendationID r].
Definition newest (acc : option Recommendation) (r : Recommendation) : option Recommendation :=
  match acc with Some a => if Version a <=? Version r then Some r else acc | None => Some r end.
Definition final (key : list string) (rows : list Recommendation) : option Recommendation :=
  foldl newest None (filter (λ r, sort_key r = key) rows).
Definition concerns (tenantID recommendationID : string) (r : Recommendation) : Prop :=
  TenantID r = tenantID ∧ RecommendationID r = recommendationID.
#[local] Instance concerns_dec t id r : Decision (concerns t id r) := _.
(** The row [recommendationSelectSQL] can return: a final row of the tenant and
    id, of the latest generation. *)
Definition visible (rows : list Recommendation) (t id : string) (r : Recommendation) : Prop :=
  final (sort_key r) rows = Some r ∧ concerns t id r ∧
  ∀ r', final (sort_key r') rows = Some r' → concerns t id r' → GeneratedAt r' ≤ GeneratedAt r.

(** What the database may answer. Any call can fail; an insert whose sending
    failed may have been applied. *)
Definition appended (t : table) (row : list cell) (w w' : db) : Prop :=
  match t with
  | recommendation_table =>
      ∃ r, scanRecommendation row = Ok r ∧
           w' = {| recommendations := recommendations w ++ [r]; actions := actions w |}
  | recommendation_action_table => w' = {| recommendations := recommendations w; actions := actions w ++ [row] |}
  end.
Definition db_effect (o : repo_op) (w : db) : repo_ans o → db → Prop :=
  match o with
  | SelectRecommendation t id => λ answer w',
      w' = w ∧ match answer with
               | QueryFailed _ | ReadFailed _ => True
               | NoRow => ∀ r, r ∈ recommendations w → ¬ concerns t id r
               | FirstRow row => ∃ r, scanRecommendation row = Ok r ∧ visible (recommendations w) t id r
               end
  | NewString => λ _ w', w' = w
  | InsertRow t _ row => λ answer w',
      match answer with
      | Sent => appended t row w w'
      | PrepareFailed _ | AppendFailed _ => w' = w
      | SendFailed _ => w' = w ∨ appended t row w w'
      end
  end.

(** *** Histories *)

Definition rows_of (w : db) (t id : string) : list Recommendation := filter (concerns t id) (recommendations w).
(** The life cycle of a recommendation *)
Inductive lifecycle : string → string → Prop :=
| approve_open : lifecycle "open" "approved"
| approve_acknowledged : lifecycle "acknowledged" "approved"
| dismiss_pending from to_ :
    from ∈ ["open"; "acknowledged"; "approved"]%string → to_ ∈ ["rejected"; "suppressed"]%string → lifecycle from to_
| execute_approved : lifecycle "approved" "executing".
Lemma transitionAllowed_lifecycle a b : transitionAllowed a b = true → lifecycle a b.
Proof.
  unfold transitionAllowed. destruct (String.eqb_spec b "approved") as [->|].
  { intros [->%String.eqb_eq| ->%String.eqb_eq]%orb_prop; constructor. }
  destruct (orb _ _) eqn:Hb.
  - intros Ha. apply dismiss_pending.
    + apply orb_prop in Ha as [[->%String.eqb_eq| ->%String.eqb_eq]%orb_prop| ->%String.eqb_eq]; repeat constructor.
    + apply orb_prop in Hb as [->%String.eqb_eq| ->%String.eqb_eq]; repeat constructor.
  - destruct (String.eqb_spec b "executing") as [->|]; [|done]. intros ->%String.eqb_eq. apply execute_approved.
Qed.
(** Consecutive rows of a recommendation keep its sorting key, carry increasing
    versions and follow the life cycle. *)
Definition follows (a b : Recommendation) : Prop :=
  sort_key a = sort_key b ∧ Version a < Version b ∧ lifecycle (Status a) (Status b).
Fixpoint history (rows : list Recommendation) : Prop :=
  match rows with
  | a :: ((b :: _) as rows') => follows a b ∧ history rows'
  | _ => True
  end.
Definition handoff (t id : string) (row : list cell) : bool :=
  match row with
  | CString t' :: CString id' :: CUUID _ :: CString a :: _ =>
      bool_decide (t' = t ∧ id' = id ∧ a = "request_execution"%string)
  | _ => false
  end.
Definition handoffs (w : db) (t id : string) : list (list cell) := filter (λ row, handoff t id row = true) (actions w).
Definition executing (w : db) (t id : string) : list Recommendation :=
  filter (λ r, Status r = "executing"%string) (rows_of w t id).
Record valid (w : db) : Prop := {
  valid_history t id : history (rows_of w t id);
  valid_handoffs t id : (length (handoffs w t id) ≤ length (executing w t id))%nat
}.

Lemma history_cons x rows a :
  history (x :: rows ++ [a]) ↔ history (rows ++ [a]) ∧ ∃ y, head (rows ++ [a]) = Some y ∧ follows x y.
Proof.
  destruct rows as [|y rows]; simpl; (split; [intros [? ?]; eauto|intros [? (? & [= <-] & ?)]; eauto]).
Qed.
Lemma history_snoc rows a b : history (rows ++ [a]) → follows a b → history ((rows ++ [a]) ++ [b]).
Proof.
  intros Hh Hf. induction rows as [|x rows IH]; [done|]. simpl app in *.
  apply history_cons in Hh as [Hh (y & Hy & Hxy)]. apply history_cons. split; [by apply IH|].
  exists y. split; [|done]. by destruct rows.
Qed.
Lemma history_versions rows a :
  history (rows ++ [a]) → Forall (λ r, sort_key r = sort_key a ∧ Version r ≤ Version a) (rows ++ [a]).
Proof.
  induction rows as [|x rows IH]; intros Hh; [by repeat constructor|]. simpl app in *.
  apply history_cons in Hh as [Hh (y & Hy & Hk' & Hv' & _)]. specialize (IH Hh). constructor; [|done].
  apply head_Some_elem_of in Hy. rewrite Forall_forall in IH. destruct (IH _ Hy) as [Hk Hv]. split; [by rewrite Hk'|lia].
Qed.
Lemma history_status rows a r : history (rows ++ [a]) → r ∈ rows → Status r ≠ "executing"%string.
Proof.
  induction rows as [|x rows IH]; intros Hh Hr; [by apply elem_of_nil in Hr|]. simpl in Hh.
  apply history_cons in Hh as [Hh (y & _ & _ & _ & Ht)].
  apply elem_of_cons in Hr as [->|Hr]; [|by apply IH]. intros He. rewrite He in Ht.
  inversion Ht as [| |from to_ Hf|]. clear -Hf. set_solver.
Qed.
Lemma newest_elem rows r : foldl newest None rows = Some r → r ∈ rows.
Proof.
  induction rows as [|x rows IH] using rev_ind; [done|]. rewrite foldl_app. simpl. rewrite elem_of_app, list_elem_of_singleton.
  unfold newest at 1. destruct (foldl newest None rows) as [a|]; [case_match|]; intros [= ->]; auto.
Qed.
Lemma newest_last rows a : Forall (λ r, Version r ≤ Version a) rows → foldl newest None (rows ++ [a]) = Some a.
Proof.
  intros Hv. rewrite foldl_app. simpl. destruct (foldl newest None rows) as [y|] eqn:Hy; [|done]. simpl.
  apply newest_elem in Hy. rewrite Forall_forall in Hv. specialize (Hv y Hy). by destruct (Z.leb_spec (Version y) (Version a)); [|lia].
Qed.
(** The visible row of a recommendation is the last one inserted, if versions do
    not decrease. *)
Lemma visible_newest w t id rows a :
  rows_of w t id = rows ++ [a] → Forall (λ r, sort_key r = sort_key a ∧ Version r ≤ Version a) (rows ++ [a]) →
  ∀ r, visible (recommendations w) t id r ↔ r = a.
Proof.
  intros Hrows Hv. rewrite Forall_forall in Hv.
  assert (a ∈ rows_of w t id) as Ha by (rewrite Hrows; apply elem_of_app; right; left). unfold rows_of in Ha. apply list_elem_of_filter in Ha as [Hca Ha].
  assert (final (sort_key a) (recommendations w) = Some a) as Hfa.
  { unfold final. assert (filter (λ r, sort_key r = sort_key a) (recommendations w) = rows ++ [a]) as ->.
    - rewrite <- Hrows. unfold rows_of. apply ListFacts.filter_ext_in. intros x Hx. split.
      + intros Hk. destruct Hca as [<- <-]. unfold sort_key in Hk. by injection Hk.
      + intros Hc. apply Hv. rewrite <- Hrows. by apply list_elem_of_filter.
    - apply newest_last. apply Forall_forall. intros r Hr. apply Hv, elem_of_app. by left. }
  assert (∀ r, final (sort_key r) (recommendations w) = Some r → concerns t id r → r = a) as Huniq.
  { intros r Hr Hc. pose proof Hr as Hin. unfold final in Hin. apply newest_elem in Hin. apply list_elem_of_filter in Hin as [_ Hin].
    assert (sort_key r = sort_key a) as Hk by (apply Hv; rewrite <- Hrows; by apply list_elem_of_filter).
    rewrite Hk, Hfa in Hr. by injection Hr. }
  intros r. split.
  - intros (Hr & Hc & _). by apply Huniq.
  - intros ->. split; [done|]. split; [done|]. intros r' Hr' Hc'. by rewrite (Huniq r' Hr' Hc').
Qed.
Lemma visible_last w t id rows a :
  rows_of w t id = rows ++ [a] → history (rows_of w t id) →
  ∀ r, visible (recommendations w) t id r ↔ r = a.
Proof. intros Hrows Hh. apply (visible_newest w t id rows a Hrows). apply history_versions. by rewrite <- Hrows. Qed.

(** *** Executions of a command *)

(** [decimal.NewFromString] reads what [String] prints, and prints it again. *)
Hypothesis decimal_parse : ∀ d, ∃ d', NewFromString (decimal_String d) = Some d' ∧ decimal_String d' = decimal_String d.

Lemma scanned_decimals cells r :
  scanRecommendation cells = Ok r →
  ∃ g n c k, MonthlyGrossSavings r = decimal_String g ∧ MonthlyNetSavings r = decimal_String n ∧
             Confidence r = decimal_String c ∧ RiskScore r = decimal_String k.
Proof.
  intros Hr. unfold scanRecommendation in Hr. repeat (case_match; try done). injection Hr as <-.
  by do 4 eexists.
Qed.
(** A scanned recommendation is written back unchanged but for status and version. *)
Lemma row_roundtrip cells r status version :
  scanRecommendation cells = Ok r →
  ∃ row, recommendationRow (with_status r status version) = Some row ∧
         scanRecommendation row = Ok (with_status r status version).
Proof.
  intros (g & n & c & k & Hg & Hn & Hc & Hk)%scanned_decimals.
  destruct (decimal_parse g) as (g' & Eg & Sg), (decimal_parse n) as (n' & En & Sn),
    (decimal_parse c) as (c' & Ec & Sc), (decimal_parse k) as (k' & Ek & Sk).
  unfold recommendationRow, with_status.
  cbn [MonthlyGrossSavings MonthlyNetSavings Confidence RiskScore]. rewrite Hg, Hn, Hc, Hk, Eg, En, Ec, Ek.
  eexists. split; [reflexivity|]. cbn. by rewrite Sg, Sn, Sc, Sk.
Qed.

(** The action row of a command *)
Definition records (c : WorkflowCommand) (row : list cell) : Prop :=
  ∃ action details, row = actionRow c action details ∧ Act_TenantID action = Cmd_TenantID c ∧
    Act_RecommendationID action = Cmd_RecommendationID c ∧ Act_Action action = Cmd_Action c.
(** The row a command replaces *)
Record replaces (c : WorkflowCommand) (w : db) (current updated : Recommendation) : Prop := {
  replaces_visible : visible (recommendations w) (Cmd_TenantID c) (Cmd_RecommendationID c) current;
  replaces_expected : Cmd_ExpectedVersion c = 0 ∨ Cmd_ExpectedVersion c = Version current;
  replaces_allowed : transitionAllowed (Status current) (Cmd_NextStatus c) = true;
  replaces_updated : updated = with_status current (Cmd_NextStatus c) (u64 (UnixNano (Cmd_OccurredAt c)))
}.
(** The reference to an action, and the action of a command on [current] with the
    request for its execution: only the command that requests one has it. *)
Definition action_of (c : WorkflowCommand) (actionID : string) (execution : option string) : ActionReference := {|
  Act_TenantID := Cmd_TenantID c; Act_RecommendationID := Cmd_RecommendationID c; Act_ActionID := actionID;
  Act_Action := Cmd_Action c; Act_ExecutionID := default "" execution;
  Act_Status := if execution then "handoff_requested" else "recorded"; Act_OccurredAt := Cmd_OccurredAt c |}.
Definition acts (c : WorkflowCommand) (current : Recommendation) (action : ActionReference) (request : option ExecutionRequest) : Prop :=
  ∃ actionID execution, action = action_of c actionID execution ∧
    request = (λ x, executionRequestFor x current action (Cmd_OccurredAt c)) <$> execution ∧
    (is_Some execution ↔ Cmd_Action c = "request_execution"%string).
(** What a command adds to the tables of recommendations and of actions, by its answer *)
Inductive change (c : WorkflowCommand) : res error WorkflowResult → list Recommendation → list (list cell) → Prop :=
| refused e : change c (Err e) [] []
| carried_out current action request details :
    concerns (Cmd_TenantID c) (Cmd_RecommendationID c) current → acts c current action request →
    actionDetails c request = Some details →
    let updated := with_status current (Cmd_NextStatus c) (u64 (UnixNano (Cmd_OccurredAt c))) in
    change c (Ok {| Result_Recommendation := updated; Result_Action := action; Result_ExecutionRequest := request |})
      [updated] [actionRow c action details]
| cut_short current e :
    concerns (Cmd_TenantID c) (Cmd_RecommendationID c) current →
    change c (Err e) [with_status current (Cmd_NextStatus c) (u64 (UnixNano (Cmd_OccurredAt c)))] []
| reply_lost current action request details e :
    concerns (Cmd_TenantID c) (Cmd_RecommendationID c) current → acts c current action request →
    actionDetails c request = Some details →
    change c (Err e) [with_status current (Cmd_NextStatus c) (u64 (UnixNano (Cmd_OccurredAt c)))] [actionRow c action details].
Record outcome (c : WorkflowCommand) (w : db) (a : res error WorkflowResult) (w' : db) (recs : list Recommendation) (rows : list (list cell)) : Prop := {
  outcome_change : change c a recs rows;
  outcome_recommendations : recommendations w' = recommendations w ++ recs;
  outcome_actions : actions w' = actions w ++ rows;
  outcome_replaces : ∀ updated, updated ∈ recs → ∃ current, replaces c w current updated
}.
Lemma outcome_refused c w e : outcome c w (Err e) w [] [].
Proof. split; [constructor|by rewrite app_nil_r..|by intros ? ?%not_elem_of_nil]. Qed.
Lemma change_records c a recs rows row : change c a recs rows → row ∈ rows → records c row.
Proof.
  destruct 1 as [|? action ? details _ (x & y & -> & _)| |? action ? details e _ (x & y & -> & _)];
    intros Hr; try (by apply not_elem_of_nil in Hr); apply list_elem_of_singleton in Hr as ->; unfold records; eauto 10.
Qed.

Lemma record_command_exec c w current updated cells action request a w' :
  scanRecommendation cells = Ok current → replaces c w current updated → acts c current action request →
  exec db_effect (record_command c updated action request) w a w' → ∃ recs rows, outcome c w a w' recs rows.
Proof.
  intros Hscan Hrep Hacts. unfold record_command, insertRecommendation.
  destruct (row_roundtrip cells current (Cmd_NextStatus c) (u64 (UnixNano (Cmd_OccurredAt c))) Hscan) as (row & Hrow & Hscan').
  pose proof (replaces_updated _ _ _ _ Hrep) as Hup. rewrite <- Hup in Hrow, Hscan'. rewrite Hrow.
  assert (concerns (Cmd_TenantID c) (Cmd_RecommendationID c) current) as Hc by apply (replaces_visible _ _ _ _ Hrep).
  assert (∀ u, u ∈ [updated] → ∃ current, replaces c w current u) as Hreps by (intros u ->%list_elem_of_singleton; eauto).
  assert (∀ e, outcome c w (Err e) {| recommendations := recommendations w ++ [updated]; actions := actions w |} [updated] []) as Hcut.
  { intros e. split; simpl; [rewrite Hup; by constructor|done|by rewrite app_nil_r|done]. }
  intros (x & w1 & Hx & Hexec).
  assert (w1 = w ∨ w1 = {| recommendations := recommendations w ++ [updated]; actions := actions w |}) as Hw1.
  { destruct x; simpl in Hx; [right|by left|by left|destruct Hx as [->|Hx]; [by left|right]];
      destruct Hx as (r & Hr & ->); rewrite Hscan' in Hr; by injection Hr as <-. }
  assert ((∃ e, a = Err e ∧ w' = w1) ∨ x = Sent) as [(e & -> & ->)| ->].
  { destruct x; simpl in Hexec; [by right|left; destruct Hexec as [-> ->]; eauto..]. }
  { destruct Hw1 as [->| ->]; eauto using outcome_refused. }
  simpl in Hx, Hexec. rewrite Hscan' in Hx. destruct Hx as (r & [= <-] & ->).
  unfold insertAction in Hexec. destruct (actionDetails c request) as [details|] eqn:Hd.
  2: { simpl in Hexec. destruct Hexec as [-> ->]. eauto. }
  simpl in Hexec. destruct Hexec as (y & w2 & Hy & Hexec). set (arow := actionRow c action details) in *.
  set (w1 := {| recommendations := recommendations w ++ [updated]; actions := actions w |}) in *.
  set (w3 := {| recommendations := recommendations w ++ [updated]; actions := actions w ++ [arow] |}) in *.
  assert (∀ a, change c a [updated] [arow] → outcome c w a w3 [updated] [arow]) as Hdone by (intros a' Ha'; by split).
  assert (∀ e, change c (Err e) [updated] [arow]) as Hlost by (intros e; rewrite Hup; by eapply reply_lost).
  assert (w2 = w1 ∨ w2 = w3) as Hw2 by (destruct y; simpl in Hy; subst; [by right|by left|by left|destruct Hy as [->| ->]; auto]).
  destruct y; simpl in Hexec; destruct Hexec as [-> ->].
  { simpl in Hy. subst w2. exists [updated], [arow]. apply Hdone. rewrite Hup. by apply carried_out. }
  all: destruct Hw2 as [->| ->]; eauto.
Qed.
Lemma apply_exec c w a w' : exec db_effect (ApplyCommand c) w a w' → ∃ recs rows, outcome c w a w' recs rows.
Proof.
  unfold ApplyCommand, recommendation, apply_to. intros (x & w1 & [-> Hx] & Hexec).
  destruct x as [e|e| |cells]; simpl in Hexec; try (destruct Hexec as [-> ->]; eauto using outcome_refused).
  destruct Hx as (current & Hscan & Hvis). rewrite Hscan in Hexec. simpl in Hexec.
  destruct (negb (Cmd_ExpectedVersion c =? 0) && negb (Cmd_ExpectedVersion c =? Version current)) eqn:Hver;
    [simpl in Hexec; destruct Hexec as [-> ->]; eauto using outcome_refused|].
  destruct (transitionAllowed _ _) eqn:Hallowed; simpl in Hexec; [|destruct Hexec as [-> ->]; eauto using outcome_refused].
  assert (replaces c w current (with_status current (Cmd_NextStatus c) (u64 (UnixNano (Cmd_OccurredAt c))))) as Hrep.
  { split; [done| |done|done]. apply andb_false_iff in Hver as [Hv|Hv]; apply negb_false_iff, Z.eqb_eq in Hv; auto. }
  destruct Hexec as (actionID & w2 & -> & Hexec). destruct (String.eqb_spec (Cmd_Action c) "request_execution") as [Heq|Hne].
  - simpl in Hexec. destruct Hexec as (executionID & w3 & -> & Hexec).
    eapply record_command_exec in Hexec; [done..|]. by exists actionID, (Some executionID).
  - eapply record_command_exec in Hexec; [done..|]. exists actionID, None. split_and!; [done..|].
    by split; [intros []|].
Qed.

(** *** Commands one after the other *)

(** The action and the next status of the four handlers *)
Definition handled (c : WorkflowCommand) : Prop :=
  (Cmd_Action c, Cmd_NextStatus c) ∈
    [("approve", "approved"); ("reject", "rejected"); ("suppress", "suppressed"); ("request_execution", "executing")]%string.
(** The clock has moved past every version of the recommendation. *)
Definition newer (c : WorkflowCommand) (w : db) : Prop :=
  Forall (λ r, Version r < u64 (UnixNano (Cmd_OccurredAt c))) (rows_of w (Cmd_TenantID c) (Cmd_RecommendationID c)).

Lemma rows_of_app w w' r t id :
  recommendations w' = recommendations w ++ [r] →
  rows_of w' t id = rows_of w t id ++ (if decide (concerns t id r) then [r] else []).
Proof. intros Hw. unfold rows_of. rewrite Hw, filter_app, filter_cons, filter_nil. by case_decide. Qed.
(** The current row of a valid table is the last of its history. *)
Lemma replaces_last c w current updated :
  valid w → replaces c w current updated →
  ∃ rows, rows_of w (Cmd_TenantID c) (Cmd_RecommendationID c) = rows ++ [current].
Proof.
  intros Hv Hrep. destruct (replaces_visible _ _ _ _ Hrep) as (Hf & Hc & _).
  destruct (ListFacts.snoc_cases (rows_of w (Cmd_TenantID c) (Cmd_RecommendationID c))) as [H0|(rows & a & Hrows)].
  - exfalso. unfold final in Hf. apply newest_elem in Hf. apply list_elem_of_filter in Hf as [_ Hf].
    assert (current ∈ rows_of w (Cmd_TenantID c) (Cmd_RecommendationID c)) as Hin by (by apply list_elem_of_filter).
    rewrite H0 in Hin. by apply elem_of_nil in Hin.
  - exists rows. rewrite Hrows. do 2 f_equal. symmetry.
    by apply (visible_last w (Cmd_TenantID c) (Cmd_RecommendationID c) rows a Hrows (valid_history w Hv _ _)), Hrep.
Qed.
(** Rows of handoffs and of executions are added together, unless the command is
    cut short. *)
Lemma change_balance c a recs rows t id :
  handled c → change c a recs rows →
  let off := filter (λ row, handoff t id row = true) rows in
  let ex := filter (λ r, Status r = "executing"%string) (filter (concerns t id) recs) in
  (length off ≤ length ex)%nat ∧ (length recs = length rows → length off = length ex).
Proof.
  intros Hh Hc. assert (∀ current row, concerns (Cmd_TenantID c) (Cmd_RecommendationID c) current → records c row →
    length (filter (λ row, handoff t id row = true) [row]) =
    length (filter (λ r, Status r = "executing"%string)
      (filter (concerns t id) [with_status current (Cmd_NextStatus c) (u64 (UnixNano (Cmd_OccurredAt c)))]))) as Heq.
  { intros current row [Ht Hid] Hrec. rewrite (filter_cons _ row), (filter_cons (concerns t id)), !filter_nil.
    assert (handoff t id row = true ↔ concerns t id current ∧ Cmd_NextStatus c = "executing"%string) as Hoff.
    { destruct Hrec as (action & details & -> & Hat & Hai & Haa). simpl. rewrite bool_decide_eq_true, Hat, Hai, Haa.
      unfold concerns. rewrite Ht, Hid. unfold handled in Hh. rewrite !elem_of_cons in Hh.
      destruct Hh as [Hh|[Hh|[Hh|[Hh|Hh]]]]; [injection Hh as -> ->; naive_solver..|by apply not_elem_of_nil in Hh]. }
    destruct (decide (concerns t id _)) as [Hcon|Hcon]; [rewrite filter_cons, filter_nil|rewrite filter_nil];
      repeat case_decide; simpl in *; tauto. }
  assert (∀ row, row ∈ rows → records c row) as Hrec by (intros row; by eapply change_records).
  destruct Hc as [e|current action request details Hcon|current e Hcon|current action request details e Hcon]; cbv zeta.
  - by rewrite !filter_nil.
  - unfold updated. rewrite (Heq current) by (try done; apply Hrec; left). lia.
  - rewrite filter_nil. simpl. split; [lia|done].
  - rewrite (Heq current) by (try done; apply Hrec; left). lia.
Qed.
Lemma rows_of_grown w w' recs t id :
  recommendations w' = recommendations w ++ recs → rows_of w' t id = rows_of w t id ++ filter (concerns t id) recs.
Proof. intros Hw. unfold rows_of. by rewrite Hw, filter_app. Qed.
(** How much the two counts have grown *)
Lemma outcome_counts c w a w' recs rows t id :
  handled c → outcome c w a w' recs rows →
  (length (handoffs w' t id) + length (executing w t id) ≤ length (handoffs w t id) + length (executing w' t id))%nat ∧
  (length recs = length rows →
   length (handoffs w' t id) + length (executing w t id) = length (handoffs w t id) + length (executing w' t id))%nat.
Proof.
  intros Hh [Hc Hr Ha _]. destruct (change_balance c a recs rows t id Hh Hc) as [Hle Heq].
  unfold executing, handoffs. rewrite (rows_of_grown _ _ _ _ _ Hr), Ha, !filter_app, !length_app. lia.
Qed.
Lemma outcome_valid c w a w' recs rows : handled c → newer c w → valid w → outcome c w a w' recs rows → valid w'.
Proof.
  intros Hh Hn Hv Ho. split; intros t id; [|pose proof (outcome_counts _ _ _ _ _ _ t id Hh Ho);
    pose proof (valid_handoffs w Hv t id); lia].
  destruct Ho as [Hc Hr _ Hreps]. rewrite (rows_of_grown _ _ _ _ _ Hr).
  assert (recs = [] ∨ ∃ updated, recs = [updated]) as [->|(updated & ->)] by (destruct Hc; eauto).
  { rewrite filter_nil, app_nil_r. apply Hv. }
  destruct (Hreps updated) as (current & Hrep); [left|].
  destruct (replaces_last _ _ _ _ Hv Hrep) as [rows' Hrows].
  pose proof (replaces_updated _ _ _ _ Hrep) as Hup. destruct (replaces_visible _ _ _ _ Hrep) as (_ & [Hct Hci] & _).
  assert (follows current updated) as Hfol.
  { rewrite Hup. split; [done|]. split; [|by apply transitionAllowed_lifecycle, Hrep]. unfold newer in Hn. rewrite Hrows in Hn.
    by apply Forall_app in Hn as [_ [? _]%Forall_cons]. }
  rewrite filter_cons, filter_nil. destruct (decide (concerns t id updated)) as [[Ht Hid]|_]; [|rewrite app_nil_r; apply Hv].
  rewrite Hup in Ht, Hid. simpl in Ht, Hid. rewrite <- Ht, <- Hid, Hct, Hci, Hrows.
  apply history_snoc; [|done]. rewrite <- Hrows. apply Hv.
Qed.
(** Executing is a last state, so a valid table has at most one such row. *)
Lemma executing_once w t id : valid w → (length (executing w t id) ≤ 1)%nat.
Proof.
  intros Hv. unfold executing. pose proof (valid_history w Hv t id) as Hh.
  destruct (ListFacts.snoc_cases (rows_of w t id)) as [->|(rows & a & Hrows)]; [simpl; lia|]. rewrite Hrows in *.
  rewrite filter_app, length_app, ListFacts.filter_none by (intros r Hr; by eapply history_status).
  rewrite filter_cons, filter_nil. case_decide; simpl; lia.
Qed.

(** Commands run one after the other, each at a time later than the versions it
    finds, with their answers. *)
Fixpoint serial (cs : list WorkflowCommand) (w : db) (answers : list (res error WorkflowResult)) (w' : db) : Prop :=
  match cs, answers with
  | [], [] => w' = w
  | c :: cs', a :: answers' => handled c ∧ newer c w ∧ ∃ w1, exec db_effect (ApplyCommand c) w a w1 ∧ serial cs' w1 answers' w'
  | _, _ => False
  end.
(** The rows that commands with these answers add: those of each, in their order *)
Inductive ledger : list WorkflowCommand → list (res error WorkflowResult) →
    list (list Recommendation * list (list cell)) → Prop :=
| ledger_nil : ledger [] [] []
| ledger_cons c cs a answers recs rows changes :
    change c a recs rows → ledger cs answers changes → ledger (c :: cs) (a :: answers) ((recs, rows) :: changes).

(** C20: run one after the other, the workflow commands keep every recommendation on
    its life cycle, with growing versions, whatever calls to the database fail. The
    tables grow by the rows of the commands, in their order: a command that succeeds
    adds the recommendation it answers and exactly one action row, that of its answer,
    with a request for execution exactly if it asks for one; a command that fails adds
    nothing, or the recommendation alone, or both rows. A recommendation is handed off
    for execution at most once, and only if it was moved to executing; if no command
    was cut short between its two rows, handoffs and moves to executing stay as many. *)
Theorem serial_commands_keep_history cs w answers w' :
  valid w → serial cs w answers w' →
  ∃ changes, ledger cs answers changes ∧
    recommendations w' = recommendations w ++ concat (fst <$> changes) ∧
    actions w' = actions w ++ concat (snd <$> changes) ∧
    ∀ t id, history (rows_of w' t id) ∧
      (length (handoffs w' t id) ≤ length (executing w' t id) ≤ 1)%nat ∧
      (Forall (λ ch, length ch.1 = length ch.2) changes → length (handoffs w t id) = length (executing w t id) →
       length (handoffs w' t id) = length (executing w' t id)).
Proof.
  intros Hv Hs. assert (∃ changes, ledger cs answers changes ∧
    recommendations w' = recommendations w ++ concat (fst <$> changes) ∧
    actions w' = actions w ++ concat (snd <$> changes) ∧ valid w' ∧
    ∀ t id, Forall (λ ch, length ch.1 = length ch.2) changes → length (handoffs w t id) = length (executing w t id) →
       length (handoffs w' t id) = length (executing w' t id)) as (changes & ? & ? & ? & Hv' & Heq).
  { revert w answers Hv Hs. induction cs as [|c cs IH]; intros w [|a answers] Hv; simpl; try done.
    { intros ->. exists []. split_and!; [constructor|by rewrite app_nil_r..|done|done]. }
    intros (Hh & Hn & w1 & (recs & rows & Ho)%apply_exec & Hs).
    destruct (IH w1 answers) as (changes & Hl & Hr & Ha & Hv' & Hb); [by eapply outcome_valid|done|].
    exists ((recs, rows) :: changes). split_and!; [constructor; [by destruct Ho|done]|..|done|].
    - rewrite Hr, (outcome_recommendations _ _ _ _ _ _ Ho). by rewrite <- app_assoc.
    - rewrite Ha, (outcome_actions _ _ _ _ _ _ Ho). by rewrite <- app_assoc.
    - intros t id [H1 H2]%Forall_cons Hw. apply Hb; [done|]. simpl in H1.
      destruct (outcome_counts _ _ _ _ _ _ t id Hh Ho) as [_ Hc]. specialize (Hc H1). lia. }
  exists changes. split_and!; [done..|]. intros t id. split_and!; [apply Hv'|apply Hv'|by apply executing_once|apply Heq].
Qed.

(** *** Commands at the same time *)

Abbreviation workflow_step := (pool_step (λ _ _ : db, False) (λ _ : nat, db_effect) (λ _ : prog (res error WorkflowResult), False)).
(** A thread can run to its end while the others wait. *)
Lemma exec_steps ts i p w a w' :
  ts !! i = Some p → exec db_effect p w a w' → rtc workflow_step (Pool w ts) (Pool w' (<[i := Ret a]> ts)).
Proof.
  revert ts w. induction p as [b|e k IH]; intros ts w Hi; simpl.
  - intros [-> ->]. by rewrite list_insert_id.
  - intros (x & w1 & Hx & Hexec). eapply rtc_l; [by eapply step_thread|].
    rewrite <- (list_insert_insert_eq ts i (Ret a) (k x)). eapply IH; [|exact Hexec].
    apply list_lookup_insert_eq. by eapply lookup_lt_Some.
Qed.
(** With a database that answers, a command checked against [current] is carried out. *)
Lemma apply_to_succeeds c w current cells :
  scanRecommendation cells = Ok current → (∀ d, is_Some (Marshal d)) →
  Cmd_ExpectedVersion c = Version current → transitionAllowed (Status current) (Cmd_NextStatus c) = true →
  let updated := with_status current (Cmd_NextStatus c) (u64 (UnixNano (Cmd_OccurredAt c))) in
  ∃ result row, exec db_effect (apply_to c current) w (Ok result)
      {| recommendations := recommendations w ++ [updated]; actions := actions w ++ [row] |} ∧
    Result_Recommendation result = updated ∧ records c row ∧
    (Cmd_Action c = "request_execution"%string → is_Some (Result_ExecutionRequest result)).
Proof.
  intros Hscan Hm Hver Hallowed updated. unfold apply_to. rewrite Hver, Z.eqb_refl, andb_false_r, Hallowed. simpl.
  destruct (row_roundtrip cells current (Cmd_NextStatus c) (u64 (UnixNano (Cmd_OccurredAt c))) Hscan) as (row & Hrow & Hscan').
  assert (∀ action request, Act_TenantID action = Cmd_TenantID c → Act_RecommendationID action = Cmd_RecommendationID c →
    Act_Action action = Cmd_Action c → ∃ row, records c row ∧
    exec db_effect (record_command c updated action request) w
      (Ok {| Result_Recommendation := updated; Result_Action := action; Result_ExecutionRequest := request |})
      {| recommendations := recommendations w ++ [updated]; actions := actions w ++ [row] |}) as Hrecord.
  { intros action request Ht Hid Ha.
    assert (is_Some (actionDetails c request)) as [details Hd] by (unfold actionDetails; case_match; apply Hm).
    exists (actionRow c action details). split; [unfold records; eauto 10|].
    unfold record_command, insertRecommendation. fold updated in Hrow. rewrite Hrow. simpl.
    exists Sent, {| recommendations := recommendations w ++ [updated]; actions := actions w |}. split; [simpl; eauto|].
    unfold insertAction. rewrite Hd. simpl. by exists Sent, {| recommendations := recommendations w ++ [updated];
      actions := actions w ++ [actionRow c action details] |}. }
  destruct (String.eqb_spec (Cmd_Action c) "request_execution") as [Heq|Hne].
  - set (action := {| Act_TenantID := Cmd_TenantID c; Act_RecommendationID := Cmd_RecommendationID c; Act_ActionID := "a";
      Act_Action := Cmd_Action c; Act_ExecutionID := ""; Act_Status := "recorded"; Act_OccurredAt := Cmd_OccurredAt c |}).
    set (action' := {| Act_TenantID := Cmd_TenantID c; Act_RecommendationID := Cmd_RecommendationID c; Act_ActionID := "a";
      Act_Action := Cmd_Action c; Act_ExecutionID := "x"; Act_Status := "handoff_requested"; Act_OccurredAt := Cmd_OccurredAt c |}).
    set (request := executionRequestFor "x" current action (Cmd_OccurredAt c)).
    destruct (Hrecord action' (Some request) eq_refl eq_refl eq_refl) as (arow & Hr & Hexec).
    exists (Build_WorkflowResult updated action' (Some request)), arow. split_and!; [|done|done|by intros _; eexists].
    exists "a"%string, w. split; [done|]. by exists "x"%string, w.
  - set (action := {| Act_TenantID := Cmd_TenantID c; Act_RecommendationID := Cmd_RecommendationID c; Act_ActionID := "a";
      Act_Action := Cmd_Action c; Act_ExecutionID := ""; Act_Status := "recorded"; Act_OccurredAt := Cmd_OccurredAt c |}).
    destruct (Hrecord action None eq_refl eq_refl eq_refl) as (arow & Hr & Hexec).
    exists (Build_WorkflowResult updated action None), arow. split_and!; [|done..]. by exists "a"%string, w.
Qed.

(** The expected version is not checked when the row is written: of two commands
    that run at the same time, an execution and a rejection of an approved
    recommendation that both name its version, both can succeed. The execution is
    handed off, and the recommendation ends up rejected. *)
Lemma concurrent_commands_race w rows current cells t id executes rejects :
  rows_of w t id = rows ++ [current] →
  Forall (λ r, sort_key r = sort_key current ∧ Version r ≤ Version current) (rows ++ [current]) →
  scanRecommendation cells = Ok current → Status current = "approved"%string → (∀ d, is_Some (Marshal d)) →
  Forall (λ c, Cmd_TenantID c = t ∧ Cmd_RecommendationID c = id ∧ Cmd_ExpectedVersion c = Version current) [executes; rejects] →
  (Cmd_Action executes, Cmd_NextStatus executes) = ("request_execution", "executing")%string →
  (Cmd_Action rejects, Cmd_NextStatus rejects) = ("reject", "rejected")%string →
  Version current < u64 (UnixNano (Cmd_OccurredAt executes)) < u64 (UnixNano (Cmd_OccurredAt rejects)) →
  ∃ w' result1 result2 final,
    rtc workflow_step (Pool w [ApplyCommand executes; ApplyCommand rejects]) (Pool w' [Ret (Ok result1); Ret (Ok result2)]) ∧
    is_Some (Result_ExecutionRequest result1) ∧ handoffs w' t id ≠ [] ∧
    visible (recommendations w') t id final ∧ Status final = "rejected"%string.
Proof.
  intros Hrows Hv Hscan Hst Hm Hcs Hx Hr Htimes. rewrite !Forall_cons in Hcs.
  destruct Hcs as ((Tx & Ix & Vx) & (Tr & Ir & Vr) & _). injection Hx as Ax Nx. injection Hr as Ar Nr.
  assert (visible (recommendations w) t id current) as Hvis by (by apply (visible_newest w t id rows current)).
  destruct (apply_to_succeeds executes w current cells) as (result1 & row1 & Hexec1 & Hr1 & Hrec1 & Hreq1); [done|done|done|by rewrite Hst, Nx|].
  set (u1 := with_status current (Cmd_NextStatus executes) (u64 (UnixNano (Cmd_OccurredAt executes)))) in *.
  set (w1 := {| recommendations := recommendations w ++ [u1]; actions := actions w ++ [row1] |}) in *.
  destruct (apply_to_succeeds rejects w1 current cells) as (result2 & row2 & Hexec2 & Hr2 & Hrec2 & _); [done|done|done|by rewrite Hst, Nr|].
  set (u2 := with_status current (Cmd_NextStatus rejects) (u64 (UnixNano (Cmd_OccurredAt rejects)))) in *.
  set (w2 := {| recommendations := recommendations w1 ++ [u2]; actions := actions w1 ++ [row2] |}) in *.
  assert (concerns t id current) as Hc by apply Hvis.
  exists w2, result1, result2, u2. split_and!.
  - assert (∀ c, Cmd_TenantID c = t → Cmd_RecommendationID c = id → ∀ ts i, ts !! i = Some (ApplyCommand c) →
      workflow_step (Pool w ts) (Pool w (<[i := apply_to c current]> ts))) as Hread.
    { intros c Tc Ic ts i Hi. unfold ApplyCommand in Hi.
      pose proof (step_thread (λ _ _ : db, False) (λ _ : nat, db_effect) (λ _ : prog (res error WorkflowResult), False)
        w ts i (SelectRecommendation (Cmd_TenantID c) (Cmd_RecommendationID c)) _ (FirstRow cells) w Hi) as Hstep. simpl in Hstep. rewrite Hscan in Hstep. apply Hstep.
      split; [done|]. exists current. by rewrite Tc, Ic. }
    eapply rtc_l; [by apply (Hread executes Tx Ix _ 0%nat)|]. eapply rtc_l; [by apply (Hread rejects Tr Ir _ 1%nat)|].
    etrans; [exact (exec_steps [apply_to executes current; apply_to rejects current] 0 _ _ _ _ eq_refl Hexec1)|].
    exact (exec_steps [Ret (Ok result1); apply_to rejects current] 1 _ _ _ _ eq_refl Hexec2).
  - by apply Hreq1.
  - destruct Hrec1 as (action & details & -> & Ta & Ia & Aa). unfold handoffs, w2, w1. simpl. rewrite !filter_app.
    intros [[_ Hnil]%app_nil _]%app_nil. rewrite filter_cons, decide_True in Hnil; [done|].
    simpl. apply bool_decide_eq_true. by rewrite Ta, Ia, Aa.
  - assert (rows_of w2 t id = (rows ++ [current; u1]) ++ [u2]) as Hrows2.
    { rewrite (rows_of_app w1 w2 u2), (rows_of_app w w1 u1), !decide_True, Hrows by done. by rewrite <- !app_assoc. }
    apply (visible_newest w2 t id (rows ++ [current; u1]) u2 Hrows2); [|done].
    assert (rows ++ [current; u1] = (rows ++ [current]) ++ [u1]) as -> by (by rewrite <- app_assoc).
    apply Forall_app. split; [apply Forall_app; split|].
    + eapply Forall_impl; [exact Hv|]. intros r [Hk Hle]. split; [done|]. simpl. lia.
    + apply Forall_singleton. split; [done|]. simpl. lia.
    + by apply Forall_singleton.
  - done.
Qed.
(** A command the database answers reads the last row and is carried out. *)
Lemma apply_succeeds c w current cells rows :
  scanRecommendation cells = Ok current → (∀ d, is_Some (Marshal d)) → valid w →
  rows_of w (Cmd_TenantID c) (Cmd_RecommendationID c) = rows ++ [current] →
  Cmd_ExpectedVersion c = Version current → transitionAllowed (Status current) (Cmd_NextStatus c) = true →
  ∃ result w', exec db_effect (ApplyCommand c) w (Ok result) w' ∧
    rows_of w' (Cmd_TenantID c) (Cmd_RecommendationID c) =
      (rows ++ [current]) ++ [with_status current (Cmd_NextStatus c) (u64 (UnixNano (Cmd_OccurredAt c)))].
Proof.
  intros Hscan Hm Hv Hrows Hver Hallowed.
  destruct (apply_to_succeeds c w current cells Hscan Hm Hver Hallowed) as (result & row & Hexec & _).
  eexists result, _. split.
  - exists (FirstRow cells), w. split; [|cbn; by rewrite Hscan]. split; [done|]. exists current. split; [done|].
    by apply (visible_last w _ _ rows current Hrows (valid_history w Hv _ _)).
  - rewrite (rows_of_app w _ (with_status current (Cmd_NextStatus c) (u64 (UnixNano (Cmd_OccurredAt c))))) by done.
    rewrite Hrows, decide_True; [done|]. assert (current ∈ rows_of w (Cmd_TenantID c) (Cmd_RecommendationID c)) as Hin by (rewrite Hrows; set_solver).
    by apply list_elem_of_filter in Hin as [? _].
Qed.
End workflow.

(** ** A concrete recommendation *)

Definition sample (status : string) (version : Z) : Recommendation := {|
  TenantID := "tenant-a"; RecommendationID := "rec-1"; ClusterID := "cluster-a"; NamespaceUID := "";
  TargetKind := "container"; TargetUID := "pod/container"; RecommendationType := "rightsizing";
  SafetyClass := "review_required"; Status := status; AnalysisWindowStart := unix_epoch;
  AnalysisWindowEnd := unix_epoch + Hour; GeneratedAt := unix_epoch + Hour; ExpiresAt := unix_epoch + 48 * Hour;
  CurrentConfiguration := "{}"; ProposedConfiguration := "{}"; Evidence := "{}"; Currency := "USD";
  MonthlyGrossSavings := "1.25"; MonthlyNetSavings := "1.25"; Confidence := "0.7"; RiskScore := "0.3";
  PolicyVersion := ""; ModelVersion := "optimization-v1"; ComputationVersion := "optimization-v1"; Version := version |}.
(** decimals as their strings, JSON as [unit] *)
Definition sample_cells (r : Recommendation) : list cell := default [] (recommendationRow (decimal := string) Some r).
Definition sample_command (action next : string) (expected : Z) (at_ : Time) : @WorkflowCommand unit := {|
  Cmd_TenantID := "tenant-a"; Cmd_RecommendationID := "rec-1"; Cmd_Action := action; Cmd_NextStatus := next;
  Cmd_ActorID := "user-a"; Cmd_Reason := ""; Cmd_ExpectedVersion := expected; Cmd_Details := None;
  Cmd_OccurredAt := unix_epoch + at_ |}.
Definition sample_db (r : Recommendation) : db (decimal := string) := {| recommendations := [r]; actions := [] |}.
Definition sample_marshal (d : option (gmap string unit)) : option string := Some "{}"%string.
Lemma sample_decimal (d : string) : ∃ d', Some (id d) = Some d' ∧ id d' = id d.
Proof. by exists d. Qed.
Lemma sample_recommendation_valid r : valid (sample_db r).
Proof.
  split; intros t id; [|simpl; lia]. unfold rows_of, sample_db. simpl. rewrite filter_cons, filter_nil. by case_decide.
Qed.

Lemma serial_commands_keep_history_witness :
  let approves := sample_command "approve" "approved" 1 2 in
  let executes := sample_command "request_execution" "executing" 2 3 in
  ∃ answers w', serial (decimal := string) id Some sample_marshal (λ _, tt) [approves; executes] (sample_db (sample "open" 1)) answers w' ∧
    Status <$> rows_of w' "tenant-a" "rec-1" = ["open"; "approved"; "executing"]%string ∧
    history (rows_of w' "tenant-a" "rec-1") ∧
    length (actions w') = 2%nat ∧ length (handoffs w' "tenant-a" "rec-1") = 1%nat.
Proof.
  intros approves executes. pose proof (sample_recommendation_valid (sample "open" 1)) as Hv.
  destruct (apply_succeeds (decimal := string) id Some sample_marshal (λ _, tt) sample_decimal approves
    (sample_db (sample "open" 1)) (sample "open" 1) (sample_cells (sample "open" 1)) [])
    as (result1 & w1 & Hexec1 & Hrows1); [reflexivity|by eexists|done|reflexivity..|].
  assert (newer approves (sample_db (sample "open" 1))) as Hn1 by (by repeat constructor).
  assert (handled approves) as Hh1 by (unfold handled; simpl; set_solver).
  assert (valid w1) as Hv1.
  { destruct (apply_exec id Some sample_marshal (λ _, tt) sample_decimal _ _ _ _ Hexec1) as (recs & rows & Ho).
    exact (outcome_valid sample_marshal (λ _, tt) approves _ _ w1 recs rows Hh1 Hn1 Hv Ho). }
  assert (rows_of w1 "tenant-a" "rec-1" = [sample "open" 1] ++ [sample "approved" 2]) as Hrows1' by exact Hrows1.
  destruct (apply_succeeds (decimal := string) id Some sample_marshal (λ _, tt) sample_decimal executes w1
    (sample "approved" 2) (sample_cells (sample "approved" 2)) [sample "open" 1])
    as (result2 & w2 & Hexec2 & Hrows2); [reflexivity|by eexists|done|done|reflexivity..|].
  assert (serial (decimal := string) id Some sample_marshal (λ _, tt) [approves; executes] (sample_db (sample "open" 1))
    [Ok result1; Ok result2] w2) as Hs.
  { split; [done|]. split; [done|]. exists w1. split; [done|].
    split; [unfold handled; simpl; set_solver|]. split; [unfold newer; simpl; rewrite Hrows1'; by repeat constructor|].
    by exists w2. }
  exists [Ok result1; Ok result2], w2. split; [done|]. assert (Status <$> rows_of w2 "tenant-a" "rec-1" = ["open"; "approved"; "executing"]%string) as Hst
    by exact (f_equal (fmap Status) Hrows2). split; [exact Hst|].
  destruct (serial_commands_keep_history (decimal := string) id Some sample_marshal (λ _, tt) sample_decimal
    [approves; executes] (sample_db (sample "open" 1)) _ w2 Hv Hs) as (changes & Hl & _ & Ha & Hall).
  destruct (Hall "tenant-a" "rec-1"%string) as (Hh & _ & Heq). split; [done|].
  inversion Hl as [|? ? ? ? rc1 rw1 ? Hc1 Hl1]; subst. inversion Hl1 as [|? ? ? ? rc2 rw2 ? Hc2 Hl2]; subst. inversion Hl2; subst.
  inversion Hc1; subst. inversion Hc2; subst. split; [by rewrite Ha|]. rewrite Heq; [|by repeat constructor|done].
  unfold executing. transitivity (length (filter (λ r, Status r = "executing"%string)
    (([sample "open" 1] ++ [sample "approved" 2]) ++ [sample "executing" 3]))); [|reflexivity].
  do 2 f_equal. exact Hrows2.
Defined.
Lemma concurrent_commands_race_witness :
  ∃ w' result1 result2 final,
    rtc (pool_step (λ _ _, False) (λ _ : nat, db_effect id) (λ _, False))
      (Pool (sample_db (sample "approved" 1))
         [ApplyCommand (decimal := string) id Some sample_marshal (λ _, tt) (sample_command "request_execution" "executing" 1 2);
          ApplyCommand id Some sample_marshal (λ _, tt) (sample_command "reject" "rejected" 1 3)])
      (Pool w' [Ret (Ok result1); Ret (Ok result2)]) ∧
    is_Some (Result_ExecutionRequest result1) ∧ handoffs w' "tenant-a" "rec-1" ≠ [] ∧
    visible (recommendations w') "tenant-a" "rec-1" final ∧ Status final = "rejected"%string.
Proof.
  apply (concurrent_commands_race (decimal := string) id Some sample_marshal (λ _, tt) sample_decimal
    (sample_db (sample "approved" 1)) [] (sample "approved" 1) (sample_cells (sample "approved" 1))); try reflexivity.
  - by repeat constructor.
  - by eexists.
  - by repeat constructor.
  - split; reflexivity.
Defined.
End Workflow.
