(* ===== verification/Policy.v ===== *)
(** * Policy versions

    [services/policy]: the in-process store of policy versions per tenant and
    family ([store.go]) and its HTTP handlers ([server.go]).

    The store is only used with its lock held, and the values it returns are
    copies, so its maps are pure values. [time.Parse], [json.Valid] and the random
    source are parameters; where the source ranges over a map, the order is one. *)
From stdpp Require Import base option list gmap strings sorting.
From Stdlib Require Import ZArith Lia Ascii.
From S2P Require Import Prelude Proto Stores Http.

Module Policy.
Import Http Gatewayauth.

(** ** Data *)

Record VersionRequest := {
  Req_Version : string;
  Req_Description : string;
  Req_EffectiveStart : string;
  Req_Rules : string
}.
Record PolicyVersion := {
  TenantID : string;
  Family : string;
  Version : string;
  Description : string;
  Status : string;
  EffectiveStart : Time;
  Rules : string;
  CreatedBy : string;
  CreatedAt : Time;
  ActivatedBy : string;
  ActivatedAt : option Time
}.
Record PolicyFamily := {
  Fam_TenantID : string;
  Fam_Family : string;
  Fam_ActiveVersion : string;
  Fam_Versions : list PolicyVersion
}.
Record PolicyFamiliesResult := {
  Families_TenantID : string;
  Families_Families : list PolicyFamily;
  Families_ResultCount : Z
}.
Record policyFamilyState := { activeVersion : string; versions : gmap string PolicyVersion }.
Record Store := { families : gmap string (gmap string policyFamilyState) }.

(** ** The store *)

Section store.
Context (Parse : string → option Time).

Definition cloneRawMessage (value : string) : string := value.
Definition clonePolicy (policy : PolicyVersion) : PolicyVersion := policy.
Definition mustPolicyTime (value : string) (fallback : Time) : Time :=
  if (value =? "")%string then fallback else default fallback (Parse value).
(** [newPolicyVersionID] on the random bytes in hexadecimal, or on the clock when
    the random source fails *)
Definition newPolicyVersionID (random : option string) (now : Time) : string :=
  match random with Some hex => "policy_" +:+ hex | None => "policy-" +:+ dec (UnixNano now) end.

Definition NewStore : Store := {| families := ∅ |}.
Definition family_state (s : Store) (tenantID family : string) : option policyFamilyState :=
  families s !! tenantID ≫= λ tenantFamilies, tenantFamilies !! family.
Definition set_state (s : Store) (tenantID family : string) (state : policyFamilyState) : Store :=
  {| families := <[tenantID := <[family := state]> (default ∅ (families s !! tenantID))]> (families s) |}.

(** [generated] is what [newPolicyVersionID] returns. *)
Definition CreateVersion (s : Store) (generated tenantID family createdBy : string) (request : VersionRequest) (now : Time)
    : res string PolicyVersion * Store :=
  let version := if (Req_Version request =? "")%string then generated else Req_Version request in
  let policy := {|
    TenantID := tenantID; Family := family; Version := version; Description := Req_Description request;
    Status := "draft"; EffectiveStart := mustPolicyTime (Req_EffectiveStart request) now;
    Rules := cloneRawMessage (Req_Rules request); CreatedBy := createdBy; CreatedAt := now;
    ActivatedBy := ""; ActivatedAt := None |} in
  let state := default {| activeVersion := ""; versions := ∅ |} (family_state s tenantID family) in
  match versions state !! version with
  | Some _ => (Err "policy version already exists"%string, set_state s tenantID family state)
  | None =>
      (Ok (clonePolicy policy),
       set_state s tenantID family {| activeVersion := activeVersion state; versions := <[version := policy]> (versions state) |})
  end.

Definition with_Status (p : PolicyVersion) (status : string) : PolicyVersion :=
  {| TenantID := TenantID p; Family := Family p; Version := Version p; Description := Description p; Status := status;
     EffectiveStart := EffectiveStart p; Rules := Rules p; CreatedBy := CreatedBy p; CreatedAt := CreatedAt p;
     ActivatedBy := ActivatedBy p; ActivatedAt := ActivatedAt p |}.
Definition deactivate (current : PolicyVersion) : PolicyVersion :=
  if (Status current =? "active")%string then with_Status current "inactive" else current.
Definition ActivateVersion (s : Store) (tenantID family version actor : string) (now : Time) : option PolicyVersion * Store :=
  match family_state s tenantID family with
  | None => (None, s)
  | Some state =>
      match versions state !! version with
      | None => (None, s)
      | Some policy =>
          let activated := {|
            TenantID := TenantID policy; Family := Family policy; Version := Version policy;
            Description := Description policy; Status := "active"; EffectiveStart := EffectiveStart policy;
            Rules := Rules policy; CreatedBy := CreatedBy policy; CreatedAt := CreatedAt policy;
            ActivatedBy := actor; ActivatedAt := Some now |} in
          (Some (clonePolicy activated),
           set_state s tenantID family
             {| activeVersion := version; versions := <[version := activated]> (deactivate <$> versions state) |})
      end
  end.

(** [Families]: the keys of the maps in the order the loops visit them *)
Definition created_before (a b : PolicyVersion) : Prop := CreatedAt a ≤ CreatedAt b.
#[export] Instance created_before_dec a b : Decision (created_before a b) := decide (_ ≤ _).
Definition family_before (a b : PolicyFamily) : Prop := String.ltb (Fam_Family b) (Fam_Family a) = false.
#[export] Instance family_before_dec a b : Decision (family_before a b) := decide (_ = _).
Definition Families (s : Store) (tenantID : string) (familyOrder : list string) (versionOrder : string → list string) : list PolicyFamily :=
  let tenantFamilies := default ∅ (families s !! tenantID) in
  merge_sort family_before (omap (λ family,
    (λ state, {| Fam_TenantID := tenantID; Fam_Family := family; Fam_ActiveVersion := activeVersion state;
                 Fam_Versions := merge_sort created_before
                   (omap (λ version, clonePolicy <$> versions state !! version) (versionOrder family)) |})
    <$> tenantFamilies !! family) familyOrder).

(** ** The HTTP handlers *)

Context (Valid : string → bool) (Getenv : string → string).

(** [^[a-z0-9][a-z0-9._-]{0,62}$] *)
Definition lower_alnum (c : ascii) : bool :=
  let z := Z_of_byte c in ((48 <=? z) && (z <=? 57)) || ((97 <=? z) && (z <=? 122)).
Definition policyNamePattern (s : string) : bool :=
  match s with
  | EmptyString => false
  | String c rest =>
      lower_alnum c && forallb (λ c, lower_alnum c || bool_decide (c ∈ ["."; "_"; "-"]%char)) (String.list_ascii_of_string rest)
      && (String.length rest <=? 62)%nat
  end.
Definition pathPolicyName (value name : string) : res problem string :=
  let value := TrimSpace value in
  if policyNamePattern value then Ok value
  else Err (problem_of StatusBadRequest "invalid_request" (name +:+ " must be lowercase letters, numbers, dots, underscores, or hyphens")).
Definition decodeVersionRequest (b : body VersionRequest) : res problem VersionRequest :=
  match b with
  | NoBody | EmptyBody => Err (problem_of StatusBadRequest "invalid_request" "request body is required")
  | MalformedBody => Err (problem_of StatusBadRequest "invalid_request" "request body must be valid policy JSON")
  | JSONBody request => Ok request
  end.
Definition normalizeVersionRequest (request : VersionRequest) : res problem VersionRequest :=
  let version := TrimSpace (Req_Version request) in
  if negb (version =? "")%string && negb (policyNamePattern version)
  then Err (problem_of StatusBadRequest "invalid_request" "version must be lowercase letters, numbers, dots, underscores, or hyphens")
  else
    let effectiveStart := TrimSpace (Req_EffectiveStart request) in
    if negb (effectiveStart =? "")%string && bool_decide (Parse effectiveStart = None)
    then Err (problem_of StatusBadRequest "invalid_request" "effective_start must be an RFC3339 timestamp")
    else if (Req_Rules request =? "")%string || negb (Valid (Req_Rules request))
    then Err (problem_of StatusBadRequest "invalid_request" "rules must be valid JSON")
    else Ok {| Req_Version := version; Req_Description := TrimSpace (Req_Description request);
               Req_EffectiveStart := effectiveStart; Req_Rules := cloneRawMessage (Req_Rules request) |}.
Definition authenticatedActor (clock : Time) (r : Request) : res problem (string * string) :=
  match trustedGateway Getenv clock r with
  | Some p => Err p
  | None =>
      let tenantID := TrimSpace (Get (Header r) TenantHeader) in
      if (tenantID =? "")%string
      then Err (problem_of StatusUnauthorized "unauthenticated" (TenantHeader +:+ " is required"))
      else Ok (tenantID, TrimSpace (Get (Header r) principalHeader))
  end.
Definition listPolicies (s : Store) (clock : Time) (r : Request) familyOrder versionOrder : response PolicyFamiliesResult :=
  match authenticatedActor clock r with
  | Err p => Problem p
  | Ok (tenantID, _) =>
      let families := Families s tenantID familyOrder versionOrder in
      writeJSON StatusOK {| Families_TenantID := tenantID; Families_Families := families;
                            Families_ResultCount := Z.of_nat (length families) |}
  end.
Definition createVersion (s : Store) (clock now : Time) (random : option string) (r : Request) (b : body VersionRequest)
    : response PolicyVersion * Store :=
  match authenticatedActor clock r with
  | Err p => (Problem p, s)
  | Ok (tenantID, actor) =>
      match pathPolicyName (PathValue r "family") "family" with
      | Err p => (Problem p, s)
      | Ok family =>
          match decodeVersionRequest b with
          | Err p => (Problem p, s)
          | Ok request =>
              match normalizeVersionRequest request with
              | Err p => (Problem p, s)
              | Ok request =>
                  match CreateVersion s (newPolicyVersionID random now) tenantID family actor request now with
                  | (Err _, s') => (writeProblem StatusConflict "conflict" "policy version already exists", s')
                  | (Ok version, s') => (writeJSON StatusCreated version, s')
                  end
              end
          end
      end
  end.
Definition activateVersion (s : Store) (clock now : Time) (r : Request) : response PolicyVersion * Store :=
  match authenticatedActor clock r with
  | Err p => (Problem p, s)
  | Ok (tenantID, actor) =>
      match pathPolicyName (PathValue r "family") "family" with
      | Err p => (Problem p, s)
      | Ok family =>
          match pathPolicyName (PathValue r "version") "version" with
          | Err p => (Problem p, s)
          | Ok version =>
              match ActivateVersion s tenantID family version actor now with
              | (None, s') => (writeProblem StatusNotFound "not_found" "policy version not found", s')
              | (Some policy, s') => (writeJSON StatusOK policy, s')
              end
          end
      end
  end.

(** ** Properties *)

(** The requests that change the store *)
Inductive step : Store → Store → Prop :=
| step_create s clock now random r b : step s (createVersion s clock now random r b).2
| step_activate s clock now r : step s (activateVersion s clock now r).2.

(** A request that passes its checks changes the store by the operation it asks for. *)
Lemma createVersion_store s clock now random r b :
  (createVersion s clock now random r b).2 = s ∨
  ∃ t actor f request, authenticatedActor clock r = Ok (t, actor) ∧
    (createVersion s clock now random r b).2 = (CreateVersion s (newPolicyVersionID random now) t f actor request now).2.
Proof.
  unfold createVersion. destruct (authenticatedActor clock r) as [[t actor]|]; [|by left].
  destruct (pathPolicyName _ _) as [f|]; [|by left]. destruct (decodeVersionRequest b) as [q|]; [|by left].
  destruct (normalizeVersionRequest q) as [request|]; [|by left]. right. exists t, actor, f, request. split; [done|].
  by destruct (CreateVersion _ _ _ _ _ _ _) as [[v|e] s'].
Qed.
Lemma activateVersion_store s clock now r :
  (activateVersion s clock now r).2 = s ∨
  ∃ t actor f version, authenticatedActor clock r = Ok (t, actor) ∧
    (activateVersion s clock now r).2 = (ActivateVersion s t f version actor now).2.
Proof.
  unfold activateVersion. destruct (authenticatedActor clock r) as [[t actor]|]; [|by left].
  destruct (pathPolicyName _ "family") as [f|]; [|by left]. destruct (pathPolicyName _ "version") as [version|]; [|by left].
  right. exists t, actor, f, version. split; [done|]. by destruct (ActivateVersion _ _ _ _ _ _) as [[v|] s'].
Qed.

Record consistent (tenantID family : string) (state : policyFamilyState) : Prop := {
  consistent_fields v p : versions state !! v = Some p →
    v ≠ EmptyString ∧ Version p = v ∧ TenantID p = tenantID ∧ Family p = family ∧
    Status p ∈ ["draft"; "active"; "inactive"]%string ∧ (Status p = "active"%string ↔ v = activeVersion state);
  consistent_active : activeVersion state ≠ EmptyString → is_Some (versions state !! activeVersion state)
}.
Definition consistent_store (s : Store) : Prop :=
  ∀ t f state, family_state s t f = Some state → consistent t f state.

Lemma family_state_set s t f state t' f' :
  family_state (set_state s t f state) t' f' = if decide (t' = t ∧ f' = f) then Some state else family_state s t' f'.
Proof.
  unfold family_state, set_state. simpl. destruct (decide (t' = t)) as [->|Ht].
  - rewrite lookup_insert_eq. simpl. destruct (decide (f' = f)) as [->|Hf].
    + by rewrite lookup_insert_eq, decide_True.
    + rewrite lookup_insert_ne, decide_False by intuition congruence. by destruct (families s !! t).
  - rewrite lookup_insert_ne, decide_False by intuition congruence. done.
Qed.
Lemma newPolicyVersionID_ne random now : newPolicyVersionID random now ≠ EmptyString.
Proof. by destruct random. Qed.

Lemma CreateVersion_consistent s generated t f actor request now :
  generated ≠ EmptyString → consistent_store s → consistent_store (CreateVersion s generated t f actor request now).2.
Proof.
  intros Hg Hs. unfold CreateVersion. set (version := if (Req_Version request =? "")%string then generated else Req_Version request).
  assert (version ≠ EmptyString) as Hv by (unfold version; destruct (String.eqb_spec (Req_Version request) ""); done).
  set (state := default _ (family_state s t f)).
  assert (consistent t f state) as Hst.
  { unfold state. destruct (family_state s t f) eqn:E; [by apply Hs|]. split; simpl; [|done]. intros v p. by rewrite lookup_empty. }
  destruct (versions state !! version) as [p|] eqn:Hp; simpl; intros t' f' state'; rewrite family_state_set;
    (case_decide as Hd; [destruct Hd as [-> ->]; intros [= <-]|apply Hs]); [done|].
  assert (version ≠ activeVersion state) as Hna.
  { intros He. destruct (decide (activeVersion state = EmptyString)); [congruence|].
    destruct (consistent_active _ _ _ Hst) as [q Hq]; [done|]. congruence. }
  split; simpl.
  - intros v q. destruct (decide (version = v)) as [<-|Hne]; [|rewrite lookup_insert_ne by done; apply Hst].
    rewrite lookup_insert_eq. intros [= <-]. simpl. split_and!; [done..|by left|]. split; [done|]. intros He. by destruct Hna.
  - intros Ha. destruct (consistent_active _ _ _ Hst Ha) as [q Hq]. rewrite lookup_insert_ne by done. eauto.
Qed.
Lemma ActivateVersion_consistent s t f version actor now :
  consistent_store s → consistent_store (ActivateVersion s t f version actor now).2.
Proof.
  intros Hs. unfold ActivateVersion. destruct (family_state s t f) as [state|] eqn:Hst; [|done].
  destruct (versions state !! version) as [policy|] eqn:Hp; [|done]. simpl. pose proof (Hs t f state Hst) as Hc.
  intros t' f' state'. rewrite family_state_set. case_decide as Hd; [destruct Hd as [-> ->]; intros [= <-]|apply Hs].
  destruct (consistent_fields _ _ _ Hc _ _ Hp) as (Hne & Hv & Ht & Hf & _ & _).
  split; simpl; [|intros _; rewrite lookup_insert_eq; eauto].
  intros v p. destruct (decide (version = v)) as [<-|Hvv].
  - rewrite lookup_insert_eq. intros [= <-]. simpl. split_and!; [done..|by right; left|done].
  - rewrite lookup_insert_ne, lookup_fmap by done. destruct (versions state !! v) as [q|] eqn:Hq; [|done]. intros [= <-].
    destruct (consistent_fields _ _ _ Hc _ _ Hq) as (Hne' & Hv' & Ht' & Hf' & Hst' & _). unfold deactivate.
    destruct (String.eqb_spec (Status q) "active") as [Ha|Ha]; simpl; (split_and!; [done..|first [exact Hst'|do 2 right; by left]|]); split; congruence.
Qed.

(** What a version says, as opposed to its activation *)
Definition content (p : PolicyVersion) : string * string * string * string * Time * string * string * Time :=
  (TenantID p, Family p, Version p, Description p, EffectiveStart p, Rules p, CreatedBy p, CreatedAt p).
(** Later, a version says the same, and unless it was activated it is the same. *)
Definition preserved (p p' : PolicyVersion) : Prop := content p' = content p ∧ (p' = p ∨ Status p' ≠ "draft"%string).
Lemma preserved_refl p : preserved p p.
Proof. split; auto. Qed.
Lemma preserved_trans p1 p2 p3 : preserved p1 p2 → preserved p2 p3 → preserved p1 p3.
Proof. intros [H1 [->|H2]] [H3 [->|H4]]; split; first [congruence|auto]. Qed.
(** No version of [s] is missing from [s'] or says something else there, and the
    families of tenants other than [t] are the same. *)
Definition extends (t : string) (s s' : Store) : Prop :=
  (∀ t', t' ≠ t → families s' !! t' = families s !! t') ∧
  ∀ t' f state v p, family_state s t' f = Some state → versions state !! v = Some p →
    ∃ state' p', family_state s' t' f = Some state' ∧ versions state' !! v = Some p' ∧ preserved p p'.
Lemma extends_refl t s : extends t s s.
Proof. split; [done|]. intros. eauto using preserved_refl. Qed.
Lemma set_state_extends s t f state' :
  (∀ state v p, family_state s t f = Some state → versions state !! v = Some p →
     ∃ p', versions state' !! v = Some p' ∧ preserved p p') →
  extends t s (set_state s t f state').
Proof.
  intros Hs. split; [intros t' Ht; unfold set_state; simpl; by rewrite lookup_insert_ne|].
  intros t' f' state v p Hst Hp. rewrite family_state_set. case_decide as Hd; [destruct Hd as [-> ->]|eauto using preserved_refl].
  destruct (Hs _ _ _ Hst Hp) as (p' & Hp' & Hc). eauto.
Qed.
Lemma CreateVersion_extends s generated t f actor request now :
  extends t s (CreateVersion s generated t f actor request now).2.
Proof.
  unfold CreateVersion. set (version := if (Req_Version request =? "")%string then generated else Req_Version request).
  destruct (versions (default _ (family_state s t f)) !! version) as [q|] eqn:Hq; simpl; apply set_state_extends; intros state v p Hst;
    rewrite Hst in *; simpl in *; [eauto using preserved_refl|]. intros Hp. rewrite lookup_insert_ne by congruence. eauto using preserved_refl.
Qed.
Lemma ActivateVersion_extends s t f version actor now : extends t s (ActivateVersion s t f version actor now).2.
Proof.
  unfold ActivateVersion. destruct (family_state s t f) as [state|] eqn:Hst; [|apply extends_refl].
  destruct (versions state !! version) as [policy|] eqn:Hq; [|apply extends_refl]. simpl. apply set_state_extends.
  intros state' v p Hst' Hp. rewrite Hst in Hst'. injection Hst' as <-. simpl. destruct (decide (version = v)) as [<-|Hne].
  - rewrite lookup_insert_eq. eexists. split; [done|]. rewrite Hq in Hp. injection Hp as <-. split; [done|by right].
  - rewrite lookup_insert_ne, lookup_fmap, Hp by done. eexists. split; [done|]. unfold deactivate.
    case_match; [split; [done|by right]|apply preserved_refl].
Qed.

(** A request changes only the families of the tenant it is authenticated for,
    and no request removes a version or changes what a version says: creating is
    refused when the name is taken, and activating only moves the status. A
    request that is not authenticated changes nothing. *)
Lemma policy_requests_confined s s' :
  step s s' → s' = s ∨ ∃ clock r t actor, authenticatedActor clock r = Ok (t, actor) ∧ extends t s s'.
Proof.
  intros [s1 clock now random r b|s1 clock now r].
  - destruct (createVersion_store s1 clock now random r b) as [->|(t & actor & f & request & Ha & ->)]; [by left|].
    right. exists clock, r, t, actor. split; [done|]. apply CreateVersion_extends.
  - destruct (activateVersion_store s1 clock now r) as [->|(t & actor & f & version & Ha & ->)]; [by left|].
    right. exists clock, r, t, actor. split; [done|]. apply ActivateVersion_extends.
Qed.
Lemma step_consistent s s' : step s s' → consistent_store s → consistent_store s'.
Proof.
  intros [s1 clock now random r b|s1 clock now r] Hs.
  - destruct (createVersion_store s1 clock now random r b) as [->|(t & actor & f & request & _ & ->)]; [done|].
    by apply CreateVersion_consistent, Hs; first apply newPolicyVersionID_ne.
  - destruct (activateVersion_store s1 clock now r) as [->|(t & actor & f & version & _ & ->)]; [done|].
    by apply ActivateVersion_consistent.
Qed.
Lemma steps_preserve s s' :
  rtc step s s' → ∀ t f state v p, family_state s t f = Some state → versions state !! v = Some p →
  ∃ state' p', family_state s' t f = Some state' ∧ versions state' !! v = Some p' ∧ preserved p p'.
Proof.
  induction 1 as [s|s1 s2 s3 H12 _ IH]; intros t f state v p Hst Hp; [eauto using preserved_refl|].
  destruct (policy_requests_confined _ _ H12) as [->|(clock & r & t' & actor & _ & _ & Hext)]; [eauto|].
  destruct (Hext _ _ _ _ _ Hst Hp) as (state2 & p2 & Hst2 & Hp2 & Hk).
  destruct (IH _ _ _ _ _ Hst2 Hp2) as (state3 & p3 & ? & ? & ?). eauto 10 using preserved_trans.
Qed.

(** C21: whatever requests arrive, a family has at most one active version: the
    version its state names, and exactly that one has status active; every version is
    stored under its own name, tenant and family. And versions are never changed but in
    their activation: a version that was ever stored is stored for ever, with the same
    description, rules, start, author and creation time, and is the very same version
    as long as its status is draft. *)
Theorem one_active_version s s' :
  rtc step NewStore s → rtc step s s' →
  (∀ t f state, family_state s' t f = Some state → consistent t f state) ∧
  (∀ t f state v p, family_state s t f = Some state → versions state !! v = Some p →
     ∃ state' p', family_state s' t f = Some state' ∧ versions state' !! v = Some p' ∧
       content p' = content p ∧ (p' = p ∨ Status p' ≠ "draft"%string)).
Proof.
  intros H1 H2. split; [|by apply steps_preserve]. assert (rtc step NewStore s') as Hr by (by etrans).
  clear H1 H2. revert s' Hr. apply (rtc_ind_r (R := step) consistent_store NewStore).
  - intros t f state. unfold family_state, NewStore. simpl. by rewrite lookup_empty.
  - intros s1 s2 _ Hstep. by apply step_consistent.
Qed.
End store.

(** ** Two versions, the second activated after the first *)
Definition sample_body (version : string) : body VersionRequest :=
  JSONBody {| Req_Version := version; Req_Description := ""; Req_EffectiveStart := ""; Req_Rules := "{}" |}.
Definition sample_policy_request (version : string) : Request :=
  {| Method := "POST"; Url := {| Auth.Scheme := ""; Auth.Host := ""; Auth.Path := "/api/v1/policies"; Auth.RawPath := "" |};
     RawQuery := ""; ReqHost := "policy"; Header := Set_ ∅ TenantHeader "tenant-a";
     PathValues := <["family" := "scale"]> (<["version" := version]> ∅) |}%string.
Definition no_env (name : string) : string := "".
Definition no_parse (value : string) : option Time := None.
Definition any_json (value : string) : bool := true.
Definition create_sample (s : Store) (version : string) : Store :=
  (createVersion no_parse any_json no_env s 1 1 None (sample_policy_request version) (sample_body version)).2.
Definition activate_sample (s : Store) (version : string) : Store :=
  (activateVersion no_env s 1 1 (sample_policy_request version)).2.
Definition sample_store : Store :=
  activate_sample (activate_sample (create_sample (create_sample NewStore "v1") "v2") "v1") "v2".
Example sample_statuses :
  (λ state, Status <$> (omap (λ v, versions state !! v) ["v1"; "v2"])) <$> family_state sample_store "tenant-a" "scale"
  = Some ["inactive"; "active"]%string.
Proof. vm_compute. reflexivity. Qed.
Lemma one_active_version_witness :
  ∃ state p, family_state sample_store "tenant-a" "scale" = Some state ∧ activeVersion state = "v2"%string ∧
    versions state !! "v1"%string = Some p ∧ Rules p = "{}"%string ∧ consistent "tenant-a" "scale" state.
Proof.
  pose proof (λ s v, step_create no_parse any_json no_env s 1 1 None (sample_policy_request v) (sample_body v)) as Hc.
  pose proof (λ s v, step_activate no_parse any_json no_env s 1 1 (sample_policy_request v)) as Ha.
  destruct (one_active_version no_parse any_json no_env (create_sample NewStore "v1") sample_store) as [Hall Hkeep].
  { exact (rtc_once _ _ (Hc NewStore "v1"%string)). }
  { exact (rtc_l _ _ _ _ (Hc _ "v2"%string) (rtc_l _ _ _ _ (Ha _ "v1"%string) (rtc_once _ _ (Ha _ "v2"%string)))). }
  destruct (family_state (create_sample NewStore "v1") "tenant-a" "scale") as [state0|] eqn:H0; [|by vm_compute in H0].
  destruct (versions state0 !! "v1"%string) as [p0|] eqn:Hp0; [|vm_compute in H0; injection H0 as <-; by vm_compute in Hp0].
  destruct (Hkeep _ _ _ _ _ H0 Hp0) as (state & p & Hst & Hp & Heq & _). exists state, p.
  split_and!; [done|vm_compute in Hst; by injection Hst as <-|done| |by apply Hall].
  assert (Rules p = Rules p0) as -> by (unfold content in Heq; congruence).
  vm_compute in H0. injection H0 as <-. vm_compute in Hp0. by injection Hp0 as <-.
Defined.
Lemma policy_requests_confined_witness :
  step no_parse any_json no_env (create_sample NewStore "v1") (activate_sample (create_sample NewStore "v1") "v1") ∧
  (activate_sample (create_sample NewStore "v1") "v1" = create_sample NewStore "v1" ∨
   ∃ clock r t actor, authenticatedActor no_env clock r = Ok (t, actor) ∧
     extends t (create_sample NewStore "v1") (activate_sample (create_sample NewStore "v1") "v1")).
Proof.
  assert (step no_parse any_json no_env (create_sample NewStore "v1") (activate_sample (create_sample NewStore "v1") "v1")) as Hs
    by exact (step_activate no_parse any_json no_env _ 1 1 (sample_policy_request "v1")).
  split; [exact Hs|]. exact (policy_requests_confined no_parse any_json no_env _ _ Hs).
Defined.
End Policy.
