(* ===== verification/Query.v ===== *)
(** * The query service

    [services/query]: the request checks, pages and cursors of the analytical
    reads and the data-quality summary ([server.go], [types.go]), and the
    in-process store of asynchronous query jobs ([query_jobs.go]).

    Reads of the database, JSON encodings, the parsers of timestamps and durations
    and the random source are parameters. *)
From stdpp Require Import base option list gmap strings.
From Stdlib Require Import ZArith Lia SpecFloat.
From S2P Require Import Prelude Crypto Proto Stores Effects Allocation Http.

Module Query.
Import Http Gatewayauth.

(** ** Data *)

Definition defaultFreshnessWindow : Duration := 10 * Minute.
Definition defaultAnalyticsLimit : Z := 100.
Definition maxAnalyticsLimit : Z := 500.
Definition defaultStaleStatus : string := "stale".
Definition defaultFreshStatus : string := "fresh".
Definition defaultEmptyStatus : string := "empty".
Definition computationVersionDataQ1 : string := "data-quality-v1".
Definition usageCursorKind : string := "usage".
Definition costsCursorKind : string := "costs".
Definition allocationCursorKind : string := "allocation".
Definition queryJobStatusQueued : string := "queued".
Definition queryJobStatusRunning : string := "running".
Definition queryJobStatusSucceeded : string := "succeeded".
Definition queryJobStatusFailed : string := "failed".

Record DataQualityQuery := { DQ_TenantID : string; DQ_ClusterID : string; DQ_FreshnessWindow : Duration }.
Record AnalyticsQuery := {
  TenantID : string;
  ClusterID : string;
  Start : Time;
  End_ : Time;
  GroupBy : string;
  Limit : Z;
  Offset : Z;
  IncludeQuality : bool
}.
Record DataQualitySignal := {
  Source : string;
  Grain : string;
  Signal_ClusterID : string;
  RecordCount : Z;
  LatestBucketStart : option Time;
  LatestIngestedAt : option Time;
  FreshnessSeconds : option Z;
  Signal_Status : string;
  Warning : string;
  ExpectedFreshnessLimit : string
}.
(** [EstimatedPercent] is a [float64] that only ever holds 0, 50 or 100. *)
Record QualitySummary := {
  Quality_Status : string;
  EstimatedPercent : Z;
  MissingScopes : list string;
  Warnings : list string;
  FreshnessWindowSecs : Z
}.
Record DataQualityResult := {
  DQR_TenantID : string;
  DQR_ClusterID : string;
  DQR_GeneratedAt : Time;
  DataThrough : option Time;
  DQR_ComputationVersion : string;
  Signals : list DataQualitySignal;
  Quality : QualitySummary
}.
Record UsageRow := {
  UsageRow_TenantID : string;
  UsageRow_ClusterID : string;
  UsageRow_GroupKey : string;
  UsageRow_GroupValue : string;
  UsageRow_NamespaceUID : string;
  UsageRow_NamespaceName : string;
  CPUUsageCoreHours : string;
  CPURequestCoreHours : string;
  CPULimitCoreHours : string;
  MemoryWorkingSetGiBHours : string;
  MemoryRequestGiBHours : string;
  MemoryLimitGiBHours : string;
  UsageRow_NetworkBytes : Z;
  FilesystemBytes : Z;
  GPUUsageMilliHours : string;
  GPURequestMilliHours : string;
  OOMEvents : Z;
  CPUThrottledPeriods : Z;
  SampleCount : Z
}.
Record CostRow := {
  CostRow_TenantID : string;
  CostRow_ClusterID : string;
  CostRow_GroupKey : string;
  CostRow_GroupValue : string;
  CostRow_NamespaceUID : string;
  CostRow_NamespaceName : string;
  CostRow_DirectCost : string;
  CostRow_IdleCost : string;
  CostRow_NetworkCost : string;
  CostRow_ControlPlaneCost : string;
  CostRow_SystemNamespaceCost : string;
  CostRow_AllocatedCost : string
}.
Record AllocationRow := {
  AllocationRow_TenantID : string;
  AllocationRow_ClusterID : string;
  AllocationRow_GroupKey : string;
  AllocationRow_GroupValue : string;
  AllocationRow_NamespaceUID : string;
  AllocationRow_NamespaceName : string;
  CPURequestCoreMilliseconds : Z;
  AllocationRow_NetworkBytes : Z;
  AllocationWeight : string;
  AllocationRow_DirectCost : string;
  AllocationRow_IdleCost : string;
  AllocationRow_NetworkCost : string;
  AllocationRow_ControlPlaneCost : string;
  AllocationRow_SystemNamespaceCost : string;
  AllocationRow_AllocatedCost : string
}.
Record CostMetadata := { Currency : string; ComputationVersion : string; ComputedAt : Time }.
(** A page of rows: [UsageResult], [CostResult] and [AllocationResult], which has no
    metadata for usage. *)
Record PageResult (row metadata : Type) := {
  Page_TenantID : string;
  Page_ClusterID : string;
  Page_Start : Time;
  Page_End : Time;
  Page_GroupBy : string;
  Page_GeneratedAt : Time;
  Page_DataThrough : option Time;
  Page_Quality : option QualitySummary;
  Page_Metadata : metadata;
  Rows : list row;
  ResultCount : Z;
  Page_Limit : Z;
  NextCursor : string
}.
Arguments Rows {row metadata}.
Arguments NextCursor {row metadata}.
Definition UsageResult : Type := PageResult UsageRow unit.
Definition CostResult : Type := PageResult CostRow CostMetadata.
Definition AllocationResult : Type := PageResult AllocationRow CostMetadata.

Record analyticsCursor := {
  Cursor_Kind : string;
  Cursor_TenantID : string;
  Cursor_ClusterID : string;
  Cursor_Start : string;
  Cursor_End : string;
  Cursor_GroupBy : string;
  Cursor_Offset : Z
}.

(** ** Limits, cursors and pages *)

Definition normalizedAnalyticsLimit (limit : Z) : Z :=
  if limit <=? 0 then defaultAnalyticsLimit else if maxAnalyticsLimit <? limit then maxAnalyticsLimit else limit.
Definition normalizedAnalyticsFetchLimit (limit : Z) : Z := normalizedAnalyticsLimit limit + 1.
Definition normalizedAnalyticsOffset (offset : Z) : Z := if offset <? 0 then 0 else offset.
Definition normalizedRecommendationLimit (limit : Z) : Z :=
  if limit <=? 0 then 100 else if 500 <? limit then 500 else limit.
Definition validAnalyticsGroupBy (groupBy : string) : bool :=
  bool_decide (groupBy ∈ ["namespace"; "cluster"; "team"; "project"; "environment"; "cost_center"]%string).
(** [strings.ToLower] on the bytes; no other letter of Unicode has a lower case
    that occurs in the words compared with. *)
Definition boolQuery (value : string) : bool :=
  bool_decide (String.string_of_list_ascii (lower_byte <$> String.list_ascii_of_string (TrimSpace value)) ∈ ["true"; "1"; "yes"]%string).

Section cursors.
(** [json.Marshal] and [json.Unmarshal] of a cursor *)
Context (marshalCursor : analyticsCursor → option string) (unmarshalCursor : string → option analyticsCursor).

Definition encodeAnalyticsCursor (cursor : analyticsCursor) : string :=
  match marshalCursor cursor with Some data => base64_rawurl data | None => EmptyString end.
Definition decodeAnalyticsCursor (value : string) : option analyticsCursor :=
  data ← base64_rawurl_decode value; cursor ← unmarshalCursor data;
  if Cursor_Offset cursor <? 0 then None else Some cursor.

Definition page_cursor (q : AnalyticsQuery) (kind : string) (offset : Z) : analyticsCursor :=
  {| Cursor_Kind := kind; Cursor_TenantID := TenantID q; Cursor_ClusterID := ClusterID q;
     Cursor_Start := Paths.rfc3339 (Start q); Cursor_End := Paths.rfc3339 (End_ q); Cursor_GroupBy := GroupBy q;
     Cursor_Offset := offset |}.
Definition paginate {T} (rows : list T) (q : AnalyticsQuery) (kind : string) : list T * string :=
  let limit := normalizedAnalyticsLimit (Limit q) in
  if Z.of_nat (length rows) <=? limit then (rows, EmptyString)
  else (take (Z.to_nat limit) rows, encodeAnalyticsCursor (page_cursor q kind (i64 (Offset q + limit)))).

(** ** Requests *)

Context (ParseTime : string → option Time) (Getenv : string → string).
Definition bad_request (detail : string) : problem := problem_of StatusBadRequest "invalid_request" detail.
Definition parseRequiredTime (value name : string) : res string Time :=
  let value := TrimSpace value in
  if (value =? "")%string then Err (name +:+ " is required")
  else match ParseTime value with Some t => Ok t | None => Err (name +:+ " must be an RFC3339 timestamp") end.
(** The checks on the range and the grouping that both kinds of request make *)
Definition checked_range (rawStart rawEnd rawGroupBy : string) : res problem (Time * Time * string) :=
  match parseRequiredTime rawStart "start" with
  | Err e => Err (bad_request e)
  | Ok start =>
      match parseRequiredTime rawEnd "end" with
      | Err e => Err (bad_request e)
      | Ok end_ =>
          if negb (start <? end_) then Err (bad_request "start must be before end")
          else if negb (Truncate start Hour =? start) || negb (Truncate end_ Hour =? end_)
          then Err (bad_request "start and end must be aligned to whole hours")
          else
            let groupBy := TrimSpace rawGroupBy in
            let groupBy := if (groupBy =? "")%string then "namespace"%string else groupBy in
            if negb (validAnalyticsGroupBy groupBy)
            then Err (bad_request "group_by must be one of namespace, cluster, team, project, environment, cost_center")
            else Ok (start, end_, groupBy)
      end
  end.
Definition parse_limit (raw : string) (fallback : Z) : res problem Z :=
  let raw := TrimSpace raw in
  if (raw =? "")%string then Ok fallback
  else match Strconv.Atoi raw with
       | Some parsed => if parsed <=? 0 then Err (bad_request "limit must be a positive integer") else Ok parsed
       | None => Err (bad_request "limit must be a positive integer")
       end.
Definition cursor_offset (q : AnalyticsQuery) (kind raw : string) : res problem Z :=
  let raw := TrimSpace raw in
  if (raw =? "")%string then Ok 0
  else match decodeAnalyticsCursor raw with
       | None => Err (bad_request "cursor is invalid")
       | Some cursor =>
           if negb (Cursor_TenantID cursor =? TenantID q)%string || negb (Cursor_Kind cursor =? kind)%string
              || negb (Cursor_ClusterID cursor =? ClusterID q)%string || negb (Cursor_Start cursor =? Paths.rfc3339 (Start q))%string
              || negb (Cursor_End cursor =? Paths.rfc3339 (End_ q))%string || negb (Cursor_GroupBy cursor =? GroupBy q)%string
           then Err (bad_request "cursor does not match query")
           else Ok (Cursor_Offset cursor)
       end.
Definition with_offset (q : AnalyticsQuery) (offset : Z) : AnalyticsQuery :=
  {| TenantID := TenantID q; ClusterID := ClusterID q; Start := Start q; End_ := End_ q; GroupBy := GroupBy q;
     Limit := Limit q; Offset := offset; IncludeQuality := IncludeQuality q |}.
Definition analyticsQuery (clock : Time) (r : Request) (kind : string) : res problem AnalyticsQuery :=
  tenantID ← authenticatedTenant Getenv clock r;
  '(start, end_, groupBy) ← checked_range (QueryGet r "start") (QueryGet r "end") (QueryGet r "group_by");
  limit ← parse_limit (QueryGet r "limit") defaultAnalyticsLimit;
  let q := {| TenantID := tenantID; ClusterID := TrimSpace (QueryGet r "cluster_id"); Start := start; End_ := end_;
              GroupBy := groupBy; Limit := limit; Offset := 0; IncludeQuality := boolQuery (QueryGet r "include_quality") |} in
  offset ← cursor_offset q kind (QueryGet r "cursor");
  Ok (with_offset q offset).

Record RecommendationQuery := {
  RQ_TenantID : string;
  RQ_ClusterID : string;
  RQ_Status : string;
  RQ_RecommendationType : string;
  RQ_TargetKind : string;
  RQ_TargetUID : string;
  RQ_MinimumMonthlySavings : string;
  RQ_Limit : Z
}.
Definition recommendationQueryFromRequest (validDecimal : string → bool) (r : Request) (tenantID : string) : res problem RecommendationQuery :=
  limit ← parse_limit (QueryGet r "limit") 100;
  let minimumSavings := TrimSpace (QueryGet r "min_monthly_savings") in
  if negb (minimumSavings =? "")%string && negb (validDecimal minimumSavings)
  then Err (bad_request "min_monthly_savings must be a decimal string")
  else Ok {| RQ_TenantID := tenantID; RQ_ClusterID := TrimSpace (QueryGet r "cluster_id");
             RQ_Status := TrimSpace (QueryGet r "status"); RQ_RecommendationType := TrimSpace (QueryGet r "type");
             RQ_TargetKind := TrimSpace (QueryGet r "target_kind"); RQ_TargetUID := TrimSpace (QueryGet r "target_uid");
             RQ_MinimumMonthlySavings := minimumSavings; RQ_Limit := limit |}.
End cursors.

(** ** Data quality *)

Section quality.
#[local] Existing Instance Allocation.binary64.
(** [Duration.String] *)
Context (Duration_String : Duration → string).

(** [Duration.Seconds] in double precision, and a [float64] truncated to [int64]. *)
Definition Seconds (d : Duration) : spec_float :=
  Allocation.add (Allocation.of_Z (Z.quot d Second)) (Allocation.div (Allocation.of_Z (Z.rem d Second)) (Allocation.of_Z Second)).
Definition int64_of (f : spec_float) : Z :=
  match f with
  | S754_finite s m e =>
      let z := if 0 <=? e then Zpos m * 2 ^ e else Zpos m / 2 ^ (- e) in if s then - z else z
  | _ => 0
  end.

Definition quality_sources : list string := ["container_metrics_10s"; "node_metrics_10s"]%string.
Definition with_signal (s : DataQualitySignal) (freshness : option Z) (status warning limit : string) : DataQualitySignal :=
  {| Source := Source s; Grain := Grain s; Signal_ClusterID := Signal_ClusterID s; RecordCount := RecordCount s;
     LatestBucketStart := LatestBucketStart s; LatestIngestedAt := LatestIngestedAt s; FreshnessSeconds := freshness;
     Signal_Status := status; Warning := warning; ExpectedFreshnessLimit := limit |}.
Definition degraded (q : QualitySummary) (warning : string) : QualitySummary :=
  {| Quality_Status := defaultStaleStatus; EstimatedPercent := EstimatedPercent q; MissingScopes := MissingScopes q;
     Warnings := Warnings q ++ [warning]; FreshnessWindowSecs := FreshnessWindowSecs q |}.
Definition with_signals (r : DataQualityResult) (s : DataQualitySignal) (through : option Time) (q : QualitySummary) : DataQualityResult :=
  {| DQR_TenantID := DQR_TenantID r; DQR_ClusterID := DQR_ClusterID r; DQR_GeneratedAt := DQR_GeneratedAt r;
     DataThrough := through; DQR_ComputationVersion := DQR_ComputationVersion r; Signals := Signals r ++ [s]; Quality := q |}.
(** [int64(now.Sub(latest).Seconds())], not negative *)
Definition freshness_of (now latest : Time) : Z := Z.max 0 (int64_of (Seconds (Sub now latest))).
(** One turn of the loop over the signals *)
Definition signal_step (now : Time) (window : Duration) (r : DataQualityResult) (s : DataQualitySignal) : DataQualityResult :=
  let limit := Duration_String window in
  match LatestBucketStart s with
  | Some latest =>
      if RecordCount s =? 0
      then with_signals r (with_signal s (FreshnessSeconds s) defaultEmptyStatus "no metric facts found" limit) (DataThrough r)
             (degraded (Quality r) (Source s +:+ " has no metric facts"))
      else
        let freshness := freshness_of now latest in
        let stale := window <? i64 (freshness * Second) in
        let through := match DataThrough r with
                       | Some t => if latest <? t then Some latest else Some t
                       | None => Some latest end in
        if stale
        then with_signals r (with_signal s (Some freshness) defaultStaleStatus "latest metric bucket is outside freshness window" limit)
               through (degraded (Quality r) (Source s +:+ " is stale"))
        else with_signals r (with_signal s (Some freshness) defaultFreshStatus (Warning s) limit) through (Quality r)
  | None =>
      with_signals r (with_signal s (FreshnessSeconds s) defaultEmptyStatus "no metric facts found" limit) (DataThrough r)
        (degraded (Quality r) (Source s +:+ " has no metric facts"))
  end.
Definition missing_step (seen : list string) (r : DataQualityResult) (source : string) : DataQualityResult :=
  if bool_decide (source ∈ seen) then r
  else {| DQR_TenantID := DQR_TenantID r; DQR_ClusterID := DQR_ClusterID r; DQR_GeneratedAt := DQR_GeneratedAt r;
          DataThrough := DataThrough r; DQR_ComputationVersion := DQR_ComputationVersion r; Signals := Signals r;
          Quality := {| Quality_Status := defaultStaleStatus; EstimatedPercent := 50;
                        MissingScopes := MissingScopes (Quality r) ++ [source];
                        Warnings := Warnings (Quality r) ++ [source +:+ " has no metric facts"];
                        FreshnessWindowSecs := FreshnessWindowSecs (Quality r) |} |}.
Definition summarizeDataQuality (tenantID clusterID : string) (now : Time) (window : Duration) (signals : list DataQualitySignal)
    : DataQualityResult :=
  let result q := {| DQR_TenantID := tenantID; DQR_ClusterID := clusterID; DQR_GeneratedAt := now; DataThrough := None;
    DQR_ComputationVersion := computationVersionDataQ1; Signals := []; Quality := q |} in
  let secs := int64_of (Seconds window) in
  match signals with
  | [] => result {| Quality_Status := defaultEmptyStatus; EstimatedPercent := 0; MissingScopes := quality_sources;
                    Warnings := ["no metric facts found for tenant scope"%string]; FreshnessWindowSecs := secs |}
  | _ =>
      foldl (missing_step (Source <$> signals))
        (foldl (signal_step now window)
           (result {| Quality_Status := defaultFreshStatus; EstimatedPercent := 100; MissingScopes := []; Warnings := [];
                      FreshnessWindowSecs := secs |}) signals) quality_sources
  end.
End quality.

(** ** Handlers *)

(** The repository's reads *)
Record Repository := {
  Usage : AnalyticsQuery → res string (list UsageRow);
  Costs : AnalyticsQuery → res string (CostMetadata * list CostRow);
  Allocation_ : AnalyticsQuery → res string (CostMetadata * list AllocationRow);
  DataQuality : DataQualityQuery → res string (list DataQualitySignal)
}.
Section handlers.
Context (marshalCursor : analyticsCursor → option string) (unmarshalCursor : string → option analyticsCursor).
Context (ParseTime : string → option Time) (ParseDuration : string → option Duration) (Duration_String : Duration → string).
Context (Getenv : string → string) (repository : Repository).

Definition durationValue (name : string) (fallback : Duration) : Duration :=
  let value := TrimSpace (Getenv name) in
  if (value =? "")%string then fallback else default fallback (ParseDuration value).
(** The quality of a page: nothing when it was not asked for; [None] is a failed read. *)
Definition analyticsQuality (now : Time) (q : AnalyticsQuery) : option (option Time * option QualitySummary) :=
  if negb (IncludeQuality q) then Some (None, None)
  else
    let window := durationValue "QUERY_FRESHNESS_WINDOW" defaultFreshnessWindow in
    match DataQuality repository {| DQ_TenantID := TenantID q; DQ_ClusterID := ClusterID q; DQ_FreshnessWindow := window |} with
    | Err _ => None
    | Ok signals =>
        let result := summarizeDataQuality Duration_String (TenantID q) (ClusterID q) now window signals in
        Some (DataThrough result, Some (Quality result))
    end.
Definition page {row metadata} (q : AnalyticsQuery) (now : Time) (m : metadata) (rows : list row) (kind : string)
    (quality : option Time * option QualitySummary) : PageResult row metadata :=
  let '(rows, nextCursor) := paginate marshalCursor rows q kind in
  {| Page_TenantID := TenantID q; Page_ClusterID := ClusterID q; Page_Start := Start q; Page_End := End_ q;
     Page_GroupBy := GroupBy q; Page_GeneratedAt := now; Page_DataThrough := quality.1; Page_Quality := quality.2;
     Page_Metadata := m; Rows := rows; ResultCount := Z.of_nat (length rows);
     Page_Limit := normalizedAnalyticsLimit (Limit q); NextCursor := nextCursor |}.
(** The common body of [usage], [costs] and [allocation]; the clock is read for the
    signature, for the quality and for [GeneratedAt]. *)
Definition analytics {row metadata} (read : AnalyticsQuery → res string (metadata * list row)) (kind failure : string)
    (clock now generated : Time) (r : Request) : response (PageResult row metadata) :=
  match analyticsQuery unmarshalCursor ParseTime Getenv clock r kind with
  | Err p => Problem p
  | Ok q =>
      match read q with
      | Err _ => writeProblem StatusInternalServerError "query_failed" failure
      | Ok (m, rows) =>
          match analyticsQuality now q with
          | None => writeProblem StatusInternalServerError "query_failed" "quality query failed"
          | Some quality => writeJSON StatusOK (page q generated m rows kind quality)
          end
      end
  end.
Definition usage (clock now generated : Time) (r : Request) : response UsageResult :=
  analytics (λ q, (λ rows, (tt, rows)) <$> Usage repository q) usageCursorKind "usage query failed" clock now generated r.
Definition costs (clock now generated : Time) (r : Request) : response CostResult :=
  analytics (Costs repository) costsCursorKind "cost query failed" clock now generated r.
Definition allocation (clock now generated : Time) (r : Request) : response AllocationResult :=
  analytics (Allocation_ repository) allocationCursorKind "allocation query failed" clock now generated r.
Definition dataQuality (clock now : Time) (r : Request) : response DataQualityResult :=
  match authenticatedTenant Getenv clock r with
  | Err p => Problem p
  | Ok tenantID =>
      let window := durationValue "QUERY_FRESHNESS_WINDOW" defaultFreshnessWindow in
      let clusterID := TrimSpace (QueryGet r "cluster_id") in
      match DataQuality repository {| DQ_TenantID := tenantID; DQ_ClusterID := clusterID; DQ_FreshnessWindow := window |} with
      | Err _ => writeProblem StatusInternalServerError "query_failed" "data quality query failed"
      | Ok signals => writeJSON StatusOK (summarizeDataQuality Duration_String tenantID clusterID now window signals)
      end
  end.

(** ** Asynchronous jobs *)

Record QueryJobRequest := {
  Job_QueryType : string;
  Job_ClusterID : string;
  Job_Start : string;
  Job_End : string;
  Job_GroupBy : string;
  Job_Limit : Z;
  Job_IncludeQuality : bool
}.
Definition asyncAnalyticsQuery (request : QueryJobRequest) (tenantID : string) : res problem (AnalyticsQuery * string) :=
  let queryType := TrimSpace (Job_QueryType request) in
  if negb (queryType =? usageCursorKind)%string && negb (queryType =? costsCursorKind)%string && negb (queryType =? allocationCursorKind)%string
  then Err (bad_request "query_type must be one of usage, costs, allocation")
  else
    '(start, end_, groupBy) ← checked_range ParseTime (Job_Start request) (Job_End request) (Job_GroupBy request);
    if Job_Limit request <? 0 then Err (bad_request "limit must be a positive integer")
    else
      let limit := if Job_Limit request =? 0 then defaultAnalyticsLimit else Job_Limit request in
      Ok ({| TenantID := tenantID; ClusterID := TrimSpace (Job_ClusterID request); Start := start; End_ := end_;
             GroupBy := groupBy; Limit := limit; Offset := 0; IncludeQuality := Job_IncludeQuality request |}, queryType).

(** [%q] of a string without characters to escape *)
Definition quoted (s : string) : string := String (byte_of 34) (s +:+ String (byte_of 34) EmptyString).
Inductive job_result := UsageJob (r : UsageResult) | CostJob (r : CostResult) | AllocationJob (r : AllocationResult).
(** [generated] and [now] are the clock for [GeneratedAt] and for the quality. *)
Definition executeQueryJob (generated now : Time) (queryType : string) (q : AnalyticsQuery) : res string (job_result * Z) :=
  let q := with_offset q 0 in
  let finish {row metadata} (wrap : PageResult row metadata → job_result) (p : PageResult row metadata) :=
    match analyticsQuality now q with
    | None => Err "quality query failed"%string
    | Some _ => Ok (wrap p, Z.of_nat (length (Rows p)))
    end in
  let quality := default (None, None) (analyticsQuality now q) in
  if (queryType =? usageCursorKind)%string then
    match Usage repository q with
    | Err e => Err ("usage query failed: " +:+ e)
    | Ok rows => finish UsageJob (page q generated tt rows usageCursorKind quality)
    end
  else if (queryType =? costsCursorKind)%string then
    match Costs repository q with
    | Err e => Err ("cost query failed: " +:+ e)
    | Ok (m, rows) => finish CostJob (page q generated m rows costsCursorKind quality)
    end
  else if (queryType =? allocationCursorKind)%string then
    match Allocation_ repository q with
    | Err e => Err ("allocation query failed: " +:+ e)
    | Ok (m, rows) => finish AllocationJob (page q generated m rows allocationCursorKind quality)
    end
  else Err ("unsupported query_type " +:+ quoted queryType).

Record QueryManifest := {
  ResultType : string;
  SchemaVersion : string;
  ContentType : string;
  RowCount : Z;
  ByteSize : Z;
  SHA256_ : string;
  Manifest_GeneratedAt : Time;
  Inline : bool
}.
Context (marshalResult : job_result → res string string).
Definition queryManifest (queryType : string) (rowCount : Z) (result : job_result) (generatedAt : Time) : res string QueryManifest :=
  match marshalResult result with
  | Err e => Err ("encode query result for manifest: " +:+ e)
  | Ok data =>
      Ok {| ResultType := queryType; SchemaVersion := "query-result-v1"; ContentType := "application/json";
            RowCount := rowCount; ByteSize := Z.of_nat (String.length data); SHA256_ := hex_encode (sha256 data);
            Manifest_GeneratedAt := generatedAt; Inline := true |}
  end.
Record AsyncAnalyticsQuery := {
  Async_ClusterID : string;
  Async_Start : Time;
  Async_End : Time;
  Async_GroupBy : string;
  Async_Limit : Z;
  Async_IncludeQuality : bool
}.
Record QueryJobResult := {
  QueryID : string;
  JobR_TenantID : string;
  QueryType : string;
  JobR_Status : string;
  CreatedAt : Time;
  StartedAt : option Time;
  FinishedAt : option Time;
  JobR_Query : AsyncAnalyticsQuery;
  Manifest : option QueryManifest;
  Error : string;
  Result : option job_result
}.
Record queryJobStore := { maxJobs : Z; order : list string; jobs : gmap string QueryJobResult }.
Definition newQueryJobStore (maxJobs : Z) : queryJobStore :=
  {| maxJobs := if maxJobs <=? 0 then 1000 else maxJobs; order := []; jobs := ∅ |}.
(** The loop of [evictLocked] drops a key per turn, so the length of the order is
    enough fuel. *)
Fixpoint evict (fuel : nat) (s : queryJobStore) : queryJobStore :=
  match fuel, order s with
  | S fuel', oldest :: rest =>
      if maxJobs s <? Z.of_nat (length (order s))
      then evict fuel' {| maxJobs := maxJobs s; order := rest; jobs := delete oldest (jobs s) |} else s
  | _, _ => s
  end.
Definition evictLocked (s : queryJobStore) : queryJobStore := evict (length (order s)) s.
(** [newQueryID] on the random bytes in hexadecimal, or on the clock *)
Definition newQueryID (random : option string) (now : Time) : string :=
  match random with Some hex => "query_" +:+ hex | None => "query-" +:+ dec (UnixNano now) end.
Definition create (s : queryJobStore) (queryID tenantID queryType : string) (q : AnalyticsQuery) (now : Time) : QueryJobResult * queryJobStore :=
  let job := {|
    QueryID := queryID; JobR_TenantID := tenantID; QueryType := queryType; JobR_Status := queryJobStatusQueued;
    CreatedAt := now; StartedAt := None; FinishedAt := None;
    JobR_Query := {| Async_ClusterID := ClusterID q; Async_Start := Start q; Async_End := End_ q; Async_GroupBy := GroupBy q;
                     Async_Limit := normalizedAnalyticsLimit (Limit q); Async_IncludeQuality := IncludeQuality q |};
    Manifest := None; Error := EmptyString; Result := None |} in
  (job, evictLocked {| maxJobs := maxJobs s; order := order s ++ [queryID]; jobs := <[queryID := job]> (jobs s) |}).
(** [start], [succeed] and [fail] change a job of the tenant, if it is still there. *)
Definition update (s : queryJobStore) (tenantID queryID : string) (f : QueryJobResult → QueryJobResult) : bool * queryJobStore :=
  match jobs s !! queryID with
  | Some job =>
      if (JobR_TenantID job =? tenantID)%string
      then (true, {| maxJobs := maxJobs s; order := order s; jobs := <[queryID := f job]> (jobs s) |}) else (false, s)
  | None => (false, s)
  end.
Definition start (s : queryJobStore) (tenantID queryID : string) (now : Time) : bool * queryJobStore :=
  update s tenantID queryID (λ job, {|
    QueryID := QueryID job; JobR_TenantID := JobR_TenantID job; QueryType := QueryType job; JobR_Status := queryJobStatusRunning;
    CreatedAt := CreatedAt job; StartedAt := Some now; FinishedAt := FinishedAt job; JobR_Query := JobR_Query job;
    Manifest := Manifest job; Error := Error job; Result := Result job |}).
Definition succeed (s : queryJobStore) (tenantID queryID : string) (manifest : QueryManifest) (result : job_result) (now : Time)
    : bool * queryJobStore :=
  update s tenantID queryID (λ job, {|
    QueryID := QueryID job; JobR_TenantID := JobR_TenantID job; QueryType := QueryType job; JobR_Status := queryJobStatusSucceeded;
    CreatedAt := CreatedAt job; StartedAt := StartedAt job; FinishedAt := Some now; JobR_Query := JobR_Query job;
    Manifest := Some manifest; Error := Error job; Result := Some result |}).
Definition fail (s : queryJobStore) (tenantID queryID err : string) (now : Time) : bool * queryJobStore :=
  update s tenantID queryID (λ job, {|
    QueryID := QueryID job; JobR_TenantID := JobR_TenantID job; QueryType := QueryType job; JobR_Status := queryJobStatusFailed;
    CreatedAt := CreatedAt job; StartedAt := StartedAt job; FinishedAt := Some now; JobR_Query := JobR_Query job;
    Manifest := Manifest job; Error := err; Result := Result job |}).
Definition get (s : queryJobStore) (tenantID queryID : string) : option QueryJobResult :=
  match jobs s !! queryID with
  | Some job => if (JobR_TenantID job =? tenantID)%string then Some job else None
  | None => None
  end.

(** The calls of a job's goroutine on the shared store, and the clock *)
Inductive job_op :=
| Now
| JobStart (tenantID queryID : string) (now : Time)
| JobSucceed (tenantID queryID : string) (manifest : QueryManifest) (result : job_result) (now : Time)
| JobFail (tenantID queryID err : string) (now : Time).
Definition job_ans (o : job_op) : Type := match o with Now => Time | _ => bool end.
Definition runQueryJob (queryID queryType : string) (q : AnalyticsQuery) : prog job_ans unit :=
  now ← call Now;
  _ ← call (JobStart (TenantID q) queryID now);
  generated ← call Now;
  quality ← call Now;
  match executeQueryJob generated quality queryType q with
  | Err e => now ← call Now; _ ← call (JobFail (TenantID q) queryID e now); Ret tt
  | Ok (result, rowCount) =>
      now ← call Now;
      match queryManifest queryType rowCount result now with
      | Err e => now ← call Now; _ ← call (JobFail (TenantID q) queryID e now); Ret tt
      | Ok manifest => now ← call Now; _ ← call (JobSucceed (TenantID q) queryID manifest result now); Ret tt
      end
  end.

(** A created job, with the goroutine that runs it *)
Definition createQueryJob (s : queryJobStore) (clock now : Time) (random : option string) (r : Request) (b : body QueryJobRequest)
    : response QueryJobResult * queryJobStore * option (prog job_ans unit) :=
  match authenticatedTenant Getenv clock r with
  | Err p => (Problem p, s, None)
  | Ok tenantID =>
      match b with
      | JSONBody request =>
          match asyncAnalyticsQuery request tenantID with
          | Err p => (Problem p, s, None)
          | Ok (q, queryType) =>
              let '(job, s') := create s (newQueryID random now) tenantID queryType q now in
              (writeJSON StatusAccepted job, s', Some (runQueryJob (QueryID job) queryType q))
          end
      | _ => (writeProblem StatusBadRequest "invalid_request" "request body must be valid query JSON", s, None)
      end
  end.
Definition queryJob (s : queryJobStore) (clock : Time) (r : Request) : response QueryJobResult :=
  match authenticatedTenant Getenv clock r with
  | Err p => Problem p
  | Ok tenantID =>
      let queryID := TrimSpace (PathValue r "query_id") in
      if (queryID =? "")%string then Problem (bad_request "query_id is required")
      else match get s tenantID queryID with
           | None => writeProblem StatusNotFound "not_found" "query job not found"
           | Some job => writeJSON StatusOK job
           end
  end.

End handlers.

(** ** The newest jobs are kept *)

(** The store after any sequence of calls by requests and job goroutines, with
    the ids created so far *)
Inductive reachable (max : Z) : list string → queryJobStore → Prop :=
| reach_new : reachable max [] (newQueryJobStore max)
| reach_create created s queryID tenantID queryType q now :
    reachable max created s → queryID ∉ created →
    reachable max (created ++ [queryID]) (create s queryID tenantID queryType q now).2
| reach_start created s tenantID queryID now :
    reachable max created s → reachable max created (start s tenantID queryID now).2
| reach_succeed created s tenantID queryID manifest result now :
    reachable max created s → reachable max created (succeed s tenantID queryID manifest result now).2
| reach_fail created s tenantID queryID err now :
    reachable max created s → reachable max created (fail s tenantID queryID err now).2.

Record keeps_newest (created : list string) (s : queryJobStore) : Prop := {
  keeps_bound : 0 < maxJobs s;
  keeps_distinct : NoDup created;
  keeps_order : order s = drop (length created - Z.to_nat (maxJobs s)) created;
  keeps_jobs id : is_Some (jobs s !! id) ↔ id ∈ order s;
  keeps_ids id job : jobs s !! id = Some job → QueryID job = id
}.
Lemma evict_spec fuel s :
  0 < maxJobs s → NoDup (order s) → (∀ id, is_Some (jobs s !! id) ↔ id ∈ order s) → (length (order s) ≤ fuel)%nat →
  let s' := evict fuel s in
  maxJobs s' = maxJobs s ∧ order s' = drop (length (order s) - Z.to_nat (maxJobs s)) (order s) ∧
  (∀ id, is_Some (jobs s' !! id) ↔ id ∈ order s') ∧ (∀ id job, jobs s' !! id = Some job → jobs s !! id = Some job).
Proof.
  revert s. induction fuel as [|fuel IH]; intros s Hm Hnd Hj Hl.
  { destruct (order s) as [|x l] eqn:Ho; simpl in Hl; [|lia]. simpl. rewrite Ho. simpl. done. }
  simpl. destruct (order s) as [|oldest rest] eqn:Ho.
  { cbv zeta. rewrite Ho. simpl. done. }
  destruct (Z.ltb_spec (maxJobs s) (Z.of_nat (length (oldest :: rest)))) as [Hlt|Hge].
  - apply NoDup_cons in Hnd as [Hno Hnd].
    destruct (IH {| maxJobs := maxJobs s; order := rest; jobs := delete oldest (jobs s) |}) as (Hm' & Ho' & Hj' & Hs'); simpl in *; try done; [| |].
    + intros id. destruct (decide (id = oldest)) as [->|Hne].
      * rewrite lookup_delete_eq. split; [by intros [? ?]|done].
      * rewrite lookup_delete_ne, Hj by done. rewrite elem_of_cons. tauto.
    + lia.
    + split; [done|]. split; [|split; [done|]].
      * rewrite Ho'. replace (S (length rest) - Z.to_nat (maxJobs s))%nat with (S (length rest - Z.to_nat (maxJobs s))) by lia. done.
      * intros id job Hjob. apply Hs' in Hjob. by apply lookup_delete_Some in Hjob as [_ ?].
  - rewrite Ho. replace (length (oldest :: rest) - Z.to_nat (maxJobs s))%nat with 0%nat by lia. done.
Qed.
Lemma update_keeps created s tenantID queryID f :
  (∀ job, QueryID (f job) = QueryID job) → keeps_newest created s → keeps_newest created (update s tenantID queryID f).2.
Proof.
  intros Hf Hs. unfold update. destruct (jobs s !! queryID) as [job|] eqn:Hjob; [|done]. destruct (_ =? _)%string; [|done].
  destruct Hs as [Hb Hd Ho Hj Hi]. split; simpl; [done|done|done| |].
  - intros id. rewrite <- Hj. destruct (decide (queryID = id)) as [<-|Hne]; [|by rewrite lookup_insert_ne].
    rewrite lookup_insert_eq, Hjob. split; eauto.
  - intros id j. destruct (decide (queryID = id)) as [<-|Hne]; [|rewrite lookup_insert_ne by done; apply Hi].
    rewrite lookup_insert_eq. intros [= <-]. rewrite Hf. by apply Hi.
Qed.
Lemma create_keeps created s queryID tenantID queryType q now :
  queryID ∉ created → keeps_newest created s → keeps_newest (created ++ [queryID]) (create s queryID tenantID queryType q now).2.
Proof.
  intros Hnew [Hb Hd Ho Hj Hi]. unfold create, evictLocked. cbv zeta. cbn [snd].
  set (job := {| QueryID := queryID |}). set (s1 := {| maxJobs := maxJobs s; order := order s ++ [queryID]; jobs := <[queryID := job]> (jobs s) |}).
  assert (NoDup (created ++ [queryID])) as Hnd by (apply NoDup_app; split_and!; [done|intros x Hx ->%list_elem_of_singleton; done|apply NoDup_singleton]).
  assert (queryID ∉ order s) as Hno by (rewrite Ho; intros Hin; apply Hnew; rewrite <- (take_drop (length created - Z.to_nat (maxJobs s)) created); apply elem_of_app; by right).
  assert (NoDup (order s1)) as Hnd1.
  { simpl. apply NoDup_app. split_and!; [|intros x Hx ->%list_elem_of_singleton; done|apply NoDup_singleton]. rewrite Ho.
    eapply sublist_NoDup; [apply Hd|apply sublist_drop]. }
  destruct (evict_spec (length (order s1)) s1) as (Hm' & Ho' & Hj' & Hs'); [done|done| |done|].
  { intros id. simpl. rewrite elem_of_app, list_elem_of_singleton, <- Hj. destruct (decide (queryID = id)) as [<-|Hne].
    - rewrite lookup_insert_eq. split; eauto.
    - rewrite lookup_insert_ne by done. split; [auto|intros [?| ->]; done]. }
  split; [by rewrite Hm'|done| |done|].
  - rewrite Ho', Hm'. simpl. rewrite Ho. rewrite length_app, length_drop. simpl. rewrite length_app. simpl.
    set (n := length created). set (m := Z.to_nat (maxJobs s)). assert (0 < m)%nat by (unfold m; lia).
    destruct (decide (n < m)%nat).
    + replace (n - m)%nat with 0%nat by lia. simpl. rewrite drop_0. f_equal. lia.
    + rewrite <- (drop_app_le created [queryID] (n - m)) by (unfold n; lia). rewrite drop_drop. f_equal. lia.
  - intros id j Hjob. apply Hs' in Hjob. simpl in Hjob. destruct (decide (queryID = id)) as [<-|Hne].
    + rewrite lookup_insert_eq in Hjob. by injection Hjob as <-.
    + rewrite lookup_insert_ne in Hjob by done. by apply Hi.
Qed.

(** Whatever requests create jobs and whichever goroutines report on them, the
    store holds exactly the newest jobs up to its limit, each under its own id:
    eviction drops the oldest jobs, one per job too many, and no report brings a
    job back or loses one. *)
Theorem jobs_keep_newest max created s : reachable max created s → keeps_newest created s.
Proof.
  induction 1 as [|created s id t ty q now _ IH Hnew|created s t id now _ IH|created s t id m r now _ IH|created s t id e now _ IH].
  - split; simpl; [case_match; lia|constructor|done| |]; intros id; rewrite lookup_empty; [|done]. split; [by intros [? ?]|by intros ?%elem_of_nil].
  - by apply create_keeps.
  - by apply update_keeps.
  - by apply update_keeps.
  - by apply update_keeps.
Qed.

Lemma jobs_keep_newest_witness : let q := {|
    TenantID := "t"; ClusterID := ""; Start := 0; End_ := Hour; GroupBy := "namespace"; Limit := 10; Offset := 0; IncludeQuality := false |} in
  let s1 := (create (newQueryJobStore 1) "q1" "t" "usage" q 5).2 in
  let s2 := (create s1 "q2" "t" "usage" q 6).2 in
  keeps_newest ["q1"; "q2"]%string (start s2 "t" "q1" 7).2 ∧ order s2 = ["q2"]%string ∧ get s2 "t" "q1" = None.
Proof.
  cbv zeta. split; [|by vm_compute].
  apply (jobs_keep_newest 1). apply reach_start.
  apply (reach_create 1 ["q1"%string]); [|set_solver]. apply (reach_create 1 []); [constructor|set_solver].
Defined.

(** ** Following the cursors *)

Section walk.
Context (marshalCursor : analyticsCursor → option string) (unmarshalCursor : string → option analyticsCursor).

(** A client that asks for the first page and then for each [next_cursor] in turn,
    over the reads of one query; [None] when a cursor is refused or the pages do not
    end within the fuel. *)
Fixpoint walk {T} (fuel : nat) (read : AnalyticsQuery → list T) (q : AnalyticsQuery) (kind raw : string) : option (list (list T)) :=
  match fuel with
  | O => None
  | S fuel =>
      match cursor_offset unmarshalCursor q kind raw with
      | Err _ => None
      | Ok offset =>
          let q' := with_offset q offset in
          let '(rows, next) := paginate marshalCursor (read q') q' kind in
          if (next =? "")%string then Some [rows] else pages ← walk fuel read q kind next; Some (rows :: pages)
      end
  end.
(** What the SQL of the repository asks for with [LIMIT] and [OFFSET] *)
Definition limit_offset {T} (all : list T) (q : AnalyticsQuery) : list T :=
  take (Z.to_nat (normalizedAnalyticsFetchLimit (Limit q))) (drop (Z.to_nat (normalizedAnalyticsOffset (Offset q))) all).
(** [encoding/json] on the cursors of a query: the encoding is a JSON text, and
    decodes to the cursor. *)
Definition cursor_json (q : AnalyticsQuery) (kind : string) : Prop :=
  ∀ offset, 0 ≤ offset < two63 →
    ∃ data, marshalCursor (page_cursor q kind offset) = Some data ∧ data ≠ EmptyString ∧
      unmarshalCursor data = Some (page_cursor q kind offset).

Lemma normalized_limit_bounds limit : 1 ≤ normalizedAnalyticsLimit limit ≤ 500.
Proof. unfold normalizedAnalyticsLimit, defaultAnalyticsLimit, maxAnalyticsLimit. repeat case_match; lia. Qed.
Lemma cursor_roundtrip q kind offset :
  cursor_json q kind → 0 ≤ offset < two63 →
  encodeAnalyticsCursor marshalCursor (page_cursor q kind offset) ≠ EmptyString ∧
  cursor_offset unmarshalCursor q kind (encodeAnalyticsCursor marshalCursor (page_cursor q kind offset)) = Ok offset.
Proof.
  intros Hj Ho. destruct (Hj offset Ho) as (data & Hm & Hne & Hu). unfold encodeAnalyticsCursor. rewrite Hm.
  assert (base64_rawurl data ≠ EmptyString) as Hb.
  { intros He. pose proof (base64_roundtrip data) as Hr. rewrite He in Hr. by injection Hr as <-. }
  split; [done|]. unfold cursor_offset. rewrite StringFacts.TrimSpace_visible by apply base64_visible.
  destruct (String.eqb_spec (base64_rawurl data) ""); [done|].
  unfold decodeAnalyticsCursor. rewrite base64_roundtrip. simpl. rewrite Hu. simpl.
  destruct (Z.ltb_spec offset 0); [lia|]. simpl. by rewrite !String.eqb_refl.
Qed.
Lemma walk_from {T} (all : list T) q kind fuel raw offset :
  cursor_json q kind → Z.of_nat (length all) + 501 < two63 → 0 ≤ offset ≤ Z.of_nat (length all) →
  cursor_offset unmarshalCursor q kind raw = Ok offset → (length all - Z.to_nat offset < fuel)%nat →
  ∃ pages, walk fuel (limit_offset all) q kind raw = Some pages ∧ concat pages = drop (Z.to_nat offset) all ∧
    Forall (λ page, Z.of_nat (length page) ≤ normalizedAnalyticsLimit (Limit q)) pages.
Proof.
  intros Hj Hall. revert raw offset. induction fuel as [|fuel IH]; intros raw offset Ho Hc Hf; [lia|].
  simpl. rewrite Hc. unfold paginate, limit_offset, normalizedAnalyticsFetchLimit, normalizedAnalyticsOffset. simpl.
  pose proof (normalized_limit_bounds (Limit q)) as Hl. set (limit := normalizedAnalyticsLimit (Limit q)) in *.
  destruct (Z.ltb_spec offset 0); [lia|]. rewrite length_take, length_drop.
  destruct (Z.leb_spec (Z.of_nat (Z.to_nat (limit + 1) `min` (length all - Z.to_nat offset))) limit) as [Hle|Hgt].
  - eexists. split; [reflexivity|]. simpl. rewrite app_nil_r, take_ge by (rewrite length_drop; lia).
    split; [done|]. repeat constructor. rewrite length_drop. lia.
  - assert (i64 (offset + limit) = offset + limit) as Hi by (apply i64_id; unfold is_i64; lia).
    destruct (cursor_roundtrip q kind (offset + limit)) as [Hne Hr]; [done|lia|].
    change (page_cursor (with_offset q offset) kind) with (page_cursor q kind). rewrite Hi.
    destruct (String.eqb_spec (encodeAnalyticsCursor marshalCursor (page_cursor q kind (offset + limit))) ""); [done|].
    destruct (IH _ (offset + limit) ltac:(lia) Hr ltac:(lia)) as (pages & Hw & Hcat & Hsz).
    exists (take (Z.to_nat limit) (take (Z.to_nat (limit + 1)) (drop (Z.to_nat offset) all)) :: pages). split; [by setoid_rewrite Hw|].
    rewrite take_take, Nat.min_l by lia. split.
    + simpl. rewrite Hcat, Z2Nat.inj_add by lia. rewrite <- drop_drop. apply take_drop.
    + constructor; [|done]. rewrite length_take. lia.
Qed.

(** C22: paging through a result that does not change between the requests. If the JSON
    of the query's cursors decodes to them (it does for identifiers in valid UTF-8; for
    others the second page is refused) and the result has fewer than 2^63 - 501 rows, a
    client that follows [next_cursor] from the first page is never refused and stops: it
    makes at most one request per row and one more, reads every row once and in order,
    and no page is longer than the limit. A cursor holds an offset, so rows that appear
    or vanish in between shift the later pages. *)
Theorem cursors_cover_result {T} (all : list T) q kind :
  cursor_json q kind → Z.of_nat (length all) + 501 < two63 →
  ∃ pages, walk (S (length all)) (limit_offset all) q kind "" = Some pages ∧ concat pages = all ∧
    Forall (λ page, Z.of_nat (length page) ≤ normalizedAnalyticsLimit (Limit q)) pages.
Proof.
  intros Hj Hall. apply (walk_from all q kind (S (length all)) "" 0); [done|done|lia|done|lia].
Qed.
End walk.

Lemma cursors_cover_result_witness : let q := {|
    TenantID := "t"; ClusterID := ""; Start := 0; End_ := Hour; GroupBy := "namespace"; Limit := 2; Offset := 0; IncludeQuality := false |} in
  let unmarshal data := page_cursor q "usage" <$> Strconv.Atoi data in
  let marshal c := Some (dec (Cursor_Offset c)) in
  walk marshal unmarshal 6 (limit_offset [10; 11; 12; 13; 14]) q "usage" "" = Some [[10; 11]; [12; 13]; [14]] ∧
  ∃ pages, walk marshal unmarshal 6 (limit_offset [10; 11; 12; 13; 14]) q "usage" "" = Some pages ∧ concat pages = [10; 11; 12; 13; 14] ∧
    Forall (λ page, Z.of_nat (length page) ≤ 2) pages.
Proof.
  cbv zeta. split; [by vm_compute|].
  apply (cursors_cover_result (λ c, Some (dec (Cursor_Offset c)))
    (λ data, page_cursor _ "usage" <$> Strconv.Atoi data) [10; 11; 12; 13; 14]); [|unfold two63; simpl; lia].
  intros offset Ho. exists (dec offset). unfold Strconv.Atoi. rewrite Strconv.ParseInt_dec by (unfold is_i64, two63 in *; lia).
  split; [done|]. split; [|done]. intros He. pose proof (Strconv.ParseInt_dec offset ltac:(unfold is_i64, two63 in *; lia)) as Hp.
  rewrite He in Hp. vm_compute in Hp. done.
Defined.
End Query.
