(* ===== verification/Sql.v ===== *)
(** * SQL texts and result rows

    What the repositories of the services use of [fmt.Sprintf], [strings.Join] and
    the database driver: texts with [?] placeholders bound in order to a list of
    arguments, the conditions of a WHERE clause, and the loop over the rows of an
    answer ([rows.Next], [rows.Scan], [rows.Err]). *)
From stdpp Require Import base option list strings pretty.
From Stdlib Require Import ZArith Lia Ascii.
From S2P Require Import Prelude.

Module Sql.
Import Strings.

(** ** Texts *)

(** [fmt.Sprintf] with the verbs [%s] and [%d] on arguments printed before *)
Definition verb (c : ascii) : bool := Ascii.eqb c "s" || Ascii.eqb c "d".
Fixpoint Sprintf (f : string) (args : list string) : string :=
  match f with
  | EmptyString => EmptyString
  | String p f' =>
      match f' with
      | String c f'' =>
          if Ascii.eqb p "%" && verb c then
            match args with
            | a :: args' => a +:+ Sprintf f'' args'
            | [] => "%!" +:+ String c ("(MISSING)" +:+ Sprintf f'' [])
            end
          else String p (Sprintf f' args)
      | EmptyString => String p EmptyString
      end
  end.
(** The verbs of a format and the placeholders of a statement *)
Fixpoint verbs (f : string) : nat :=
  match f with
  | EmptyString => 0
  | String p f' =>
      match f' with
      | String c f'' => if Ascii.eqb p "%" && verb c then S (verbs f'') else verbs f'
      | EmptyString => 0
      end
  end.
Fixpoint placeholders (s : string) : nat :=
  match s with
  | EmptyString => 0
  | String c s' => (if Ascii.eqb c "?" then 1 else 0) + placeholders s'
  end.

Lemma placeholders_app s t : placeholders (s +:+ t) = (placeholders s + placeholders t)%nat.
Proof. induction s as [|c s IH]; simpl; [done|]. rewrite IH. lia. Qed.
Lemma Sprintf_char p c f args :
  Ascii.eqb p "%" && verb c = false →
  Sprintf (String p (String c f)) args = String p (Sprintf (String c f) args) ∧ verbs (String p (String c f)) = verbs (String c f).
Proof. intros H. split; [change (Sprintf (String p (String c f)) args) with (if Ascii.eqb p "%" && verb c then
    match args with a :: args' => a +:+ Sprintf f args' | [] => "%!" +:+ String c ("(MISSING)" +:+ Sprintf f []) end
    else String p (Sprintf (String c f) args)) | change (verbs (String p (String c f))) with
    (if Ascii.eqb p "%" && verb c then S (verbs f) else verbs (String c f))]; by rewrite H.
Qed.
Lemma Sprintf_placeholders_le n f args :
  (String.length f ≤ n)%nat → verbs f = length args →
  placeholders (Sprintf f args) = (placeholders f + sum_list (placeholders <$> args))%nat.
Proof.
  revert f args. induction n as [|n IH]; intros [|p [|c f]] args Hn Hv; simpl in Hn; try lia.
  1,2: destruct args; [done|discriminate].
  - destruct args; [|discriminate]. simpl. lia.
  - destruct (Ascii.eqb p "%" && verb c) eqn:Hc.
    + apply andb_true_iff in Hc as [Hp Hc]. apply Ascii.eqb_eq in Hp as ->.
      simpl in Hv. rewrite Hc in Hv. destruct args as [|a args]; [discriminate|]. injection Hv as Hv.
      simpl Sprintf. rewrite Hc, placeholders_app, IH by (done || lia). unfold verb in Hc.
      cbn [placeholders fmap list_fmap sum_list_with]. change (Ascii.eqb "%" "?") with false.
      destruct (Ascii.eqb_spec c "?") as [->|]; [done|]. csimpl. lia.
    + destruct (Sprintf_char p c f args Hc) as [Hs Hvs]. rewrite Hs. cbn [placeholders].
      rewrite IH by (first [simpl; lia | congruence]). cbn [placeholders]. lia.
Qed.
(** The placeholders of a formatted text are those of the format and of its
    arguments. *)
Lemma Sprintf_placeholders f args :
  verbs f = length args → placeholders (Sprintf f args) = (placeholders f + sum_list (placeholders <$> args))%nat.
Proof. by apply (Sprintf_placeholders_le (String.length f)). Qed.
Lemma placeholders_none s : forallb (λ c, negb (Ascii.eqb c "?")) (String.list_ascii_of_string s) = true → placeholders s = 0%nat.
Proof. induction s as [|c s IH]; simpl; [done|]. destruct (Ascii.eqb c "?"); [done|]. apply IH. Qed.
Lemma dec_no_placeholder z : placeholders (dec z) = 0%nat.
Proof.
  apply placeholders_none, StringFacts.dec_bytes; [reflexivity|].
  intros n. unfold pretty_N_char. repeat case_match; reflexivity.
Qed.

(** ** Conditions *)

Section conditions.
(** [decimal.Decimal] and its order *)
Context {decimal : Type} (decimal_leb : decimal → decimal → bool).

(** Column values and arguments *)
Inductive value := VString (s : string) | VTime (t : Time) | VUint (z : Z) | VDecimal (d : decimal).

Definition compare_values (op : string) (a b : value) : option bool :=
  match a, b with
  | VString x, VString y => if (op =? "=")%string then Some (x =? y)%string else None
  | VTime x, VTime y | VUint x, VUint y =>
      if (op =? "=")%string then Some (x =? y) else if (op =? ">=")%string then Some (y <=? x)
      else if (op =? ">")%string then Some (y <? x) else if (op =? "<")%string then Some (x <? y)
      else if (op =? "<=")%string then Some (x <=? y) else None
  | VDecimal x, VDecimal y => if (op =? ">=")%string then Some (decimal_leb y x) else None
  | _, _ => None
  end.
(** An operand: the next argument, a quoted string or a number *)
Definition quote : ascii := "'".
Definition operand (w : string) (args : list value) : option (value * list value) :=
  if (w =? "?")%string then match args with a :: args' => Some (a, args') | [] => None end
  else match w with
       | String c w' => if Ascii.eqb c quote then Some (VString (Trim w' quote), args) else (λ z, (VUint z, args)) <$> Strconv.ParseInt w
       | EmptyString => None
       end.
(** A conjunction of comparisons, on the values of a row; [None] when it is not
    well formed or the arguments do not match the placeholders *)
Fixpoint conjunction (words : list string) (args : list value) (row : string → value) : option bool :=
  match words with
  | column :: op :: w :: rest =>
      match operand w args with
      | Some (v, args') =>
          match compare_values op (row column) v with
          | Some b =>
              match rest with
              | [] => match args' with [] => Some b | _ => None end
              | and :: rest' => if (and =? "AND")%string then (λ b', b && b') <$> conjunction rest' args' row else None
              end
          | None => None
          end
      | None => None
      end
  | _ => None
  end.
Definition selects (condition : string) (args : list value) (row : string → value) : option bool :=
  conjunction (Split condition " ") args row.
End conditions.
Arguments value : clear implicits.

(** ** Rows *)

Section rows.
Context {decimal : Type}.
(** The driver's error for a row that does not fit the destinations of a scan *)
Context (ScanError : list (value decimal) → string).

(** The answer to a query: refused, or rows of values and the error that ended the
    iteration, if any *)
Inductive answer :=
| QueryError (e : string)
| RowsAnswer (rows : list (list (value decimal))) (err : option string).

(** The loop over [rows.Next] with a scan of each row, and the texts that wrap its
    errors *)
Fixpoint scan_rows {row} (scan : list (value decimal) → option row) (scan_text read_text : string)
    (rows : list (list (value decimal))) (err : option string) : res string (list row) :=
  match rows with
  | [] => match err with Some e => Err (read_text +:+ ": " +:+ e) | None => Ok [] end
  | cells :: rows' =>
      match scan cells with
      | None => Err (scan_text +:+ ": " +:+ ScanError cells)
      | Some r => rest ← scan_rows scan scan_text read_text rows' err; Ok (r :: rest)
      end
  end.
Definition read_rows {row} (scan : list (value decimal) → option row) (query_text scan_text read_text : string) (a : answer)
    : res string (list row) :=
  match a with
  | QueryError e => Err (query_text +:+ ": " +:+ e)
  | RowsAnswer rows err => scan_rows scan scan_text read_text rows err
  end.
End rows.

(** ** The columns of a statement *)

(** The lines of a text up to the one that starts with [stop], read to the end of
    that line only *)
Fixpoint lines_until (stop line : string) (s : string) : list string :=
  match s with
  | EmptyString => [line]
  | String c s' =>
      if Ascii.eqb c (byte_of 10) then if HasPrefix line stop then [] else line :: lines_until stop EmptyString s'
      else lines_until stop (line +:+ String c EmptyString) s'
  end.
Fixpoint after (sep : ascii) (s acc : string) : string :=
  match s with
  | EmptyString => acc
  | String c s' => if Ascii.eqb c sep then after sep s' EmptyString else after sep s' (acc +:+ String c EmptyString)
  end.
(** The name of a column of a select list: its alias, or the column without the
    table *)
Definition column_name (line : string) : string := after "." (after " " (Trim line ",") EmptyString) EmptyString.
(** The names of the columns a statement of the shape [SELECT columns FROM ...]
    with a line per column returns *)
Definition columns (sql : string) : list string :=
  column_name <$> filter (λ line, line ≠ EmptyString ∧ line ≠ "SELECT"%string) (lines_until "FROM" EmptyString sql).
(** The conditions of the lines [WHERE condition] of a statement, up to the line that
    starts with [stop] *)
Fixpoint indented (line : string) : string :=
  match line with String c line' => if Ascii.eqb c " " then indented line' else line | EmptyString => line end.
Definition condition_of (line : string) : option string :=
  match indented line with
  | String "W" (String "H" (String "E" (String "R" (String "E" (String " " condition))))) => Some condition
  | _ => None
  end.
Definition conditions (stop sql : string) : list string := omap condition_of (lines_until stop EmptyString sql).
(** A statement whose conditions, each on its part of the arguments, are [selected]
    on a row *)
Definition confined {decimal} (decimal_leb : decimal → decimal → bool) (stop : string)
    (statement : string * list (value decimal)) (row : string → value decimal) (selected : bool) : Prop :=
  ∃ parts : list (string * list (value decimal)),
    parts ≠ [] ∧ conditions stop statement.1 = parts.*1 ∧ concat parts.*2 = statement.2 ∧
    Forall (λ part, selects decimal_leb part.1 part.2 row = Some selected) parts.
End Sql.
