(* ===== verification/QuerySql.v ===== *)
(** * The repository of the query service

    [services/query/repository.go]: the SQL of every read with its arguments, and
    the scan of its rows into the results of [types.go]; the handlers of
    [server.go] for recommendations. The database is the answer it gives to a
    statement. *)
From stdpp Require Import base option list gmap sets strings.
From Stdlib Require Import ZArith Lia Ascii.
From S2P Require Import Prelude Sql Stores Http Query.

Module QuerySql.
Import Strings Sql Http Gatewayauth Query.

(** ** Statements *)

Section statements.
(** [decimal.Decimal] with [NewFromString] *)
Context {decimal : Type} (NewFromString : string → res string decimal).
Abbreviation value := (Sql.value decimal).

Record analyticsGroupSpec := {
  groupKeySelect : string;
  groupValueSelect : string;
  namespaceUIDSelect : string;
  namespaceNameSelect : string;
  groupBySuffix : string
}.
Definition analyticsGroup (groupBy clusterIDColumn namespaceUIDColumn namespaceNameColumn namespaceAlias : string) : analyticsGroupSpec :=
  if (groupBy =? "cluster")%string then
    {| groupKeySelect := "'cluster'"; groupValueSelect := clusterIDColumn; namespaceUIDSelect := "''";
       namespaceNameSelect := "''"; groupBySuffix := "" |}
  else if bool_decide (groupBy ∈ ["team"; "project"; "environment"; "cost_center"]%string) then
    let groupColumn := namespaceAlias +:+ "." +:+ groupBy in
    let groupValue := "if(empty(any(" +:+ groupColumn +:+ ")), '__unassigned__', any(" +:+ groupColumn +:+ "))" in
    {| groupKeySelect := "'" +:+ groupBy +:+ "'"; groupValueSelect := groupValue; namespaceUIDSelect := "''";
       namespaceNameSelect := "''"; groupBySuffix := ", " +:+ groupColumn |}
  else
    let namespaceName := "if(empty(any(" +:+ namespaceNameColumn +:+ ")), " +:+ namespaceUIDColumn +:+ ", any(" +:+ namespaceNameColumn +:+ "))" in
    {| groupKeySelect := "'namespace'"; groupValueSelect := namespaceName; namespaceUIDSelect := namespaceUIDColumn;
       namespaceNameSelect := namespaceName; groupBySuffix := ", " +:+ namespaceUIDColumn |}.

Definition tenantWhere (q : DataQualityQuery) : string * list value :=
  let clauses := ["tenant_id = ?"%string] in
  let args := [VString (DQ_TenantID q)] in
  let '(clauses, args) := if negb (DQ_ClusterID q =? "")%string
    then (clauses ++ ["cluster_id = ?"%string], args ++ [VString (DQ_ClusterID q)]) else (clauses, args) in
  (Join clauses " AND ", args).
Definition dataQualitySQL (q : DataQualityQuery) : string * list value :=
  let '(condition, args) := tenantWhere q in
  (Sprintf "
SELECT
    source,
    grain,
    cluster_id,
    count() AS record_count,
    max(bucket_start) AS latest_bucket_start,
    max(ingested_at) AS latest_ingested_at
FROM
(
    SELECT
        'container_metrics_10s' AS source,
        '10s' AS grain,
        cluster_id,
        bucket_start,
        ingested_at
    FROM kube_cost.container_metrics_10s
    WHERE %s
    UNION ALL
    SELECT
        'node_metrics_10s' AS source,
        '10s' AS grain,
        cluster_id,
        bucket_start,
        ingested_at
    FROM kube_cost.node_metrics_10s
    WHERE %s
)
GROUP BY source, grain, cluster_id
ORDER BY cluster_id, source"%string [condition; condition], args ++ args).

Definition analyticsWhere (q : AnalyticsQuery) (tableAlias timeColumn : string) : string * list value :=
  let prefix := tableAlias +:+ "." in
  let clauses := [prefix +:+ "tenant_id = ?"; prefix +:+ timeColumn +:+ " >= ?"; prefix +:+ timeColumn +:+ " < ?"] in
  let args := [VString (TenantID q); VTime (Start q); VTime (End_ q)] in
  let '(clauses, args) := if negb (ClusterID q =? "")%string
    then (clauses ++ [prefix +:+ "cluster_id = ?"], args ++ [VString (ClusterID q)]) else (clauses, args) in
  (Join clauses " AND ", args).
Definition analyticsMetricWhere (q : AnalyticsQuery) (tableAlias : string) : string * list value := analyticsWhere q tableAlias "bucket_start".
Definition analyticsCostWhere (q : AnalyticsQuery) (tableAlias : string) : string * list value := analyticsWhere q tableAlias "bucket_start".

(** The arguments of the three formats below *)
Definition format_args (group : analyticsGroupSpec) (condition : string) (q : AnalyticsQuery) : list string :=
  [groupKeySelect group; groupValueSelect group; namespaceUIDSelect group; namespaceNameSelect group; condition;
   groupBySuffix group; dec (normalizedAnalyticsFetchLimit (Limit q)); dec (normalizedAnalyticsOffset (Offset q))].
Definition usageSQL (q : AnalyticsQuery) : string * list value :=
  let group := analyticsGroup (GroupBy q) "cm.cluster_id" "cm.namespace_uid" "ns.namespace_name" "ns" in
  let '(condition, args) := analyticsMetricWhere q "cm" in
  (Sprintf "
SELECT
    cm.tenant_id,
    cm.cluster_id,
    %s AS group_key,
    %s AS group_value,
    %s AS namespace_uid,
    %s AS namespace_name,
    sum(toDecimal128(cm.cpu_usage_core_milliseconds, 9)) / 3600000 AS cpu_usage_core_hours,
    sum(toDecimal128(cm.cpu_request_core_milliseconds, 9)) / 3600000 AS cpu_request_core_hours,
    sum(toDecimal128(cm.cpu_limit_core_milliseconds, 9)) / 3600000 AS cpu_limit_core_hours,
    sum(toDecimal128(cm.memory_working_set_byte_seconds, 9)) / 3865470566400 AS memory_working_set_gib_hours,
    sum(toDecimal128(cm.memory_request_byte_seconds, 9)) / 3865470566400 AS memory_request_gib_hours,
    sum(toDecimal128(cm.memory_limit_byte_seconds, 9)) / 3865470566400 AS memory_limit_gib_hours,
    sum(cm.network_rx_bytes + cm.network_tx_bytes) AS network_bytes,
    sum(cm.filesystem_read_bytes + cm.filesystem_write_bytes) AS filesystem_bytes,
    sum(toDecimal128(cm.gpu_usage_milli_seconds, 9)) / 3600000 AS gpu_usage_milli_hours,
    sum(toDecimal128(cm.gpu_request_milli_seconds, 9)) / 3600000 AS gpu_request_milli_hours,
    sum(cm.oom_events) AS oom_events,
    sum(cm.cpu_throttled_periods) AS cpu_throttled_periods,
    sum(cm.sample_count) AS sample_count
FROM kube_cost.container_metrics_10s AS cm
LEFT JOIN kube_cost.current_namespace AS ns
    ON cm.tenant_id = ns.tenant_id
   AND cm.cluster_id = ns.cluster_id
   AND cm.namespace_uid = ns.namespace_uid
WHERE %s
GROUP BY cm.tenant_id, cm.cluster_id%s
ORDER BY cpu_request_core_hours DESC, cm.cluster_id, group_value, namespace_uid
LIMIT %d
OFFSET %d"%string (format_args group condition q), args).
Definition costsSQL (q : AnalyticsQuery) : string * list value :=
  let group := analyticsGroup (GroupBy q) "nc.cluster_id" "nc.namespace_uid" "nc.namespace_name" "ns" in
  let '(condition, args) := analyticsCostWhere q "nc" in
  (Sprintf "
SELECT
    nc.tenant_id,
    nc.cluster_id,
    %s AS group_key,
    %s AS group_value,
    %s AS namespace_uid,
    %s AS namespace_name,
    any(nc.currency) AS currency,
    anyLast(nc.computation_version) AS computation_version,
    max(nc.computed_at) AS computed_at,
    sum(nc.direct_cost) AS direct_cost,
    sum(nc.idle_cost) AS idle_cost,
    sum(nc.network_cost) AS network_cost,
    sum(nc.control_plane_cost) AS control_plane_cost,
    sum(nc.system_namespace_cost) AS system_namespace_cost,
    sum(nc.allocated_cost) AS allocated_cost
FROM kube_cost.current_namespace_cost_1h AS nc
LEFT JOIN kube_cost.current_namespace AS ns
    ON nc.tenant_id = ns.tenant_id
   AND nc.cluster_id = ns.cluster_id
   AND nc.namespace_uid = ns.namespace_uid
WHERE %s
GROUP BY nc.tenant_id, nc.cluster_id%s
ORDER BY allocated_cost DESC, nc.cluster_id, group_value, namespace_uid
LIMIT %d
OFFSET %d"%string (format_args group condition q), args).
Definition allocationSQL (q : AnalyticsQuery) : string * list value :=
  let group := analyticsGroup (GroupBy q) "nc.cluster_id" "nc.namespace_uid" "nc.namespace_name" "ns" in
  let '(condition, args) := analyticsCostWhere q "nc" in
  (Sprintf "
SELECT
    nc.tenant_id,
    nc.cluster_id,
    %s AS group_key,
    %s AS group_value,
    %s AS namespace_uid,
    %s AS namespace_name,
    any(nc.currency) AS currency,
    anyLast(nc.computation_version) AS computation_version,
    max(nc.computed_at) AS computed_at,
    sum(nc.cpu_request_core_milliseconds) AS cpu_request_core_milliseconds,
    sum(nc.network_bytes) AS network_bytes,
    sum(nc.allocation_weight) AS allocation_weight,
    sum(nc.direct_cost) AS direct_cost,
    sum(nc.idle_cost) AS idle_cost,
    sum(nc.network_cost) AS network_cost,
    sum(nc.control_plane_cost) AS control_plane_cost,
    sum(nc.system_namespace_cost) AS system_namespace_cost,
    sum(nc.allocated_cost) AS allocated_cost
FROM kube_cost.current_namespace_cost_1h AS nc
LEFT JOIN kube_cost.current_namespace AS ns
    ON nc.tenant_id = ns.tenant_id
   AND nc.cluster_id = ns.cluster_id
   AND nc.namespace_uid = ns.namespace_uid
WHERE %s
GROUP BY nc.tenant_id, nc.cluster_id%s
ORDER BY allocated_cost DESC, nc.cluster_id, group_value, namespace_uid
LIMIT %d
OFFSET %d"%string (format_args group condition q), args).

(** A clause that is added when its argument is given *)
Definition given (name v : string) : list (string * value) := if negb (v =? "")%string then [(name, VString v)] else [].
Definition recommendation_clauses (q : RecommendationQuery) : list (string * value) :=
  [("tenant_id = ?"%string, VString (RQ_TenantID q))] ++ given "cluster_id = ?" (RQ_ClusterID q)
    ++ given "status = ?" (RQ_Status q) ++ given "recommendation_type = ?" (RQ_RecommendationType q)
    ++ given "target_kind = ?" (RQ_TargetKind q) ++ given "target_uid = ?" (RQ_TargetUID q).
Definition recommendationsWhere (q : RecommendationQuery) : res string (string * list value) :=
  let clauses := recommendation_clauses q in
  let finish clauses := Ok (Join clauses.*1 " AND ", clauses.*2) in
  if negb (RQ_MinimumMonthlySavings q =? "")%string then
    match NewFromString (RQ_MinimumMonthlySavings q) with
    | Err e => Err ("invalid minimum monthly savings: " +:+ e)
    | Ok minimumSavings => finish (clauses ++ [("monthly_net_savings >= ?"%string, VDecimal minimumSavings)])
    end
  else finish clauses.
Definition recommendationsSelectSQL (suffix : string) : string :=
  Sprintf "
SELECT
    tenant_id,
    recommendation_id,
    cluster_id,
    namespace_uid,
    target_kind,
    target_uid,
    recommendation_type,
    safety_class,
    status,
    analysis_window_start,
    analysis_window_end,
    generated_at,
    expires_at,
    current_configuration,
    proposed_configuration,
    evidence,
    currency,
    monthly_gross_savings,
    monthly_net_savings,
    confidence,
    risk_score,
    policy_version,
    model_version,
    computation_version,
    version
FROM kube_cost.recommendation FINAL
%s"%string [suffix].
Definition recommendationsText (condition : string) (limit : Z) : string :=
  recommendationsSelectSQL (Sprintf "
WHERE %s
ORDER BY monthly_net_savings DESC, generated_at DESC, recommendation_id
LIMIT %d"%string [condition; dec limit]).
Definition recommendationsSQL (q : RecommendationQuery) : res string (string * list value) :=
  '(condition, args) ← recommendationsWhere q;
  let limit := if RQ_Limit q <=? 0 then 100 else RQ_Limit q in
  let limit := if 500 <? limit then 500 else limit in
  Ok (recommendationsText condition limit, args).
Definition recommendationSQL (tenantID recommendationID : string) : string * list value :=
  (recommendationsSelectSQL "
WHERE tenant_id = ? AND recommendation_id = ?
ORDER BY generated_at DESC
LIMIT 1"%string, [VString tenantID; VString recommendationID]).
End statements.

(** ** Rows *)

Section scans.
Context {decimal : Type} (decimal_String : decimal → string).
Abbreviation value := (Sql.value decimal).

Definition scanDataQuality (cells : list value) : option DataQualitySignal :=
  match cells with
  | [VString source; VString grain; VString clusterID; VUint recordCount; VTime latestBucket; VTime latestIngested] =>
      Some {| Source := source; Grain := grain; Signal_ClusterID := clusterID; RecordCount := recordCount;
              LatestBucketStart := if 0 <? recordCount then Some latestBucket else None;
              LatestIngestedAt := if 0 <? recordCount then Some latestIngested else None;
              FreshnessSeconds := None; Signal_Status := ""; Warning := ""; ExpectedFreshnessLimit := "" |}
  | _ => None
  end.
Definition scanUsage (cells : list value) : option UsageRow :=
  match cells with
  | [VString tenantID; VString clusterID; VString groupKey; VString groupValue; VString namespaceUID; VString namespaceName;
     VDecimal cpuUsage; VDecimal cpuRequest; VDecimal cpuLimit; VDecimal memoryWorkingSet; VDecimal memoryRequest;
     VDecimal memoryLimit; VUint networkBytes; VUint filesystemBytes; VDecimal gpuUsage; VDecimal gpuRequest;
     VUint oomEvents; VUint cpuThrottledPeriods; VUint sampleCount] =>
      Some {| UsageRow_TenantID := tenantID; UsageRow_ClusterID := clusterID; UsageRow_GroupKey := groupKey;
              UsageRow_GroupValue := groupValue; UsageRow_NamespaceUID := namespaceUID; UsageRow_NamespaceName := namespaceName;
              CPUUsageCoreHours := decimal_String cpuUsage; CPURequestCoreHours := decimal_String cpuRequest;
              CPULimitCoreHours := decimal_String cpuLimit; MemoryWorkingSetGiBHours := decimal_String memoryWorkingSet;
              MemoryRequestGiBHours := decimal_String memoryRequest; MemoryLimitGiBHours := decimal_String memoryLimit;
              UsageRow_NetworkBytes := networkBytes; FilesystemBytes := filesystemBytes;
              GPUUsageMilliHours := decimal_String gpuUsage; GPURequestMilliHours := decimal_String gpuRequest;
              OOMEvents := oomEvents; CPUThrottledPeriods := cpuThrottledPeriods; SampleCount := sampleCount |}
  | _ => None
  end.
Definition scanCost (cells : list value) : option (CostMetadata * CostRow) :=
  match cells with
  | [VString tenantID; VString clusterID; VString groupKey; VString groupValue; VString namespaceUID; VString namespaceName;
     VString currency; VString computationVersion; VTime computedAt; VDecimal directCost; VDecimal idleCost;
     VDecimal networkCost; VDecimal controlPlaneCost; VDecimal systemNamespaceCost; VDecimal allocatedCost] =>
      Some ({| Currency := currency; ComputationVersion := computationVersion; ComputedAt := computedAt |},
            {| CostRow_TenantID := tenantID; CostRow_ClusterID := clusterID; CostRow_GroupKey := groupKey;
               CostRow_GroupValue := groupValue; CostRow_NamespaceUID := namespaceUID; CostRow_NamespaceName := namespaceName;
               CostRow_DirectCost := decimal_String directCost; CostRow_IdleCost := decimal_String idleCost;
               CostRow_NetworkCost := decimal_String networkCost; CostRow_ControlPlaneCost := decimal_String controlPlaneCost;
               CostRow_SystemNamespaceCost := decimal_String systemNamespaceCost;
               CostRow_AllocatedCost := decimal_String allocatedCost |})
  | _ => None
  end.
Definition scanAllocation (cells : list value) : option (CostMetadata * AllocationRow) :=
  match cells with
  | [VString tenantID; VString clusterID; VString groupKey; VString groupValue; VString namespaceUID; VString namespaceName;
     VString currency; VString computationVersion; VTime computedAt; VUint cpuRequest; VUint networkBytes;
     VDecimal allocationWeight; VDecimal directCost; VDecimal idleCost; VDecimal networkCost; VDecimal controlPlaneCost;
     VDecimal systemNamespaceCost; VDecimal allocatedCost] =>
      Some ({| Currency := currency; ComputationVersion := computationVersion; ComputedAt := computedAt |},
            {| AllocationRow_TenantID := tenantID; AllocationRow_ClusterID := clusterID; AllocationRow_GroupKey := groupKey;
               AllocationRow_GroupValue := groupValue; AllocationRow_NamespaceUID := namespaceUID;
               AllocationRow_NamespaceName := namespaceName; CPURequestCoreMilliseconds := cpuRequest;
               AllocationRow_NetworkBytes := networkBytes; AllocationWeight := decimal_String allocationWeight;
               AllocationRow_DirectCost := decimal_String directCost; AllocationRow_IdleCost := decimal_String idleCost;
               AllocationRow_NetworkCost := decimal_String networkCost;
               AllocationRow_ControlPlaneCost := decimal_String controlPlaneCost;
               AllocationRow_SystemNamespaceCost := decimal_String systemNamespaceCost;
               AllocationRow_AllocatedCost := decimal_String allocatedCost |})
  | _ => None
  end.

Record RecommendationResult := {
  Rec_TenantID : string;
  RecommendationID : string;
  Rec_ClusterID : string;
  Rec_NamespaceUID : string;
  TargetKind : string;
  TargetUID : string;
  RecommendationType : string;
  SafetyClass : string;
  Rec_Status : string;
  AnalysisWindowStart : Time;
  AnalysisWindowEnd : Time;
  Rec_GeneratedAt : Time;
  ExpiresAt : Time;
  CurrentConfiguration : string;
  ProposedConfiguration : string;
  Evidence : string;
  Rec_Currency : string;
  MonthlyGrossSavings : string;
  MonthlyNetSavings : string;
  Confidence : string;
  RiskScore : string;
  PolicyVersion : string;
  ModelVersion : string;
  Rec_ComputationVersion : string;
  Version : Z
}.
Definition scanRecommendation (cells : list value) : option RecommendationResult :=
  match cells with
  | [VString tenantID; VString recommendationID; VString clusterID; VString namespaceUID; VString targetKind; VString targetUID;
     VString recommendationType; VString safetyClass; VString status; VTime windowStart; VTime windowEnd; VTime generatedAt;
     VTime expiresAt; VString currentConfiguration; VString proposedConfiguration; VString evidence; VString currency;
     VDecimal gross; VDecimal net; VDecimal confidence; VDecimal risk; VString policyVersion; VString modelVersion;
     VString computationVersion; VUint version] =>
      Some {| Rec_TenantID := tenantID; RecommendationID := recommendationID; Rec_ClusterID := clusterID;
              Rec_NamespaceUID := namespaceUID; TargetKind := targetKind; TargetUID := targetUID;
              RecommendationType := recommendationType; SafetyClass := safetyClass; Rec_Status := status;
              AnalysisWindowStart := windowStart; AnalysisWindowEnd := windowEnd; Rec_GeneratedAt := generatedAt;
              ExpiresAt := expiresAt; CurrentConfiguration := currentConfiguration;
              ProposedConfiguration := proposedConfiguration; Evidence := evidence; Rec_Currency := currency;
              MonthlyGrossSavings := decimal_String gross; MonthlyNetSavings := decimal_String net;
              Confidence := decimal_String confidence; RiskScore := decimal_String risk; PolicyVersion := policyVersion;
              ModelVersion := modelVersion; Rec_ComputationVersion := computationVersion; Version := version |}
  | _ => None
  end.
(** [jsonRawMessage]: how a stored document is written *)
Definition MarshalJSON (m : string) : string := if (String.length m =? 0)%nat then "{}" else m.

(** ** The repository *)

Context (NewFromString : string → res string decimal) (ScanError : list value → string).
(** The database: its answer to a statement with arguments *)
Context (database : string * list value → answer (decimal := decimal)).

Inductive repository_error := ErrRecommendationNotFound | Failed (e : string).

Definition DataQuality (q : DataQualityQuery) : res string (list DataQualitySignal) :=
  read_rows ScanError scanDataQuality "query data quality" "scan data quality row" "read data quality rows" (database (dataQualitySQL q)).
Definition Usage (q : AnalyticsQuery) : res string (list UsageRow) :=
  read_rows ScanError scanUsage "query usage" "scan usage row" "read usage rows" (database (usageSQL q)).
(** The metadata of an answer: every scan overwrites it. *)
Definition metadata {row} (rows : list (CostMetadata * row)) : CostMetadata :=
  default {| Currency := ""; ComputationVersion := ""; ComputedAt := 0 |} (last rows.*1).
Definition Costs (q : AnalyticsQuery) : res string (CostMetadata * list CostRow) :=
  (λ rows, (metadata rows, rows.*2))
    <$> read_rows ScanError scanCost "query costs" "scan cost row" "read cost rows" (database (costsSQL q)).
Definition Allocation (q : AnalyticsQuery) : res string (CostMetadata * list AllocationRow) :=
  (λ rows, (metadata rows, rows.*2))
    <$> read_rows ScanError scanAllocation "query allocation" "scan allocation row" "read allocation rows" (database (allocationSQL q)).
Definition Recommendations (q : RecommendationQuery) : res string (list RecommendationResult) :=
  statement ← recommendationsSQL NewFromString q;
  read_rows ScanError scanRecommendation "query recommendations" "scan recommendation row" "read recommendation rows" (database statement).
Definition Recommendation (tenantID recommendationID : string) : res repository_error RecommendationResult :=
  match database (recommendationSQL tenantID recommendationID) with
  | QueryError e => Err (Failed ("query recommendation: " +:+ e))
  | RowsAnswer [] (Some e) => Err (Failed ("read recommendation row: " +:+ e))
  | RowsAnswer [] None => Err ErrRecommendationNotFound
  | RowsAnswer (cells :: _) _ =>
      match scanRecommendation cells with
      | Some r => Ok r
      | None => Err (Failed ("scan recommendation row: " +:+ ScanError cells))
      end
  end.
Definition repository : Repository :=
  {| Query.Usage := Usage; Query.Costs := Costs; Allocation_ := Allocation; Query.DataQuality := DataQuality |}.

(** ** The handlers of recommendations *)

Record RecommendationListResult := {
  List_TenantID : string;
  List_ClusterID : string;
  List_GeneratedAt : Time;
  List_Recommendations : list RecommendationResult;
  List_ResultCount : Z;
  List_Limit : Z
}.
Context (Getenv : string → string).
Definition recommendations (clock now : Time) (r : Request) : response RecommendationListResult :=
  match authenticatedTenant Getenv clock r with
  | Err p => Problem p
  | Ok tenantID =>
      match recommendationQueryFromRequest (λ s, is_Ok (NewFromString s)) r tenantID with
      | Err p => Problem p
      | Ok q =>
          match Recommendations q with
          | Err _ => writeProblem StatusInternalServerError "query_failed" "recommendations query failed"
          | Ok rows => writeJSON StatusOK {| List_TenantID := tenantID; List_ClusterID := RQ_ClusterID q; List_GeneratedAt := now;
              List_Recommendations := rows; List_ResultCount := Z.of_nat (length rows);
              List_Limit := normalizedRecommendationLimit (RQ_Limit q) |}
          end
      end
  end.
Definition recommendation (clock : Time) (r : Request) : response RecommendationResult :=
  match authenticatedTenant Getenv clock r with
  | Err p => Problem p
  | Ok tenantID =>
      let recommendationID := TrimSpace (PathValue r "recommendation_id") in
      if (recommendationID =? "")%string then Problem (bad_request "recommendation_id is required")
      else match Recommendation tenantID recommendationID with
           | Err ErrRecommendationNotFound => writeProblem StatusNotFound "not_found" "recommendation not found"
           | Err (Failed _) => writeProblem StatusInternalServerError "query_failed" "recommendation query failed"
           | Ok r => writeJSON StatusOK r
           end
  end.
End scans.

(** ** Statements are parameterised *)

(** What of a query its statement depends on: the grouping, where any other than the
    known ones counts as [namespace], whether a cluster is given, the limit and the
    offset *)
Definition group_class (groupBy : string) : string := if validAnalyticsGroupBy groupBy then groupBy else "namespace".
Definition shape (q : AnalyticsQuery) : string * bool * Z * Z :=
  (group_class (GroupBy q), (ClusterID q =? "")%string, normalizedAnalyticsFetchLimit (Limit q), normalizedAnalyticsOffset (Offset q)).
Definition recommendation_shape (q : RecommendationQuery) : list bool * Z :=
  ((λ s, (s =? "")%string) <$> [RQ_ClusterID q; RQ_Status q; RQ_RecommendationType q; RQ_TargetKind q; RQ_TargetUID q; RQ_MinimumMonthlySavings q],
   normalizedRecommendationLimit (RQ_Limit q)).

(** Placeholders and arguments match, and queries of the same shape have the same
    text. *)
Definition parameterised {Q S E value} (shape : Q → S) (sql : Q → res E (string * list value)) : Prop :=
  (∀ q text args, sql q = Ok (text, args) → placeholders text = length args) ∧
  (∀ q q' text text' args args', sql q = Ok (text, args) → sql q' = Ok (text', args') → shape q = shape q' → text = text').

Section parameterised.
Context {decimal : Type}.
Abbreviation usageSQL := (usageSQL (decimal := decimal)).
Abbreviation costsSQL := (costsSQL (decimal := decimal)).
Abbreviation allocationSQL := (allocationSQL (decimal := decimal)).
Abbreviation dataQualitySQL := (dataQualitySQL (decimal := decimal)).

Ltac count := rewrite ?placeholders_app, ?dec_no_placeholder; cbn [placeholders]; rewrite ?placeholders_app; try done.
Lemma analyticsGroup_class groupBy a b c d : analyticsGroup groupBy a b c d = analyticsGroup (group_class groupBy) a b c d.
Proof.
  unfold group_class. destruct (validAnalyticsGroupBy groupBy) eqn:Hv; [done|]. unfold analyticsGroup.
  unfold validAnalyticsGroupBy in Hv. apply bool_decide_eq_false in Hv.
  destruct (String.eqb_spec groupBy "cluster") as [->|]; [set_solver|].
  rewrite bool_decide_eq_false_2 by set_solver. done.
Qed.
Definition no_placeholders (g : analyticsGroupSpec) : Prop :=
  placeholders (groupKeySelect g) = 0%nat ∧ placeholders (groupValueSelect g) = 0%nat ∧ placeholders (namespaceUIDSelect g) = 0%nat ∧
  placeholders (namespaceNameSelect g) = 0%nat ∧ placeholders (groupBySuffix g) = 0%nat.
Lemma analyticsGroup_placeholders groupBy a b c d :
  placeholders a = 0%nat → placeholders b = 0%nat → placeholders c = 0%nat → placeholders d = 0%nat →
  no_placeholders (analyticsGroup groupBy a b c d).
Proof.
  intros Ha Hb Hc Hd. unfold analyticsGroup. destruct (_ =? "cluster")%string; [by repeat split|].
  destruct (bool_decide_reflect (groupBy ∈ ["team"; "project"; "environment"; "cost_center"]%string)) as [Hin|].
  - assert (placeholders groupBy = 0%nat) as Hg by (set_unfold in Hin; destruct_or?; subst; by vm_compute).
    repeat split; simpl; count; rewrite ?Hd, ?Hg; done.
  - repeat split; simpl; count; rewrite ?Hb, ?Hc; done.
Qed.
Lemma analyticsWhere_placeholders (q : AnalyticsQuery) a t :
  placeholders a = 0%nat → placeholders t = 0%nat →
  placeholders (analyticsWhere (decimal := decimal) q a t).1 = length (analyticsWhere (decimal := decimal) q a t).2.
Proof.
  intros Ha Ht. unfold analyticsWhere, Join. destruct (ClusterID q =? "")%string; cbn [negb fst snd app String.concat];
    count; rewrite ?Ha, ?Ht; done.
Qed.
Lemma formatted_placeholders f g condition q n :
  verbs f = 8%nat → placeholders f = 0%nat → no_placeholders g → placeholders condition = n →
  placeholders (Sprintf f (format_args g condition q)) = n.
Proof.
  intros Hv Hf (H1 & H2 & H3 & H4 & H5) Hc. rewrite Sprintf_placeholders by done. rewrite Hf.
  unfold format_args. cbn. rewrite !dec_no_placeholder, H1, H2, H3, H4, H5, Hc. lia.
Qed.
Lemma Ok_pair_inj {E A B} (a a' : A) (b b' : B) : Ok (E := E) (a, b) = Ok (a', b') → a = a' ∧ b = b'.
Proof. by intros [= -> ->]. Qed.
Lemma join_placeholders (l : list (string * value decimal)) :
  Forall (λ c, placeholders c.1 = 1%nat) l → placeholders (Join l.*1 " AND ") = length l.
Proof.
  unfold Join. induction 1 as [|c l Hc _ IH]; [done|]. destruct l as [|c' l]; [simpl in *; lia|].
  change (String.concat " AND " (c :: c' :: l).*1) with (c.1 +:+ " AND " +:+ String.concat " AND " (c' :: l).*1).
  rewrite !placeholders_app, IH, Hc. done.
Qed.
Lemma given_placeholders name v : placeholders name = 1%nat → Forall (λ c, placeholders c.1 = 1%nat) (given (decimal := decimal) name v).
Proof. intros ?. unfold given. destruct (negb _); repeat constructor; done. Qed.
Lemma recommendationsWhere_placeholders (NewFromString : string → res string decimal) q condition args :
  recommendationsWhere NewFromString q = Ok (condition, args) → placeholders condition = length args.
Proof.
  unfold recommendationsWhere.
  assert (Forall (λ c, placeholders c.1 = 1%nat) (recommendation_clauses (decimal := decimal) q)) as Hc.
  { unfold recommendation_clauses. constructor; [done|]. repeat (apply Forall_app; split); by apply given_placeholders. }
  revert Hc. generalize (recommendation_clauses (decimal := decimal) q). intros clauses Hc.
  destruct (negb _); [destruct (NewFromString _) as [minimum|]; [|done]|]; intros [= <- <-].
  - rewrite length_fmap. apply join_placeholders, Forall_app; split; [done|]. by repeat constructor.
  - rewrite length_fmap. by apply join_placeholders.
Qed.
Lemma given_names name v v' : (v =? "")%string = (v' =? "")%string → (given (decimal := decimal) name v).*1 = (given (decimal := decimal) name v').*1.
Proof. unfold given. intros ->. by destruct (v' =? "")%string. Qed.
Lemma recommendationsWhere_shape (NewFromString : string → res string decimal) q q' condition args condition' args' :
  recommendationsWhere NewFromString q = Ok (condition, args) → recommendationsWhere NewFromString q' = Ok (condition', args') →
  (recommendation_shape q).1 = (recommendation_shape q').1 → condition = condition'.
Proof.
  unfold recommendationsWhere, recommendation_shape. intros Hq Hq' [= H1 H2 H3 H4 H5 H6]. rewrite H6 in Hq.
  assert (∀ a b, (a =? "")%string = (b =? "")%string → ∀ n, (given (decimal := decimal) n a).*1 = (given n b).*1) as Hg by (intros; by apply given_names).
  assert ((recommendation_clauses (decimal := decimal) q).*1 = (recommendation_clauses (decimal := decimal) q').*1) as Hn.
  { unfold recommendation_clauses. rewrite !fmap_app. by rewrite (Hg _ _ H1), (Hg _ _ H2), (Hg _ _ H3), (Hg _ _ H4), (Hg _ _ H5). }
  revert Hn Hq Hq'. generalize (recommendation_clauses (decimal := decimal) q) (recommendation_clauses (decimal := decimal) q').
  intros l l' Hn Hq Hq'.
  destruct (negb _); [destruct (NewFromString (RQ_MinimumMonthlySavings q)) as [m|]; [|done];
    destruct (NewFromString (RQ_MinimumMonthlySavings q')) as [m'|]; [|done]|]; injection Hq as <- <-; injection Hq' as <- <-;
    by rewrite ?fmap_app, Hn.
Qed.
Lemma recommendation_limit z :
  (if 500 <? (if z <=? 0 then 100 else z) then 500 else if z <=? 0 then 100 else z) = normalizedRecommendationLimit z.
Proof. unfold normalizedRecommendationLimit. destruct (z <=? 0); done. Qed.
Lemma tenantWhere_placeholders (d : DataQualityQuery) :
  placeholders (tenantWhere (decimal := decimal) d).1 = length (tenantWhere (decimal := decimal) d).2.
Proof. unfold tenantWhere. by destruct (DQ_ClusterID d =? "")%string. Qed.
Lemma analyticsWhere_shape (q q' : AnalyticsQuery) a t :
  (ClusterID q =? "")%string = (ClusterID q' =? "")%string →
  (analyticsWhere (decimal := decimal) q a t).1 = (analyticsWhere (decimal := decimal) q' a t).1.
Proof. unfold analyticsWhere. intros ->. by destruct (ClusterID q' =? "")%string. Qed.
(** The three analytical statements *)
Lemma formatted_parameterised f a b c d alias :
  verbs f = 8%nat → placeholders f = 0%nat → placeholders a = 0%nat → placeholders b = 0%nat → placeholders c = 0%nat →
  placeholders d = 0%nat → placeholders alias = 0%nat →
  parameterised (E := string) shape (λ q, Ok (let group := analyticsGroup (GroupBy q) a b c d in
    let '(condition, args) := analyticsWhere (decimal := decimal) q alias "bucket_start" in
    (Sprintf f (format_args group condition q), args))).
Proof.
  intros Hv Hf Ha Hb Hc Hd Hal. split.
  - intros q text args. pose proof (analyticsWhere_placeholders q alias "bucket_start" Hal eq_refl) as Hw.
    destruct (analyticsWhere q alias "bucket_start") as [condition args0]. intros [<- <-]%Ok_pair_inj.
    apply formatted_placeholders; [done|done|by apply analyticsGroup_placeholders|done].
  - intros q q' text text' args args' Hq Hq' [= Hg Hcl Hl Ho]. pose proof (analyticsWhere_shape q q' alias "bucket_start" Hcl) as Hw.
    destruct (analyticsWhere q alias "bucket_start") as [condition args0], (analyticsWhere q' alias "bucket_start") as [condition' args0'].
    apply Ok_pair_inj in Hq as [<- <-]. apply Ok_pair_inj in Hq' as [<- <-]. simpl in Hw. subst condition'.
    unfold format_args. by rewrite Hl, Ho, (analyticsGroup_class (GroupBy q)), (analyticsGroup_class (GroupBy q')), Hg.
Qed.

Lemma usage_parameterised : parameterised (E := string) shape (λ q, Ok (usageSQL q)).
Proof. unfold QuerySql.usageSQL, analyticsMetricWhere. by apply formatted_parameterised. Qed.
Lemma costs_parameterised : parameterised (E := string) shape (λ q, Ok (costsSQL q)).
Proof. unfold QuerySql.costsSQL, analyticsCostWhere. by apply formatted_parameterised. Qed.
Lemma allocation_parameterised : parameterised (E := string) shape (λ q, Ok (allocationSQL q)).
Proof. unfold QuerySql.allocationSQL, analyticsCostWhere. by apply formatted_parameterised. Qed.
Lemma dataQuality_parameterised : parameterised (E := string) (λ d, (DQ_ClusterID d =? "")%string) (λ d, Ok (dataQualitySQL d)).
Proof.
  split.
  - intros d text args. unfold QuerySql.dataQualitySQL. pose proof (tenantWhere_placeholders d) as Hw.
    destruct (tenantWhere d) as [condition args0]. intros [<- <-]%Ok_pair_inj. rewrite Sprintf_placeholders by done.
    rewrite length_app. simpl in *. lia.
  - intros d d' text text' args args' Hd Hd' Hs. unfold QuerySql.dataQualitySQL, tenantWhere in Hd, Hd'. rewrite Hs in Hd.
    destruct (DQ_ClusterID d' =? "")%string; apply Ok_pair_inj in Hd as [<- <-]; by apply Ok_pair_inj in Hd' as [<- <-].
Qed.
Lemma nested_placeholders f g condition limit :
  verbs f = 1%nat → placeholders f = 0%nat → verbs g = 2%nat → placeholders g = 0%nat →
  placeholders (Sprintf f [Sprintf g [condition; dec limit]]) = placeholders condition.
Proof.
  intros Hvf Hf Hvg Hg. pose proof (Sprintf_placeholders g [condition; dec limit] Hvg) as Hs. cbn in Hs.
  rewrite Sprintf_placeholders by done. cbn. rewrite Hs, Hf, Hg, dec_no_placeholder. lia.
Qed.
Lemma recommendationsText_placeholders condition limit : placeholders (recommendationsText condition limit) = placeholders condition.
Proof. by apply nested_placeholders. Qed.
Lemma recommendations_parameterised (NewFromString : string → res string decimal) :
  parameterised recommendation_shape (recommendationsSQL NewFromString).
Proof.
  split.
  - intros q text args. unfold recommendationsSQL. pose proof (recommendationsWhere_placeholders NewFromString q) as Hw.
    destruct (recommendationsWhere NewFromString q) as [[condition args0]|]; [|done]. cbn [mbind res_bind]. intros [<- <-]%Ok_pair_inj.
    rewrite recommendationsText_placeholders. by apply Hw.
  - intros q q' text text' args args' Hq Hq' Hs. unfold recommendationsSQL in Hq, Hq'.
    pose proof (recommendationsWhere_shape NewFromString q q') as Hw.
    destruct (recommendationsWhere NewFromString q) as [[condition args0]|]; [|done].
    destruct (recommendationsWhere NewFromString q') as [[condition' args0']|]; [|done].
    apply Ok_pair_inj in Hq as [<- <-]. apply Ok_pair_inj in Hq' as [<- <-].
    rewrite (Hw condition args0 condition' args0') by (done || by rewrite Hs).
    assert (normalizedRecommendationLimit (RQ_Limit q) = normalizedRecommendationLimit (RQ_Limit q')) as Hl
      by exact (f_equal snd Hs).
    rewrite !recommendation_limit, Hl. reflexivity.
Qed.
Lemma recommendation_parameterised :
  parameterised (E := string) (λ _, tt) (λ '(tenantID, id), Ok (recommendationSQL (decimal := decimal) tenantID id)).
Proof.
  split; [by intros [t i] text args [<- <-]%Ok_pair_inj|].
  by intros [t i] [t' i'] text text' args args' [<- <-]%Ok_pair_inj [<- <-]%Ok_pair_inj _.
Qed.

(** The SQL of every read is parameterised: it has as many placeholders as
    arguments, and its text depends on the shape of the query only, never on the
    tenant, the cluster, the range or a filter value, nor on a grouping that is not
    one of the six known ones. *)
Theorem statements_parameterised (NewFromString : string → res string decimal) :
  parameterised (E := string) shape (λ q, Ok (usageSQL q)) ∧
  parameterised (E := string) shape (λ q, Ok (costsSQL q)) ∧
  parameterised (E := string) shape (λ q, Ok (allocationSQL q)) ∧
  parameterised (E := string) (λ d, (DQ_ClusterID d =? "")%string) (λ d, Ok (dataQualitySQL d)) ∧
  parameterised recommendation_shape (recommendationsSQL NewFromString) ∧
  parameterised (E := string) (λ _, tt) (λ '(tenantID, id), Ok (recommendationSQL (decimal := decimal) tenantID id)).
Proof.
  split; [apply usage_parameterised|]. split; [apply costs_parameterised|]. split; [apply allocation_parameterised|].
  split; [apply dataQuality_parameterised|]. split; [apply recommendations_parameterised|apply recommendation_parameterised].
Qed.
End parameterised.

(** ** What the conditions select *)

Lemma group_cases groupBy :
  group_class groupBy ∈ ["namespace"; "cluster"; "team"; "project"; "environment"; "cost_center"]%string.
Proof. unfold group_class. destruct (validAnalyticsGroupBy groupBy) eqn:Hv; [by apply bool_decide_eq_true in Hv|left]. Qed.

Section conditions.
Context {decimal : Type} (decimal_leb : decimal → decimal → bool) (NewFromString : string → res string decimal).

(** An optional filter *)
Definition passes (filter v : string) : bool := (filter =? "")%string || (v =? filter)%string.
(** The rows of the metric and cost tables an analytical query is about *)
Definition in_scope (q : AnalyticsQuery) (tenantID clusterID : string) (bucketStart : Time) : bool :=
  (tenantID =? TenantID q)%string && ((Start q <=? bucketStart) && (bucketStart <? End_ q)) && passes (ClusterID q) clusterID.
(** The recommendations a query is about *)
Definition wanted (q : RecommendationQuery) (r : RecommendationResult) (net : decimal) : bool :=
  (Rec_TenantID r =? RQ_TenantID q)%string && passes (RQ_ClusterID q) (Rec_ClusterID r) && passes (RQ_Status q) (Rec_Status r)
  && passes (RQ_RecommendationType q) (RecommendationType r) && passes (RQ_TargetKind q) (TargetKind r)
  && passes (RQ_TargetUID q) (TargetUID r)
  && ((RQ_MinimumMonthlySavings q =? "")%string || match NewFromString (RQ_MinimumMonthlySavings q) with Ok m => decimal_leb m net | Err _ => false end).
(** The buckets a data-quality query is about, and the recommendation of a detail *)
Definition measured (d : DataQualityQuery) (tenantID clusterID : string) : bool :=
  (tenantID =? DQ_TenantID d)%string && passes (DQ_ClusterID d) clusterID.
Definition identified (tenantID recommendationID : string) (r : RecommendationResult) : bool :=
  (Rec_TenantID r =? tenantID)%string && (RecommendationID r =? recommendationID)%string.
(** A row of a table of buckets under an alias, and the row of a recommendation: what
    the columns say that are named here; the other columns hold anything. *)
Record bucket_row (alias tenantID clusterID : string) (bucketStart : Time) (row : string → value decimal) : Prop := {
  bucket_tenant : row (alias +:+ "tenant_id") = VString tenantID;
  bucket_cluster : row (alias +:+ "cluster_id") = VString clusterID;
  bucket_start : row (alias +:+ "bucket_start") = VTime bucketStart
}.
Record recommendation_row (r : RecommendationResult) (net : decimal) (row : string → value decimal) : Prop := {
  row_tenant : row "tenant_id"%string = VString (Rec_TenantID r);
  row_recommendation : row "recommendation_id"%string = VString (RecommendationID r);
  row_cluster : row "cluster_id"%string = VString (Rec_ClusterID r);
  row_status : row "status"%string = VString (Rec_Status r);
  row_type : row "recommendation_type"%string = VString (RecommendationType r);
  row_kind : row "target_kind"%string = VString (TargetKind r);
  row_target : row "target_uid"%string = VString (TargetUID r);
  row_net : row "monthly_net_savings"%string = VDecimal net
}.

Ltac split_words :=
  match goal with |- context [Split ?s ?c] => let l := eval vm_compute in (Split s c) in change (Split s c) with l end.
Lemma selects_analytics q alias row tenantID clusterID bucketStart :
  alias = "cm"%string ∨ alias = "nc"%string → bucket_row (alias +:+ ".") tenantID clusterID bucketStart row →
  let '(condition, args) := analyticsWhere q alias "bucket_start" in
  selects decimal_leb condition args row = Some (in_scope q tenantID clusterID bucketStart).
Proof.
  intros Hal [Ht Hc Hb]. unfold analyticsWhere, in_scope, passes. destruct (ClusterID q =? "")%string; cbn [negb orb]; unfold selects;
    destruct Hal as [->| ->]; split_words; vm_compute in Ht, Hc, Hb; cbn; rewrite Ht, Hb, ?Hc; cbn;
    rewrite ?andb_true_r, ?andb_assoc; reflexivity.
Qed.
Lemma selects_recommendations q condition args row r net :
  recommendationsWhere NewFromString q = Ok (condition, args) → recommendation_row r net row →
  selects decimal_leb condition args row = Some (wanted q r net).
Proof.
  unfold recommendationsWhere, wanted, passes, recommendation_clauses, given. intros Hw [Ht _ Hc Hs Hy Hk Hu Hn]. revert Hw.
  destruct (RQ_ClusterID q =? "")%string, (RQ_Status q =? "")%string, (RQ_RecommendationType q =? "")%string,
    (RQ_TargetKind q =? "")%string, (RQ_TargetUID q =? "")%string, (RQ_MinimumMonthlySavings q =? "")%string; cbn [negb orb];
    try (destruct (NewFromString _) as [m|]; [|done]); intros [<- <-]%Ok_pair_inj; unfold selects; split_words; cbn;
    rewrite Ht, ?Hc, ?Hs, ?Hy, ?Hk, ?Hu, ?Hn; cbn; rewrite ?andb_true_r, ?andb_assoc; reflexivity.
Qed.

(** The conditions of the statements are those their builders return. *)
Ltac find_conditions q :=
  rewrite analyticsGroup_class; pose proof (group_cases (GroupBy q)) as Hg; unfold format_args;
  generalize (dec (normalizedAnalyticsFetchLimit (Limit q))) (dec (normalizedAnalyticsOffset (Offset q)));
  intros limit offset; revert Hg; generalize (group_class (GroupBy q)); intros g Hg;
  repeat (apply elem_of_cons in Hg as [-> | Hg]; [reflexivity|]); by apply elem_of_nil in Hg.
Definition asks (sql condition : string * list (value decimal)) : Prop :=
  conditions "GROUP" sql.1 = [condition.1] ∧ sql.2 = condition.2.
Lemma usage_asks q : asks (usageSQL q) (analyticsMetricWhere q "cm").
Proof.
  unfold asks, usageSQL, analyticsMetricWhere, analyticsWhere.
  destruct (ClusterID q =? "")%string; cbn [negb fst snd]; (split; [find_conditions q|reflexivity]).
Qed.
Lemma costs_asks q : asks (costsSQL q) (analyticsCostWhere q "nc").
Proof.
  unfold asks, costsSQL, analyticsCostWhere, analyticsWhere.
  destruct (ClusterID q =? "")%string; cbn [negb fst snd]; (split; [find_conditions q|reflexivity]).
Qed.
Lemma allocation_asks q : asks (allocationSQL q) (analyticsCostWhere q "nc").
Proof.
  unfold asks, allocationSQL, analyticsCostWhere, analyticsWhere.
  destruct (ClusterID q =? "")%string; cbn [negb fst snd]; (split; [find_conditions q|reflexivity]).
Qed.
Lemma asks_confined sql condition row selected :
  asks sql condition → selects decimal_leb condition.1 condition.2 row = Some selected → confined decimal_leb "GROUP" sql row selected.
Proof.
  intros [Hc Ha] Hs. exists [condition]. rewrite Hc, Ha. split_and!; [done|done|simpl; by rewrite app_nil_r|by constructor].
Qed.
Lemma analytics_confined q alias sql condition row tenantID clusterID bucketStart :
  alias = "cm"%string ∨ alias = "nc"%string → bucket_row (alias +:+ ".") tenantID clusterID bucketStart row →
  asks sql condition → condition = analyticsWhere q alias "bucket_start" →
  confined decimal_leb "GROUP" sql row (in_scope q tenantID clusterID bucketStart).
Proof.
  intros Hal Hrow Ha ->. eapply asks_confined; [done|]. pose proof (selects_analytics q alias row _ _ _ Hal Hrow) as Hs.
  by destruct (analyticsWhere q alias "bucket_start").
Qed.
Lemma quality_confined d row tenantID clusterID bucketStart :
  bucket_row "" tenantID clusterID bucketStart row →
  confined decimal_leb "GROUP" (dataQualitySQL d) row (measured d tenantID clusterID).
Proof.
  intros [Ht Hc _]. exists [tenantWhere d; tenantWhere d]. vm_compute in Ht, Hc. unfold measured, passes, dataQualitySQL, tenantWhere.
  destruct (DQ_ClusterID d =? "")%string; cbn [negb fst snd orb]; split_and!; try reflexivity; try done;
    (repeat constructor; cbn [fst snd]; unfold selects; split_words; cbn; rewrite Ht, ?Hc; cbn; by rewrite ?andb_true_r).
Qed.
Lemma recommendations_condition q condition args limit :
  recommendationsWhere NewFromString q = Ok (condition, args) → conditions "ORDER" (recommendationsText condition limit) = [condition].
Proof.
  unfold recommendationsWhere, recommendation_clauses, given, recommendationsText. generalize (dec limit). intros l.
  destruct (RQ_ClusterID q =? "")%string, (RQ_Status q =? "")%string, (RQ_RecommendationType q =? "")%string,
    (RQ_TargetKind q =? "")%string, (RQ_TargetUID q =? "")%string, (RQ_MinimumMonthlySavings q =? "")%string; cbn [negb];
    try (destruct (NewFromString _) as [m|]; [|done]); intros [<- _]%Ok_pair_inj; reflexivity.
Qed.
Lemma recommendations_confined q sql row r net :
  recommendationsSQL NewFromString q = Ok sql → recommendation_row r net row → confined decimal_leb "ORDER" sql row (wanted q r net).
Proof.
  unfold recommendationsSQL. destruct (recommendationsWhere NewFromString q) as [[condition args]|] eqn:Hw; [|done].
  cbn [mbind res_bind]. cbv zeta. intros [= <-] Hrow. exists [(condition, args)]. split; [done|]. split; [|split; [simpl; by rewrite app_nil_r|]].
  - by eapply recommendations_condition.
  - constructor; [|done]. by apply selects_recommendations.
Qed.
Lemma recommendation_confined tenantID recommendationID row r net :
  recommendation_row r net row →
  confined decimal_leb "ORDER" (recommendationSQL tenantID recommendationID) row (identified tenantID recommendationID r).
Proof.
  intros [Ht Hr _ _ _ _ _ _]. exists [("tenant_id = ? AND recommendation_id = ?"%string, [VString tenantID; VString recommendationID])].
  split_and!; [done|reflexivity|reflexivity|]. constructor; [|done]. cbn [fst snd]. unfold selects, identified. split_words. cbn.
  rewrite Ht, Hr. cbn. done.
Qed.

(** C23: every read is confined to its request. On a row whose named columns have the
    given values, and whatever the other columns hold, the WHERE conditions found in
    the text of each statement, with its arguments in their order, select exactly: for
    usage, costs and allocation the buckets of the tenant that start within the range,
    of the cluster if one is given; for the data quality the buckets of the tenant and
    cluster, in both tables; for the list of recommendations those of the tenant that
    pass every filter given; for the detail the one of the tenant with the id. *)
Theorem conditions_confine_reads q d rq tenantID recommendationID row t c start r net :
  (bucket_row "cm." t c start row → confined decimal_leb "GROUP" (usageSQL q) row (in_scope q t c start)) ∧
  (bucket_row "nc." t c start row →
     confined decimal_leb "GROUP" (costsSQL q) row (in_scope q t c start) ∧
     confined decimal_leb "GROUP" (allocationSQL q) row (in_scope q t c start)) ∧
  (bucket_row "" t c start row → confined decimal_leb "GROUP" (dataQualitySQL d) row (measured d t c)) ∧
  (recommendation_row r net row →
     (∀ sql, recommendationsSQL NewFromString rq = Ok sql → confined decimal_leb "ORDER" sql row (wanted rq r net)) ∧
     confined decimal_leb "ORDER" (recommendationSQL tenantID recommendationID) row (identified tenantID recommendationID r)).
Proof.
  split_and!.
  - intros Hrow. by eapply (analytics_confined q "cm"); [left|..|apply usage_asks|].
  - intros Hrow. split.
    + by eapply (analytics_confined q "nc"); [right|..|apply costs_asks|].
    + by eapply (analytics_confined q "nc"); [right|..|apply allocation_asks|].
  - apply quality_confined.
  - intros Hrow. split; [intros sql Hsql; by eapply recommendations_confined|by apply (recommendation_confined _ _ _ r net)].
Qed.
End conditions.

Definition sample_query : AnalyticsQuery := {|
  TenantID := "t"; ClusterID := "c"; Start := 0; End_ := Hour; GroupBy := "team"; Limit := 2; Offset := 0; IncludeQuality := false |}.
Definition sample_filter : RecommendationQuery := {|
  RQ_TenantID := "t"; RQ_ClusterID := ""; RQ_Status := "open"; RQ_RecommendationType := ""; RQ_TargetKind := "";
  RQ_TargetUID := ""; RQ_MinimumMonthlySavings := "5"; RQ_Limit := 10 |}.
Definition sample_recommendation : RecommendationResult := {|
  Rec_TenantID := "t"; RecommendationID := "r"; Rec_ClusterID := "c"; Rec_NamespaceUID := ""; TargetKind := "container";
  TargetUID := "u"; RecommendationType := "rightsizing"; SafetyClass := "review_required"; Rec_Status := "open";
  AnalysisWindowStart := 0; AnalysisWindowEnd := 1; Rec_GeneratedAt := 1; ExpiresAt := 2; CurrentConfiguration := "";
  ProposedConfiguration := ""; Evidence := ""; Rec_Currency := "USD"; MonthlyGrossSavings := "7"; MonthlyNetSavings := "7";
  Confidence := "1"; RiskScore := "0"; PolicyVersion := ""; ModelVersion := ""; Rec_ComputationVersion := ""; Version := 1 |}.
Definition sample_decimal (s : string) : res string Z := match Strconv.ParseInt s with Some z => Ok z | None => Err "not a decimal"%string end.
(** The row of the sample recommendation, and of a bucket that starts at 5 and was
    computed an hour later *)
Definition sample_row (column : string) : value Z :=
  default (VUint 0) (list_to_map (M := gmap string (value Z)) [
    ("tenant_id", VString "t"); ("recommendation_id", VString "r"); ("cluster_id", VString "c"); ("status", VString "open");
    ("recommendation_type", VString "rightsizing"); ("target_kind", VString "container"); ("target_uid", VString "u");
    ("monthly_net_savings", VDecimal 7); ("bucket_start", VTime 5);
    ("nc.tenant_id", VString "t"); ("nc.cluster_id", VString "c"); ("nc.bucket_start", VTime 5); ("nc.computed_at", VTime (5 + Hour))]%string
    !! column).
Lemma conditions_confine_reads_witness :
  in_scope sample_query "t" "c" 5 = true ∧
  confined Z.leb "GROUP" (costsSQL sample_query) sample_row true ∧
  confined Z.leb "ORDER" (recommendationSQL "other" "r") sample_row false ∧
  ∃ sql, recommendationsSQL sample_decimal sample_filter = Ok sql ∧ confined Z.leb "ORDER" sql sample_row true.
Proof.
  destruct (conditions_confine_reads Z.leb sample_decimal sample_query {| DQ_TenantID := "t"; DQ_ClusterID := ""; DQ_FreshnessWindow := Hour |} sample_filter
    "other" "r" sample_row "t" "c" 5 sample_recommendation 7) as (_ & Hc & _ & Hr).
  destruct Hc as [Hc _]; [by split|]. destruct Hr as [Hl Hd]; [by split|].
  assert (in_scope sample_query "t" "c" 5 = true) as Hin by (by vm_compute). rewrite Hin in Hc. split; [exact Hin|]. split; [exact Hc|].
  assert (identified "other" "r" sample_recommendation = false) as Hid by (by vm_compute). rewrite Hid in Hd. split; [exact Hd|].
  destruct (recommendationsSQL sample_decimal sample_filter) as [sql|] eqn:Hsql; [|by vm_compute in Hsql].
  assert (wanted Z.leb sample_decimal sample_filter sample_recommendation 7 = true) as Hw by (by vm_compute). rewrite Hw in Hl.
  exists sql. split; [reflexivity|]. by apply Hl.
Defined.

(** ** Rows are scanned in the order of their columns *)

Section columns.
Context {decimal : Type} (decimal_String : decimal → string).
(** The values of a row by column name, of the type the column has *)
Context (str : string → string) (time : string → Time) (num : string → Z) (amount : string → decimal).

Definition time_columns : list string :=
  ["latest_bucket_start"; "latest_ingested_at"; "computed_at"; "analysis_window_start"; "analysis_window_end"; "generated_at"; "expires_at"]%string.
Definition number_columns : list string :=
  ["record_count"; "network_bytes"; "filesystem_bytes"; "oom_events"; "cpu_throttled_periods"; "sample_count";
   "cpu_request_core_milliseconds"; "version"]%string.
Definition amount_columns : list string :=
  ["cpu_usage_core_hours"; "cpu_request_core_hours"; "cpu_limit_core_hours"; "memory_working_set_gib_hours";
   "memory_request_gib_hours"; "memory_limit_gib_hours"; "gpu_usage_milli_hours"; "gpu_request_milli_hours"; "direct_cost";
   "idle_cost"; "network_cost"; "control_plane_cost"; "system_namespace_cost"; "allocated_cost"; "allocation_weight";
   "monthly_gross_savings"; "monthly_net_savings"; "confidence"; "risk_score"]%string.
Definition cell (column : string) : value decimal :=
  if bool_decide (column ∈ time_columns) then VTime (time column) else if bool_decide (column ∈ number_columns) then VUint (num column)
  else if bool_decide (column ∈ amount_columns) then VDecimal (amount column) else VString (str column).
Definition row_of (statement : string * list (value decimal)) : list (value decimal) := cell <$> columns statement.1.

Definition group_columns : list string := ["tenant_id"; "cluster_id"; "group_key"; "group_value"; "namespace_uid"; "namespace_name"]%string.
Definition metadata_columns : list string := ["currency"; "computation_version"; "computed_at"]%string.
Definition cost_columns : list string :=
  ["direct_cost"; "idle_cost"; "network_cost"; "control_plane_cost"; "system_namespace_cost"; "allocated_cost"]%string.
Ltac compute_columns q :=
  rewrite analyticsGroup_class; pose proof (group_cases (GroupBy q)) as Hg;
  match goal with |- context [analyticsWhere q ?a ?t] => destruct (analyticsWhere q a t) as [condition args] end;
  unfold format_args; generalize (dec (normalizedAnalyticsFetchLimit (Limit q))) (dec (normalizedAnalyticsOffset (Offset q)));
  intros limit offset; revert Hg; generalize (group_class (GroupBy q)); intros g Hg;
  repeat (apply elem_of_cons in Hg as [-> | Hg]; [reflexivity|]); by apply elem_of_nil in Hg.
Lemma columns_usage q : columns (usageSQL (decimal := decimal) q).1 = group_columns ++
  ["cpu_usage_core_hours"; "cpu_request_core_hours"; "cpu_limit_core_hours"; "memory_working_set_gib_hours";
   "memory_request_gib_hours"; "memory_limit_gib_hours"; "network_bytes"; "filesystem_bytes"; "gpu_usage_milli_hours";
   "gpu_request_milli_hours"; "oom_events"; "cpu_throttled_periods"; "sample_count"]%string.
Proof. unfold usageSQL, analyticsMetricWhere. compute_columns q. Qed.
Lemma columns_costs q : columns (costsSQL (decimal := decimal) q).1 = group_columns ++ metadata_columns ++ cost_columns.
Proof. unfold costsSQL, analyticsCostWhere. compute_columns q. Qed.
Lemma columns_allocation q : columns (allocationSQL (decimal := decimal) q).1 =
  group_columns ++ metadata_columns ++ ["cpu_request_core_milliseconds"; "network_bytes"; "allocation_weight"]%string ++ cost_columns.
Proof. unfold allocationSQL, analyticsCostWhere. compute_columns q. Qed.
Lemma columns_quality d : columns (dataQualitySQL (decimal := decimal) d).1 =
  ["source"; "grain"; "cluster_id"; "record_count"; "latest_bucket_start"; "latest_ingested_at"]%string.
Proof. unfold dataQualitySQL. by destruct (tenantWhere d). Qed.
Definition recommendation_columns : list string :=
  ["tenant_id"; "recommendation_id"; "cluster_id"; "namespace_uid"; "target_kind"; "target_uid"; "recommendation_type"; "safety_class";
   "status"; "analysis_window_start"; "analysis_window_end"; "generated_at"; "expires_at"; "current_configuration";
   "proposed_configuration"; "evidence"; "currency"; "monthly_gross_savings"; "monthly_net_savings"; "confidence"; "risk_score";
   "policy_version"; "model_version"; "computation_version"; "version"]%string.
Lemma columns_recommendations suffix : columns (recommendationsSelectSQL suffix) = recommendation_columns.
Proof. reflexivity. Qed.

(** Every field of a result is read from the column of its name: whatever the
    query, the destinations of each scan are in the order of the columns its
    statement selects. *)
Theorem fields_read_by_name q d tenantID recommendationID :
  scanUsage decimal_String (row_of (usageSQL q)) = Some {|
    UsageRow_TenantID := str "tenant_id"; UsageRow_ClusterID := str "cluster_id"; UsageRow_GroupKey := str "group_key";
    UsageRow_GroupValue := str "group_value"; UsageRow_NamespaceUID := str "namespace_uid"; UsageRow_NamespaceName := str "namespace_name";
    CPUUsageCoreHours := decimal_String (amount "cpu_usage_core_hours"); CPURequestCoreHours := decimal_String (amount "cpu_request_core_hours");
    CPULimitCoreHours := decimal_String (amount "cpu_limit_core_hours");
    MemoryWorkingSetGiBHours := decimal_String (amount "memory_working_set_gib_hours");
    MemoryRequestGiBHours := decimal_String (amount "memory_request_gib_hours");
    MemoryLimitGiBHours := decimal_String (amount "memory_limit_gib_hours"); UsageRow_NetworkBytes := num "network_bytes";
    FilesystemBytes := num "filesystem_bytes"; GPUUsageMilliHours := decimal_String (amount "gpu_usage_milli_hours");
    GPURequestMilliHours := decimal_String (amount "gpu_request_milli_hours"); OOMEvents := num "oom_events";
    CPUThrottledPeriods := num "cpu_throttled_periods"; SampleCount := num "sample_count" |} ∧
  (let metadata := {| Currency := str "currency"; ComputationVersion := str "computation_version"; ComputedAt := time "computed_at" |} in
   scanCost decimal_String (row_of (costsSQL q)) = Some (metadata, {|
     CostRow_TenantID := str "tenant_id"; CostRow_ClusterID := str "cluster_id"; CostRow_GroupKey := str "group_key";
     CostRow_GroupValue := str "group_value"; CostRow_NamespaceUID := str "namespace_uid"; CostRow_NamespaceName := str "namespace_name";
     CostRow_DirectCost := decimal_String (amount "direct_cost"); CostRow_IdleCost := decimal_String (amount "idle_cost");
     CostRow_NetworkCost := decimal_String (amount "network_cost"); CostRow_ControlPlaneCost := decimal_String (amount "control_plane_cost");
     CostRow_SystemNamespaceCost := decimal_String (amount "system_namespace_cost");
     CostRow_AllocatedCost := decimal_String (amount "allocated_cost") |}) ∧
   scanAllocation decimal_String (row_of (allocationSQL q)) = Some (metadata, {|
     AllocationRow_TenantID := str "tenant_id"; AllocationRow_ClusterID := str "cluster_id"; AllocationRow_GroupKey := str "group_key";
     AllocationRow_GroupValue := str "group_value"; AllocationRow_NamespaceUID := str "namespace_uid";
     AllocationRow_NamespaceName := str "namespace_name"; CPURequestCoreMilliseconds := num "cpu_request_core_milliseconds";
     AllocationRow_NetworkBytes := num "network_bytes"; AllocationWeight := decimal_String (amount "allocation_weight");
     AllocationRow_DirectCost := decimal_String (amount "direct_cost"); AllocationRow_IdleCost := decimal_String (amount "idle_cost");
     AllocationRow_NetworkCost := decimal_String (amount "network_cost");
     AllocationRow_ControlPlaneCost := decimal_String (amount "control_plane_cost");
     AllocationRow_SystemNamespaceCost := decimal_String (amount "system_namespace_cost");
     AllocationRow_AllocatedCost := decimal_String (amount "allocated_cost") |})) ∧
  scanDataQuality (row_of (dataQualitySQL d)) = Some {|
    Source := str "source"; Grain := str "grain"; Signal_ClusterID := str "cluster_id"; RecordCount := num "record_count";
    LatestBucketStart := if 0 <? num "record_count" then Some (time "latest_bucket_start") else None;
    LatestIngestedAt := if 0 <? num "record_count" then Some (time "latest_ingested_at") else None; FreshnessSeconds := None;
    Signal_Status := ""; Warning := ""; ExpectedFreshnessLimit := "" |} ∧
  scanRecommendation decimal_String (row_of (recommendationSQL tenantID recommendationID)) = Some {|
    Rec_TenantID := str "tenant_id"; RecommendationID := str "recommendation_id"; Rec_ClusterID := str "cluster_id";
    Rec_NamespaceUID := str "namespace_uid"; TargetKind := str "target_kind"; TargetUID := str "target_uid";
    RecommendationType := str "recommendation_type"; SafetyClass := str "safety_class"; Rec_Status := str "status";
    AnalysisWindowStart := time "analysis_window_start"; AnalysisWindowEnd := time "analysis_window_end";
    Rec_GeneratedAt := time "generated_at"; ExpiresAt := time "expires_at"; CurrentConfiguration := str "current_configuration";
    ProposedConfiguration := str "proposed_configuration"; Evidence := str "evidence"; Rec_Currency := str "currency";
    MonthlyGrossSavings := decimal_String (amount "monthly_gross_savings"); MonthlyNetSavings := decimal_String (amount "monthly_net_savings");
    Confidence := decimal_String (amount "confidence"); RiskScore := decimal_String (amount "risk_score");
    PolicyVersion := str "policy_version"; ModelVersion := str "model_version"; Rec_ComputationVersion := str "computation_version";
    Version := num "version" |}.
Proof.
  unfold row_of. rewrite columns_usage, columns_costs, columns_allocation, columns_quality.
  unfold recommendationSQL. cbn [fst]. rewrite columns_recommendations. repeat split; reflexivity.
Qed.
End columns.

(** ** The metadata of a page *)

(** The metadata reported with a page of costs that has a successor is that of the
    first row of the next page: it is read from the last row fetched, and one row
    more than the page is fetched. *)
Lemma page_metadata_from_next_page {row} (marshalCursor : analyticsCursor → option string) (q : AnalyticsQuery) now kind quality
    (page_rows : list (CostMetadata * row)) (next : CostMetadata * row) :
  Z.of_nat (length page_rows) = normalizedAnalyticsLimit (Limit q) →
  let rows := page_rows ++ [next] in
  let result := page marshalCursor q now (metadata rows) rows.*2 kind quality in
  Rows result = page_rows.*2 ∧ Page_Metadata _ _ result = next.1.
Proof.
  intros Hl rows result. unfold result, page, paginate, rows. rewrite fmap_app, length_app, length_fmap. simpl.
  destruct (Z.leb_spec (Z.of_nat (length page_rows + 1)) (normalizedAnalyticsLimit (Limit q))); [lia|]. simpl.
  rewrite take_app_le by (rewrite length_fmap; lia). rewrite take_ge by (rewrite length_fmap; lia). split; [done|].
  unfold metadata. rewrite fmap_app. simpl. by rewrite last_snoc.
Qed.
End QuerySql.
