(* ===== verification/Recommendations.v ===== *)
(** * Rightsizing recommendations

    [services/recommendations]: the engine that turns hourly samples of container
    usage into resource requests and limits ([types.go], [engine.go]), the facts it
    stores ([facts.go]) and the statements of its repository ([repository.go]).

    The engine computes in [float64]; as in the allocation engine its definitions
    are stated over number types, here with rounding. Maps are visited in the order
    of a list of keys, and [sort.Slice], which is not stable, sorts a permutation of
    its argument stably. *)
From stdpp Require Import base option list gmap strings sorting.
From Stdlib Require Import ZArith Lia QArith Qcanon Qround SpecFloat.
From S2P Require Import Prelude Proto Stores Effects Sql Allocation Http Workflow Query.

Module Recommendations.
Import Strings Sql Allocation.
Open Scope Z_scope.

(** ** Rounding *)

(** [math.Ceil], [math.Round] (halves away from zero) and the conversion to an
    integer, which Go leaves open for values out of the range of [uint64] *)
Class Rounding (F : Type) := { ceil : F → F; round : F → F; trunc : F → Z }.
Definition ceil_Z (s : bool) (m : positive) (e : Z) : Z :=
  if 0 <=? e then (if s then - (Zpos m * 2 ^ e) else Zpos m * 2 ^ e)
  else if s then - (Zpos m / 2 ^ (- e)) else (Zpos m + 2 ^ (- e) - 1) / 2 ^ (- e).
Definition round_Z (s : bool) (m : positive) (e : Z) : Z :=
  let z := if 0 <=? e then Zpos m * 2 ^ e else (Zpos m + 2 ^ (- e - 1)) / 2 ^ (- e) in if s then - z else z.
#[export] Instance binary64_rounding : Rounding spec_float := {|
  ceil f := match f with S754_finite s m e => of_Z (ceil_Z s m e) | _ => f end;
  round f := match f with S754_finite s m e => of_Z (round_Z s m e) | _ => f end;
  trunc := Query.Query.int64_of
|}.
Definition Qc_floor (q : Qc) : Z := Qfloor q.
Definition Qc_ceiling (q : Qc) : Z := Qceiling q.
Definition half : Qc := Q2Qc (1 # 2).
#[export] Instance exact_rounding : Rounding Qc := {|
  ceil q := of_Z (Qc_ceiling q);
  round q := of_Z (if leb (of_Z 0) q then Qc_floor (q + half)%Qc else - Qc_floor (- q + half)%Qc);
  trunc q := if leb (of_Z 0) q then Qc_floor q else Qc_ceiling q
|}.

(** ** Data *)

Definition computationVersionV1 : string := "optimization-v1-cpu-p95-memory-p99".
Definition defaultAnalysisWindow : Duration := 30 * 24 * Hour.
Definition defaultMinCPUMillicores : Z := 10.
Definition defaultMinMemoryBytes : Z := 64 * 1024 * 1024.

Record Query := { TenantID : string; ClusterID : string; End_ : Time }.
Record Sample := {
  S_TenantID : string;
  S_ClusterID : string;
  ScopeType : string;
  ScopeID : string;
  BucketStart : Time;
  BucketSeconds : Z;
  CPUUsageCoreMS : Z;
  CPURequestCoreMS : Z;
  CPULimitCoreMS : Z;
  MemoryWorkingSetBytes : Z;
  MemoryRequestBytes : Z;
  MemoryLimitBytes : Z
}.

Section engine.
Context {F : Type} `{Arith F} `{Rounding F}.

Definition zero : F := of_Z 0.
Definition defaultCPURequestHeadroom : F := div (of_Z 115) (of_Z 100).
Definition defaultMemoryRequestHeadroom : F := div (of_Z 120) (of_Z 100).
Definition defaultCPULimitMultiplier : F := of_Z 2.
Definition defaultMemoryLimitMultiplier : F := div (of_Z 15) (of_Z 10).
Definition defaultMonthlyHours : F := of_Z 730.
Definition defaultCPUCoreHourUSD : F := div (of_Z 3) (of_Z 100).
Definition defaultMemoryGiBHourUSD : F := div (of_Z 4) (of_Z 1000).

Record EngineConfig := {
  AnalysisWindow : Duration;
  CPURequestHeadroom : F;
  MemoryRequestHeadroom : F;
  CPULimitMultiplier : F;
  MemoryLimitMultiplier : F;
  MinCPUMillicores : Z;
  MinMemoryBytes : Z;
  CPUCoreHourUSD : F;
  MemoryGiBHourUSD : F;
  MinimumSampleCount : Z
}.
Record Recommendation := {
  R_TenantID : string;
  R_ClusterID : string;
  R_ScopeType : string;
  R_ScopeID : string;
  AnalysisWindowStart : Time;
  AnalysisWindowEnd : Time;
  CPUUsageP95Millicores : Z;
  MemoryWorkingSetP99Bytes : Z;
  CurrentCPURequestMillicores : Z;
  RecommendedCPURequestMillicores : Z;
  CurrentMemoryRequestBytes : Z;
  RecommendedMemoryRequestBytes : Z;
  CurrentCPULimitMillicores : Z;
  RecommendedCPULimitMillicores : Z;
  CurrentMemoryLimitBytes : Z;
  RecommendedMemoryLimitBytes : Z;
  EstimatedMonthlySavingsUSD : F;
  R_SampleCount : Z;
  R_ComputationVersion : string
}.

(** ** The engine *)

Definition normalizeConfig (c : EngineConfig) : EngineConfig :=
  let or_default (v fallback : F) := if leb v zero then fallback else v in
  {| AnalysisWindow := if AnalysisWindow c <=? 0 then defaultAnalysisWindow else AnalysisWindow c;
     CPURequestHeadroom := or_default (CPURequestHeadroom c) defaultCPURequestHeadroom;
     MemoryRequestHeadroom := or_default (MemoryRequestHeadroom c) defaultMemoryRequestHeadroom;
     CPULimitMultiplier := or_default (CPULimitMultiplier c) defaultCPULimitMultiplier;
     MemoryLimitMultiplier := or_default (MemoryLimitMultiplier c) defaultMemoryLimitMultiplier;
     MinCPUMillicores := if MinCPUMillicores c =? 0 then defaultMinCPUMillicores else MinCPUMillicores c;
     MinMemoryBytes := if MinMemoryBytes c =? 0 then defaultMinMemoryBytes else MinMemoryBytes c;
     CPUCoreHourUSD := or_default (CPUCoreHourUSD c) defaultCPUCoreHourUSD;
     MemoryGiBHourUSD := or_default (MemoryGiBHourUSD c) defaultMemoryGiBHourUSD;
     MinimumSampleCount := if MinimumSampleCount c <=? 0 then 24 else MinimumSampleCount c |}.
Definition normalizeQuery (q : Query) (now : Time) (window : Duration) : res string Query :=
  let tenantID := TrimSpace (TenantID q) in
  if (tenantID =? "")%string then Err "invalid optimization query: tenant_id is required"%string
  else if window <=? 0 then Err "invalid optimization query: analysis window must be positive"%string
  else Ok {| TenantID := tenantID; ClusterID := TrimSpace (ClusterID q);
             End_ := if IsZero (End_ q) then Truncate now Hour else End_ q |}.

Definition ceilDiv (value divisor : Z) : Z := if value =? 0 then 0 else (value - 1) / divisor + 1.
Definition averageMillicores (coreMilliseconds seconds : Z) : Z := if seconds =? 0 then 0 else ceilDiv coreMilliseconds seconds.
Definition averageBytes (byteSeconds seconds : Z) : Z := if seconds =? 0 then 0 else ceilDiv byteSeconds seconds.
Definition ceilUint64 (value : F) : Z := if leb value zero then 0 else u64 (trunc (ceil value)).
Definition positiveDelta (current recommended : Z) : Z := if current <=? recommended then 0 else current - recommended.
Definition roundMoney (value : F) : F := div (round (mul value (of_Z 1000000))) (of_Z 1000000).
Definition targetKey (s : Sample) : string := Join [S_TenantID s; S_ClusterID s; ScopeType s; ScopeID s] nul.

#[local] Instance ascending_dec (a b : Z) : Decision (a ≤ b) := _.
Definition percentile (values : list Z) (quantile : F) : Z :=
  match values with
  | [] => 0
  | _ =>
      let sorted := merge_sort Z.le values in
      let n := Z.of_nat (length sorted) in
      let index := trunc (ceil (mul quantile (of_Z n))) - 1 in
      let index := if index <? 0 then 0 else index in
      let index := if n <=? index then n - 1 else index in
      default 0 (sorted !! Z.to_nat index)
  end.

(** The loop of [currentConfiguration], on the samples from the last to the first *)
Fixpoint configuration_from (samples : list Sample) (acc : Z * Z * Z * Z) : Z * Z * Z * Z :=
  match samples with
  | [] => acc
  | s :: samples' =>
      if BucketSeconds s =? 0 then configuration_from samples' acc
      else
        let '(cpuRequest, memoryRequest, cpuLimit, memoryLimit) := acc in
        let cpuRequest := if cpuRequest =? 0 then averageMillicores (CPURequestCoreMS s) (BucketSeconds s) else cpuRequest in
        let memoryRequest := if memoryRequest =? 0 then averageBytes (MemoryRequestBytes s) (BucketSeconds s) else memoryRequest in
        let cpuLimit := if cpuLimit =? 0 then averageMillicores (CPULimitCoreMS s) (BucketSeconds s) else cpuLimit in
        let memoryLimit := if memoryLimit =? 0 then averageBytes (MemoryLimitBytes s) (BucketSeconds s) else memoryLimit in
        if (0 <? cpuRequest) && (0 <? memoryRequest) && (0 <? cpuLimit) && (0 <? memoryLimit)
        then (cpuRequest, memoryRequest, cpuLimit, memoryLimit)
        else configuration_from samples' (cpuRequest, memoryRequest, cpuLimit, memoryLimit)
  end.
Definition currentConfiguration (samples : list Sample) : Z * Z * Z * Z := configuration_from (reverse samples) (0, 0, 0, 0).

Section with_config.
(** The engine's configuration, which [NewEngine] has normalised *)
Context (config : EngineConfig).

Definition estimatedMonthlySavings (currentCPU recommendedCPU currentMemory recommendedMemory : Z) : F :=
  let cpuDeltaMillicores := positiveDelta currentCPU recommendedCPU in
  let memoryDeltaBytes := positiveDelta currentMemory recommendedMemory in
  let cpuSavings := mul (mul (div (of_Z cpuDeltaMillicores) (of_Z 1000)) (CPUCoreHourUSD config)) defaultMonthlyHours in
  let memorySavings := mul (mul (div (of_Z memoryDeltaBytes) (of_Z 1073741824)) (MemoryGiBHourUSD config)) defaultMonthlyHours in
  roundMoney (add cpuSavings memorySavings).

Definition cpu_usage (samples : list Sample) : list Z := (λ s, averageMillicores (CPUUsageCoreMS s) (BucketSeconds s)) <$> samples.
Definition memory_usage (samples : list Sample) : list Z := (λ s, averageBytes (MemoryWorkingSetBytes s) (BucketSeconds s)) <$> samples.
Definition recommend (samples : list Sample) (q : Query) : option Recommendation :=
  if Z.of_nat (length samples) <? MinimumSampleCount config then None
  else
    let cpuP95 := percentile (cpu_usage samples) (div (of_Z 95) (of_Z 100)) in
    let memoryP99 := percentile (memory_usage samples) (div (of_Z 99) (of_Z 100)) in
    let '(currentCPURequest, currentMemoryRequest, currentCPULimit, currentMemoryLimit) := currentConfiguration samples in
    if (currentCPURequest =? 0) || (currentMemoryRequest =? 0) || ((cpuP95 =? 0) && (memoryP99 =? 0)) then None
    else
      let cpuRequest := maxUint64 (MinCPUMillicores config) (ceilUint64 (mul (of_Z cpuP95) (CPURequestHeadroom config))) in
      let memoryRequest := maxUint64 (MinMemoryBytes config) (ceilUint64 (mul (of_Z memoryP99) (MemoryRequestHeadroom config))) in
      let cpuLimit := maxUint64 cpuRequest (ceilUint64 (mul (of_Z cpuRequest) (CPULimitMultiplier config))) in
      let memoryLimit := maxUint64 memoryRequest (ceilUint64 (mul (of_Z memoryRequest) (MemoryLimitMultiplier config))) in
      let savings := estimatedMonthlySavings currentCPURequest cpuRequest currentMemoryRequest memoryRequest in
      if leb savings zero then None
      else
        match samples with
        | [] => None
        | first :: _ =>
            Some {|
              R_TenantID := S_TenantID first; R_ClusterID := S_ClusterID first; R_ScopeType := ScopeType first;
              R_ScopeID := ScopeID first; AnalysisWindowStart := End_ q - AnalysisWindow config; AnalysisWindowEnd := End_ q;
              CPUUsageP95Millicores := cpuP95; MemoryWorkingSetP99Bytes := memoryP99;
              CurrentCPURequestMillicores := currentCPURequest; RecommendedCPURequestMillicores := cpuRequest;
              CurrentMemoryRequestBytes := currentMemoryRequest; RecommendedMemoryRequestBytes := memoryRequest;
              CurrentCPULimitMillicores := currentCPULimit; RecommendedCPULimitMillicores := cpuLimit;
              CurrentMemoryLimitBytes := currentMemoryLimit; RecommendedMemoryLimitBytes := memoryLimit;
              EstimatedMonthlySavingsUSD := savings; R_SampleCount := Z.of_nat (length samples);
              R_ComputationVersion := computationVersionV1 |}
        end.

Definition target_step (byTarget : gmap string (list Sample)) (s : Sample) : gmap string (list Sample) :=
  if (BucketSeconds s =? 0) || (ScopeID s =? "")%string then byTarget
  else <[targetKey s := default [] (byTarget !! targetKey s) ++ [s]]> byTarget.
Definition by_target (samples : list Sample) : gmap string (list Sample) := foldl target_step ∅ samples.
Definition earlier (a b : Sample) : Prop := BucketStart a ≤ BucketStart b.
#[export] Instance earlier_dec a b : Decision (earlier a b) := decide (_ ≤ _).
(** The order of the result: savings, then cluster, then scope *)
Definition ranks_before (a b : Recommendation) : bool :=
  let sa := EstimatedMonthlySavingsUSD a in
  let sb := EstimatedMonthlySavingsUSD b in
  if negb (leb sa sb && leb sb sa) then ltb sb sa
  else if negb (R_ClusterID a =? R_ClusterID b)%string then Strings.ltb (R_ClusterID a) (R_ClusterID b)
  else Strings.ltb (R_ScopeID a) (R_ScopeID b).
Definition not_after (a b : Recommendation) : Prop := ranks_before b a = false.
#[export] Instance not_after_dec a b : Decision (not_after a b) := decide (_ = _).
(** [order] is the order the map is visited in, [ties] a permutation of the samples
    of a target. *)
Definition Generate (order : list string) (ties : list Sample → list Sample) (samples : list Sample) (q : Query) : list Recommendation :=
  merge_sort not_after (omap (λ key, recommend (merge_sort earlier (ties (by_target samples !!! key))) q) order).
End with_config.
End engine.
Arguments EngineConfig : clear implicits.
Arguments Recommendation : clear implicits.

(** ** Targets *)

Definition usable (s : Sample) : bool := negb ((BucketSeconds s =? 0) || (ScopeID s =? "")%string).
(** The samples of a target *)
Definition target (samples : list Sample) (key : string) : list Sample :=
  filter (λ s, usable s = true ∧ targetKey s = key) samples.
Lemma by_target_spec samples key : default [] (by_target samples !! key) = target samples key.
Proof.
  unfold by_target, target. induction samples as [|s samples IH] using rev_ind; [done|].
  rewrite foldl_app, filter_app. simpl. unfold target_step at 1. set (m := foldl target_step ∅ samples) in *.
  destruct (_ || _) eqn:Hu.
  - rewrite filter_cons_False, app_nil_r; [done|]. unfold usable. rewrite Hu. by intros [? _].
  - destruct (decide (targetKey s = key)) as [<-|Hne].
    + rewrite lookup_insert_eq. simpl. rewrite IH, filter_cons_True; [done|]. unfold usable. by rewrite Hu.
    + rewrite lookup_insert_ne, filter_cons_False, app_nil_r by (done || by intros [_ ?]). done.
Qed.

Section sound.
Context {F : Type} `{Arith F} `{Rounding F} (config : EngineConfig F).
Definition rec_key (r : Recommendation F) : string := Join [R_TenantID r; R_ClusterID r; R_ScopeType r; R_ScopeID r] nul.
(** What a recommendation says about the samples it was made from *)
Record sound (samples : list Sample) (q : Query) (r : Recommendation F) : Prop := {
  sound_count : R_SampleCount r = Z.of_nat (length samples) ∧ MinimumSampleCount config ≤ R_SampleCount r;
  sound_cpu : MinCPUMillicores config ≤ RecommendedCPURequestMillicores r ≤ RecommendedCPULimitMillicores r;
  sound_memory : MinMemoryBytes config ≤ RecommendedMemoryRequestBytes r ≤ RecommendedMemoryLimitBytes r;
  sound_current : CurrentCPURequestMillicores r ≠ 0 ∧ CurrentMemoryRequestBytes r ≠ 0;
  sound_savings : leb (EstimatedMonthlySavingsUSD r) zero = false;
  sound_window : AnalysisWindowStart r = End_ q - AnalysisWindow config ∧ AnalysisWindowEnd r = End_ q
}.
Lemma maxUint64_le a b : a ≤ maxUint64 a b ∧ b ≤ maxUint64 a b.
Proof. unfold maxUint64. destruct (Z.ltb_spec b a); lia. Qed.
Lemma recommend_sound samples q r :
  recommend config samples q = Some r → sound samples q r ∧ ∃ first rest, samples = first :: rest ∧ rec_key r = targetKey first.
Proof.
  unfold recommend. destruct (Z.ltb_spec (Z.of_nat (length samples)) (MinimumSampleCount config)) as [|Hn]; [done|].
  destruct (currentConfiguration samples) as [[[c m] cl] ml]. destruct (Z.eqb_spec c 0); [done|]. destruct (Z.eqb_spec m 0); [done|].
  cbn [orb]. destruct (_ && _); [done|]. destruct (leb _ zero) eqn:Hs; [done|].
  destruct samples as [|first rest]; [done|]. intros [= <-]. split; [|by exists first, rest].
  split; cbn [R_SampleCount RecommendedCPURequestMillicores RecommendedCPULimitMillicores RecommendedMemoryRequestBytes
    RecommendedMemoryLimitBytes CurrentCPURequestMillicores CurrentMemoryRequestBytes EstimatedMonthlySavingsUSD AnalysisWindowStart AnalysisWindowEnd];
    try done; split; apply maxUint64_le.
Qed.
Lemma recommend_fields samples q r :
  recommend config samples q = Some r →
  samples ≠ [] ∧ R_SampleCount r = Z.of_nat (length samples) ∧
  CPUUsageP95Millicores r = percentile (cpu_usage samples) (div (of_Z 95) (of_Z 100)) ∧
  MemoryWorkingSetP99Bytes r = percentile (memory_usage samples) (div (of_Z 99) (of_Z 100)) ∧
  RecommendedCPURequestMillicores r =
    maxUint64 (MinCPUMillicores config) (ceilUint64 (mul (of_Z (CPUUsageP95Millicores r)) (CPURequestHeadroom config))) ∧
  RecommendedMemoryRequestBytes r =
    maxUint64 (MinMemoryBytes config) (ceilUint64 (mul (of_Z (MemoryWorkingSetP99Bytes r)) (MemoryRequestHeadroom config))) ∧
  leb (estimatedMonthlySavings config (CurrentCPURequestMillicores r) (RecommendedCPURequestMillicores r)
    (CurrentMemoryRequestBytes r) (RecommendedMemoryRequestBytes r)) zero = false.
Proof.
  unfold recommend. destruct (_ <? _); [done|]. destruct (currentConfiguration samples) as [[[c m] cl] ml].
  destruct (_ || _); [done|]. destruct (leb _ zero) eqn:Hs; [done|].
  destruct samples as [|first rest]; [done|]. intros [= <-]. by split_and!.
Qed.
Lemma elem_of_merge_sort {A} (R : relation A) `{∀ x y, Decision (R x y)} (l : list A) x : x ∈ merge_sort R l ↔ x ∈ l.
Proof. by rewrite (merge_sort_Permutation R l). Qed.

(** C24: every recommendation the engine generates comes from one target: it reports
    the number of usable samples of its target, at least the configured minimum; it
    proposes requests of at least the configured minimums and limits of at least the
    requests, for a target that has requests now, and with positive savings; and no
    target gets two, whatever order the targets are visited in and however equal
    timestamps are sorted. *)
Theorem recommendations_sound order ties samples q :
  (∀ l, ties l ≡ₚ l) → order ≡ₚ (map_to_list (by_target samples)).*1 →
  NoDup (rec_key <$> Generate config order ties samples q) ∧
  ∀ r, r ∈ Generate config order ties samples q →
    ∃ sorted, sorted ≡ₚ target samples (rec_key r) ∧ sound sorted q r.
Proof.
  intros Hties Horder.
  assert (∀ key r, recommend config (merge_sort earlier (ties (by_target samples !!! key))) q = Some r →
    rec_key r = key ∧ ∃ sorted, sorted ≡ₚ target samples key ∧ sound sorted q r) as Hr.
  { intros key r Hrec. apply recommend_sound in Hrec as (Hs & first & rest & Hl & Hk).
    assert (merge_sort earlier (ties (by_target samples !!! key)) ≡ₚ target samples key) as Hp.
    { rewrite merge_sort_Permutation, Hties, lookup_total_alt. by rewrite <- by_target_spec. }
    assert (first ∈ target samples key) as Hin by (rewrite <- Hp, Hl; left).
    apply list_elem_of_filter in Hin as [[_ Hkey] _]. split; [congruence|]. eauto. }
  unfold Generate. split.
  - assert (NoDup order) as Hnd by (rewrite Horder; apply NoDup_fst_map_to_list). clear Horder.
    eapply NoDup_Permutation_proper; [by rewrite (merge_sort_Permutation not_after)|].
    induction Hnd as [|key order Hk Hnd IH]; csimpl; [constructor|].
    destruct (recommend _ _ q) as [r|] eqn:Hrec; [|done]. csimpl. constructor; [|done].
    intros Hin. apply list_elem_of_fmap in Hin as (r' & Heq & Hin). apply list_elem_of_omap in Hin as (key' & Hk' & Hrec').
    apply Hr in Hrec as [<- _]. apply Hr in Hrec' as [<- _]. congruence.
  - intros r Hin. rewrite elem_of_merge_sort in Hin. apply list_elem_of_omap in Hin as (key & _ & Hrec).
    by apply Hr in Hrec as [-> ?].
Qed.
End sound.

(** ** Usage is covered *)

(** Number of values up to a bound *)
Definition covered (bound : Z) (values : list Z) : Z := Z.of_nat (length (filter (λ v, v ≤ bound) values)).
Lemma rank_covered l i v :
  Sorted Z.le l → l !! i = Some v → Z.of_nat i + 1 ≤ covered v l.
Proof.
  intros Hs. apply (Sorted_StronglySorted _) in Hs. unfold covered.
  revert i. induction Hs as [|x l Hl IH Hx]; intros i Hi; [done|].
  destruct i as [|i]; simpl in Hi.
  - injection Hi as ->. rewrite filter_cons_True by lia. simpl. lia.
  - assert (x ≤ v) by (rewrite Forall_forall in Hx; by apply Hx, list_elem_of_lookup_2 with i).
    rewrite filter_cons_True by lia. apply IH in Hi. simpl. lia.
Qed.
Lemma covered_permutation bound l l' : l ≡ₚ l' → covered bound l = covered bound l'.
Proof. intros Hp. unfold covered. by rewrite Hp. Qed.
Lemma covered_le_mono bound bound' l : bound ≤ bound' → covered bound l ≤ covered bound' l.
Proof.
  intros Hb. unfold covered. induction l as [|x l IH]; [done|]. destruct (decide (x ≤ bound)).
  - rewrite !filter_cons_True by lia. simpl. lia.
  - rewrite filter_cons_False by lia. rewrite filter_cons. destruct (decide _); simpl; lia.
Qed.

Section exact_engine.
#[local] Existing Instance exact.
#[local] Existing Instance exact_rounding.
Lemma ratio_value a b n : b ≠ 0 → (this (mul (div (of_Z a) (of_Z b)) (of_Z n)) == inject_Z a / inject_Z b * inject_Z n)%Q.
Proof. intros ?. simpl. by rewrite !Qred_correct. Qed.
Lemma leb_exact (x y : Qc) : leb x y = true ↔ (x <= y)%Q.
Proof.
  simpl. unfold Qccompare. pose proof (Qle_alt x y) as Hle. destruct (this x ?= this y)%Q; split; intros; try done; try (by apply Hle); by apply Hle in H.
Qed.
Lemma ceiling_ratio a b n :
  0 < a ≤ b → 0 < n →
  let c := Qc_ceiling (mul (div (of_Z a) (of_Z b)) (of_Z n)) in a * n ≤ b * c ∧ 0 < c ≤ n.
Proof.
  intros Ha Hn c.
  assert (c = Qceiling (a * n # Z.to_pos b)) as Hc.
  { unfold c, Qc_ceiling. apply Qceiling_comp. rewrite ratio_value by lia. unfold Qdiv, Qinv, Qmult, Qeq, inject_Z. simpl.
    destruct b as [|b|b]; try lia. simpl. lia. }
  rewrite Hc. pose proof (Qle_ceiling (a * n # Z.to_pos b)) as Hup. pose proof (Qceiling_lt (a * n # Z.to_pos b)) as Hlo.
  unfold Qle, Qlt, inject_Z in *. cbn [Qnum Qden] in *. rewrite Z2Pos.id in * by lia.
  set (k := Qceiling (a * n # Z.to_pos b)) in *. split; [lia|]. split; nia.
Qed.
Lemma trunc_ceil (x : Qc) : 0 ≤ Qc_ceiling x → trunc (ceil x) = Qc_ceiling x.
Proof.
  intros Hx. assert (leb (of_Z 0) (of_Z (Qc_ceiling x)) = true) as Hl.
  { apply leb_exact. simpl. rewrite !Qred_correct. by rewrite <- Zle_Qle. }
  unfold trunc, exact_rounding, ceil. rewrite Hl. unfold Qc_floor. simpl.
  rewrite (Qfloor_comp _ _ (Qred_correct _)). apply Qfloor_Z.
Qed.
(** The exact percentile is a nearest rank: at least the quantile of the values is
    below it or equal to it. *)
Lemma percentile_rank values a b :
  0 < a ≤ b → values ≠ [] →
  let v := percentile (F := Qc) values (div (of_Z a) (of_Z b)) in
  v ∈ values ∧ a * Z.of_nat (length values) ≤ b * covered v values.
Proof.
  intros Ha Hne. cbv zeta. unfold percentile. destruct values as [|x values]; [done|].
  set (l := x :: values) in *. set (sorted := merge_sort Z.le l). set (n := Z.of_nat (length sorted)).
  assert (sorted ≡ₚ l) as Hp by apply merge_sort_Permutation.
  assert (n = Z.of_nat (length l)) as Hn by (unfold n; by rewrite Hp). assert (0 < n) by (rewrite Hn; simpl; lia).
  destruct (ceiling_ratio a b n Ha ltac:(lia)) as [Hge [Hpos Hle]]. set (c := Qc_ceiling _) in *.
  rewrite (trunc_ceil _) by (fold c; lia). fold c.
  destruct (Z.ltb_spec (c - 1) 0); [lia|]. destruct (Z.leb_spec n (c - 1)); [lia|].
  assert (is_Some (sorted !! Z.to_nat (c - 1))) as [v Hv] by (apply lookup_lt_is_Some_2; unfold n in *; lia).
  rewrite Hv. simpl. split; [rewrite <- Hp; by apply list_elem_of_lookup_2 in Hv|].
  apply rank_covered in Hv; [|apply Sorted_merge_sort; intros ??; lia].
  rewrite (covered_permutation v sorted l Hp) in Hv. change (S (length values)) with (length l). rewrite <- Hn.
  assert (c ≤ covered v l) by lia. nia.
Qed.

Lemma ceilUint64_covers (p : Z) (h : Qc) :
  0 ≤ p → leb (of_Z 1) h = true → leb (mul (of_Z p) h) (of_Z max_uint64) = true → p ≤ ceilUint64 (mul (of_Z p) h).
Proof.
  intros Hp Hh Hfit. unfold ceilUint64. apply leb_exact in Hh, Hfit. simpl in Hh, Hfit. rewrite !Qred_correct in Hh. rewrite !Qred_correct in Hfit.
  destruct (leb (mul (of_Z p) h) zero) eqn:Hz.
  - apply leb_exact in Hz. simpl in Hz. rewrite !Qred_correct in Hz.
    assert (inject_Z p <= 0)%Q as Hq; [|change 0%Q with (inject_Z 0) in Hq; rewrite <- Zle_Qle in Hq; lia].
    apply Qle_trans with (inject_Z p * h)%Q; [|done]. rewrite <- (Qmult_1_r (inject_Z p)) at 1.
    rewrite (Qmult_comm (inject_Z p) 1), (Qmult_comm (inject_Z p) h). apply Qmult_le_compat_r; [done|]. change 0%Q with (inject_Z 0); by rewrite <- Zle_Qle.
  - assert (inject_Z p <= this (mul (of_Z p) h))%Q as Hge.
    { simpl. rewrite !Qred_correct. rewrite <- (Qmult_1_l (inject_Z p)) at 1. rewrite (Qmult_comm (inject_Z p) h).
      apply Qmult_le_compat_r; [done|]. change 0%Q with (inject_Z 0); by rewrite <- Zle_Qle. }
    assert (p ≤ Qc_ceiling (mul (of_Z p) h)) as Hc.
    { unfold Qc_ceiling. rewrite Zle_Qle. eapply Qle_trans; [exact Hge|apply Qle_ceiling]. }
    assert (Qc_ceiling (mul (of_Z p) h) ≤ max_uint64) as Hm.
    { unfold Qc_ceiling. rewrite <- (Qceiling_Z max_uint64). apply Qceiling_resp_le. simpl. by rewrite !Qred_correct. }
    rewrite trunc_ceil by lia. rewrite u64_id; [done|]. unfold is_u64, max_uint64 in *. lia.
Qed.
Lemma no_delta_no_savings (config : EngineConfig Qc) c rc m rm :
  c ≤ rc → m ≤ rm → leb (estimatedMonthlySavings config c rc m rm) zero = true.
Proof.
  intros Hc Hm. unfold estimatedMonthlySavings, positiveDelta.
  destruct (Z.leb_spec c rc); [|lia]. destruct (Z.leb_spec m rm); [|lia].
  assert (∀ x y z : Qc, mul (mul (div (of_Z 0) x) y) z = of_Z 0) as Hz.
  { intros x y z. simpl. change (Q2Qc (inject_Z 0)) with (0%Qc). unfold Qcdiv. by rewrite !Qcmult_0_l. }
  rewrite !Hz. by vm_compute.
Qed.
Lemma length_cpu_usage samples : length (cpu_usage samples) = length samples ∧ length (memory_usage samples) = length samples.
Proof. unfold cpu_usage, memory_usage. by rewrite !length_fmap. Qed.
Lemma usage_nonneg samples : Forall (λ s, 0 ≤ CPUUsageCoreMS s ∧ 0 ≤ MemoryWorkingSetBytes s ∧ 0 ≤ BucketSeconds s) samples →
  Forall (λ v, 0 ≤ v) (cpu_usage samples) ∧ Forall (λ v, 0 ≤ v) (memory_usage samples).
Proof.
  assert (∀ v d, 0 ≤ v → 0 ≤ d → 0 ≤ ceilDiv v d) as Hd.
  { intros v d ??. unfold ceilDiv. destruct (Z.eqb_spec v 0); [lia|]. destruct (Z.eqb_spec d 0) as [->|]; [rewrite Z.div_0_r; lia|].
    assert (0 ≤ (v - 1) / d) by (apply Z.div_pos; lia). lia. }
  intros Hs. split; apply Forall_fmap; eapply Forall_impl; try done; intros s (? & ? & ?); simpl;
    unfold averageMillicores, averageBytes; destruct (_ =? 0); try lia; by apply Hd.
Qed.

(** C25: in exact arithmetic, with headrooms of at least one and proposed requests that
    fit in 64 bits, a recommendation is safe and worth making: at least 95 of 100 hourly CPU averages are within the
    proposed CPU request and 99 of 100 memory averages within the proposed memory
    request, and one of the two requests is lower than the current one. A headroom below
    one, which the configuration accepts, voids the guarantee ([low_headroom_starves]). *)
Theorem recommendation_covers_usage (config : EngineConfig Qc) samples q r :
  Forall (λ s, 0 ≤ CPUUsageCoreMS s ∧ 0 ≤ MemoryWorkingSetBytes s ∧ 0 ≤ BucketSeconds s) samples →
  leb (of_Z 1) (CPURequestHeadroom config) = true → leb (of_Z 1) (MemoryRequestHeadroom config) = true →
  recommend config samples q = Some r →
  leb (mul (of_Z (CPUUsageP95Millicores r)) (CPURequestHeadroom config)) (of_Z max_uint64) = true →
  leb (mul (of_Z (MemoryWorkingSetP99Bytes r)) (MemoryRequestHeadroom config)) (of_Z max_uint64) = true →
  95 * R_SampleCount r ≤ 100 * covered (RecommendedCPURequestMillicores r) (cpu_usage samples) ∧
  99 * R_SampleCount r ≤ 100 * covered (RecommendedMemoryRequestBytes r) (memory_usage samples) ∧
  (RecommendedCPURequestMillicores r < CurrentCPURequestMillicores r ∨ RecommendedMemoryRequestBytes r < CurrentMemoryRequestBytes r).
Proof.
  intros Hs Hhc Hhm Hr. destruct (usage_nonneg samples Hs) as [Hcpu Hmem]. destruct (length_cpu_usage samples) as [Hlc Hlm].
  apply recommend_fields in Hr as (Hne & Hn & Hp & Hp' & Hrc & Hrm & Hsav). intros Hf Hf'.
  destruct (percentile_rank (cpu_usage samples) 95 100) as [Hin Hrank]; [lia|by destruct samples|].
  destruct (percentile_rank (memory_usage samples) 99 100) as [Hin' Hrank']; [lia|by destruct samples|].
  rewrite <- Hp in Hin, Hrank. rewrite <- Hp' in Hin', Hrank'. rewrite Forall_forall in Hcpu, Hmem. apply Hcpu in Hin. apply Hmem in Hin'.
  rewrite Hlc, <- Hn in Hrank. rewrite Hlm, <- Hn in Hrank'.
  pose proof (ceilUint64_covers _ _ Hin Hhc Hf) as Hge. pose proof (ceilUint64_covers _ _ Hin' Hhm Hf') as Hge'.
  pose proof (proj2 (maxUint64_le (MinCPUMillicores config) (ceilUint64 (mul (of_Z (CPUUsageP95Millicores r)) (CPURequestHeadroom config))))) as Hmax.
  pose proof (proj2 (maxUint64_le (MinMemoryBytes config) (ceilUint64 (mul (of_Z (MemoryWorkingSetP99Bytes r)) (MemoryRequestHeadroom config))))) as Hmax'.
  rewrite <- Hrc in Hmax. rewrite <- Hrm in Hmax'.
  pose proof (covered_le_mono _ _ (cpu_usage samples) (Z.le_trans _ _ _ Hge Hmax)).
  pose proof (covered_le_mono _ _ (memory_usage samples) (Z.le_trans _ _ _ Hge' Hmax')).
  split; [lia|]. split; [lia|].
  destruct (Z.le_gt_cases (CurrentCPURequestMillicores r) (RecommendedCPURequestMillicores r)) as [Hc|]; [|lia].
  destruct (Z.le_gt_cases (CurrentMemoryRequestBytes r) (RecommendedMemoryRequestBytes r)) as [Hm|]; [|lia].
  by rewrite (no_delta_no_savings config _ _ _ _ Hc Hm) in Hsav.
Qed.
End exact_engine.

Definition sample (hour usage : Z) : Sample := {|
  S_TenantID := "t"; S_ClusterID := "c"; ScopeType := "container"; ScopeID := "u"; BucketStart := hour * Hour; BucketSeconds := 3600;
  CPUUsageCoreMS := usage * 3600; CPURequestCoreMS := 1000 * 3600; CPULimitCoreMS := 2000 * 3600;
  MemoryWorkingSetBytes := 100000000 * 3600; MemoryRequestBytes := 1000000000 * 3600; MemoryLimitBytes := 0 |}.
Definition sample_config {F} `{Arith F} : EngineConfig F := normalizeConfig {|
  AnalysisWindow := 0; CPURequestHeadroom := zero; MemoryRequestHeadroom := zero; CPULimitMultiplier := zero;
  MemoryLimitMultiplier := zero; MinCPUMillicores := 0; MinMemoryBytes := 0; CPUCoreHourUSD := zero; MemoryGiBHourUSD := zero;
  MinimumSampleCount := 2 |}.
Definition sample_engine_query : Query := {| TenantID := "t"; ClusterID := ""; End_ := 1000 * Hour |}.
Definition sample_list : list Sample := [sample 2 50; sample 1 40].
Definition sample_key : string := targetKey (sample 1 0).

(** One target, in double precision: 50 millicores with 15% headroom. *)
Lemma recommendations_sound_witness :
  let recommendations := Generate (F := spec_float) sample_config [sample_key] id sample_list sample_engine_query in
  RecommendedCPURequestMillicores <$> recommendations = [58] ∧ NoDup (rec_key <$> recommendations).
Proof.
  cbv zeta. split; [by vm_compute|].
  apply (recommendations_sound (F := spec_float) sample_config [sample_key] id sample_list sample_engine_query); [done|].
  vm_compute. done.
Defined.
Lemma recommendation_covers_usage_witness :
  ∃ r, recommend (F := Qc) sample_config sample_list sample_engine_query = Some r ∧
    95 * R_SampleCount r ≤ 100 * covered (RecommendedCPURequestMillicores r) (cpu_usage sample_list) ∧
    RecommendedCPURequestMillicores r = 58 ∧ CurrentCPURequestMillicores r = 1000.
Proof.
  assert ((λ r, (CPUUsageP95Millicores r, MemoryWorkingSetP99Bytes r, RecommendedCPURequestMillicores r, CurrentCPURequestMillicores r))
    <$> recommend (F := Qc) sample_config sample_list sample_engine_query = Some (50, 100000000, 58, 1000)) as Hv
    by (vm_compute; reflexivity).
  destruct (recommend (F := Qc) sample_config sample_list sample_engine_query) as [r|] eqn:Hr; [|discriminate].
  injection Hv as H1 H2 H3 H4.
  exists r. split; [reflexivity|]. split; [|exact (conj H3 H4)].
  apply (recommendation_covers_usage (sample_config (F := Qc)) sample_list sample_engine_query r);
    [repeat constructor; vm_compute; discriminate|vm_compute; reflexivity|vm_compute; reflexivity|exact Hr| |];
    rewrite ?H1, ?H2; vm_compute; reflexivity.
Defined.

(** With a headroom of one half, which no check of the configuration refuses, the
    engine proposes a CPU request that no sample is within. *)
Lemma low_headroom_starves :
  let config := normalizeConfig {|
    AnalysisWindow := 0; CPURequestHeadroom := half; MemoryRequestHeadroom := half; CPULimitMultiplier := zero;
    MemoryLimitMultiplier := zero; MinCPUMillicores := 0; MinMemoryBytes := 0; CPUCoreHourUSD := zero;
    MemoryGiBHourUSD := zero; MinimumSampleCount := 2 |} in
  ∃ r, recommend (F := Qc) config sample_list sample_engine_query = Some r ∧
    CPURequestHeadroom config = half ∧ RecommendedCPURequestMillicores r = 25 ∧
    covered (RecommendedCPURequestMillicores r) (cpu_usage sample_list) = 0.
Proof.
  intros config.
  assert ((λ r, (RecommendedCPURequestMillicores r, covered (RecommendedCPURequestMillicores r) (cpu_usage sample_list)))
    <$> recommend (F := Qc) config sample_list sample_engine_query = Some (25, 0)) as Hv by (vm_compute; reflexivity).
  destruct (recommend (F := Qc) config sample_list sample_engine_query) as [r|]; [|discriminate]. injection Hv as H1 H2.
  exists r. split_and!; [done|vm_compute; reflexivity|exact H1|exact H2].
Qed.

(** ** Facts *)

Section facts.
Context {F decimal : Type} `{Arith F}.
(** [decimal.NewFromFloat] and [decimal.Decimal.String]; the name-based UUID of a key *)
Context (NewFromFloat : F → decimal) (decimal_String : decimal → string) (NewHash : string → string).

Definition defaultRecommendationTTL : Duration := 30 * 24 * Hour.
Definition recommendationType : string := "rightsizing".
Definition recommendationSafety : string := "review_required".
Definition recommendationStatus : string := "open".
Definition recommendationCurrency : string := "USD".
Definition recommendationConfidence : F := div (of_Z 70) (of_Z 100).
Definition recommendationRiskScore : F := div (of_Z 30) (of_Z 100).
Definition recommendationColumns : list string :=
  ["tenant_id"; "recommendation_id"; "cluster_id"; "namespace_uid"; "target_kind"; "target_uid"; "recommendation_type";
   "safety_class"; "status"; "analysis_window_start"; "analysis_window_end"; "generated_at"; "expires_at";
   "current_configuration"; "proposed_configuration"; "evidence"; "currency"; "monthly_gross_savings";
   "monthly_net_savings"; "confidence"; "risk_score"; "policy_version"; "model_version"; "computation_version"; "version"]%string.

Record recommendationFact := {
  F_TenantID : string;
  F_RecommendationID : string;
  F_ClusterID : string;
  F_NamespaceUID : string;
  F_TargetKind : string;
  F_TargetUID : string;
  F_RecommendationType : string;
  F_SafetyClass : string;
  F_Status : string;
  F_AnalysisWindowStart : Time;
  F_AnalysisWindowEnd : Time;
  F_GeneratedAt : Time;
  F_ExpiresAt : Time;
  F_CurrentConfiguration : string;
  F_ProposedConfig : string;
  F_Evidence : string;
  F_Currency : string;
  F_MonthlyGrossSavings : decimal;
  F_MonthlyNetSavings : decimal;
  F_Confidence : decimal;
  F_RiskScore : decimal;
  F_PolicyVersion : string;
  F_ModelVersion : string;
  F_ComputationVersion : string;
  F_Version : Z
}.
(** [json.Marshal] of a map of numbers, which writes the keys in order and cannot
    fail *)
Definition json_object (entries : list (string * Z)) : string :=
  "{" +:+ Join ((λ '(k, v), Query.Query.quoted k +:+ ":" +:+ dec v) <$> entries) "," +:+ "}".
(** [Format(time.RFC3339Nano)] of a UTC time: the fraction without trailing zeros *)
Fixpoint trim_zeros (fuel : nat) (digits : nat) (z : Z) : nat * Z :=
  match fuel with
  | O => (digits, z)
  | S fuel => if z mod 10 =? 0 then trim_zeros fuel (Nat.pred digits) (z / 10) else (digits, z)
  end.
Definition rfc3339nano (t : Time) : string :=
  let nanos := t mod Second in
  if nanos =? 0 then Paths.rfc3339 t
  else
    let '(digits, fraction) := trim_zeros 9 9 nanos in
    let whole := Paths.rfc3339 t in
    String.substring 0 (String.length whole - 1) whole +:+ "." +:+ Paths.zero_pad digits fraction +:+ "Z".
Definition recommendationID (r : Recommendation F) : string :=
  NewHash (Join [R_TenantID r; R_ClusterID r; R_ScopeType r; R_ScopeID r; rfc3339nano (AnalysisWindowStart r);
                 rfc3339nano (AnalysisWindowEnd r); R_ComputationVersion r] nul).
Definition fact_of (generatedAt : Time) (r : Recommendation F) : recommendationFact :=
  let savings := NewFromFloat (EstimatedMonthlySavingsUSD r) in
  {| F_TenantID := R_TenantID r; F_RecommendationID := recommendationID r; F_ClusterID := R_ClusterID r; F_NamespaceUID := "";
     F_TargetKind := R_ScopeType r; F_TargetUID := R_ScopeID r; F_RecommendationType := recommendationType;
     F_SafetyClass := recommendationSafety; F_Status := recommendationStatus; F_AnalysisWindowStart := AnalysisWindowStart r;
     F_AnalysisWindowEnd := AnalysisWindowEnd r; F_GeneratedAt := generatedAt; F_ExpiresAt := generatedAt + defaultRecommendationTTL;
     F_CurrentConfiguration := json_object [("cpu_limit_millicores"%string, CurrentCPULimitMillicores r);
       ("cpu_request_millicores"%string, CurrentCPURequestMillicores r); ("memory_limit_bytes"%string, CurrentMemoryLimitBytes r);
       ("memory_request_bytes"%string, CurrentMemoryRequestBytes r)];
     F_ProposedConfig := json_object [("cpu_limit_millicores"%string, RecommendedCPULimitMillicores r);
       ("cpu_request_millicores"%string, RecommendedCPURequestMillicores r); ("memory_limit_bytes"%string, RecommendedMemoryLimitBytes r);
       ("memory_request_bytes"%string, RecommendedMemoryRequestBytes r)];
     F_Evidence := json_object [("cpu_usage_p95_millicores"%string, CPUUsageP95Millicores r);
       ("memory_working_set_p99_bytes"%string, MemoryWorkingSetP99Bytes r); ("sample_count"%string, R_SampleCount r)];
     F_Currency := recommendationCurrency; F_MonthlyGrossSavings := savings; F_MonthlyNetSavings := savings;
     F_Confidence := NewFromFloat recommendationConfidence; F_RiskScore := NewFromFloat recommendationRiskScore;
     F_PolicyVersion := ""; F_ModelVersion := computationVersionV1; F_ComputationVersion := R_ComputationVersion r;
     F_Version := u64 (UnixNano generatedAt) |}.
Definition recommendationFacts (recommendations : list (Recommendation F)) (generatedAt : Time) : list recommendationFact :=
  fact_of generatedAt <$> recommendations.
Definition row (f : recommendationFact) : list (Workflow.Workflow.cell (decimal := decimal)) :=
  let CString := Workflow.Workflow.CString (decimal := decimal) in
  let CTime := Workflow.Workflow.CTime (decimal := decimal) in
  [CString (F_TenantID f); CString (F_RecommendationID f); CString (F_ClusterID f); CString (F_NamespaceUID f);
   CString (F_TargetKind f); CString (F_TargetUID f); CString (F_RecommendationType f); CString (F_SafetyClass f);
   CString (F_Status f); CTime (F_AnalysisWindowStart f); CTime (F_AnalysisWindowEnd f); CTime (F_GeneratedAt f);
   CTime (F_ExpiresAt f); CString (F_CurrentConfiguration f); CString (F_ProposedConfig f); CString (F_Evidence f);
   CString (F_Currency f); Workflow.Workflow.CDecimal (F_MonthlyGrossSavings f); Workflow.Workflow.CDecimal (F_MonthlyNetSavings f);
   Workflow.Workflow.CDecimal (F_Confidence f); Workflow.Workflow.CDecimal (F_RiskScore f); CString (F_PolicyVersion f);
   CString (F_ModelVersion f); CString (F_ComputationVersion f); Workflow.Workflow.CUint64 (F_Version f)].

(** ** The repository *)

Definition joinColumns (columns : list string) : string := Workflow.Workflow.joinColumns columns.
(** Calls of the batch; each answers its error, if any. *)
Inductive batch_op :=
| PrepareBatch (statement : string)
| Append (cells : list (Workflow.Workflow.cell (decimal := decimal)))
| Send.
Definition batch_ans (o : batch_op) : Type := option string.
Fixpoint append_facts (facts : list recommendationFact) : prog batch_ans (option string) :=
  match facts with
  | [] => Ret None
  | fact :: facts =>
      if negb (length (row fact) =? length recommendationColumns)%nat
      then Ret (Some ("recommendation row has " +:+ dec (Z.of_nat (length (row fact))) +:+ " values for "
                      +:+ dec (Z.of_nat (length recommendationColumns)) +:+ " columns"))
      else
        err ← call (Append (row fact));
        match (err : option string) with
        | Some e => Ret (Some ("append recommendation row: " +:+ e))
        | None => append_facts facts
        end
  end.
Definition SaveRecommendations (recommendations : list (Recommendation F)) (now : Time) : prog batch_ans (option string) :=
  match recommendations with
  | [] => Ret None
  | _ =>
      prepared ← call (PrepareBatch (Sprintf "INSERT INTO kube_cost.recommendation (%s)" [joinColumns recommendationColumns]));
      match (prepared : option string) with
      | Some e => Ret (Some ("prepare recommendation batch: " +:+ e))
      | None =>
          appended ← append_facts (recommendationFacts recommendations now);
          match (appended : option string) with
          | Some e => Ret (Some e)
          | None =>
              sent ← call Send;
              match (sent : option string) with
              | Some e => Ret (Some ("send recommendation batch: " +:+ e))
              | None => Ret None
              end
          end
      end
  end.

Definition sampleWhere (q : Query) (window : Duration) : string * list (Sql.value decimal) :=
  let clauses := ["tenant_id = ?"; "scope_type = 'container'"; "bucket_start >= ?"; "bucket_start < ?"; "sample_count > 0"]%string in
  let args := [VString (TenantID q); VTime (End_ q - window); VTime (End_ q)] in
  let '(clauses, args) := if negb (ClusterID q =? "")%string
    then (clauses ++ ["cluster_id = ?"%string], args ++ [VString (ClusterID q)]) else (clauses, args) in
  (Join clauses " AND ", args).
Definition samplesSQL (q : Query) (window : Duration) : string * list (Sql.value decimal) :=
  let '(condition, args) := sampleWhere q window in
  (Sprintf "
SELECT
    tenant_id,
    cluster_id,
    scope_type,
    scope_id,
    bucket_start,
    bucket_seconds,
    cpu_usage_core_milliseconds,
    cpu_request_core_milliseconds,
    cpu_limit_core_milliseconds,
    memory_working_set_byte_seconds,
    memory_request_byte_seconds,
    memory_limit_byte_seconds
FROM kube_cost.scope_metrics_1h
WHERE %s
ORDER BY tenant_id, cluster_id, scope_type, scope_id, bucket_start"%string [condition], args).
Definition scanSample (cells : list (Sql.value decimal)) : option Sample :=
  match cells with
  | [VString tenantID; VString clusterID; VString scopeType; VString scopeID; VTime bucketStart; VUint bucketSeconds; VUint cpuUsage;
     VUint cpuRequest; VUint cpuLimit; VUint memoryWorkingSet; VUint memoryRequest; VUint memoryLimit] =>
      Some {| S_TenantID := tenantID; S_ClusterID := clusterID; ScopeType := scopeType; ScopeID := scopeID; BucketStart := bucketStart;
              BucketSeconds := bucketSeconds; CPUUsageCoreMS := cpuUsage; CPURequestCoreMS := cpuRequest; CPULimitCoreMS := cpuLimit;
              MemoryWorkingSetBytes := memoryWorkingSet; MemoryRequestBytes := memoryRequest; MemoryLimitBytes := memoryLimit |}
  | _ => None
  end.
Context (ScanError : list (Sql.value decimal) → string) (database : string * list (Sql.value decimal) → answer (decimal := decimal)).
Definition Samples (q : Query) (window : Duration) : res string (list Sample) :=
  read_rows ScanError scanSample "query optimization samples" "scan optimization sample" "read optimization samples"
    (database (samplesSQL q window)).
(** [Engine.Recommendations] *)
Context `{Rounding F}.
Definition EngineRecommendations (config : EngineConfig F) (now : Time) order ties (q : Query) : res string (list (Recommendation F)) :=
  normalized ← normalizeQuery q now (AnalysisWindow config);
  samples ← Samples normalized (AnalysisWindow config);
  Ok (Generate config order ties samples normalized).
End facts.

(** ** Generating again *)

Section again.
Context {F decimal : Type} `{Arith F}.
Context (NewFromFloat : F → decimal) (decimal_String : decimal → string) (NewHash : string → string).
(** The row of a recommendation that is generated at a time, as the workflow reads
    it *)
Definition stored (generatedAt : Time) (r : Recommendation F) : res Workflow.Workflow.error Workflow.Workflow.Recommendation :=
  Workflow.Workflow.scanRecommendation decimal_String (row (fact_of NewFromFloat NewHash generatedAt r)).

(** Generating a recommendation for the same target and window again, which a restart
    of the service within the hour does, opens it again: whatever the workflow
    recorded for it before, the row it reads afterwards has the status [open]. *)
Lemma regeneration_reopens (w : Workflow.Workflow.db (decimal := decimal)) rows (current again : Workflow.Workflow.Recommendation) generatedAt r :
  let t := R_TenantID r in
  let id := recommendationID NewHash r in
  stored generatedAt r = Ok again →
  Workflow.Workflow.rows_of w t id = rows ++ [current] →
  Forall (λ x, Workflow.Workflow.sort_key x = Workflow.Workflow.sort_key again ∧
    Workflow.Workflow.Version x ≤ u64 (UnixNano generatedAt)) (rows ++ [current]) →
  let w' := {| Workflow.Workflow.recommendations := Workflow.Workflow.recommendations w ++ [again];
               Workflow.Workflow.actions := Workflow.Workflow.actions w |} in
  (∀ x, Workflow.Workflow.visible (Workflow.Workflow.recommendations w') t id x ↔ x = again) ∧
  Workflow.Workflow.Status again = "open"%string.
Proof.
  intros t id Hst Hrows Hall w'. unfold stored in Hst. simpl in Hst. injection Hst as Hagain.
  assert (Workflow.Workflow.TenantID again = t ∧ Workflow.Workflow.RecommendationID again = id ∧
    Workflow.Workflow.Version again = u64 (UnixNano generatedAt) ∧ Workflow.Workflow.Status again = "open"%string) as (Ht & Hid & Hv & Hs)
    by (rewrite <- Hagain; done).
  split; [|done]. apply (Workflow.Workflow.visible_newest w' t id (rows ++ [current]) again).
  - unfold Workflow.Workflow.rows_of in *. simpl. rewrite filter_app, Hrows. f_equal. rewrite filter_cons_True by (by split). done.
  - apply Forall_app. split; [|by repeat constructor]. by rewrite Hv.
Qed.

(** ** One batch

    A call of the batch and its answer *)
Definition answered (o : batch_op (decimal := decimal)) (err : option string) : event (batch_ans (decimal := decimal)) := existT o err.
(** The calls of a batch that is stored: a statement, a row for every recommendation in
    their order, and the end of the batch. *)
Definition one_batch (recommendations : list (Recommendation F)) (now : Time) : list (event (batch_ans (decimal := decimal))) :=
  match recommendations with
  | [] => []
  | _ =>
      answered (PrepareBatch (Sprintf "INSERT INTO kube_cost.recommendation (%s)" [joinColumns recommendationColumns])) None
      :: ((λ r, answered (Append (row (fact_of NewFromFloat NewHash now r))) None) <$> recommendations) ++ [answered Send None]
  end.
Lemma append_traces facts t :
  traces (append_facts facts) t None ↔ t = (λ f, answered (Append (row f)) None) <$> facts.
Proof.
  revert t. induction facts as [|f facts IH]; intros t; simpl; [naive_solver|]. split.
  - intros (x & t' & -> & Ht). destruct x as [e|]; [by destruct Ht|]. by apply IH in Ht as ->.
  - intros ->. eexists None, _. split; [reflexivity|]. by apply IH.
Qed.
(** Recommendations are stored exactly if all of them were sent in one batch: an error
    of any call comes before the end of the batch or is its answer. *)
Lemma saved_in_one_batch recommendations now t :
  traces (SaveRecommendations NewFromFloat NewHash recommendations now) t None ↔ t = one_batch recommendations now.
Proof.
  unfold SaveRecommendations, one_batch. destruct recommendations as [|r rs]; [simpl; naive_solver|]. generalize (r :: rs). clear r rs. intros rs. split.
  - intros (x & t' & -> & Ht). destruct x as [e|]; [by destruct Ht|]. f_equal. apply (traces_bind _ (append_facts (recommendationFacts NewFromFloat NewHash rs now))) in Ht as (a & t1 & t2 & -> & H1 & H2).
    destruct a as [e|]; [by destruct H2|]. apply append_traces in H1 as ->. unfold recommendationFacts. rewrite <- list_fmap_compose. f_equal.
    destruct H2 as (x & t3 & -> & H3). destruct x as [e|]; destruct H3; [done|by subst].
  - intros ->. eexists None, _. split; [reflexivity|]. apply (traces_bind _ (append_facts (recommendationFacts NewFromFloat NewHash rs now))). eexists None, _, _. split; [reflexivity|]. split.
    + apply append_traces. unfold recommendationFacts. by rewrite <- list_fmap_compose.
    + by eexists None, _.
Qed.
End again.
End Recommendations.
