(* ===== verification/Collector.v ===== *)
(** * The inventory collector of the agent

    [agent/inventory/builders.go] and [agent/inventory/collector.go]: observations
    of Kubernetes objects, and the worker that publishes those that changed.

    The objects are records of the fields the builders read. Resource quantities,
    the format of label selectors and the informer's namespace lister are
    parameters. The work queue hands the changes out one at a time to the single
    worker; a change whose processing fails is queued again. *)
From stdpp Require Import base option list gmap strings sorting.
From Stdlib Require Import ZArith Lia.
From S2P Require Import Prelude Crypto Effects Proto Inventory Http Server.

Module Collector.
Import Strings.

(** ** Kubernetes objects *)

Record OwnerReference := { Owner_APIVersion : string; Owner_Kind : string; Owner_Name : string; Owner_UID : string; Owner_Controller : option bool }.
Record ObjectMeta := {
  UID : string;
  Name : string;
  Namespace_ : string;
  ResourceVersion : string;
  Labels : gmap string string;
  CreationTimestamp : Time;
  DeletionTimestamp : option Time;
  OwnerReferences : list OwnerReference
}.
Record Taint := { Taint_Key : string; Taint_Value : string; Taint_Effect : string }.
Record PodCondition := { Condition_Type : string; Condition_Status : string; LastTransitionTime : Time }.
(** [ContainerState]: the times of its running and terminated states *)
Record ContainerState := { Running : option Time; Terminated : option (Time * Time) }.
Record ContainerStatus := {
  Status_Name : string;
  Status_ContainerID : string;
  Status_ImageID : string;
  Status_RestartCount : Z;
  State : ContainerState;
  LastTerminationState : ContainerState
}.

Section builders.
(** [resource.Quantity] *)
Context {Quantity : Type} (MilliValue Value : Quantity → Z) (Quantity_String : Quantity → string).
(** [metav1.FormatLabelSelector] on a selector *)
Context {LabelSelector : Type} (FormatLabelSelector : option LabelSelector → string).
Context `{Protobuf}.

Abbreviation ResourceList := (gmap string Quantity).
Record Node := {
  Node_Meta : ObjectMeta;
  Node_ProviderID : string;
  Node_Unschedulable : bool;
  Node_TaintList : list Taint;
  Node_Arch : string;
  Node_OS : string;
  Node_CapacityList : ResourceList;
  Node_AllocatableList : ResourceList
}.
Record Namespace := { Namespace_Meta : ObjectMeta; Namespace_StatusPhase : string }.
Record Deployment := {
  Deployment_Meta : ObjectMeta;
  Deployment_Replicas : option Z;
  Deployment_Available : Z;
  Deployment_LabelSelector : option LabelSelector;
  Deployment_StrategyType : string
}.
Record Container := { Container_Name : string; Container_ImageName : string; RequestList : ResourceList; LimitList : ResourceList }.
Record Pod := {
  Pod_Meta : ObjectMeta;
  Pod_SpecNodeName : string;
  Pod_ServiceAccount : string;
  Pod_PriorityClass : string;
  InitContainers : list Container;
  Containers_ : list Container;
  Pod_StatusPhase : string;
  Pod_QOSClass : string;
  Conditions : list PodCondition;
  StartTime : option Time;
  InitContainerStatuses : list ContainerStatus;
  ContainerStatuses : list ContainerStatus
}.

(** ** Builders *)

Definition record (operation : InventoryOperation) : option InventoryRecord :=
  Some {| Operation := operation; SnapshotId := ""; SnapshotRecord := false |}.
Definition timestamp (value : option Time) : option Timestamp :=
  match value with Some t => if IsZero t then None else Some (ts_New t) | None => None end.
Definition metadata (meta : ObjectMeta) : option ObjectMetadata :=
  Some {| Meta_Uid := UID meta; Meta_Name := Name meta; Meta_Namespace := Namespace_ meta; Meta_Labels := Labels meta;
          Meta_Annotations := ∅; Meta_CreatedAt := Some (ts_New (CreationTimestamp meta)); Meta_DeletedAt := timestamp (DeletionTimestamp meta);
          Meta_OwnerReferences := (λ owner, {| Ref_ApiVersion := Owner_APIVersion owner; Ref_Kind := Owner_Kind owner; Ref_Namespace := "";
                                               Ref_Name := Owner_Name owner; Ref_Uid := Owner_UID owner |}) <$> OwnerReferences meta |}.
Definition ToLower (s : string) : string := String.string_of_list_ascii (Http.Http.lower_byte <$> String.list_ascii_of_string s).
Definition standard_resources : list string := ["cpu"; "memory"; "ephemeral-storage"; "storage"]%string.
(** The loop over the resources; it does not depend on their order. *)
Definition extended_step (name : string) (q : Quantity) (acc : option Z * gmap string string) : option Z * gmap string string :=
  let '(gpu, extended) := acc in
  if bool_decide (name ∈ standard_resources) then (gpu, extended)
  else (if Contains (ToLower name) "gpu" then Some (i64 (default 0 gpu + Value q)) else gpu, <[name := Quantity_String q]> extended).
Definition resourceValues (resources : ResourceList) : option ResourceValues :=
  let '(gpu, extended) := map_fold extended_step (None, ∅) resources in
  Some {| Res_CpuMillicores := MilliValue <$> resources !! "cpu"%string;
          Res_MemoryBytes := Value <$> resources !! "memory"%string;
          Res_EphemeralStorageBytes := Value <$> resources !! "ephemeral-storage"%string;
          Res_GpuCount := gpu; Res_ExtendedResources := extended |}.
Definition string_le (a b : string) : Prop := String.ltb b a = false.
#[local] Instance string_le_dec a b : Decision (string_le a b) := decide (_ = _).
Definition taints (values : list Taint) : list string :=
  merge_sort string_le ((λ t, Taint_Key t +:+ "=" +:+ Taint_Value t +:+ ":" +:+ Taint_Effect t) <$> values).
Definition workloadOwner (owners : list OwnerReference) : string * string :=
  match list_find (λ o, Owner_Controller o = Some true) owners with
  | Some (_, o) => (Owner_Kind o, Owner_UID o)
  | None => match owners with o :: _ => (Owner_Kind o, Owner_UID o) | [] => (EmptyString, EmptyString) end
  end.
Definition conditionTime (conditions : list PodCondition) (conditionType : string) : option Timestamp :=
  match list_find (λ c, Condition_Type c = conditionType ∧ Condition_Status c = "True"%string) conditions with
  | Some (_, c) => Some (ts_New (LastTransitionTime c))
  | None => None
  end.
Definition containerTimes (status : ContainerStatus) : option Timestamp * option Timestamp :=
  let terminated '(started, finished) := (Some (ts_New started), Some (ts_New finished)) in
  match Running (State status), Terminated (State status), Terminated (LastTerminationState status) with
  | Some started, _, _ => (Some (ts_New started), None)
  | None, Some t, _ => terminated t
  | None, None, Some t => terminated t
  | None, None, None => (None, None)
  end.
Fixpoint firstNonEmpty (values : list string) : string :=
  match values with [] => EmptyString | v :: values' => if negb (v =? "")%string then v else firstNonEmpty values' end.
Definition valueOrZero (value : option Z) : Z := default 0 value.
Definition label (labels : gmap string string) (key : string) : string := default EmptyString (labels !! key).

(** [observation] at the time [now]; the builders that read the clock for
    [observedAt] read it once more here, and [times] are both readings. *)
Definition observation (resourceVersion : string) (times : Time * Time) : Observation :=
  let '(observedAt, now) := times in
  {| Sequence := 0; EventId := ""; ObservedAt := Some (ts_New (if IsZero observedAt then now else observedAt));
     CollectedAt := Some (ts_New now); SourceResourceVersion := resourceVersion; payload := None |}.
Definition withPayload (o : Observation) (p : Payload) : option Observation :=
  Some {| Sequence := Sequence o; EventId := EventId o; ObservedAt := ObservedAt o; CollectedAt := CollectedAt o;
          SourceResourceVersion := SourceResourceVersion o; payload := Some p |}.

Definition Cluster (clusterID kubernetesVersion : string) (namespace : Namespace) (now : Time) : Event :=
  let meta := Namespace_Meta namespace in
  {| Key := "cluster/" +:+ clusterID;
     EventObservation := withPayload (observation (ResourceVersion meta) (CreationTimestamp meta, now))
       (Observation_ClusterInventory {| Cluster_Record := record INVENTORY_OPERATION_UPSERT; Cluster_ClusterUid := UID meta;
          Cluster_Name := clusterID; Cluster_KubernetesVersion := kubernetesVersion; Cluster_Provider := ""; Cluster_Region := "";
          Cluster_AccountId := ""; Cluster_Labels := ∅ |}) |}.
(** The generated [String] of a phase *)
Definition phase_String (phase : InventorySnapshotPhase) : string :=
  match phase with
  | INVENTORY_SNAPSHOT_PHASE_UNSPECIFIED => "INVENTORY_SNAPSHOT_PHASE_UNSPECIFIED"
  | INVENTORY_SNAPSHOT_PHASE_STARTED => "INVENTORY_SNAPSHOT_PHASE_STARTED"
  | INVENTORY_SNAPSHOT_PHASE_COMPLETED => "INVENTORY_SNAPSHOT_PHASE_COMPLETED"
  | INVENTORY_SNAPSHOT_PHASE_ABORTED => "INVENTORY_SNAPSHOT_PHASE_ABORTED"
  | INVENTORY_SNAPSHOT_PHASE_unrecognized n => dec n
  end.
Definition Snapshot (snapshotID : string) (phase : InventorySnapshotPhase) (times : Time * Time) : Event :=
  let now := times.1 in
  {| Key := "snapshot/" +:+ snapshotID +:+ "/" +:+ phase_String phase;
     EventObservation := withPayload (observation "" times) (Observation_InventorySnapshotMarker {|
       Marker_SnapshotId := snapshotID; Marker_Phase := phase;
       Marker_ResourceKinds := ["Cluster"; "Node"; "Namespace"; "Deployment"; "Pod"; "Container"]%string; Marker_RecordCount := 0;
       Marker_StartedAt := match phase with INVENTORY_SNAPSHOT_PHASE_STARTED => Some (ts_New now) | _ => None end;
       Marker_CompletedAt := match phase with INVENTORY_SNAPSHOT_PHASE_COMPLETED => Some (ts_New now) | _ => None end;
       Marker_Detail := "" |}) |}.
Definition NodeEvent (node : Node) (operation : InventoryOperation) (times : Time * Time) : Event :=
  let meta := Node_Meta node in
  let l := label (Labels meta) in
  {| Key := "node/" +:+ UID meta;
     EventObservation := withPayload (observation (ResourceVersion meta) times) (Observation_NodeInventory {|
       Node_Record := record operation; Node_Metadata := metadata meta; Node_ProviderId := Node_ProviderID node;
       Node_InstanceType := firstNonEmpty [l "node.kubernetes.io/instance-type"; l "beta.kubernetes.io/instance-type"]%string;
       Node_Architecture := Node_Arch node; Node_OperatingSystem := Node_OS node;
       Node_Region := firstNonEmpty [l "topology.kubernetes.io/region"; l "failure-domain.beta.kubernetes.io/region"]%string;
       Node_Zone := firstNonEmpty [l "topology.kubernetes.io/zone"; l "failure-domain.beta.kubernetes.io/zone"]%string;
       Node_CapacityType := firstNonEmpty [l "karpenter.sh/capacity-type"; l "eks.amazonaws.com/capacityType"]%string;
       Node_Capacity := resourceValues (Node_CapacityList node); Node_Allocatable := resourceValues (Node_AllocatableList node);
       Node_Schedulable := negb (Node_Unschedulable node); Node_Taints := taints (Node_TaintList node);
       Node_KarpenterNodeClaimUid := l "karpenter.sh/nodeclaim"%string; Node_KarpenterNodePool := l "karpenter.sh/nodepool"%string |}) |}.
Definition NamespaceEvent (namespace : Namespace) (operation : InventoryOperation) (times : Time * Time) : Event :=
  let meta := Namespace_Meta namespace in
  {| Key := "namespace/" +:+ UID meta;
     EventObservation := withPayload (observation (ResourceVersion meta) times) (Observation_NamespaceInventory {|
       Namespace_Record := record operation; Namespace_Metadata := metadata meta; Namespace_Phase := Namespace_StatusPhase namespace |}) |}.
Definition DeploymentEvent (deployment : Deployment) (namespaceUID : string) (operation : InventoryOperation) (times : Time * Time) : Event :=
  let meta := Deployment_Meta deployment in
  {| Key := "deployment/" +:+ UID meta;
     EventObservation := withPayload (observation (ResourceVersion meta) times) (Observation_DeploymentInventory {|
       Deployment_Record := record operation; Deployment_Metadata := metadata meta;
       Deployment_DesiredReplicas := valueOrZero (Deployment_Replicas deployment);
       Deployment_AvailableReplicas := Deployment_Available deployment;
       Deployment_Selector := FormatLabelSelector (Deployment_LabelSelector deployment);
       Deployment_Strategy := Deployment_StrategyType deployment; Deployment_NamespaceUid := namespaceUID |}) |}.
Definition PodEvent (pod : Pod) (namespaceUID : string) (operation : InventoryOperation) (times : Time * Time) : Event :=
  let meta := Pod_Meta pod in
  let '(workloadKind, workloadUID) := workloadOwner (OwnerReferences meta) in
  {| Key := "pod/" +:+ UID meta;
     EventObservation := withPayload (observation (ResourceVersion meta) times) (Observation_PodInventory {|
       Pod_Record := record operation; Pod_Metadata := metadata meta; Pod_NodeName := Pod_SpecNodeName pod; Pod_NodeUid := "";
       Pod_Phase := Pod_StatusPhase pod; Pod_QosClass := Pod_QOSClass pod; Pod_ServiceAccountName := Pod_ServiceAccount pod;
       Pod_PriorityClassName := Pod_PriorityClass pod; Pod_WorkloadKind := workloadKind; Pod_WorkloadUid := workloadUID;
       Pod_ScheduledAt := conditionTime (Conditions pod) "PodScheduled"; Pod_StartedAt := timestamp (StartTime pod);
       Pod_NamespaceUid := namespaceUID |}) |}.

Definition zeroStatus : ContainerStatus :=
  let empty := {| Running := None; Terminated := None |} in
  {| Status_Name := ""; Status_ContainerID := ""; Status_ImageID := ""; Status_RestartCount := 0; State := empty; LastTerminationState := empty |}.
Definition container (pod : Pod) (c : Container) (status : ContainerStatus) (namespaceUID workloadKind workloadUID : string)
    (init : bool) (operation : InventoryOperation) (times : Time * Time) : Event :=
  let meta := Pod_Meta pod in
  let '(startedAt, finishedAt) := containerTimes status in
  let kind := (if init then "init-container" else "container")%string in
  {| Key := kind +:+ "/" +:+ UID meta +:+ "/" +:+ Container_Name c;
     EventObservation := withPayload (observation (ResourceVersion meta) times) (Observation_ContainerInventory {|
       Container_Record := record operation; Container_PodUid := UID meta; Container_Namespace := Namespace_ meta;
       Container_PodName := Name meta; Container_ContainerName := Container_Name c; Container_ContainerId := Status_ContainerID status;
       Container_Image := Container_ImageName c; Container_ImageId := Status_ImageID status; Container_Requests := resourceValues (RequestList c);
       Container_Limits := resourceValues (LimitList c); Container_RestartCount := Status_RestartCount status;
       Container_InitContainer := init; Container_StartedAt := startedAt; Container_FinishedAt := finishedAt;
       Container_NamespaceUid := namespaceUID; Container_WorkloadKind := workloadKind; Container_WorkloadUid := workloadUID |}) |}.
(** [clock] gives the readings for each container. *)
Definition Containers (pod : Pod) (namespaceUID : string) (operation : InventoryOperation) (clock : nat → Time * Time) : list Event :=
  let statuses : gmap string ContainerStatus :=
    foldl (λ m s, <[Status_Name s := s]> m) ∅ (InitContainerStatuses pod ++ ContainerStatuses pod) in
  let '(workloadKind, workloadUID) := workloadOwner (OwnerReferences (Pod_Meta pod)) in
  let build (init : bool) (offset i : nat) (c : Container) :=
    container pod c (default zeroStatus (statuses !! Container_Name c)) namespaceUID workloadKind workloadUID init operation (clock (offset + i)%nat) in
  imap (build true 0%nat) (InitContainers pod) ++ imap (build false (length (InitContainers pod))) (Containers_ pod).

(** ** The collector *)

Inductive object :=
| ONode (n : Node)
| ONamespace (n : Namespace)
| ODeployment (d : Deployment)
| OPod (p : Pod)
| OEvent (e : Event).
(** [%T] *)
Definition type_name (o : object) : string :=
  match o with
  | ONode _ => "*v1.Node" | ONamespace _ => "*v1.Namespace" | ODeployment _ => "*v1.Deployment" | OPod _ => "*v1.Pod"
  | OEvent _ => "inventory.Event"
  end.
Record change := { kind : string; changed_object : object; operation : InventoryOperation }.
Record Collector := { cache : Cache; podContainers : gmap string (gmap string Event) }.
Definition NewCollector : Collector := {| cache := NewCache; podContainers := ∅ |}.

(** What the informers report; a tombstone is reported as the object it holds. *)
Inductive notification := Added (o : object) | Updated (o : object) | Deleted (o : object).
Definition handler (kind : string) (n : notification) : change :=
  match n with
  | Added o | Updated o => {| kind := kind; changed_object := o; operation := INVENTORY_OPERATION_UPSERT |}
  | Deleted o => {| kind := kind; changed_object := o; operation := INVENTORY_OPERATION_DELETE |}
  end.
Definition is_upsert (op : InventoryOperation) : bool := match op with INVENTORY_OPERATION_UPSERT => true | _ => false end.
Definition is_delete_op (op : InventoryOperation) : bool := match op with INVENTORY_OPERATION_DELETE => true | _ => false end.
Definition isDelete (e : Event) : bool :=
  match EventObservation e ≫= payload with
  | Some (Observation_ClusterInventory m) => is_delete_op (GetOperation (Cluster_Record m))
  | Some (Observation_NodeInventory m) => is_delete_op (GetOperation (Node_Record m))
  | Some (Observation_NamespaceInventory m) => is_delete_op (GetOperation (Namespace_Record m))
  | Some (Observation_DeploymentInventory m) => is_delete_op (GetOperation (Deployment_Record m))
  | Some (Observation_PodInventory m) => is_delete_op (GetOperation (Pod_Record m))
  | Some (Observation_ContainerInventory m) => is_delete_op (GetOperation (Container_Record m))
  | _ => false
  end.
Definition asDelete (e : Event) : Event :=
  match EventObservation e with
  | Some o =>
      match payload o with
      | Some (Observation_ContainerInventory m) =>
          {| Key := Key e;
             EventObservation := Some {| Sequence := 0; EventId := ""; ObservedAt := ObservedAt o; CollectedAt := CollectedAt o;
               SourceResourceVersion := SourceResourceVersion o;
               payload := Some (Observation_ContainerInventory {|
                 Container_Record := record INVENTORY_OPERATION_DELETE; Container_PodUid := Container_PodUid m;
                 Container_Namespace := Container_Namespace m; Container_PodName := Container_PodName m;
                 Container_ContainerName := Container_ContainerName m; Container_ContainerId := Container_ContainerId m;
                 Container_Image := Container_Image m; Container_ImageId := Container_ImageId m; Container_Requests := Container_Requests m;
                 Container_Limits := Container_Limits m; Container_RestartCount := Container_RestartCount m;
                 Container_InitContainer := Container_InitContainer m; Container_StartedAt := Container_StartedAt m;
                 Container_FinishedAt := Container_FinishedAt m; Container_NamespaceUid := Container_NamespaceUid m;
                 Container_WorkloadKind := Container_WorkloadKind m; Container_WorkloadUid := Container_WorkloadUid m |}) |} |}
      | _ => e
      end
  | None => e
  end.

(** The namespace lister: the UID of a namespace, if it is known *)
Context (lister : string → option string).
Definition namespaceUID (namespace : string) : string :=
  if (namespace =? "")%string then EmptyString else default EmptyString (lister namespace).

(** The previous containers of a pod that are not among the current keys, as deletes;
    [order] is the order the map is visited in. *)
Definition removed (previous : gmap string Event) (current order : list string) : list Event :=
  omap (λ key, if bool_decide (key ∈ current) then None else asDelete <$> previous !! key) order.
Definition events (c : Collector) (item : change) (order : list string) (clock : nat → Time * Time) : res string (list Event) :=
  let op := operation item in
  let unexpected := ("unexpected " +:+ (if (kind item =? "snapshot")%string then "cluster" else kind item)
                     +:+ " object " +:+ type_name (changed_object item))%string in
  if ((kind item =? "cluster") || (kind item =? "snapshot"))%string then
    match changed_object item with OEvent e => Ok [e] | _ => Err unexpected end
  else if (kind item =? "node")%string then
    match changed_object item with ONode n => Ok [NodeEvent n op (clock 0%nat)] | _ => Err unexpected end
  else if (kind item =? "namespace")%string then
    match changed_object item with ONamespace n => Ok [NamespaceEvent n op (clock 0%nat)] | _ => Err unexpected end
  else if (kind item =? "deployment")%string then
    match changed_object item with
    | ODeployment d => Ok [DeploymentEvent d (namespaceUID (Namespace_ (Deployment_Meta d))) op (clock 0%nat)]
    | _ => Err unexpected
    end
  else if (kind item =? "pod")%string then
    match changed_object item with
    | OPod p =>
        let uid := namespaceUID (Namespace_ (Pod_Meta p)) in
        let containers := Containers p uid op (λ i, clock (S i)) in
        Ok (PodEvent p uid op (clock 0%nat) :: containers ++
            if is_upsert op then removed (default ∅ (podContainers c !! UID (Pod_Meta p))) (Key <$> containers) order else [])
    | _ => Err unexpected
    end
  else Err ("unsupported inventory kind " +:+ String (byte_of 34) (kind item +:+ String (byte_of 34) EmptyString))%string.

(** [publisher.Publish] *)
Inductive publish_op := PublishEvent (e : Event).
Definition publish_ans (o : publish_op) : Type := option string.
Abbreviation prog := (prog publish_ans).
Definition with_cache (c : Collector) (k : Cache) : Collector := {| cache := k; podContainers := podContainers c |}.
Definition publishDelta (c : Collector) (e : Event) (op : InventoryOperation) : prog (option string * Collector) :=
  if is_delete_op op || isDelete e then
    if negb (Exists (cache c) (Key e)) then Ret (None, c)
    else
      err ← call (PublishEvent e);
      match (err : option string) with
      | Some err => Ret (Some err, c)
      | None => Ret (None, with_cache c (Delete (cache c) (Key e)))
      end
  else
    match Changed (cache c) e with
    | Err err => Ret (Some err, c)
    | Ok (false, _) => Ret (None, c)
    | Ok (true, fingerprint) =>
        err ← call (PublishEvent e);
        match (err : option string) with
        | Some err => Ret (Some err, c)
        | None =>
            match Commit (cache c) (Key e) fingerprint with
            | Err err => Ret (Some err, c)
            | Ok k => Ret (None, with_cache c k)
            end
        end
    end.
Fixpoint publish_all (c : Collector) (es : list Event) (op : InventoryOperation) : prog (option string * Collector) :=
  match es with
  | [] => Ret (None, c)
  | e :: es' =>
      '(err, c') ← publishDelta c e op;
      match (err : option string) with Some err => Ret (Some err, c') | None => publish_all c' es' op end
  end.
Definition updatePodContainers (c : Collector) (item : change) (es : list Event) : Collector :=
  match changed_object item with
  | OPod pod =>
      let uid := UID (Pod_Meta pod) in
      if is_delete_op (operation item) then {| cache := cache c; podContainers := delete uid (podContainers c) |}
      else {| cache := cache c; podContainers := <[uid := foldl (λ m e, if isDelete e then m else <[Key e := e]> m) ∅ (tail es)]> (podContainers c) |}
  | _ => c
  end.
Definition process (c : Collector) (item : change) (order : list string) (clock : nat → Time * Time) : prog (option string * Collector) :=
  match events c item order clock with
  | Err err => Ret (Some err, c)
  | Ok es =>
      '(err, c') ← publish_all c es (operation item);
      match (err : option string) with
      | Some err => Ret (Some err, c')
      | None => Ret (None, if (kind item =? "pod")%string then updatePodContainers c' item es else c')
      end
  end.

(** ** The published inventory *)

(** What a consumer of the published events holds: the last observation per key,
    without the deleted ones *)
Abbreviation view := (gmap string Observation).
Definition observe (e : Event) (w : view) : view :=
  if isDelete e then delete (Key e) w
  else match EventObservation e with Some o => <[Key e := o]> w | None => w end.
Definition publish_effect (o : publish_op) (w : view) : publish_ans o → view → Prop :=
  match o with PublishEvent e => λ err w', w' = match err with None => observe e w | Some _ => w end end.

(** The cache holds the fingerprints of the published inventory. *)
Definition in_sync (c : Collector) (w : view) : Prop :=
  ∀ k, match w !! k with
       | Some o => ∃ f, Fingerprint (Some o) = Ok f ∧ cache_entries (cache c) !! k = Some f
       | None => cache_entries (cache c) !! k = None
       end.
(** The published inventory agrees with an event. *)
Definition mirrored (e : Event) (w : view) : Prop :=
  if isDelete e then w !! Key e = None
  else ∃ o, w !! Key e = Some o ∧ Fingerprint (Some o) = Fingerprint (EventObservation e).
Record delta (c c' : Collector) (w w' : view) (e : Event) (err : option string) : Prop := {
  delta_sync : in_sync c' w';
  delta_pods : podContainers c' = podContainers c;
  delta_frame k : k ≠ Key e → w' !! k = w !! k;
  delta_mirrored : err = None → mirrored e w';
  delta_quiet : mirrored e w → w' = w
}.
Lemma in_sync_Exists c w k : in_sync c w → Exists (cache c) k = bool_decide (is_Some (w !! k)).
Proof.
  intros Hs. specialize (Hs k). unfold Exists. destruct (w !! k) as [o|].
  - destruct Hs as (f & _ & ->). by rewrite bool_decide_eq_true_2 by eauto.
  - rewrite Hs. by rewrite bool_decide_eq_false_2 by (by intros [? ?]).
Qed.
Lemma publishDelta_delete c e op w err c' w' :
  isDelete e = true → in_sync c w → exec publish_effect (publishDelta c e op) w (err, c') w' → delta c c' w w' e err.
Proof.
  intros Hd Hs. unfold publishDelta. rewrite Hd, orb_true_r, (in_sync_Exists c w _ Hs).
  destruct (bool_decide_reflect (is_Some (w !! Key e))) as [Hin|Hout]; cbn [negb].
  - intros (answer & w1 & Hw1 & Hret). simpl in Hw1. destruct answer as [er|]; destruct Hret as [[= -> ->] ->]; subst w1.
    + split; try done.
    + unfold observe. rewrite Hd. split; simpl; try done.
      * intros k. specialize (Hs k). simpl. destruct (decide (k = Key e)) as [->|Hne].
        -- by rewrite !lookup_delete_eq.
        -- by rewrite !lookup_delete_ne by done.
      * intros k Hk. by rewrite lookup_delete_ne.
      * intros _. unfold mirrored. by rewrite Hd, lookup_delete_eq.
      * unfold mirrored. rewrite Hd. intros Hn. rewrite Hn in Hin. by destruct Hin.
  - intros [[= -> ->] ->]. split; try done. intros _. unfold mirrored. rewrite Hd. by apply eq_None_not_Some.
Qed.
Lemma publishDelta_upsert c e op w err c' w' :
  isDelete e = false → is_delete_op op = false → in_sync c w → exec publish_effect (publishDelta c e op) w (err, c') w' → delta c c' w w' e err.
Proof.
  intros Hd Hop Hs. unfold publishDelta. rewrite Hd, Hop. cbn [orb]. destruct (Changed (cache c) e) as [[changed f]|er] eqn:Hc.
  2:{ intros [[= -> ->] ->]. split; done. }
  pose proof (Changed_key_ne _ _ _ Hc) as [Hk Hf]. unfold Changed in Hc. destruct (Validate e) as [|] eqn:Hv; [done|].
  destruct (Fingerprint (EventObservation e)) as [f'|] eqn:Hfp; [|done].
  assert (f' = f) as ->.
  { destruct (cache_entries (cache c) !! Key e); congruence. }
  destruct (EventObservation e) as [o|] eqn:Ho; [|done].
  destruct changed.
  - intros (answer & w1 & Hw1 & Hret). simpl in Hw1. destruct answer as [er|]; [destruct Hret as [[= -> ->] ->]; subst w1; split; done|].
    unfold Commit in Hret. simpl in Hf. destruct (String.eqb_spec (Key e) ""); [done|]. destruct (String.eqb_spec f ""); [done|].
    destruct Hret as [[= -> ->] ->]. subst w1. unfold observe. rewrite Hd, Ho. split; simpl; try done.
    + intros k. specialize (Hs k). simpl. destruct (decide (k = Key e)) as [->|Hne].
      * rewrite !lookup_insert_eq. eauto.
      * by rewrite !lookup_insert_ne by done.
    + intros k Hne. by rewrite lookup_insert_ne.
    + intros _. unfold mirrored. rewrite Hd, lookup_insert_eq, Ho. eauto.
    + unfold mirrored. rewrite Hd, Ho, Hfp. intros (o' & Hw & Hfp'). specialize (Hs (Key e)). rewrite Hw in Hs.
      destruct Hs as (f0 & Hf0 & He). rewrite Hf0 in Hfp'. injection Hfp' as ->. rewrite He in Hc. injection Hc as Hc.
      by rewrite String.eqb_refl in Hc.
  - intros [[= -> ->] ->]. split; try done. intros _. unfold mirrored. rewrite Hd, Ho, Hfp.
    specialize (Hs (Key e)). destruct (cache_entries (cache c) !! Key e) as [f0|] eqn:He; [|done]. injection Hc as Hc.
    apply negb_false_iff, String.eqb_eq in Hc as ->. destruct (w !! Key e) as [o'|]; [|done].
    destruct Hs as (f1 & Hf1 & [= <-]). eauto.
Qed.
Definition coherent (op : InventoryOperation) (es : list Event) : Prop := is_delete_op op = true → Forall (λ e, isDelete e = true) es.
Lemma publish_all_spec es c op w err c' w' :
  coherent op es → NoDup (Key <$> es) → in_sync c w → exec publish_effect (publish_all c es op) w (err, c') w' →
  in_sync c' w' ∧ podContainers c' = podContainers c ∧ (∀ k, k ∉ Key <$> es → w' !! k = w !! k) ∧
  (err = None → Forall (λ e, mirrored e w') es) ∧ Forall (λ e, mirrored e w → w' !! Key e = w !! Key e) es.
Proof.
  revert c w. induction es as [|e es IH]; intros c w Hco Hnd Hs Hex; [destruct Hex as [[= -> ->] ->]; split_and!; try done; constructor|].
  simpl in Hex. apply exec_bind in Hex as ([er c1] & w1 & Hd & Hrest). csimpl in Hnd. apply NoDup_cons in Hnd as [Hk Hnd].
  assert (delta c c1 w w1 e er) as Hdelta.
  { destruct (isDelete e) eqn:Hde; [by apply (publishDelta_delete c e op)|]. apply (publishDelta_upsert c e op); try done.
    destruct (is_delete_op op) eqn:Hop; [|done]. specialize (Hco Hop). rewrite Forall_cons in Hco. destruct Hco; congruence. }
  destruct Hdelta as [Hs1 Hp1 Hf1 Hm1 Hq1].
  assert (∀ x, x ∈ es → w1 !! Key x = w !! Key x) as Hsame
    by (intros x Hx; apply Hf1; intros Heq; apply Hk; rewrite <- Heq; by apply list_elem_of_fmap_2).
  destruct er as [er|].
  - destruct Hrest as [[= -> ->] ->]. split_and!; try done.
    + intros k Hkn. apply Hf1. csimpl in Hkn. set_solver.
    + constructor; [intros Hm; by rewrite (Hq1 Hm)|]. apply Forall_forall. auto.
  - destruct (IH c1 w1) as (Hs2 & Hp2 & Hf2 & Hm2 & Hq2); try done.
    { intros Hop. specialize (Hco Hop). by apply Forall_cons in Hco as [_ ?]. }
    assert (w' !! Key e = w1 !! Key e) as Hke by (by apply Hf2).
    split_and!; try done.
    + congruence.
    + intros k Hkn. csimpl in Hkn. rewrite Hf2 by set_solver. apply Hf1. set_solver.
    + intros Herr. constructor; [|by apply Hm2]. specialize (Hm1 eq_refl). unfold mirrored in *. rewrite Hke. done.
    + constructor; [intros Hm; rewrite Hke; by rewrite (Hq1 Hm)|].
      rewrite Forall_forall in *. intros x Hx Hm. rewrite Hq2; [by apply Hsame|done|]. unfold mirrored in *. by rewrite Hsame.
Qed.

(** ** The events of a change *)

(** The cluster and snapshot events the agent queues itself *)
Definition announcement (e : Event) : Prop :=
  (∃ clusterID version namespace now, e = Cluster clusterID version namespace now) ∨
  (∃ snapshotID phase times, e = Snapshot snapshotID phase times).
(** What the API server guarantees of the objects it reports *)
Definition wf_object (op : InventoryOperation) (o : object) : Prop :=
  match o with
  | ONode n => UID (Node_Meta n) ≠ EmptyString
  | ONamespace n => UID (Namespace_Meta n) ≠ EmptyString
  | ODeployment d => UID (Deployment_Meta d) ≠ EmptyString
  | OPod p =>
      UID (Pod_Meta p) ≠ EmptyString ∧ EmptyString ∉ (Container_Name <$> (InitContainers p ++ Containers_ p))
      ∧ NoDup (Container_Name <$> InitContainers p) ∧ NoDup (Container_Name <$> Containers_ p)
  | OEvent e => op = INVENTORY_OPERATION_UPSERT ∧ announcement e
  end.
Definition wf_change (item : change) : Prop :=
  (operation item = INVENTORY_OPERATION_UPSERT ∨ operation item = INVENTORY_OPERATION_DELETE)
  ∧ wf_object (operation item) (changed_object item).

(** An event the builders make of a container of the pod [uid] *)
Definition container_event (uid : string) (op : InventoryOperation) (e : Event) : Prop :=
  ∃ pod c status ns workloadKind workloadUID init times,
    e = container pod c status ns workloadKind workloadUID init op times
    ∧ UID (Pod_Meta pod) = uid ∧ uid ≠ EmptyString ∧ Container_Name c ≠ EmptyString.
(** The tracked containers of a pod are the upserts last published for it, by key. *)
Definition tracked_ok (c : Collector) : Prop :=
  ∀ uid m key e, podContainers c !! uid = Some m → m !! key = Some e →
    Key e = key ∧ container_event uid INVENTORY_OPERATION_UPSERT e.
Definition previous (c : Collector) (p : Pod) : gmap string Event := default ∅ (podContainers c !! UID (Pod_Meta p)).
(** [order] visits the keys of the pod's tracked containers once each. *)
Definition visits (c : Collector) (item : change) (order : list string) : Prop :=
  match changed_object item with OPod p => order ≡ₚ (map_to_list (previous c p)).*1 | _ => True end.
Definition accepted (e : Event) : Prop :=
  Validate e = None ∧ ∃ o, EventObservation e = Some o ∧ Server.Server.validateInventoryObservation o = None.

Lemma container_event_facts uid op e :
  (op = INVENTORY_OPERATION_UPSERT ∨ op = INVENTORY_OPERATION_DELETE) → container_event uid op e →
  accepted e ∧ isDelete e = is_delete_op op ∧ Key e ≠ "pod/" +:+ uid.
Proof.
  intros Hop (pod & c & status & ns & wk & wu & init & times & -> & Huid & Hu & Hn). subst uid.
  unfold accepted, container. destruct (containerTimes status) as [t1 t2], times as [t3 t4]. simpl. split_and!.
  - by destruct init.
  - eexists. split; [done|]. unfold Server.Server.validateInventoryObservation, Server.Server.record_and. simpl.
    destruct (String.eqb_spec (UID (Pod_Meta pod)) ""); [done|]. destruct (String.eqb_spec (Container_Name c) ""); [done|].
    by destruct Hop as [->| ->].
  - done.
  - by destruct init.
Qed.
Lemma asDelete_container uid e :
  container_event uid INVENTORY_OPERATION_UPSERT e → container_event uid INVENTORY_OPERATION_DELETE (asDelete e) ∧ Key (asDelete e) = Key e.
Proof.
  intros (pod & c & status & ns & wk & wu & init & times & -> & Huid & Hu & Hn). split.
  - exists pod, c, status, ns, wk, wu, init, times. split_and!; try done. unfold asDelete, container.
    destruct (containerTimes status), times. done.
  - unfold asDelete, container. destruct (containerTimes status), times. done.
Qed.

Definition container_key (uid : string) (init : bool) (name : string) : string :=
  (if init then "init-container" else "container") +:+ "/" +:+ uid +:+ "/" +:+ name.
Lemma container_key_inj uid i1 n1 i2 n2 : container_key uid i1 n1 = container_key uid i2 n2 → i1 = i2 ∧ n1 = n2.
Proof.
  unfold container_key. destruct i1, i2; try done; intros H'; split; try done; by repeat apply (inj (String.append _)) in H'.
Qed.
Lemma container_Key pod c status ns wk wu init op times :
  Key (container pod c status ns wk wu init op times) = container_key (UID (Pod_Meta pod)) init (Container_Name c).
Proof. unfold container. by destruct (containerTimes status). Qed.
Lemma Containers_keys p ns op clock :
  Key <$> Containers p ns op clock =
  (container_key (UID (Pod_Meta p)) true <$> (Container_Name <$> InitContainers p)) ++
  (container_key (UID (Pod_Meta p)) false <$> (Container_Name <$> Containers_ p)).
Proof.
  unfold Containers. destruct (workloadOwner _) as [wk wu]. rewrite fmap_app, !fmap_imap, <- !list_fmap_compose.
  f_equal; rewrite <- imap_const; apply imap_ext; intros i x _; simpl; by rewrite container_Key.
Qed.
Lemma Containers_NoDup p ns op clock :
  NoDup (Container_Name <$> InitContainers p) → NoDup (Container_Name <$> Containers_ p) → NoDup (Key <$> Containers p ns op clock).
Proof.
  intros H1 H2. rewrite Containers_keys. apply NoDup_app. split_and!.
  - apply NoDup_fmap; [|done]. intros a b Heq. by apply container_key_inj in Heq as [_ ?].
  - intros k (a & -> & _)%list_elem_of_fmap (b & Heq & _)%list_elem_of_fmap. by apply container_key_inj in Heq as [? _].
  - apply NoDup_fmap; [|done]. intros a b Heq. by apply container_key_inj in Heq as [_ ?].
Qed.
Lemma Containers_events p ns op clock :
  UID (Pod_Meta p) ≠ EmptyString → EmptyString ∉ (Container_Name <$> (InitContainers p ++ Containers_ p)) →
  Forall (container_event (UID (Pod_Meta p)) op) (Containers p ns op clock).
Proof.
  intros Hu Hne. unfold Containers. destruct (workloadOwner _) as [wk wu].
  assert (∀ c, c ∈ InitContainers p ++ Containers_ p → Container_Name c ≠ EmptyString) as Hc.
  { intros c Hc He. apply Hne. rewrite <- He. by apply list_elem_of_fmap_2. }
  apply Forall_app. split; apply Forall_forall; intros e He; apply elem_of_lookup_imap in He as (i & c & -> & Hl);
    apply list_elem_of_lookup_2 in Hl; repeat eexists; try done; apply Hc, elem_of_app; auto.
Qed.
Lemma removed_spec uid m current order e :
  (∀ key e, m !! key = Some e → Key e = key ∧ container_event uid INVENTORY_OPERATION_UPSERT e) → order ≡ₚ (map_to_list m).*1 →
  e ∈ removed m current order →
  container_event uid INVENTORY_OPERATION_DELETE e ∧ Key e ∉ current ∧ is_Some (m !! Key e).
Proof.
  intros Hm Ho He. unfold removed in He. apply list_elem_of_omap in He as (key & Hk & He).
  case_bool_decide as Hcur; [done|]. apply fmap_Some in He as (e0 & He0 & ->). destruct (Hm _ _ He0) as [<- Hev].
  destruct (asDelete_container uid e0 Hev) as [H1 H2]. rewrite H2. eauto.
Qed.
Lemma removed_keys uid m current order :
  (∀ key e, m !! key = Some e → Key e = key ∧ container_event uid INVENTORY_OPERATION_UPSERT e) → order ≡ₚ (map_to_list m).*1 →
  Key <$> removed m current order = filter (λ k, k ∉ current) order.
Proof.
  intros Hm Ho. assert (∀ k, k ∈ order → is_Some (m !! k)) as Hin.
  { intros k Hk. rewrite Ho in Hk. apply list_elem_of_fmap in Hk as ([k' e] & -> & Hk%elem_of_map_to_list). eauto. }
  clear Ho. induction order as [|k order IH]; [done|]. unfold removed in *. rewrite filter_cons. simpl.
  case_bool_decide as Hcur.
  - rewrite decide_False by auto. apply IH. intros. apply Hin. by right.
  - rewrite decide_True by done. destruct (Hin k) as [e He]; [by left|]. rewrite He. csimpl. f_equal.
    + destruct (Hm _ _ He) as [<- Hev]. by apply (asDelete_container uid).
    + apply IH. intros. apply Hin. by right.
Qed.

Lemma record_and_accepts op missing err :
  (op = INVENTORY_OPERATION_UPSERT ∨ op = INVENTORY_OPERATION_DELETE) → missing = false →
  Server.Server.record_and (record op) missing err = None.
Proof. by intros [->| ->] ->. Qed.
(** The single event of a change of another kind than a pod *)
Lemma events_single c item order clock es :
  wf_change item → (∀ p, changed_object item ≠ OPod p) → events c item order clock = Ok es →
  ∃ e, es = [e] ∧ accepted e ∧ isDelete e = is_delete_op (operation item).
Proof.
  intros [Hop Hwf] Hpod. unfold events. destruct (clock 0%nat) as [t1 t2] eqn:Hclock.
  destruct (changed_object item) as [n|n|d|p|e]; simpl in Hwf; [| | |by destruct (Hpod p)|];
    repeat case_match; intros; simplify_eq; eexists; (split; [done|]); unfold accepted; simpl.
  1-3: split; [|done]; split; [done|]; eexists; (split; [done|]); apply record_and_accepts; [done|]; by apply String.eqb_neq.
  destruct Hwf as [-> [(?&?&?&?&->)|(?&?&[? ?]&->)]]; simpl; split; try done; split; try done; eexists; done.
Qed.
Lemma events_pod c item p order clock es :
  wf_change item → changed_object item = OPod p → visits c item order → tracked_ok c → events c item order clock = Ok es →
  let uid := UID (Pod_Meta p) in
  let containers := Containers p (namespaceUID (Namespace_ (Pod_Meta p))) (operation item) (λ i, clock (S i)) in
  ∃ gone, es = PodEvent p (namespaceUID (Namespace_ (Pod_Meta p))) (operation item) (clock 0%nat) :: containers ++ gone
  ∧ Forall (container_event uid (operation item)) containers ∧ Forall (container_event uid INVENTORY_OPERATION_DELETE) gone
  ∧ NoDup (Key <$> containers ++ gone)
  ∧ (operation item = INVENTORY_OPERATION_UPSERT → ∀ k, is_Some (previous c p !! k) → k ∈ Key <$> containers ++ gone).
Proof.
  intros [Hop Hwf] Ho Hv Ht. unfold visits in Hv. unfold events. rewrite Ho in *. simpl in Hwf. destruct Hwf as (Hu & Hne & Hn1 & Hn2).
  assert (∀ key e, previous c p !! key = Some e → Key e = key ∧ container_event (UID (Pod_Meta p)) INVENTORY_OPERATION_UPSERT e) as Hprev.
  { unfold previous. intros key e He. destruct (podContainers c !! UID (Pod_Meta p)) as [m|] eqn:Hm; [by apply (Ht _ m)|]. simpl in He.
    by rewrite lookup_empty in He. }
  pose proof (Containers_events p (namespaceUID (Namespace_ (Pod_Meta p))) (operation item) (λ i, clock (S i)) Hu Hne) as Hev.
  pose proof (Containers_NoDup p (namespaceUID (Namespace_ (Pod_Meta p))) (operation item) (λ i, clock (S i)) Hn1 Hn2) as Hnd.
  set (containers := Containers _ _ _ _) in *.
  destruct (is_upsert (operation item)) eqn:Hup; repeat case_match; intros; simplify_eq; simpl; eexists; (split; [done|]); (split; [done|]);
    [|rewrite app_nil_r; split_and!; [constructor|done|intros Hu'; by rewrite Hu' in Hup]].
  fold (previous c p). split_and!.
  - apply Forall_forall. intros e He. by apply (removed_spec (UID (Pod_Meta p)) (previous c p) (Key <$> containers) order).
  - rewrite fmap_app, (removed_keys (UID (Pod_Meta p))) by done. apply NoDup_app. split_and!; [done| |].
    + intros k Hk Hk'. by apply list_elem_of_filter in Hk' as [? _].
    + apply NoDup_filter. rewrite Hv. apply NoDup_fst_map_to_list.
  - intros _ k [e He]. rewrite fmap_app, (removed_keys (UID (Pod_Meta p))) by done. apply elem_of_app.
    destruct (decide (k ∈ Key <$> containers)); [by left|right]. apply list_elem_of_filter. split; [done|]. rewrite Hv.
    apply list_elem_of_fmap. exists (k, e). split; [done|]. by apply elem_of_map_to_list.
Qed.
Lemma PodEvent_facts p ns op times :
  (op = INVENTORY_OPERATION_UPSERT ∨ op = INVENTORY_OPERATION_DELETE) → UID (Pod_Meta p) ≠ EmptyString →
  accepted (PodEvent p ns op times) ∧ isDelete (PodEvent p ns op times) = is_delete_op op ∧ Key (PodEvent p ns op times) = "pod/" +:+ UID (Pod_Meta p).
Proof.
  intros Hop Hu. unfold PodEvent, accepted. destruct (workloadOwner _), times. simpl. split_and!; try done.
  eexists. split; [done|]. apply record_and_accepts; [done|]. by apply String.eqb_neq.
Qed.

Lemma events_wf c item order clock es :
  wf_change item → visits c item order → tracked_ok c → events c item order clock = Ok es →
  Forall accepted es ∧ coherent (operation item) es ∧ NoDup (Key <$> es).
Proof.
  intros Hwf Hv Ht He.
  assert ((∃ p, changed_object item = OPod p) ∨ ∀ p, changed_object item ≠ OPod p) as [[p Hp]|Hp]
    by (destruct (changed_object item); eauto).
  - destruct (events_pod c item p order clock es Hwf Hp Hv Ht He) as (gone & -> & Hc & Hg & Hnd & _).
    destruct Hwf as [Hop Hwf]. rewrite Hp in Hwf. destruct Hwf as (Hu & _).
    destruct (PodEvent_facts p (namespaceUID (Namespace_ (Pod_Meta p))) (operation item) (clock 0%nat) Hop Hu) as (Ha & Hd & Hk).
    assert (Forall (λ e, accepted e ∧ (is_delete_op (operation item) = true → isDelete e = true) ∧ Key e ≠ "pod/" +:+ UID (Pod_Meta p))
      (Containers p (namespaceUID (Namespace_ (Pod_Meta p))) (operation item) (λ i, clock (S i)) ++ gone)) as Hall.
    { apply Forall_app. split.
      - eapply Forall_impl; [exact Hc|]. intros e Hce. destruct (container_event_facts _ _ _ Hop Hce) as (?&He'&?). split_and!; try done. congruence.
      - eapply Forall_impl; [exact Hg|]. intros e Hce. by destruct (container_event_facts _ _ _ (or_intror eq_refl) Hce) as (?&->&?). }
    rewrite Forall_forall in Hall. split_and!.
    + constructor; [done|]. apply Forall_forall. intros e Hin. by apply Hall.
    + intros Hdel. constructor; [congruence|]. apply Forall_forall. intros e Hin. by apply Hall.
    + csimpl. apply NoDup_cons. split; [|done]. rewrite Hk. intros (e & Heq & Hin)%list_elem_of_fmap. by apply (Hall e Hin).
  - destruct (events_single c item order clock es Hwf Hp He) as (e & -> & Ha & Hd). split_and!.
    + by constructor.
    + intros Hdel. constructor; [congruence|constructor].
    + apply NoDup_singleton.
Qed.

Definition kind_matches (item : change) : Prop :=
  match changed_object item with
  | ONode _ => kind item = "node"
  | ONamespace _ => kind item = "namespace"
  | ODeployment _ => kind item = "deployment"
  | OPod _ => kind item = "pod"
  | OEvent _ => kind item = "cluster" ∨ kind item = "snapshot"
  end%string.

(** C26: every change the informers report of a well-formed object is turned into
    events, each of which passes [Event.Validate] and the ingestion service's
    [validateInventoryObservation], with pairwise distinct keys. *)
Theorem collected_events_accepted c item order clock :
  wf_change item → kind_matches item → visits c item order → tracked_ok c →
  ∃ es, events c item order clock = Ok es ∧ Forall accepted es ∧ NoDup (Key <$> es).
Proof.
  intros Hwf Hk Hv Ht. destruct (events c item order clock) as [es|err] eqn:He.
  - exists es. split; [done|]. by destruct (events_wf c item order clock es) as (?&_&?).
  - unfold kind_matches in Hk. unfold events in He.
    destruct (changed_object item); [rewrite Hk in He; done..|]. destruct Hk as [Hk|Hk]; rewrite Hk in He; done.
Qed.

(** The keys of a pod's containers *)
Definition container_keys (p : Pod) : list string :=
  (container_key (UID (Pod_Meta p)) true <$> (Container_Name <$> InitContainers p)) ++
  (container_key (UID (Pod_Meta p)) false <$> (Container_Name <$> Containers_ p)).
(** After an upsert of a pod exactly its containers are tracked, and those it no
    longer has are gone from the published inventory. *)
Definition pod_tracks (c c' : Collector) (w' : view) (p : Pod) : Prop :=
  (∀ k, is_Some (previous c' p !! k) ↔ k ∈ container_keys p) ∧
  (∀ k, is_Some (previous c p !! k) → k ∉ container_keys p → w' !! k = None).

Definition track (m : gmap string Event) (e : Event) : gmap string Event := if isDelete e then m else <[Key e := e]> m.
Lemma track_lookup es m k e :
  foldl track m es !! k = Some e → m !! k = Some e ∨ e ∈ es ∧ isDelete e = false ∧ Key e = k.
Proof.
  revert m. induction es as [|e' es IH]; intros m He; simpl in *; [by left|]. apply IH in He as [He|He]; [|set_solver].
  unfold track in He. destruct (isDelete e') eqn:Hd; [by left|]. apply lookup_insert_Some in He as [[<- ->]|[_ He]]; set_solver.
Qed.
Lemma track_keeps es m k : is_Some (m !! k) → is_Some (foldl track m es !! k).
Proof.
  revert m. induction es as [|e es IH]; intros m Hm; simpl; [done|]. apply IH. unfold track. destruct (isDelete e); [done|].
  destruct (decide (Key e = k)) as [->|]; [rewrite lookup_insert_eq|rewrite lookup_insert_ne by done]; eauto.
Qed.
Lemma track_adds es m e : e ∈ es → isDelete e = false → is_Some (foldl track m es !! Key e).
Proof.
  revert m. induction es as [|e' es IH]; intros m He Hd; [by apply elem_of_nil in He|]. simpl.
  apply elem_of_cons in He as [->|He]; [|by apply IH]. apply track_keeps. unfold track. rewrite Hd, lookup_insert_eq. eauto.
Qed.
Lemma updatePodContainers_ok c c' item p order clock es w' :
  wf_change item → changed_object item = OPod p → visits c item order → tracked_ok c → events c item order clock = Ok es →
  podContainers c' = podContainers c → Forall (λ e, mirrored e w') es →
  tracked_ok (updatePodContainers c' item es) ∧
  (operation item = INVENTORY_OPERATION_UPSERT → pod_tracks c (updatePodContainers c' item es) w' p).
Proof.
  intros Hwf Hp Hv Ht He Hpc Hm. destruct (events_pod c item p order clock es Hwf Hp Hv Ht He) as (gone & -> & Hc & Hg & Hnd & Hall).
  destruct Hwf as [Hop _]. unfold updatePodContainers. rewrite Hp.
  pose proof (Containers_keys p (namespaceUID (Namespace_ (Pod_Meta p))) (operation item) (λ i, clock (S i))) as Hkeys.
  fold (container_keys p) in Hkeys. set (containers := Containers _ _ _ _) in *. rewrite Forall_forall in Hc, Hg.
  assert (∀ e, e ∈ gone → isDelete e = true) as Hgd.
  { intros e Hin. by destruct (container_event_facts _ _ _ (or_intror eq_refl) (Hg e Hin)) as (_&->&_). }
  destruct (is_delete_op (operation item)) eqn:Hdel.
  { split; [|by intros Hu; rewrite Hu in Hdel]. intros u m k e. simpl. rewrite Hpc. intros [_ Hl]%lookup_delete_Some. by apply Ht. }
  assert (operation item = INVENTORY_OPERATION_UPSERT) as Hup by (destruct Hop as [?|Hop]; [done|by rewrite Hop in Hdel]).
  specialize (Hall Hup). rewrite Hup in *. fold track. cbn [tail].
  assert (∀ e, e ∈ containers → isDelete e = false) as Hcd.
  { intros e Hin. by destruct (container_event_facts _ _ _ (or_introl eq_refl) (Hc e Hin)) as (_&->&_). }
  assert (∀ k e, foldl track ∅ (containers ++ gone) !! k = Some e → e ∈ containers ∧ Key e = k) as Htr.
  { intros k e [Hl|(Hin & Hd & Hk)]%track_lookup; [by rewrite lookup_empty in Hl|]. split; [|done].
    apply elem_of_app in Hin as [?|Hin]; [done|]. by rewrite (Hgd _ Hin) in Hd. }
  split.
  - intros u m k e. simpl. rewrite Hpc. intros [[<- <-]|[_ Hl]]%lookup_insert_Some; [|by apply Ht].
    intros [Hin Hk]%Htr. split; [done|]. by apply Hc.
  - intros _. unfold pod_tracks. unfold previous at 1. simpl. rewrite lookup_insert_eq. simpl. split.
    + intros k. rewrite <- Hkeys. split.
      * intros [e [Hin <-]%Htr]. by apply list_elem_of_fmap_2.
      * intros (e & -> & Hin)%list_elem_of_fmap. apply track_adds; [apply elem_of_app; by left|by apply Hcd].
    + intros k Hk Hnot. apply Hall in Hk as (e & -> & [Hin|Hin]%elem_of_app)%list_elem_of_fmap.
      { destruct Hnot. rewrite <- Hkeys. by apply list_elem_of_fmap_2. }
      rewrite Forall_forall in Hm. specialize (Hm e). unfold mirrored in Hm. rewrite (Hgd e Hin) in Hm. apply Hm.
      right. apply elem_of_app. by right.
Qed.
Lemma updatePodContainers_cache c item es : cache (updatePodContainers c item es) = cache c.
Proof. unfold updatePodContainers. by repeat case_match. Qed.
Lemma updatePodContainers_other c item es : (∀ p, changed_object item ≠ OPod p) → updatePodContainers c item es = c.
Proof. unfold updatePodContainers. intros Hp. case_match; naive_solver. Qed.
Lemma events_pod_kind c item order clock es p :
  events c item order clock = Ok es → changed_object item = OPod p → (kind item =? "pod")%string = true.
Proof. unfold events. intros He Hp. rewrite Hp in He. by repeat case_match. Qed.

(** Processing a change keeps the change cache in step with the inventory the
    published events describe, whichever publications fail. When it succeeds every
    event of the change is reflected there; events that already were are not
    published again, other keys are untouched, and after the upsert of a pod exactly
    its containers are tracked and the containers it lost are deleted. *)
Theorem collector_mirrors_changes c item order clock w err c' w' :
  wf_change item → visits c item order → in_sync c w → tracked_ok c →
  exec publish_effect (process c item order clock) w (err, c') w' →
  in_sync c' w' ∧ tracked_ok c' ∧
  match events c item order clock with
  | Err e => err = Some e ∧ c' = c ∧ w' = w
  | Ok es =>
      (∀ k, k ∉ Key <$> es → w' !! k = w !! k) ∧
      Forall (λ e, mirrored e w → w' !! Key e = w !! Key e) es ∧
      (err = None → Forall (λ e, mirrored e w') es ∧
        ∀ p, changed_object item = OPod p → operation item = INVENTORY_OPERATION_UPSERT → pod_tracks c c' w' p)
  end.
Proof.
  intros Hwf Hv Hs Ht. unfold process. destruct (events c item order clock) as [es|e] eqn:He; [|by intros [[= -> ->] ->]].
  intros Hex. apply exec_bind in Hex as ([er c1] & w1 & Hp & Hret). destruct (events_wf c item order clock es Hwf Hv Ht He) as (_ & Hco & Hnd).
  destruct (publish_all_spec es c (operation item) w er c1 w1 Hco Hnd Hs Hp) as (Hs1 & Hpc & Hframe & Hm & Hq).
  assert (tracked_ok c1) as Ht1 by (intros u; rewrite Hpc; apply Ht).
  destruct er as [er|]; destruct Hret as [[= -> ->] ->]; [by split_and!|]. specialize (Hm eq_refl).
  assert ((∃ p, changed_object item = OPod p) ∨ ∀ p, changed_object item ≠ OPod p) as [[p Hpo]|Hpo]
    by (destruct (changed_object item); eauto).
  - rewrite (events_pod_kind _ _ _ _ _ _ He Hpo).
    destruct (updatePodContainers_ok c c1 item p order clock es w1) as [Ht2 Htr]; try done. split_and!; try done.
    + intros k. rewrite updatePodContainers_cache. apply Hs1.
    + intros _. split; [done|]. intros p' Hp'. rewrite Hpo in Hp'. injection Hp' as <-. done.
  - rewrite updatePodContainers_other by done. assert (∀ b : bool, (if b then c1 else c1) = c1) as Hb by (by intros []). rewrite Hb.
    split_and!; try done. intros _. split; [done|]. intros p Hp'. by destruct (Hpo p).
Qed.
End builders.

(** ** A pod that loses a container *)
#[local] Existing Instance sample_codec.

Definition sample_pod (names : list string) : Pod :=
  {| Pod_Meta := {| UID := "p1"; Name := "web"; Namespace_ := "shop"; ResourceVersion := "7"; Labels := ∅;
       CreationTimestamp := unix_epoch; DeletionTimestamp := None; OwnerReferences := [] |};
     Pod_SpecNodeName := "n1"; Pod_ServiceAccount := "default"; Pod_PriorityClass := ""; InitContainers := [];
     Containers_ := (λ name, {| Container_Name := name; Container_ImageName := "img"; RequestList := {["cpu" := 2]};
                                LimitList := ∅ |}) <$> names;
     Pod_StatusPhase := "Running"; Pod_QOSClass := "Burstable"; Conditions := []; StartTime := None;
     InitContainerStatuses := []; ContainerStatuses := [] |}%string.
Definition sample_change (names : list string) : change (Quantity := Z) (LabelSelector := unit) :=
  {| kind := "pod"; changed_object := OPod (sample_pod names); operation := INVENTORY_OPERATION_UPSERT |}.
Definition sample_process (c : Collector) (names order : list string) :=
  process (λ q, 1000 * q) (λ q, q) dec (λ _ : option unit, EmptyString) (λ _, Some "ns-1"%string) c
    (sample_change names) order (λ _, (unix_epoch, unix_epoch)).
Definition publishes (o : publish_op) (w : gmap string Observation) : publish_ans o * gmap string Observation :=
  match o with PublishEvent e => (None, observe e w) end.
Definition sample_first := run publishes (sample_process NewCollector ["app"; "old"]%string []) ∅.
Definition sample_second := run publishes (sample_process sample_first.1.2 ["app"]%string ["container/p1/app"; "container/p1/old"]%string) sample_first.2.

Lemma sample_wf names : EmptyString ∉ names → NoDup names → wf_change (sample_change names).
Proof.
  intros Hne Hnd. split; [by left|]. simpl. rewrite <- list_fmap_compose. unfold compose. simpl. rewrite list_fmap_id.
  split_and!; try done. constructor.
Qed.
Lemma collector_mirrors_changes_witness :
  in_sync sample_second.1.2 sample_second.2 ∧ sample_second.1.1 = None
  ∧ sample_first.2 !! "container/p1/old"%string ≠ None ∧ sample_second.2 !! "container/p1/old"%string = None.
Proof.
  set (mv := λ q, 1000 * q). set (v := λ q : Z, q). set (fs := λ _ : option unit, EmptyString). set (l := λ _ : string, Some "ns-1"%string).
  destruct (collector_mirrors_changes mv v dec fs l NewCollector (sample_change ["app"; "old"]%string) []
    (λ _, (unix_epoch, unix_epoch)) ∅ sample_first.1.1 sample_first.1.2 sample_first.2) as (Hs1 & Ht1 & _).
  { apply sample_wf; [set_solver|]. repeat constructor; set_solver. }
  { by vm_compute. }
  { intros k. rewrite lookup_empty. apply lookup_empty. }
  { intros u m k e. simpl. by rewrite lookup_empty. }
  { rewrite <- surjective_pairing. apply run_exec. by intros []. }
  destruct (collector_mirrors_changes mv v dec fs l sample_first.1.2 (sample_change ["app"]%string)
    ["container/p1/app"; "container/p1/old"]%string (λ _, (unix_epoch, unix_epoch)) sample_first.2 sample_second.1.1 sample_second.1.2
    sample_second.2) as (Hs2 & _ & _).
  { apply sample_wf; [set_solver|]. repeat constructor; set_solver. }
  { unfold visits. simpl. vm_compute. apply Permutation_swap. }
  { exact Hs1. }
  { exact Ht1. }
  { rewrite <- surjective_pairing. apply run_exec. by intros []. }
  split; [exact Hs2|]. split; [vm_compute; reflexivity|]. split; [vm_compute; discriminate|vm_compute; reflexivity].
Defined.
Lemma collected_events_accepted_witness :
  ∃ es, events (λ q, 1000 * q) (λ q : Z, q) dec (λ _ : option unit, EmptyString) (λ _, Some "ns-1"%string)
          NewCollector (sample_change ["app"; "old"]%string) [] (λ _, (unix_epoch, unix_epoch)) = Ok es
        ∧ Forall accepted es ∧ NoDup (Key <$> es).
Proof.
  apply collected_events_accepted.
  - apply sample_wf; [set_solver|]. repeat constructor; set_solver.
  - done.
  - by vm_compute.
  - intros u m k e. simpl. by rewrite lookup_empty.
Defined.

(** ** A stale change that is retried *)

Definition sample_node : Node (Quantity := Z) :=
  {| Node_Meta := {| UID := "n1"; Name := "worker"; Namespace_ := ""; ResourceVersion := "7"; Labels := ∅;
       CreationTimestamp := unix_epoch; DeletionTimestamp := None; OwnerReferences := [] |};
     Node_ProviderID := ""; Node_Unschedulable := false; Node_TaintList := []; Node_Arch := "arm64"; Node_OS := "linux";
     Node_CapacityList := ∅; Node_AllocatableList := ∅ |}%string.
Definition sample_node_process (c : Collector) (n : notification) :=
  process (λ q, 1000 * q) (λ q, q) dec (λ _ : option unit, EmptyString) (λ _, None) c (handler "node" n) []
    (λ _, (unix_epoch, unix_epoch)).
Definition refuses (o : publish_op) (w : gmap string Observation) : publish_ans o * gmap string Observation :=
  match o with PublishEvent e => (Some "publish failed"%string, w) end.
(** A change that fails goes back to the queue behind the later changes of its
    object: a node whose addition could not be published at first and that is
    deleted in the meantime is published as present by the retry, and no later
    change removes it. *)
Lemma stale_retry_resurrects :
  let first := run refuses (sample_node_process NewCollector (Added (ONode sample_node))) ∅ in
  let deleted := run publishes (sample_node_process first.1.2 (Deleted (ONode sample_node))) first.2 in
  let retried := run publishes (sample_node_process deleted.1.2 (Added (ONode sample_node))) deleted.2 in
  first.1.1 = Some "publish failed"%string ∧ deleted.1.1 = None ∧ retried.1.1 = None
  ∧ deleted.2 !! "node/n1"%string = None ∧ retried.2 !! "node/n1"%string ≠ None.
Proof. vm_compute. repeat split; discriminate. Qed.
End Collector.
