(* ===== verification/CollectorRun.v ===== *)
(** * The inventory collector at work

    [Start], [handler], [runWorker] and [processNext] of [agent/inventory/collector.go]:
    the informers and their buffers, the rate limiting work queue and the worker as
    steps of a relation, in any order and with any failures. [Collector.v] has what the
    worker does with one change. *)
From stdpp Require Import base option list gmap strings relations.
From Stdlib Require Import ZArith Lia.
From S2P Require Import Prelude Effects Proto Inventory Collector.

Module CollectorRun.
Import Collector.

Section run.
Context {Quantity : Type} (MilliValue Value : Quantity → Z) (Quantity_String : Quantity → string).
Context {LabelSelector : Type} (FormatLabelSelector : option LabelSelector → string).
Context `{Protobuf} (clusterID : string).
Abbreviation change := (change (Quantity := Quantity) (LabelSelector := LabelSelector)).
Abbreviation notification := (notification (Quantity := Quantity) (LabelSelector := LabelSelector)).
Abbreviation process := (process MilliValue Value Quantity_String FormatLabelSelector).
Abbreviation events := (events MilliValue Value Quantity_String FormatLabelSelector).
Abbreviation tracked_ok := (tracked_ok MilliValue Value Quantity_String).

(** ** What the collector queues itself *)

Definition snapshot_id (now : Time) : string := clusterID +:+ "-" +:+ dec (UnixNano now).
Definition marker (id : string) (phase : InventorySnapshotPhase) (times : Time * Time) : change := {|
  kind := "snapshot"; changed_object := OEvent (Snapshot id phase times); operation := INVENTORY_OPERATION_UPSERT |}.
Definition cluster_change (version : string) (namespace : Namespace) (now : Time) : change := {|
  kind := "cluster"; changed_object := OEvent (Cluster clusterID version namespace now); operation := INVENTORY_OPERATION_UPSERT |}.
(** The first error of registering the handlers *)
Definition register (AddEventHandler : string → option string) : option string :=
  foldr (λ kind later, match AddEventHandler kind with Some e => Some ("register " +:+ kind +:+ " informer: " +:+ e) | None => later end) None
    ["node"; "namespace"; "deployment"; "pod"]%string.
(** What the collector reads once the stores are synchronised, and its errors *)
Definition after_sync (synced : bool) (ServerVersion : res string string) (kube_system : res string Namespace) : res string (string * Namespace) :=
  if negb synced then Err "inventory informer cache synchronization failed"%string
  else match ServerVersion with
       | Err e => Err ("discover Kubernetes version: " +:+ e)
       | Ok version =>
           match kube_system with
           | Err e => Err ("read kube-system namespace: " +:+ e)
           | Ok namespace => Ok (version, namespace)
           end
       end.

(** ** The machine *)

(** [Start]: before it, waiting for the stores, serving its worker, and ended *)
Inductive phase := Idle | WaitingForSync (id : string) | Serving | Ended (err : option string).
(** An attempt to process a change: its events, and the error if it failed *)
Record attempt := { tried : list Event; failed : option string }.
(** [undelivered]: what the stores hold and the handlers have not been called with.
    [delayed]: failed changes that wait to be queued again. [published] and [attempts]
    are the history. *)
Record machine := Machine {
  at_phase : phase;
  undelivered : list (string * notification);
  queue : list change;
  processing : option change;
  delayed : list change;
  synced : bool;
  state : Collector.Collector;
  published : list Event;
  attempts : list attempt
}.
Definition initial : machine := Machine Idle [] [] None [] false NewCollector [] [].
Definition Ready (m : machine) : bool := synced m.
(** [Publish] on the events published so far *)
Definition log_effect (o : publish_op) (log : list Event) : publish_ans o → list Event → Prop :=
  match o with PublishEvent e => λ err log', log' = match err with None => log ++ [e] | Some _ => log end end.
Definition attempt_of (lister : string → option string) (c : Collector.Collector) (item : change) order clock (err : option string) : attempt := {|
  tried := match events lister c item order clock with Ok es => es | Err _ => [] end; failed := err |}.
(** Adding to a queue that has been shut down does nothing. *)
Definition add (p : phase) (q items : list change) : list change := match p with Ended _ => q | _ => q ++ items end.

Inductive step : machine → machine → Prop :=
(** [Start] up to [factory.Start] *)
| step_refused AddEventHandler e us q p d sy c l a :
    register AddEventHandler = Some e →
    step (Machine Idle us q p d sy c l a) (Machine (Ended (Some e)) us q p d sy c l a)
| step_start AddEventHandler now times us q p d sy c l a :
    register AddEventHandler = None →
    step (Machine Idle us q p d sy c l a)
         (Machine (WaitingForSync (snapshot_id now)) us (q ++ [marker (snapshot_id now) INVENTORY_SNAPSHOT_PHASE_STARTED times]) p d sy c l a)
(** The stores are synchronised, or the wait for them or a read fails. *)
| step_sync id ServerVersion kube_system version namespace now times us q p d sy c l a :
    after_sync true ServerVersion kube_system = Ok (version, namespace) →
    step (Machine (WaitingForSync id) us q p d sy c l a)
         (Machine Serving us (q ++ [cluster_change version namespace now; marker id INVENTORY_SNAPSHOT_PHASE_COMPLETED times]) p d true c l a)
| step_sync_fails id stores ServerVersion kube_system e us q p d sy c l a :
    after_sync stores ServerVersion kube_system = Err e →
    step (Machine (WaitingForSync id) us q p d sy c l a) (Machine (Ended (Some e)) us q p d sy c l a)
(** The end of the context shuts the queue down. *)
| step_end us q p d sy c l a :
    step (Machine Serving us q p d sy c l a) (Machine (Ended None) us q p d sy c l a)
(** An informer puts an object into its store and its buffer; its handler takes them in
    order. *)
| step_report ph us q p d sy c l a kind n :
    ph ≠ Idle → wf_change (handler kind n) → kind_matches (handler (LabelSelector := LabelSelector) kind n) →
    step (Machine ph us q p d sy c l a) (Machine ph (us ++ [(kind, n)]) q p d sy c l a)
| step_deliver ph before kind n after q p d sy c l a :
    Forall (λ u, u.1 ≠ kind) before →
    step (Machine ph (before ++ (kind, n) :: after) q p d sy c l a)
         (Machine ph (before ++ after) (add ph q [handler kind n]) p d sy c l a)
(** The worker takes the next change once the collector is synchronised. *)
| step_get ph us item q d c l a :
    step (Machine ph us (item :: q) None d true c l a) (Machine ph us q (Some item) d true c l a)
| step_process ph us q item d c l a lister order clock err c' l' :
    visits c item order → exec log_effect (process lister c item order clock) l (err, c') l' →
    step (Machine ph us q (Some item) d true c l a)
         (Machine ph us q None (match err with None => d | Some _ => d ++ [item] end) true c' l' (a ++ [attempt_of lister c item order clock err]))
(** The delay of a failed change is over. *)
| step_again ph us q p before item after sy c l a :
    step (Machine ph us q p (before ++ item :: after) sy c l a) (Machine ph us (add ph q [item]) p (before ++ after) sy c l a).

(** ** What holds at every moment *)

(** The inventory a consumer of the published events holds *)
Definition view_of (log : list Event) : gmap string Observation := foldl (λ w e, observe e w) ∅ log.
Definition well_formed (item : change) : Prop := wf_change item ∧ kind_matches item.
Record ok (m : machine) : Prop := {
  ok_sync : in_sync (state m) (view_of (published m));
  ok_tracked : tracked_ok (state m);
  ok_undelivered : Forall (λ u, well_formed (handler u.1 u.2)) (undelivered m);
  ok_queue : Forall well_formed (queue m);
  ok_processing : from_option well_formed True (processing m);
  ok_delayed : Forall well_formed (delayed m);
  ok_settled l1 a l2 e : attempts m = l1 ++ a :: l2 → failed a = None → e ∈ tried a →
    Forall (λ b, Key e ∉ Key <$> tried b) l2 → mirrored e (view_of (published m))
}.

Lemma view_snoc log e : view_of (log ++ [e]) = observe e (view_of log).
Proof. unfold view_of. by rewrite foldl_app. Qed.
Lemma log_simulation {A} (p : prog publish_ans A) l a l' : exec log_effect p l a l' → exec publish_effect p (view_of l) a (view_of l').
Proof.
  intros He. destruct (exec_simulation log_effect publish_effect (λ l w, w = view_of l) (λ _, True) p l (view_of l) a l') as (w' & Hw & ->); try done.
  - intros [e] l1 w1 err l2 _ -> Hl. eexists. split; [|reflexivity]. cbn in *. subst l2. destruct err; [done|]. by rewrite view_snoc.
  - apply calls_any.
Qed.
Lemma mirrored_frame e (w w' : gmap string Observation) : w' !! Key e = w !! Key e → mirrored e w → mirrored e w'.
Proof. unfold mirrored. by intros ->. Qed.
(** One attempt of the worker *)
Lemma attempt_ok lister c item order clock l err c' l' a :
  well_formed item → visits c item order → in_sync c (view_of l) → tracked_ok c →
  exec log_effect (process lister c item order clock) l (err, c') l' →
  (∀ l1 b l2 e, a = l1 ++ b :: l2 → failed b = None → e ∈ tried b → Forall (λ x, Key e ∉ Key <$> tried x) l2 → mirrored e (view_of l)) →
  in_sync c' (view_of l') ∧ tracked_ok c' ∧
  ∀ l1 b l2 e, a ++ [attempt_of lister c item order clock err] = l1 ++ b :: l2 → failed b = None → e ∈ tried b →
    Forall (λ x, Key e ∉ Key <$> tried x) l2 → mirrored e (view_of l').
Proof.
  intros [Hwf _] Hv Hs Ht He%log_simulation Hold.
  destruct (collector_mirrors_changes _ _ _ _ _ c item order clock _ _ _ _ Hwf Hv Hs Ht He) as (Hs' & Ht' & Hev). split_and!; [done..|].
  set (new := attempt_of lister c item order clock err).
  assert (∀ k, k ∉ Key <$> tried new → view_of l' !! k = view_of l !! k) as Hframe.
  { intros k. unfold new, attempt_of. cbn [tried]. destruct (events _ _ _ _ _); [apply Hev|]. destruct Hev as (_ & _ & ->). done. }
  intros l1 b l2 e Hsplit Hf Hin Hall. destruct (ListFacts.snoc_cases l2) as [->|(l2' & x & ->)].
  - apply app_inj_tail in Hsplit as [-> <-]. unfold new, attempt_of in Hf, Hin. cbn [failed tried] in Hf, Hin.
    destruct (events _ _ _ _ _); [|by apply elem_of_nil in Hin]. destruct Hev as (_ & _ & Hm). destruct (Hm Hf) as [Hm' _].
    rewrite Forall_forall in Hm'. by apply Hm'.
  - rewrite app_comm_cons, app_assoc in Hsplit. apply app_inj_tail in Hsplit as [-> <-]. apply Forall_app in Hall as [Hall [Hx _]%Forall_cons].
    apply (mirrored_frame e (view_of l)); [by apply Hframe|]. by apply (Hold l1 b l2').
Qed.
Lemma add_well_formed p q items : Forall well_formed q → Forall well_formed items → Forall well_formed (add p q items).
Proof. intros Hq Hi. destruct p; simpl; rewrite ?Forall_app; auto. Qed.
Lemma marker_well_formed id ph times : well_formed (marker id ph times).
Proof. split; [split; [by left|]|by right]. split; [done|]. right. by eexists _, _, _. Qed.
Lemma cluster_well_formed version namespace now : well_formed (cluster_change version namespace now).
Proof. split; [split; [by left|]|by left]. split; [done|]. left. by eexists _, _, _, _. Qed.
Lemma collector_step_ok m m' : step m m' → ok m → ok m'.
Proof.
  intros Hstep [Hs Ht Hu Hq Hp Hd Ha].
  destruct Hstep as [| | | | |ph us q p d sy c l a k n _ Hwf Hk|ph before k n after q p d sy c l a _|ph us item q d c l a
    |ph us q item d c l a lister order clock err c' l' Hv He|ph us q p before item after sy c l a];
    cbn [undelivered queue processing delayed state published attempts from_option] in *; try by split.
  - split; try done. apply Forall_app. split; [done|]. constructor; [apply marker_well_formed|done].
  - split; try done. apply Forall_app. split; [done|]. constructor; [apply cluster_well_formed|]. constructor; [apply marker_well_formed|done].
  - split; try done. apply Forall_app. split; [done|]. by constructor.
  - apply Forall_app in Hu as [Hb [Hn Hafter]%Forall_cons]. split; try done; cbn; [by apply Forall_app|]. apply add_well_formed; [done|]. by constructor.
  - apply Forall_cons in Hq as [Hi Hq]. by split.
  - destruct (attempt_ok lister c item order clock l err c' l' a Hp Hv Hs Ht He Ha) as (Hs' & Ht' & Ha'). split; try done.
    cbn [delayed]. destruct err; [|done]. apply Forall_app. split; [done|]. by constructor.
  - apply Forall_app in Hd as [Hb [Hi Hafter]%Forall_cons]. split; try done; cbn; [apply add_well_formed; [done|by constructor]|by apply Forall_app].
Qed.
Lemma collector_reachable_ok m : rtc step initial m → ok m.
Proof.
  intros Hm. assert (ok initial) as Hok.
  { split; cbn; try done. by intros [|]. }
  induction Hm as [|m1 m2 m3 H12 _ IH]; [done|]. apply IH. by eapply collector_step_ok.
Qed.

(** C40: The collector's cache mirrors its published inventory at every moment, however
    the informers, the retries of the work queue and the failures of publishing
    interleave: it holds the fingerprints of exactly the observations a consumer of the
    events holds, and every event of an attempt that succeeded is reflected there until
    an attempt, successful or not, works on the same key again. *)
Theorem collector_always_mirrors m :
  rtc step initial m →
  in_sync (state m) (view_of (published m)) ∧ tracked_ok (state m) ∧
  ∀ l1 a l2 e, attempts m = l1 ++ a :: l2 → failed a = None → e ∈ tried a →
    Forall (λ b, Key e ∉ Key <$> tried b) l2 → mirrored e (view_of (published m)).
Proof. intros Hm%collector_reachable_ok. split_and!; apply Hm. Qed.
End run.
#[local] Existing Instance sample_codec.

(** *** A snapshot that is complete too early *)

Definition sample_namespace : Namespace := {| Namespace_Meta := {| UID := "system"; Name := "kube-system"; Namespace_ := ""; ResourceVersion := "1"; Labels := ∅;
  CreationTimestamp := unix_epoch; DeletionTimestamp := None; OwnerReferences := [] |}; Namespace_StatusPhase := "Active" |}%string.
Abbreviation sample_step := (step (λ q, 1000 * q) (λ q, q) dec (λ _ : option unit, EmptyString) "c").
Definition start_id : string := snapshot_id "c" unix_epoch.
Definition sample_times : Time * Time := (unix_epoch, unix_epoch).
Definition publishes_log (o : publish_op) (log : list Event) : publish_ans o * list Event := match o with PublishEvent e => (None, log ++ [e]) end.
(** A turn of the worker whose publications succeed *)
Definition sample_process (c : Collector.Collector) (item : change (Quantity := Z) (LabelSelector := unit)) :=
  process (λ q : Z, 1000 * q) (λ q, q) dec (λ _ : option unit, EmptyString) (λ _, None) c item [] (λ _, sample_times).
Definition sample_turn (m : machine (Quantity := Z) (LabelSelector := unit)) : machine :=
  match m with
  | Machine ph us (item :: q) None d true c l a =>
      let ran := run publishes_log (sample_process c item) l in
      Machine ph us q None (match ran.1.1 with None => d | Some _ => d ++ [item] end) true ran.1.2 ran.2
        (a ++ [attempt_of (λ q : Z, 1000 * q) (λ q, q) dec (λ _ : option unit, EmptyString) (λ _, None) c item [] (λ _, sample_times) ran.1.1])
  | _ => m
  end.
Lemma sample_turn_steps m : (∀ item q, queue m = item :: q → ∀ p, changed_object item ≠ OPod p) → rtc sample_step m (sample_turn m).
Proof.
  intros Hv. destruct m as [ph us [|item q] [p|] d [|] c l a]; try apply rtc_refl. cbn [sample_turn]. cbn zeta.
  eapply rtc_l; [apply step_get|]. eapply rtc_l; [|apply rtc_refl]. apply step_process.
  - unfold visits. specialize (Hv item q eq_refl). destruct (changed_object item); try done. by destruct (Hv p).
  - rewrite <- surjective_pairing. apply run_exec. by intros [].
Qed.
(** The store of the node informer holds a node whose handler has not run. *)
Definition waiting : machine (Quantity := Z) (LabelSelector := unit) :=
  Machine (WaitingForSync start_id) [("node"%string, Added (ONode sample_node))]
    [marker start_id INVENTORY_SNAPSHOT_PHASE_STARTED sample_times] None [] false NewCollector [] [].
Definition synchronised : machine (Quantity := Z) (LabelSelector := unit) :=
  Machine Serving [("node"%string, Added (ONode sample_node))]
    [marker start_id INVENTORY_SNAPSHOT_PHASE_STARTED sample_times; cluster_change "c" "v1.30" sample_namespace unix_epoch;
     marker start_id INVENTORY_SNAPSHOT_PHASE_COMPLETED sample_times] None [] true NewCollector [] [].
Definition announced : machine (Quantity := Z) (LabelSelector := unit) := sample_turn (sample_turn (sample_turn synchronised)).
Lemma announced_reachable : rtc sample_step initial announced.
Proof.
  eapply rtc_l; [apply (step_start _ _ _ _ _ (λ _, None) unix_epoch sample_times); reflexivity|].
  eapply rtc_l; [apply (step_report _ _ _ _ _ _ _ _ _ _ _ _ _ _ "node" (Added (ONode sample_node))); [done| |done]|].
  { split; [by left|done]. }
  eapply rtc_l; [apply (step_sync _ _ _ _ _ _ (Ok "v1.30"%string) (Ok sample_namespace) "v1.30" sample_namespace unix_epoch sample_times); reflexivity|].
  change (rtc sample_step synchronised announced). unfold announced.
  do 2 (etrans; [|apply sample_turn_steps]; [|intros item q; vm_compute; by intros [= <- <-]]).
  apply sample_turn_steps. intros item q. vm_compute. by intros [= <- <-].
Qed.
(** The synchronisation of an informer's store says nothing about its handlers: a
    snapshot can be published as complete before the objects the initial list held. *)
Lemma completed_before_initial_objects :
  ∃ m, rtc sample_step initial m ∧ undelivered m = [("node"%string, Added (ONode sample_node))] ∧
    Key <$> published m = [("snapshot/" +:+ start_id +:+ "/INVENTORY_SNAPSHOT_PHASE_STARTED"); "cluster/c"; ("snapshot/" +:+ start_id +:+ "/INVENTORY_SNAPSHOT_PHASE_COMPLETED")]%string ∧
    Ready m = true.
Proof. exists announced. split; [exact announced_reachable|]. vm_compute. auto. Qed.
Lemma collector_always_mirrors_witness :
  ∃ o, view_of (published announced) !! "cluster/c"%string = Some o ∧ in_sync (state announced) (view_of (published announced)).
Proof.
  destruct (collector_always_mirrors _ _ _ _ _ announced announced_reachable) as (Hs & _ & _).
  eexists. split; [vm_compute; reflexivity|exact Hs].
Defined.
End CollectorRun.
