(* ===== verification/Sampler.v ===== *)
(** * The metrics sampler of the agent

    [agent/metrics/sampler.go] with the data of [agent/metrics/types.go]: one
    observation per running container and per node and interval, from the pod list,
    the metrics API and the kubelet summaries.

    The sampler is a program over the calls to its sources and its publisher.
    Amounts are computed over a class of number types, in double precision or
    exactly; maps are visited in any order. *)
From stdpp Require Import base option list gmap strings sorting.
From Stdlib Require Import ZArith Lia QArith Qcanon Qround SpecFloat.
From S2P Require Import Prelude Effects Proto Inventory Http Server Allocation Recommendations Collector.

Module Sampler.
Import Allocation Recommendations Collector.
Open Scope Z_scope.

(** ** Data *)

Section sampler.
Context {Quantity : Type} (MilliValue Value : Quantity → Z).
Context `{Protobuf}.
Abbreviation Pod := (Collector.Pod (Quantity := Quantity)).
Abbreviation Node := (Collector.Node (Quantity := Quantity)).
Abbreviation Container := (Collector.Container (Quantity := Quantity)).
Abbreviation ResourceList := (gmap string Quantity).

Record ContainerMetrics := { CM_Name : string; Usage : ResourceList }.
Record PodMetrics := { PM_Namespace : string; PM_Name : string; PM_Timestamp : Time; PM_Window : Duration; PM_Containers : list ContainerMetrics }.
Record SummaryCPU := { UsageCoreNanoSeconds : option Z; UsageNanoCores : option Z }.
Record SummaryMemory := { WorkingSetBytes : option Z; RSSBytes : option Z }.
Record SummaryContainer := { SC_Name : string; SC_StartTime : Time; SC_CPU : option SummaryCPU; SC_Memory : option SummaryMemory }.
Record SummaryPodRef := { Ref_Name : string; Ref_Namespace : string; Ref_UID : string }.
Record SummaryPod := { PodRef : SummaryPodRef; SP_Containers : list SummaryContainer }.
Record SummaryNode := { SN_NodeName : string; SN_CPU : option SummaryCPU; SN_Memory : option SummaryMemory }.
Record Summary := { Summary_Node : SummaryNode; Summary_Pods : list SummaryPod }.

Abbreviation summaryKey := (string * string * string)%type.
Definition key (namespace podName container : string) : summaryKey := (namespace, podName, container).

Record podContainerSpec := {
  podUID : string;
  spec_namespace : string;
  podName : string;
  containerName : string;
  containerID : string;
  requests : ResourceList;
  limits : ResourceList
}.
Record usageSample := {
  cpuCoreNanoseconds_ : option Z;
  memoryWorkingSetSeconds : option Z;
  memoryRSSSeconds : option Z;
  sample_containerID : string
}.
Definition zero_sample : usageSample :=
  {| cpuCoreNanoseconds_ := None; memoryWorkingSetSeconds := None; memoryRSSSeconds := None; sample_containerID := "" |}.
Record nodeUsageSample := { nodeUID : string; nodeName : string; node_usage : usageSample }.
Record summaryResult := { containers : gmap summaryKey usageSample; nodes : gmap string nodeUsageSample }.

(** [SamplerConfig] as [NewSampler] keeps it *)
Definition NewSampler (Interval : Duration) : Duration := if Interval <=? 0 then 10 * Second else Interval.

(** ** Amounts *)

Section amounts.
Context {F : Type} `{Arith F} `{Rounding F}.

(** [Duration.Seconds] *)
Definition Seconds (d : Duration) : F := add (of_Z (Z.quot d Second)) (div (of_Z (Z.rem d Second)) (of_Z Second)).
Definition cpuCoreNanoseconds (millicores : Z) (seconds : F) : Z := trunc (mul (mul (of_Z millicores) (of_Z 1000000)) seconds).
Definition byteSeconds (bytes : Z) (seconds : F) : Z := trunc (mul (of_Z bytes) seconds).
Definition cpuResourceTime (resources : ResourceList) (seconds : F) : option Z :=
  (λ q, cpuCoreNanoseconds (MilliValue q) seconds) <$> resources !! "cpu"%string.
Definition memoryResourceTime (resources : ResourceList) (seconds : F) : option Z :=
  (λ q, byteSeconds (Value q) seconds) <$> resources !! "memory"%string.

(** ** Readings *)

Definition containerStatuses (pod : Pod) : gmap string ContainerStatus :=
  foldl (λ m s, <[Status_Name s := s]> m) ∅ (InitContainerStatuses pod ++ ContainerStatuses pod).
Definition skipped (pod : Pod) : bool :=
  ((UID (Pod_Meta pod) =? "") || (Pod_StatusPhase pod =? "Succeeded") || (Pod_StatusPhase pod =? "Failed"))%string.
Definition spec_of (pod : Pod) (c : Container) : podContainerSpec :=
  {| podUID := UID (Pod_Meta pod); spec_namespace := Namespace_ (Pod_Meta pod); podName := Name (Pod_Meta pod);
     containerName := Container_Name c; containerID := Status_ContainerID (default zeroStatus (containerStatuses pod !! Container_Name c));
     requests := RequestList c; limits := LimitList c |}.
Definition add_spec (pod : Pod) (m : gmap summaryKey podContainerSpec) (c : Container) : gmap summaryKey podContainerSpec :=
  <[key (Namespace_ (Pod_Meta pod)) (Name (Pod_Meta pod)) (Container_Name c) := spec_of pod c]> m.
Definition add_pod (m : gmap summaryKey podContainerSpec) (pod : Pod) : gmap summaryKey podContainerSpec :=
  if skipped pod then m else foldl (add_spec pod) m (InitContainers pod ++ Containers_ pod).
Definition specs_of (pods : list Pod) : gmap summaryKey podContainerSpec := foldl add_pod ∅ pods.

(** A container of a kubelet summary *)
Definition summary_container (interval : Duration) (pod : SummaryPod) (m : gmap summaryKey usageSample) (c : SummaryContainer)
    : gmap summaryKey usageSample :=
  let k := key (Ref_Namespace (PodRef pod)) (Ref_Name (PodRef pod)) (SC_Name c) in
  let item := default zero_sample (m !! k) in
  let seconds : F := Seconds interval in
  <[k := match SC_Memory c with
         | None => item
         | Some memory =>
             {| cpuCoreNanoseconds_ := cpuCoreNanoseconds_ item;
                memoryWorkingSetSeconds := match WorkingSetBytes memory with
                                           | Some b => Some (byteSeconds (i64 b) seconds)
                                           | None => memoryWorkingSetSeconds item
                                           end;
                memoryRSSSeconds := match RSSBytes memory with
                                    | Some b => Some (byteSeconds (i64 b) seconds)
                                    | None => memoryRSSSeconds item
                                    end;
                sample_containerID := sample_containerID item |}
         end]> m.
Definition nodeUsage (node : Node) (summary : Summary) (seconds : F) : nodeUsageSample :=
  let n := Summary_Node summary in
  {| nodeUID := UID (Node_Meta node);
     nodeName := if negb (SN_NodeName n =? "")%string then SN_NodeName n else Name (Node_Meta node);
     node_usage := {|
       cpuCoreNanoseconds_ := (λ v, trunc (mul (of_Z v) seconds)) <$> (SN_CPU n ≫= UsageNanoCores);
       memoryWorkingSetSeconds := (λ b, byteSeconds (i64 b) seconds) <$> (SN_Memory n ≫= WorkingSetBytes);
       memoryRSSSeconds := (λ b, byteSeconds (i64 b) seconds) <$> (SN_Memory n ≫= RSSBytes);
       sample_containerID := "" |} |}.
Definition hasMeasurement (s : nodeUsageSample) : bool :=
  match cpuCoreNanoseconds_ (node_usage s), memoryWorkingSetSeconds (node_usage s), memoryRSSSeconds (node_usage s) with
  | None, None, None => false
  | _, _, _ => true
  end.
(** The body of the loop over the nodes once the summary of the node is read *)
Definition add_summary (interval : Duration) (start end_ : Time) (r : summaryResult) (node : Node) (summary : Summary) : summaryResult :=
  {| nodes := <[Name (Node_Meta node) := nodeUsage node summary (Seconds (Http.Gatewayauth.Sub end_ start))]> (nodes r);
     containers := foldl (λ m pod, foldl (summary_container interval pod) m (SP_Containers pod)) (containers r) (Summary_Pods summary) |}.
(** A container of the metrics API *)
Definition metrics_container (interval : Duration) (pod : PodMetrics) (m : gmap summaryKey usageSample) (c : ContainerMetrics)
    : gmap summaryKey usageSample :=
  let k := key (PM_Namespace pod) (PM_Name pod) (CM_Name c) in
  let item := default zero_sample (m !! k) in
  let windowSeconds : F := Seconds interval in
  <[k := {| cpuCoreNanoseconds_ := match Usage c !! "cpu"%string with
                                   | Some cpu => Some (cpuCoreNanoseconds (MilliValue cpu) windowSeconds)
                                   | None => cpuCoreNanoseconds_ item
                                   end;
            memoryWorkingSetSeconds := match Usage c !! "memory"%string with
                                       | Some memory => Some (byteSeconds (Value memory) windowSeconds)
                                       | None => memoryWorkingSetSeconds item
                                       end;
            memoryRSSSeconds := memoryRSSSeconds item; sample_containerID := sample_containerID item |}]> m.
Definition add_metrics (interval : Duration) (m : gmap summaryKey usageSample) (pod : PodMetrics) : gmap summaryKey usageSample :=
  foldl (metrics_container interval pod) m (PM_Containers pod).

(** ** Events *)

Definition window (start end_ : Time) : option TimeWindow := Some {| Window_Start := Some (ts_New start); Window_End := Some (ts_New end_) |}.
Definition quality (s : usageSample) : MetricQuality :=
  match cpuCoreNanoseconds_ s, memoryWorkingSetSeconds s with
  | Some _, Some _ => METRIC_QUALITY_COMPLETE
  | _, _ => METRIC_QUALITY_PARTIAL
  end.
Definition metrics_observation (end_ now : Time) (p : Payload) : option Observation :=
  Some {| Sequence := 0; EventId := ""; ObservedAt := Some (ts_New end_); CollectedAt := Some (ts_New now); SourceResourceVersion := "";
          payload := Some p |}.
Definition event (start end_ : Time) (spec : podContainerSpec) (sample : usageSample) (now : Time) : Event :=
  let seconds : F := Seconds (Http.Gatewayauth.Sub end_ start) in
  {| Key := "metrics/container/" +:+ spec_namespace spec +:+ "/" +:+ podName spec +:+ "/" +:+ containerName spec +:+ "/" +:+ dec (UnixNano end_);
     EventObservation := metrics_observation end_ now (Observation_ContainerMetrics {|
       ContM_PodUid := podUID spec; ContM_Namespace := spec_namespace spec; ContM_PodName := podName spec;
       ContM_ContainerName := containerName spec; ContM_ContainerId := firstNonEmpty [containerID spec; sample_containerID sample];
       ContM_Window := window start end_; ContM_CpuUsageCoreNanoseconds := cpuCoreNanoseconds_ sample;
       ContM_CpuThrottledNanoseconds := None; ContM_MemoryWorkingSetByteSeconds := memoryWorkingSetSeconds sample;
       ContM_MemoryRssByteSeconds := memoryRSSSeconds sample; ContM_NetworkReceiveBytes := None; ContM_NetworkTransmitBytes := None;
       ContM_FilesystemUsedByteSeconds := None; ContM_OomKillCount := None; ContM_Quality := quality sample;
       ContM_CpuRequestCoreNanoseconds := cpuResourceTime (requests spec) seconds;
       ContM_CpuLimitCoreNanoseconds := cpuResourceTime (limits spec) seconds;
       ContM_MemoryRequestByteSeconds := memoryResourceTime (requests spec) seconds;
       ContM_MemoryLimitByteSeconds := memoryResourceTime (limits spec) seconds |}) |}.
Definition nodeEvent (start end_ : Time) (sample : nodeUsageSample) (now : Time) : Event :=
  let s := node_usage sample in
  {| Key := "metrics/node/" +:+ nodeName sample +:+ "/" +:+ dec (UnixNano end_);
     EventObservation := metrics_observation end_ now (Observation_NodeMetrics {|
       NodeM_NodeUid := nodeUID sample; NodeM_NodeName := nodeName sample; NodeM_Window := window start end_;
       NodeM_CpuUsageCoreNanoseconds := cpuCoreNanoseconds_ s; NodeM_MemoryWorkingSetByteSeconds := memoryWorkingSetSeconds s;
       NodeM_MemoryRssByteSeconds := memoryRSSSeconds s; NodeM_NetworkReceiveBytes := None; NodeM_NetworkTransmitBytes := None;
       NodeM_FilesystemUsedByteSeconds := None; NodeM_Quality := quality s |}) |}.

(** ** The sampler *)

Inductive sample_op :=
| Now
| ListPods
| ListNodes
| NodeSummary (node : string)
| ReadPodMetrics
| Publish (e : Event)
| Tick.
(** [Tick] answers whether the ticker fired before the context was done. *)
Definition sample_ans (o : sample_op) : Type :=
  match o with
  | Now => Time
  | ListPods => res string (list Pod)
  | ListNodes => res string (list Node)
  | NodeSummary _ => res string Summary
  | ReadPodMetrics => res string (list PodMetrics)
  | Publish _ => option string
  | Tick => bool
  end.
Abbreviation prog := (prog sample_ans).
Definition ask (o : sample_op) : prog (sample_ans o) := call o.

Definition specs : prog (res string (gmap summaryKey podContainerSpec)) :=
  pods ← ask ListPods;
  match pods with
  | Err e => Ret (Err ("list pods for metrics sampling: " +:+ e))
  | Ok pods => Ret (Ok (specs_of pods))
  end.
Fixpoint read_summaries (interval : Duration) (start end_ : Time) (ns : list Node) (r : summaryResult) (failed : Z)
    : prog (summaryResult * Z) :=
  match ns with
  | [] => Ret (r, failed)
  | node :: ns' =>
      s ← ask (NodeSummary (Name (Node_Meta node)));
      match s with
      | Err _ => read_summaries interval start end_ ns' r (failed + 1)
      | Ok s => read_summaries interval start end_ ns' (add_summary interval start end_ r node s) failed
      end
  end.
Definition no_summary : summaryResult := {| containers := ∅; nodes := ∅ |}.
Definition summary (interval : Duration) (start end_ : Time) : prog (summaryResult * option string) :=
  ns ← ask ListNodes;
  match ns with
  | Err e => Ret (no_summary, Some ("list nodes for summary sampling: " +:+ e))
  | Ok ns =>
      '(r, failed) ← read_summaries interval start end_ ns no_summary 0;
      if bool_decide (containers r = ∅) && bool_decide (nodes r = ∅) && (0 <? failed)
      then Ret (no_summary, Some "all kubelet summary requests failed"%string)
      else Ret (r, None)
  end.
Definition usage (interval : Duration) (readings : gmap summaryKey usageSample) : prog (res string (gmap summaryKey usageSample)) :=
  podMetrics ← ask ReadPodMetrics;
  match podMetrics with
  | Err e => if negb (bool_decide (readings = ∅)) then Ret (Ok readings) else Ret (Err ("read pod metrics: " +:+ e))
  | Ok items => Ret (Ok (foldl (add_metrics interval) readings items))
  end.

(** The orders in which the two maps are visited *)
Context (visit_specs : gmap summaryKey podContainerSpec → list (summaryKey * podContainerSpec)).
Context (visit_nodes : gmap string nodeUsageSample → list (string * nodeUsageSample)).
Fixpoint publish_containers (start end_ : Time) (u : gmap summaryKey usageSample) (l : list (summaryKey * podContainerSpec)) : prog (option string) :=
  match l with
  | [] => Ret None
  | (k, spec) :: l' =>
      match u !! k with
      | None => publish_containers start end_ u l'
      | Some sample =>
          now ← ask Now;
          err ← ask (Publish (event start end_ spec sample now));
          match err with Some e => Ret (Some e) | None => publish_containers start end_ u l' end
      end
  end.
Definition reported (s : nodeUsageSample) : bool :=
  negb ((nodeUID s =? "")%string || (nodeName s =? "")%string || negb (hasMeasurement s)).
Fixpoint publish_nodes (start end_ : Time) (l : list (string * nodeUsageSample)) : prog (option string) :=
  match l with
  | [] => Ret None
  | (_, sample) :: l' =>
      if reported sample then
        now ← ask Now;
        err ← ask (Publish (nodeEvent start end_ sample now));
        match err with Some e => Ret (Some e) | None => publish_nodes start end_ l' end
      else publish_nodes start end_ l'
  end.
Definition Sample (interval : Duration) : prog (option string) :=
  end_ ← ask Now;
  let start := end_ - interval in
  specs ← specs;
  match specs with
  | Err e => Ret (Some e)
  | Ok specs =>
      '(readings, _) ← summary interval start end_;
      u ← usage interval (containers readings);
      match u with
      | Err e => Ret (Some e)
      | Ok u =>
          err ← publish_containers start end_ u (visit_specs specs);
          match err with
          | Some e => Ret (Some e)
          | None => publish_nodes start end_ (visit_nodes (nodes readings))
          end
      end
  end.
(** [Start] for up to [fuel] ticks; [false] when they run out. *)
Fixpoint ticks (fuel : nat) (interval : Duration) : prog bool :=
  match fuel with
  | O => Ret false
  | S fuel' =>
      tick ← ask Tick;
      if (tick : bool) then
        _ ← Sample interval;
        ticks fuel' interval
      else Ret true
  end.
Definition Start (fuel : nat) (interval : Duration) : prog bool :=
  _ ← Sample interval;
  ticks fuel interval.

(** ** What is reported *)

(** What the sources answer during one sample *)
Record sources := {
  pods_answer : res string (list Pod);
  nodes_answer : res string (list Node);
  metrics_answer : res string (list PodMetrics);
  summary_answer : string → res string Summary
}.
(** The sources of [NewSources]: pods and nodes from the core API, pod metrics and kubelet
    summaries as JSON over its REST clients. [DoRaw] answers a path. *)
Definition RESTPodMetrics (DoRaw : string → res string string) (Unmarshal : string → res string (list PodMetrics)) : res string (list PodMetrics) :=
  match DoRaw "/apis/metrics.k8s.io/v1beta1/pods"%string with
  | Err e => Err ("read pod metrics API: " +:+ e)
  | Ok data => match Unmarshal data with Err e => Err ("decode pod metrics API: " +:+ e) | Ok items => Ok items end
  end.
Definition RESTNodeSummary (PathEscape : string → string) (DoRaw : string → res string string) (Unmarshal : string → res string Summary)
    (nodeName : string) : res string Summary :=
  match DoRaw ("/api/v1/nodes/" +:+ PathEscape nodeName +:+ "/proxy/stats/summary") with
  | Err e => Err ("read kubelet summary for node " +:+ nodeName +:+ ": " +:+ e)
  | Ok data => match Unmarshal data with Err e => Err ("decode kubelet summary for node " +:+ nodeName +:+ ": " +:+ e) | Ok summary => Ok summary end
  end.
(** [client] is the error of making the client of the metrics API. *)
Definition NewSources (client : option string) (pods : res string (list Pod)) (nodes : res string (list Node)) (PathEscape : string → string)
    (DoRaw : string → res string string) (UnmarshalMetrics : string → res string (list PodMetrics)) (UnmarshalSummary : string → res string Summary)
    : res string sources :=
  match client with
  | Some e => Err ("create metrics API REST client: " +:+ e)
  | None => Ok {| pods_answer := pods; nodes_answer := nodes; metrics_answer := RESTPodMetrics DoRaw UnmarshalMetrics;
                  summary_answer := RESTNodeSummary PathEscape DoRaw UnmarshalSummary |}
  end.
Definition sample_effect (src : sources) (o : sample_op) (w : list Event) : sample_ans o → list Event → Prop :=
  match o with
  | Now => λ _ w', w' = w
  | ListPods => λ a w', a = pods_answer src ∧ w' = w
  | ListNodes => λ a w', a = nodes_answer src ∧ w' = w
  | NodeSummary n => λ a w', a = summary_answer src n ∧ w' = w
  | ReadPodMetrics => λ a w', a = metrics_answer src ∧ w' = w
  | Publish e => λ err w', w' = match err with None => w ++ [e] | Some _ => w end
  | Tick => λ _ w', w' = w
  end.

Definition answered {A} (r : res string (list A)) : list A := match r with Ok l => l | Err _ => [] end.
(** The nodes whose summary could be read *)
Definition summaries (src : sources) : list (Node * Summary) :=
  omap (λ n, match summary_answer src (Name (Node_Meta n)) with Ok s => Some (n, s) | Err _ => None end) (answered (nodes_answer src)).
Definition summary_readings (src : sources) : list (summaryKey * option SummaryMemory) :=
  '(_, s) ← summaries src; pod ← Summary_Pods s; c ← SP_Containers pod;
  [(key (Ref_Namespace (PodRef pod)) (Ref_Name (PodRef pod)) (SC_Name c), SC_Memory c)].
Definition metrics_readings (src : sources) : list (summaryKey * ResourceList) :=
  pod ← answered (metrics_answer src); c ← PM_Containers pod; [(key (PM_Namespace pod) (PM_Name pod) (CM_Name c), Usage c)].
Definition latest {A} (f : A → option Z) (l : list A) : option Z := last (omap f l).
Definition of_key {A} (k : summaryKey) (l : list (summaryKey * A)) : list A := (filter (λ x, x.1 = k) l).*2.
(** The usage of a container: the latest reading of each amount, the metrics API
    before the summary *)
Definition usage_ref (src : sources) (interval : Duration) (k : summaryKey) : option usageSample :=
  let seconds : F := Seconds interval in
  let mem := of_key k (summary_readings src) in
  let met := of_key k (metrics_readings src) in
  match mem, met with
  | [], [] => None
  | _, _ =>
      let amount f := latest (λ m : option SummaryMemory, (λ b, byteSeconds (i64 b) seconds) <$> (m ≫= f)) mem in
      Some {| cpuCoreNanoseconds_ := latest (λ u, cpuResourceTime u seconds) met;
              memoryWorkingSetSeconds := match latest (λ u, memoryResourceTime u seconds) met with
                                         | Some v => Some v
                                         | None => amount WorkingSetBytes
                                         end;
              memoryRSSSeconds := amount RSSBytes; sample_containerID := "" |}
  end.
(** *** The readings *)

Lemma foldl_bind {A B C} (f : C → B → C) (g : A → list B) l c : foldl f c (l ≫= g) = foldl (λ c x, foldl f c (g x)) c l.
Proof. revert c. induction l as [|x l IH]; intros c; [done|]. csimpl. by rewrite foldl_app, IH. Qed.
Lemma option_eta {A} (o : option A) : match o with Some v => Some v | None => None end = o.
Proof. by destruct o. Qed.
Lemma latest_snoc {A} (f : A → option Z) l x : latest f (l ++ [x]) = match f x with Some v => Some v | None => latest f l end.
Proof. unfold latest. rewrite omap_app. csimpl. destruct (f x); [by rewrite last_snoc|by rewrite app_nil_r]. Qed.

Definition keyed_step {A} (g : A → usageSample → usageSample) (m : gmap summaryKey usageSample) (x : summaryKey * A) : gmap summaryKey usageSample :=
  <[x.1 := g x.2 (default zero_sample (m !! x.1))]> m.
Lemma keyed_fold {A} (g : A → usageSample → usageSample) l m k :
  foldl (keyed_step g) m l !! k =
  match of_key k l with [] => m !! k | xs => Some (foldl (λ s x, g x s) (default zero_sample (m !! k)) xs) end.
Proof.
  revert m. induction l as [|[k' x] l IH]; intros m; [done|]. simpl foldl. rewrite IH. unfold of_key, keyed_step. rewrite filter_cons. simpl.
  destruct (decide (k' = k)) as [->|Hne].
  - rewrite lookup_insert_eq. csimpl. by destruct (_.*2).
  - by rewrite lookup_insert_ne.
Qed.

Definition memory_step (interval : Duration) (memory : option SummaryMemory) (item : usageSample) : usageSample :=
  let seconds : F := Seconds interval in
  let amount (f : SummaryMemory → option Z) := (λ b, byteSeconds (i64 b) seconds) <$> (memory ≫= f) in
  {| cpuCoreNanoseconds_ := cpuCoreNanoseconds_ item;
     memoryWorkingSetSeconds := match amount WorkingSetBytes with Some v => Some v | None => memoryWorkingSetSeconds item end;
     memoryRSSSeconds := match amount RSSBytes with Some v => Some v | None => memoryRSSSeconds item end;
     sample_containerID := sample_containerID item |}.
Definition usage_step (interval : Duration) (u : ResourceList) (item : usageSample) : usageSample :=
  let seconds : F := Seconds interval in
  {| cpuCoreNanoseconds_ := match cpuResourceTime u seconds with Some v => Some v | None => cpuCoreNanoseconds_ item end;
     memoryWorkingSetSeconds := match memoryResourceTime u seconds with Some v => Some v | None => memoryWorkingSetSeconds item end;
     memoryRSSSeconds := memoryRSSSeconds item; sample_containerID := sample_containerID item |}.
Lemma summary_container_step interval pod m c :
  summary_container interval pod m c =
  keyed_step (memory_step interval) m (key (Ref_Namespace (PodRef pod)) (Ref_Name (PodRef pod)) (SC_Name c), SC_Memory c).
Proof.
  unfold summary_container, keyed_step, memory_step. simpl. f_equal. destruct (SC_Memory c) as [memory|]; simpl.
  - by destruct (WorkingSetBytes memory), (RSSBytes memory).
  - by destruct (default _ _).
Qed.
Lemma metrics_container_step interval pod m c :
  metrics_container interval pod m c =
  keyed_step (usage_step interval) m (key (PM_Namespace pod) (PM_Name pod) (CM_Name c), Usage c).
Proof.
  unfold metrics_container, keyed_step, usage_step, cpuResourceTime, memoryResourceTime. simpl.
  by destruct (Usage c !! "cpu"%string), (Usage c !! "memory"%string).
Qed.
Lemma memory_steps interval l item :
  let amount f := latest (λ m : option SummaryMemory, (λ b, byteSeconds (i64 b) (Seconds interval : F)) <$> (m ≫= f)) l in
  foldl (λ s x, memory_step interval x s) item l =
  {| cpuCoreNanoseconds_ := cpuCoreNanoseconds_ item;
     memoryWorkingSetSeconds := match amount WorkingSetBytes with Some v => Some v | None => memoryWorkingSetSeconds item end;
     memoryRSSSeconds := match amount RSSBytes with Some v => Some v | None => memoryRSSSeconds item end;
     sample_containerID := sample_containerID item |}.
Proof.
  induction l as [|x l IH] using rev_ind; [by destruct item|]. simpl in *. rewrite foldl_app, IH. simpl. unfold memory_step. simpl.
  rewrite !latest_snoc. f_equal; by destruct (_ <$> (x ≫= _)).
Qed.
Lemma usage_steps interval l item :
  foldl (λ s x, usage_step interval x s) item l =
  {| cpuCoreNanoseconds_ := match latest (λ u, cpuResourceTime u (Seconds interval : F)) l with Some v => Some v | None => cpuCoreNanoseconds_ item end;
     memoryWorkingSetSeconds := match latest (λ u, memoryResourceTime u (Seconds interval : F)) l with
                                | Some v => Some v | None => memoryWorkingSetSeconds item end;
     memoryRSSSeconds := memoryRSSSeconds item; sample_containerID := sample_containerID item |}.
Proof.
  induction l as [|x l IH] using rev_ind; [by destruct item|]. rewrite foldl_app, IH. simpl. unfold usage_step. simpl.
  rewrite !latest_snoc. f_equal; [by destruct (cpuResourceTime x _)|by destruct (memoryResourceTime x _)].
Qed.

Section sources.
Context (src : sources) (interval : Duration).
Definition summed (start end_ : Time) (l : list (Node * Summary)) (r : summaryResult) : summaryResult :=
  foldl (λ r x, add_summary interval start end_ r x.1 x.2) r l.
Lemma read_summaries_exec start end_ ns r failed w a w' :
  exec (sample_effect src) (read_summaries interval start end_ ns r failed) w a w' →
  w' = w ∧ a.1 = summed start end_ (omap (λ n, match summary_answer src (Name (Node_Meta n)) with Ok s => Some (n, s) | Err _ => None end) ns) r.
Proof.
  revert r failed. induction ns as [|n ns IH]; intros r failed; [by intros [-> ->]|]. intros (x & w1 & [-> ->] & Hk). simpl.
  destruct (summary_answer src (Name (Node_Meta n))); by apply IH in Hk.
Qed.
Lemma summary_exec start end_ w r e w' :
  exec (sample_effect src) (summary interval start end_) w (r, e) w' → w' = w ∧ r = summed start end_ (summaries src) no_summary.
Proof.
  intros (x & w1 & [-> ->] & Hk). unfold summaries. destruct (nodes_answer src) as [ns|err]; [|by destruct Hk as [[= -> ->] ->]].
  simpl in Hk. apply exec_bind in Hk as ([r1 failed] & w1 & Hr & Hk). apply read_summaries_exec in Hr as [-> Hr]. simpl in *. rewrite <- Hr.
  destruct (_ && _) eqn:Hb; destruct Hk as [[= -> ->] ->]; split; try done.
  apply andb_prop in Hb as [[Hc%bool_decide_eq_true Hn%bool_decide_eq_true]%andb_prop _]. destruct r1. simpl in *. by subst.
Qed.
Lemma summed_containers start end_ l r :
  containers (summed start end_ l r) =
  foldl (keyed_step (memory_step interval)) (containers r)
    ('(_, s) ← l; pod ← Summary_Pods s; c ← SP_Containers pod;
     [(key (Ref_Namespace (PodRef pod)) (Ref_Name (PodRef pod)) (SC_Name c), SC_Memory c)]).
Proof.
  unfold summed. revert r. induction l as [|[n s] l IH]; intros r; [done|]. csimpl. rewrite IH, foldl_app. f_equal. simpl.
  generalize (containers r). induction (Summary_Pods s) as [|pod pods IHp]; intros m; [done|]. csimpl. rewrite IHp, foldl_app. f_equal.
  clear. revert m. induction (SP_Containers pod) as [|c cs IHc]; intros m; [done|]. csimpl. by rewrite summary_container_step, IHc.
Qed.
Lemma add_metrics_fold items m :
  foldl (add_metrics interval) m items =
  foldl (keyed_step (usage_step interval)) m (pod ← items; c ← PM_Containers pod; [(key (PM_Namespace pod) (PM_Name pod) (CM_Name c), Usage c)]).
Proof.
  revert m. induction items as [|pod items IH]; intros m; [done|]. csimpl. rewrite IH, foldl_app. f_equal. unfold add_metrics.
  clear. revert m. induction (PM_Containers pod) as [|c cs IHc]; intros m; [done|]. csimpl. by rewrite metrics_container_step, IHc.
Qed.
Lemma usage_exec start end_ w u w' :
  exec (sample_effect src) (usage interval (containers (summed start end_ (summaries src) no_summary))) w u w' →
  w' = w ∧ match u with
           | Ok m => (∀ k, m !! k = usage_ref src interval k) ∧ (is_Ok (metrics_answer src) = false → summary_readings src ≠ [])
           | Err _ => is_Ok (metrics_answer src) = false ∧ summary_readings src = []
           end.
Proof.
  intros (x & w1 & [-> ->] & Hk). rewrite summed_containers in Hk. fold (summary_readings src) in Hk. simpl in Hk.
  pose proof (λ k, keyed_fold (memory_step interval) (summary_readings src) ∅ k) as Hmem.
  set (m := foldl (keyed_step (memory_step interval)) ∅ (summary_readings src)) in *.
  assert (∀ k, m !! k = match of_key k (summary_readings src) with [] => None | l =>
    Some (foldl (λ s x, memory_step interval x s) zero_sample l) end) as Hm.
  { intros k. rewrite Hmem, lookup_empty. done. }
  clear Hmem. unfold usage_ref, metrics_readings. destruct (metrics_answer src) as [items|err]; simpl in Hk.
  - destruct Hk as [-> ->]. split; [done|]. split; [|done]. intros k. cbn [answered]. rewrite add_metrics_fold, keyed_fold, Hm.
    destruct (of_key k (summary_readings src)) as [|y ys]; destruct (of_key k (mbind _ items)) as [|z zs]; cbn [default]; [done|..];
      rewrite ?usage_steps, ?memory_steps; cbn -[latest]; by rewrite ?option_eta.
  - destruct (bool_decide_reflect (m = ∅)) as [He|He]; destruct Hk as [-> ->]; split; try done.
    + split; [done|]. destruct (summary_readings src) as [|[k y] l] eqn:Hr; [done|]. specialize (Hm k). rewrite He, lookup_empty in Hm.
      unfold of_key in Hm. rewrite filter_cons, decide_True in Hm by done. done.
    + split; [|intros _ Hr; apply He; subst m; by rewrite Hr].
      intros k. rewrite Hm. destruct (of_key k (summary_readings src)) as [|y ys]; [done|].
      rewrite memory_steps. cbn -[latest]. by rewrite !option_eta.
Qed.

(** *** The publications *)

(** An event without the time it was collected at *)
Definition strip (e : Event) : string * option Payload := (Key e, EventObservation e ≫= payload).
Definition running (pods : list Pod) : list (Pod * Container) :=
  pod ← filter (λ p, skipped p = false) pods; (pair pod) <$> (InitContainers pod ++ Containers_ pod).
Definition pair_key (x : Pod * Container) : summaryKey := key (Namespace_ (Pod_Meta x.1)) (Name (Pod_Meta x.1)) (Container_Name x.2).
(** One event per running container with a reading, and one per node with a
    measurement *)
Definition container_report (start end_ : Time) (x : Pod * Container) : option (string * option Payload) :=
  (λ s, strip (event start end_ (spec_of x.1 x.2) s end_)) <$> usage_ref src interval (pair_key x).
Definition node_report (start end_ : Time) (x : Node * Summary) : option (string * option Payload) :=
  let s := nodeUsage x.1 x.2 (Seconds (Http.Gatewayauth.Sub end_ start)) in
  if reported s then Some (strip (nodeEvent start end_ s end_)) else None.
Definition report (start end_ : Time) : list (string * option Payload) :=
  omap (container_report start end_) (running (answered (pods_answer src))) ++ omap (node_report start end_) (summaries src).

Lemma publish_containers_exec start end_ u l w err w' :
  exec (sample_effect src) (publish_containers start end_ u l) w err w' →
  ∃ es, w' = w ++ es ∧
    let all := omap (λ x, (λ s, strip (event start end_ x.2 s end_)) <$> u !! x.1) l in
    strip <$> es `prefix_of` all ∧ (err = None → strip <$> es = all).
Proof.
  revert w. induction l as [|[k spec] l IH]; intros w Hex; simpl in Hex.
  { destruct Hex as [-> ->]. exists []. by rewrite app_nil_r. }
  csimpl. destruct (u !! k) as [s|]; simpl; [|by apply IH].
  destruct Hex as (now & w1 & -> & er & w2 & Hw2 & Hk). simpl in Hw2. destruct er as [e|]; simpl in Hk.
  - destruct Hk as [-> ->]. exists []. rewrite app_nil_r. split; [done|]. split; [apply prefix_nil|done].
  - apply IH in Hk as (es & -> & Hp & Heq). exists (event start end_ spec s now :: es). subst w2. rewrite <- app_assoc. split; [done|].
    csimpl. split; [by apply prefix_cons|]. intros He. by rewrite Heq.
Qed.
Lemma publish_nodes_exec start end_ l w err w' :
  exec (sample_effect src) (publish_nodes start end_ l) w err w' →
  ∃ es, w' = w ++ es ∧
    let all := omap (λ x : string * nodeUsageSample, if reported x.2 then Some (strip (nodeEvent start end_ x.2 end_)) else None) l in
    strip <$> es `prefix_of` all ∧ (err = None → strip <$> es = all).
Proof.
  revert w. induction l as [|[k s] l IH]; intros w Hex; simpl in Hex.
  { destruct Hex as [-> ->]. exists []. by rewrite app_nil_r. }
  csimpl. destruct (reported s) eqn:Hr; simpl; [|by apply IH].
  destruct Hex as (now & w1 & -> & er & w2 & Hw2 & Hk). simpl in Hw2. destruct er as [e|]; simpl in Hk.
  - destruct Hk as [-> ->]. exists []. rewrite app_nil_r. split; [done|]. split; [apply prefix_nil|done].
  - apply IH in Hk as (es & -> & Hp & Heq). exists (nodeEvent start end_ s now :: es). subst w2. rewrite <- app_assoc. split; [done|].
    csimpl. split; [by apply prefix_cons|]. intros He. by rewrite Heq.
Qed.

Lemma foldl_insert_perm {K A} `{Countable K} (l : list (K * A)) :
  NoDup l.*1 → map_to_list (foldl (λ m x, <[x.1 := x.2]> m) (∅ : gmap K A) l) ≡ₚ l.
Proof.
  intros Hnd. assert (∀ m : gmap K A, foldl (λ m x, <[x.1 := x.2]> m) m l = list_to_map (reverse l) ∪ m) as Hf.
  { clear Hnd. induction l as [|[k x] l IH] using rev_ind; intros m; [simpl; by rewrite map_empty_union|].
    rewrite foldl_app, IH, reverse_app. simpl. by rewrite insert_union_l. }
  rewrite Hf, map_union_empty, map_to_list_to_map; [by rewrite reverse_Permutation|]. by rewrite fmap_reverse, reverse_Permutation.
Qed.
Lemma specs_of_fold pods :
  specs_of pods = foldl (λ m x, <[x.1 := x.2]> m) ∅ ((λ x, (pair_key x, spec_of x.1 x.2)) <$> running pods).
Proof.
  unfold specs_of. generalize (∅ : gmap summaryKey podContainerSpec). induction pods as [|pod pods IH]; intros m; [done|]. simpl.
  unfold running. rewrite filter_cons. unfold add_pod at 2. destruct (skipped pod); [rewrite decide_False by done; apply IH|].
  rewrite decide_True by done. csimpl. generalize (InitContainers pod ++ Containers_ pod) as cs. intros cs.
  rewrite IH, fmap_app, foldl_app. f_equal. clear. revert m. induction cs as [|c cs IHc]; intros m; [done|]. csimpl. by rewrite IHc.
Qed.
Lemma summed_nodes start end_ l r :
  nodes (summed start end_ l r) =
  foldl (λ m x, <[x.1 := x.2]> m) (nodes r)
    ((λ x, (Name (Node_Meta x.1), nodeUsage x.1 x.2 (Seconds (Http.Gatewayauth.Sub end_ start)))) <$> l).
Proof. unfold summed. revert r. induction l as [|[n s] l IH]; intros r; [done|]. csimpl. by rewrite IH. Qed.
Lemma summaries_names : NoDup ((λ n, Name (Node_Meta n)) <$> answered (nodes_answer src)) → NoDup ((λ x, Name (Node_Meta x.1)) <$> summaries src).
Proof.
  unfold summaries. induction (answered (nodes_answer src)) as [|n ns IH]; csimpl; [done|]. intros [Hn Hnd]%NoDup_cons.
  destruct (summary_answer src (Name (Node_Meta n))) as [s|]; csimpl; [|by apply IH]. apply NoDup_cons. split; [|by apply IH].
  intros (x & Hx & Hin)%list_elem_of_fmap. apply Hn. rewrite Hx. apply list_elem_of_omap in Hin as (n' & Hn' & Heq).
  case_match; simplify_eq. apply list_elem_of_fmap. by exists n'.
Qed.

Lemma prefix_submseteq {A} (l k : list A) : l `prefix_of` k → l ⊆+ k.
Proof. intros [k' ->]. apply submseteq_inserts_r, reflexivity. Qed.
Lemma omap_fmap_in {A B C} (f : B → option C) (g : A → B) (l : list A) : omap f (g <$> l) = omap (f ∘ g) l.
Proof. induction l as [|x l IH]; [done|]. csimpl. by rewrite IH. Qed.
Lemma omap_ext_all {A B} (f g : A → option B) (l : list A) : (∀ x, f x = g x) → omap f l = omap g l.
Proof. intros Hfg. induction l as [|x l IH]; [done|]. csimpl. by rewrite Hfg, IH. Qed.

(** C27: a sample publishes the report of its sources: exactly one observation of
    each running container that has a reading, with the latest amounts and the
    metrics API before the kubelet summary, and of each node that was measured, in
    some order. If a publication fails a part of the report has been published; if
    the pods cannot be listed, or no source has a reading of any container,
    nothing has. *)
Theorem sample_publishes_report w err w' :
  (∀ m, visit_specs m ≡ₚ map_to_list m) → (∀ m, visit_nodes m ≡ₚ map_to_list m) →
  NoDup (pair_key <$> running (answered (pods_answer src))) →
  NoDup ((λ n, Name (Node_Meta n)) <$> answered (nodes_answer src)) →
  exec (sample_effect src) (Sample interval) w err w' →
  ∃ end_ es, w' = w ++ es ∧ strip <$> es ⊆+ report (end_ - interval) end_ ∧
    (err = None → strip <$> es ≡ₚ report (end_ - interval) end_) ∧
    (is_Ok (pods_answer src) = false → es = [] ∧ err ≠ None) ∧
    (is_Ok (metrics_answer src) = false → summary_readings src = [] → es = [] ∧ err ≠ None).
Proof.
  intros Hvs Hvn Hpods Hnodes Hex. apply exec_bind in Hex as (end_ & w1 & (x & w2 & -> & -> & ->) & Hex). exists x. rename x into end_. set (start := end_ - interval) in *.
  apply exec_bind in Hex as (sp & w1 & (x & w2 & [-> ->] & Hsp) & Hex). unfold report.
  destruct (pods_answer src) as [pods|e] eqn:Hp; destruct Hsp as [-> ->]; cbv beta iota in Hex.
  2:{ destruct Hex as [-> ->]. exists []. rewrite app_nil_r. split_and!; try done. apply submseteq_nil_l. }
  apply exec_bind in Hex as ([r e] & w1 & Hsum & Hex). apply summary_exec in Hsum as [-> ->].
  apply exec_bind in Hex as (u & w1 & Hu & Hex). apply usage_exec in Hu as [-> Hu].
  destruct u as [u|e']; [destruct Hu as [Hu Hany]|destruct Hex as [-> ->]; exists []; rewrite app_nil_r; split_and!; try done; apply submseteq_nil_l].
  assert (omap (λ x, (λ s, strip (event start end_ x.2 s end_)) <$> u !! x.1) (visit_specs (specs_of pods)) ≡ₚ
    omap (container_report start end_) (running pods)) as Hcs.
  { rewrite Hvs, specs_of_fold, foldl_insert_perm by (rewrite <- list_fmap_compose; exact Hpods).
    rewrite omap_fmap_in. erewrite omap_ext_all; [done|]. intros x. unfold container_report. simpl. by rewrite Hu. }
  assert (omap (λ x : string * nodeUsageSample, if reported x.2 then Some (strip (nodeEvent start end_ x.2 end_)) else None)
    (visit_nodes (nodes (summed start end_ (summaries src) no_summary))) ≡ₚ omap (node_report start end_) (summaries src)) as Hns.
  { rewrite Hvn, summed_nodes. simpl nodes. rewrite foldl_insert_perm by (rewrite <- list_fmap_compose; by apply summaries_names).
    by rewrite omap_fmap_in. }
  apply exec_bind in Hex as (er & w1 & Hpc & Hex). apply publish_containers_exec in Hpc as (es & -> & Hpre & Heq).
  cbn [answered]. destruct er as [er|].
  - destruct Hex as [-> ->]. exists es. rewrite <- Hcs, <- Hns. split_and!; try done.
    + by apply submseteq_inserts_r, prefix_submseteq.
    + intros Hm Hs. by destruct (Hany Hm).
  - apply publish_nodes_exec in Hex as (es' & -> & Hpre' & Heq'). exists (es ++ es'). rewrite <- Hcs, <- Hns, fmap_app, (Heq eq_refl). split_and!; try done.
    + by rewrite app_assoc.
    + by apply submseteq_skips_l, prefix_submseteq.
    + intros He. by rewrite (Heq' He).
    + intros Hm Hs. by destruct (Hany Hm).
Qed.
End sources.
End amounts.
End sampler.

(** *** Amounts in exact arithmetic *)

Lemma mul_value (a b : Qc) : (this (mul a b) == this a * this b)%Q.
Proof. simpl. by rewrite Qred_correct. Qed.
Lemma of_Z_value (z : Z) : (this (of_Z z : Qc) == inject_Z z)%Q.
Proof. simpl. by rewrite Qred_correct. Qed.
Lemma Seconds_exact d : (this (Seconds (F := Qc) d) == inject_Z d / inject_Z Second)%Q.
Proof.
  unfold Seconds. simpl. rewrite !Qred_correct. rewrite (Z.quot_rem' d Second) at 3. rewrite inject_Z_plus, inject_Z_mult.
  field. intros Heq. by apply (inject_Z_injective Second 0) in Heq.
Qed.
Lemma trunc_exact (q : Qc) a b : 0 ≤ a → 0 < b → (this q == inject_Z a / inject_Z b)%Q → trunc q = a / b.
Proof.
  intros Ha Hb Hq. assert (this q == Qmake a (Z.to_pos b))%Q as Hm.
  { rewrite Hq, (Qmake_Qdiv a (Z.to_pos b)), Z2Pos.id by done. done. }
  unfold trunc, exact_rounding. rewrite (proj2 (leb_exact (of_Z 0) q)).
  - unfold Qc_floor. rewrite (Qfloor_comp _ _ Hm). simpl. by rewrite Z2Pos.id.
  - rewrite Hm. unfold Qle. simpl. lia.
Qed.
(** In exact arithmetic an amount is the usage times the interval, rounded down. *)
Lemma amounts_exact millicores bytes interval :
  0 ≤ millicores → 0 ≤ bytes → 0 ≤ interval →
  cpuCoreNanoseconds millicores (Seconds (F := Qc) interval) = millicores * 1000000 * interval / Second ∧
  byteSeconds bytes (Seconds (F := Qc) interval) = bytes * interval / Second.
Proof.
  intros Hm Hb Hi. split; apply trunc_exact; try done; try lia; rewrite !mul_value, !of_Z_value, Seconds_exact, !inject_Z_mult;
    field; intros Heq; by apply (inject_Z_injective Second 0) in Heq.
Qed.

(** *** A sample *)

Definition sample_sources : sources (Quantity := Z) :=
  let meta uid name ns := {| UID := uid; Name := name; Namespace_ := ns; ResourceVersion := "1"; Labels := ∅;
    CreationTimestamp := unix_epoch; DeletionTimestamp := None; OwnerReferences := [] |} in
  {| pods_answer := Ok [{| Pod_Meta := meta "pod-uid" "pod-1" "apps"; Pod_SpecNodeName := "node-1"; Pod_ServiceAccount := "";
       Pod_PriorityClass := ""; InitContainers := [];
       Containers_ := [{| Container_Name := "app"; Container_ImageName := "img";
                          RequestList := {["cpu" := 100]}; LimitList := {["cpu" := 500]} |}];
       Pod_StatusPhase := "Running"; Pod_QOSClass := ""; Conditions := []; StartTime := None;
       InitContainerStatuses := []; ContainerStatuses := [] |}];
     nodes_answer := Ok [{| Node_Meta := meta "node-uid" "node-1" ""; Node_ProviderID := ""; Node_Unschedulable := false;
       Node_TaintList := []; Node_Arch := ""; Node_OS := ""; Node_CapacityList := ∅; Node_AllocatableList := ∅ |}];
     metrics_answer := Ok [{| PM_Namespace := "apps"; PM_Name := "pod-1"; PM_Timestamp := unix_epoch; PM_Window := 10 * Second;
       PM_Containers := [{| CM_Name := "app"; Usage := <["memory" := 134217728000]> {["cpu" := 250]} |}] |}];
     summary_answer _ := Ok {|
       Summary_Node := {| SN_NodeName := "node-1"; SN_CPU := Some {| UsageCoreNanoSeconds := None; UsageNanoCores := Some 1000000000 |};
                          SN_Memory := Some {| WorkingSetBytes := Some 8589934592; RSSBytes := None |} |};
       Summary_Pods := [{| PodRef := {| Ref_Name := "pod-1"; Ref_Namespace := "apps"; Ref_UID := "pod-uid" |};
         SP_Containers := [{| SC_Name := "app"; SC_StartTime := unix_epoch; SC_CPU := None;
                              SC_Memory := Some {| WorkingSetBytes := None; RSSBytes := Some 67108864 |} |}] |}] |}
  |}%string.
#[local] Existing Instance sample_codec.
Definition sample_answer (o : sample_op) (w : list Event) : sample_ans o * list Event :=
  match o with
  | Now => (unix_epoch + 100 * Second, w)
  | ListPods => (pods_answer sample_sources, w)
  | ListNodes => (nodes_answer sample_sources, w)
  | NodeSummary n => (summary_answer sample_sources n, w)
  | ReadPodMetrics => (metrics_answer sample_sources, w)
  | Publish e => (None, w ++ [e])
  | Tick => (false, w)
  end.
Definition sample_run := run sample_answer (Sample (F := spec_float) (λ q, q) (λ q, q / 1000) map_to_list map_to_list (10 * Second)) [].
Lemma sample_publishes_report_witness :
  ∃ end_, strip <$> sample_run.2 ≡ₚ report (F := spec_float) (λ q, q) (λ q, q / 1000) sample_sources (10 * Second) (end_ - 10 * Second) end_
  ∧ length sample_run.2 = 2%nat.
Proof.
  destruct (sample_publishes_report (F := spec_float) (λ q, q) (λ q, q / 1000) map_to_list map_to_list sample_sources (10 * Second)
    [] sample_run.1 sample_run.2) as (end_ & es & Hes & _ & Hok & _).
  - done.
  - done.
  - repeat constructor; set_solver.
  - repeat constructor; set_solver.
  - apply run_exec. by intros [].
  - exists end_. rewrite Hes. split; [apply Hok; vm_compute; reflexivity|]. rewrite <- Hes. vm_compute. reflexivity.
Defined.
End Sampler.
