(* ===== verification/Tenancy.v ===== *)
(** * Tenants of a service

    The services behind the gateway ([services/tenant], [services/cluster-registry],
    [services/integrations], ...) keep the data of all tenants in one process. This
    file states what they owe each tenant, as an interface: the requests of other
    tenants neither change what a tenant sees nor what its own requests answer. *)
From stdpp Require Import base option list strings.
From S2P Require Import Prelude.

Module Tenancy.

(** A service: how it serves a call, for which tenant a call is authenticated, and
    the part of its state that concerns a tenant *)
Class TenantService (State Call Answer Seen : Type) := {
  serve : Call → State → Answer * State;
  author : Call → option string;
  seen : string → State → Seen
}.
(** [proper] are the calls HTTP lets through, and [invariant] holds of the states
    they lead to. *)
Class Isolated (State Call Answer Seen : Type) `{TenantService State Call Answer Seen} := {
  proper : Call → Prop;
  invariant : State → Prop;
  invariant_preserved c s : proper c → invariant s → invariant (serve c s).2;
  others_unseen c s t : proper c → invariant s → author c ≠ Some t → seen t (serve c s).2 = seen t s;
  own_determined c s s' t : proper c → invariant s → invariant s' → author c = Some t → seen t s = seen t s' →
    (serve c s).1 = (serve c s').1 ∧ seen t (serve c s).2 = seen t (serve c s').2
}.

Section answers.
Context {State Call Answer Seen : Type} `{TenantService State Call Answer Seen}.

(** The answers to the calls of a tenant among the calls of everybody *)
Fixpoint answers (t : string) (calls : list Call) (s : State) : list Answer :=
  match calls with
  | [] => []
  | c :: calls' =>
      let '(a, s') := serve c s in
      if bool_decide (author c = Some t) then a :: answers t calls' s' else answers t calls' s'
  end.
Definition own (t : string) (calls : list Call) : list Call := filter (λ c, author c = Some t) calls.
(** The tenant's calls are answered as if nobody else had called. *)
Definition undisturbed (t : string) (calls : list Call) (s : State) : Prop := answers t calls s = answers t (own t calls) s.
End answers.

Section isolation.
Context {State Call Answer Seen : Type} `{Isolated State Call Answer Seen}.
Lemma noninterference t calls s s' :
  Forall proper calls → invariant s → invariant s' → seen t s = seen t s' → answers t calls s = answers t (own t calls) s'.
Proof.
  revert s s'. induction calls as [|c calls IH]; intros s s' Hp Hs Hs' Heq; [done|].
  apply Forall_cons in Hp as [Hc Hp]. unfold own. rewrite filter_cons. simpl.
  pose proof (invariant_preserved c s Hc Hs) as Hi. destruct (decide (author c = Some t)) as [Ha|Ha].
  - destruct (own_determined c s s' t Hc Hs Hs' Ha Heq) as [Hans Hseen]. pose proof (invariant_preserved c s' Hc Hs') as Hi'. simpl.
    destruct (serve c s) as [a s1], (serve c s') as [a' s1']. simpl in *. rewrite (bool_decide_eq_true_2 _ Ha). f_equal; [done|].
    by apply IH.
  - pose proof (others_unseen c s t Hc Hs Ha) as Hseen. destruct (serve c s) as [a s1]. simpl in *.
    rewrite (bool_decide_eq_false_2 _ Ha). apply IH; try done. by rewrite Hseen.
Qed.
Lemma isolated_undisturbed t calls s : Forall proper calls → invariant s → undisturbed t calls s.
Proof. intros Hp Hs. by apply noninterference. Qed.
End isolation.
End Tenancy.
