(* ===== verification/Services.v ===== *)
(** * What the control-plane services have in common

    The services behind the gateway decode and check requests in the same way and
    keep their data in maps per tenant. *)
From stdpp Require Import base option list gmap strings sorting.
From Stdlib Require Import ZArith Lia Ascii.
From S2P Require Import Prelude Proto Stores Http.

Section environment.
Context (Getenv : string → string).
Import Http Gatewayauth.

Definition invalid_request (detail : string) : problem := problem_of StatusBadRequest "invalid_request" detail.
(** The decoders of request bodies differ in the name of what they expect. *)
Definition decode {T} (expected : string) (b : body T) : res problem T :=
  match b with
  | NoBody | EmptyBody => Err (invalid_request "request body is required")
  | MalformedBody => Err (invalid_request ("request body must be valid " +:+ expected +:+ " JSON"))
  | JSONBody request => Ok request
  end.
Definition tenant_of (clock : Time) (r : Request) : option string :=
  match authenticatedTenant Getenv clock r with Ok t => Some t | Err _ => None end.
End environment.

(** ** Maps per tenant *)

Section buckets.
Context {A : Type}.
Implicit Types (m : gmap string (gmap string A)).
Definition bucket m (t : string) : gmap string A := default ∅ (m !! t).
Lemma bucket_put m t b t' : bucket (<[t := b]> m) t' = if decide (t' = t) then b else bucket m t'.
Proof. unfold bucket. destruct (decide (t' = t)) as [->|Ht]; [by rewrite lookup_insert_eq|by rewrite lookup_insert_ne]. Qed.
End buckets.
