(* ===== verification/Members.v ===== *)
(** * Tenant members

    [services/tenant]: the profile of a tenant and the roles of its members
    ([store.go], [server.go]).

    A store is only used with its lock held and hands out copies, so its maps are
    pure values. [strings.ToLower], JSON encodings and checks and random identifiers
    are parameters; where the source ranges over a map, the order is one. *)
From stdpp Require Import base option list gmap strings sorting.
From Stdlib Require Import ZArith Lia Ascii.
From S2P Require Import Prelude Proto Stores Http Tenancy Services.

Module Tenant.
Import Http Gatewayauth Tenancy.

Record TenantProfile := { Prof_TenantID : string; Prof_Status : string; Source : string; SeenAt : Time }.
Record MemberRequest := { Req_Role : string; Req_DisplayName : string }.
Record Member := {
  TenantID : string;
  PrincipalID : string;
  Role : string;
  DisplayName : string;
  CreatedAt : Time;
  UpdatedAt : Time
}.
Record MembersResult := { Members_TenantID : string; Members_Members : list Member }.
Record Store := { members : gmap string (gmap string Member) }.
Definition NewStore : Store := {| members := ∅ |}.

Definition UpsertMember (s : Store) (tenantID principalID role displayName : string) (now : Time) : Member * Store :=
  let tenantMembers := default ∅ (members s !! tenantID) in
  let createdAt := match tenantMembers !! principalID with Some m => if IsZero (CreatedAt m) then now else CreatedAt m | None => now end in
  let member := {| TenantID := tenantID; PrincipalID := principalID; Role := role; DisplayName := displayName;
                   CreatedAt := createdAt; UpdatedAt := now |} in
  (member, {| members := <[tenantID := <[principalID := member]> tenantMembers]> (members s) |}).
Definition principal_before (a b : Member) : Prop := String.ltb (PrincipalID b) (PrincipalID a) = false.
#[export] Instance principal_before_dec a b : Decision (principal_before a b) := decide (_ = _).
(** [order] visits the principals of the tenant. *)
Definition Members (s : Store) (tenantID : string) (order : list string) : list Member :=
  let tenantMembers := default ∅ (members s !! tenantID) in
  merge_sort principal_before (omap (λ p, tenantMembers !! p) order).
Definition DeleteMember (s : Store) (tenantID principalID : string) : bool * Store :=
  match members s !! tenantID with
  | None => (false, s)
  | Some tenantMembers =>
      match tenantMembers !! principalID with
      | None => (false, s)
      | Some _ => (true, {| members := <[tenantID := delete principalID tenantMembers]> (members s) |})
      end
  end.

Section handlers.
Context (Getenv : string → string) (ToLower : string → string).

Definition roles : list string := ["owner"; "admin"; "viewer"]%string.
Definition decodeMemberRequest (b : body MemberRequest) : res problem MemberRequest := decode "member" b.
Definition normalizeRole (role : string) : res problem string :=
  let role := ToLower (TrimSpace role) in
  if bool_decide (role ∈ roles) then Ok role else Err (invalid_request "role must be one of owner, admin, viewer").
Definition profile (clock now : Time) (r : Request) : response TenantProfile :=
  match authenticatedTenant Getenv clock r with
  | Err p => Problem p
  | Ok tenantID => writeJSON StatusOK {| Prof_TenantID := tenantID; Prof_Status := "active"; Source := "gateway"; SeenAt := now |}
  end.
Definition listMembers (s : Store) (clock : Time) (r : Request) (order : list string) : response MembersResult :=
  match authenticatedTenant Getenv clock r with
  | Err p => Problem p
  | Ok tenantID => writeJSON StatusOK {| Members_TenantID := tenantID; Members_Members := Members s tenantID order |}
  end.
Definition putMember (s : Store) (clock now : Time) (r : Request) (b : body MemberRequest) : response Member * Store :=
  match authenticatedTenant Getenv clock r with
  | Err p => (Problem p, s)
  | Ok tenantID =>
      let principalID := TrimSpace (PathValue r "principal_id") in
      if (principalID =? "")%string then (Problem (invalid_request "principal_id is required"), s)
      else
        match decodeMemberRequest b with
        | Err p => (Problem p, s)
        | Ok request =>
            match normalizeRole (Req_Role request) with
            | Err p => (Problem p, s)
            | Ok role =>
                let '(member, s') := UpsertMember s tenantID principalID role (TrimSpace (Req_DisplayName request)) now in
                (writeJSON StatusOK member, s')
            end
        end
  end.
(** A deletion is answered without a body. *)
Definition deleteMember (s : Store) (clock : Time) (r : Request) : response unit * Store :=
  match authenticatedTenant Getenv clock r with
  | Err p => (Problem p, s)
  | Ok tenantID =>
      let principalID := TrimSpace (PathValue r "principal_id") in
      if (principalID =? "")%string then (Problem (invalid_request "principal_id is required"), s)
      else
        match DeleteMember s tenantID principalID with
        | (false, s') => (writeProblem StatusNotFound "not_found" "tenant member not found", s')
        | (true, s') => (writeJSON StatusNoContent tt, s')
        end
  end.

(** *** The service *)

Inductive call :=
| Profile (clock now : Time) (r : Request)
| List_ (clock : Time) (r : Request) (order : list string)
| Put (clock now : Time) (r : Request) (b : body MemberRequest)
| Delete (clock : Time) (r : Request).
Inductive answer :=
| Profiled (a : response TenantProfile)
| Listed (a : response MembersResult)
| PutDone (a : response Member)
| Deleted (a : response unit).
#[export] Instance members_service : TenantService Store call answer (gmap string Member) := {|
  serve c s := match c with
               | Profile clock now r => (Profiled (profile clock now r), s)
               | List_ clock r order => (Listed (listMembers s clock r order), s)
               | Put clock now r b => let '(a, s') := putMember s clock now r b in (PutDone a, s')
               | Delete clock r => let '(a, s') := deleteMember s clock r in (Deleted a, s')
               end;
  author c := match c with
              | Profile clock _ r | List_ clock r _ | Put clock _ r _ | Delete clock r => tenant_of Getenv clock r
              end;
  seen t s := default ∅ (members s !! t)
|}.

(** Members are stored under their own tenant and principal, with a known role. *)
Definition well_formed (s : Store) : Prop :=
  ∀ t p m, default ∅ (members s !! t) !! p = Some m → TenantID m = t ∧ PrincipalID m = p ∧ p ≠ EmptyString ∧ Role m ∈ roles.

(** What the operations do to a tenant's members *)
Lemma UpsertMember_seen s t p role name now t' :
  default ∅ (members (UpsertMember s t p role name now).2 !! t') =
  if decide (t' = t) then <[p := (UpsertMember s t p role name now).1]> (default ∅ (members s !! t)) else default ∅ (members s !! t').
Proof. simpl. destruct (decide (t' = t)) as [->|Ht]; [by rewrite lookup_insert_eq|by rewrite lookup_insert_ne]. Qed.
Lemma DeleteMember_seen s t p t' :
  default ∅ (members (DeleteMember s t p).2 !! t') =
  if decide (t' = t) then delete p (default ∅ (members s !! t)) else default ∅ (members s !! t').
Proof.
  unfold DeleteMember. destruct (members s !! t) as [m|] eqn:Hm; simpl.
  2:{ destruct (decide (t' = t)) as [->|]; [|done]. by rewrite Hm, delete_empty. }
  destruct (m !! p) as [x|] eqn:Hp; simpl; destruct (decide (t' = t)) as [->|Ht]; try done.
  - by rewrite lookup_insert_eq.
  - by rewrite lookup_insert_ne.
  - by rewrite Hm, delete_id.
Qed.
Lemma DeleteMember_answer s t p : (DeleteMember s t p).1 = bool_decide (is_Some (default ∅ (members s !! t) !! p)).
Proof.
  unfold DeleteMember. destruct (members s !! t) as [m|]; cbn [default]; [|by rewrite lookup_empty].
  destruct (m !! p) eqn:Hp; cbn; rewrite Hp; [by rewrite bool_decide_eq_true_2 by eauto|by rewrite bool_decide_eq_false_2 by (by intros [? ?])].
Qed.

(** A handler of a request of [t] changes the store by at most one operation. *)
Lemma putMember_cases clock now r b :
  (∃ p, ∀ s', putMember s' clock now r b = (Problem p, s')) ∨
  ∃ t p role name, tenant_of Getenv clock r = Some t ∧ p ≠ EmptyString ∧ role ∈ roles ∧
    ∀ s', putMember s' clock now r b = (writeJSON StatusOK (UpsertMember s' t p role name now).1, (UpsertMember s' t p role name now).2).
Proof.
  unfold putMember, tenant_of. destruct (authenticatedTenant Getenv clock r) as [t|]; [|eauto].
  destruct (String.eqb_spec (TrimSpace (PathValue r "principal_id")) ""); [eauto|].
  destruct (decodeMemberRequest b) as [q|]; [|eauto]. unfold normalizeRole. case_bool_decide; [|eauto]. right. eauto 10.
Qed.
Lemma deleteMember_cases clock r :
  (∃ p, ∀ s', deleteMember s' clock r = (Problem p, s')) ∨
  ∃ t p, tenant_of Getenv clock r = Some t ∧
    ∀ s', deleteMember s' clock r =
      (if (DeleteMember s' t p).1 then writeJSON StatusNoContent tt else writeProblem StatusNotFound "not_found" "tenant member not found",
       (DeleteMember s' t p).2).
Proof.
  unfold deleteMember, tenant_of. destruct (authenticatedTenant Getenv clock r) as [t|]; [|eauto].
  destruct (String.eqb_spec (TrimSpace (PathValue r "principal_id")) ""); [eauto|]. right. exists t, (TrimSpace (PathValue r "principal_id")). split; [done|].
  intros s'. by destruct (DeleteMember s' _ _) as [[] ?].
Qed.

#[export] Program Instance members_isolated : Isolated Store call answer (gmap string Member) := {|
  proper _ := True;
  invariant := well_formed
|}.
Next Obligation.
  intros c s _ Hs. destruct c as [clock now r|clock r order|clock now r b|clock r]; [done|done|..]; simpl.
  - destruct (putMember_cases clock now r b) as [[p Hput]|(t & p & role & name & _ & Hp & Hrole & Hput)]; rewrite Hput; [done|].
    intros t' p' m. cbn [snd]. rewrite UpsertMember_seen. case_decide as Ht; [subst t'|by apply Hs].
    intros [[<- <-]|[_ Hm]]%lookup_insert_Some; [by simpl|by apply Hs].
  - destruct (deleteMember_cases clock r) as [[p Hdel]|(t & p & _ & Hdel)]; rewrite Hdel; [done|].
    intros t' p' m. cbn [snd]. rewrite DeleteMember_seen. case_decide as Ht; [subst t'|by apply Hs].
    intros [_ Hm]%lookup_delete_Some. by apply Hs.
Qed.
Next Obligation.
  intros c s t _ _ Ha. destruct c as [clock now r|clock r order|clock now r b|clock r]; [done|done|..]; simpl in *.
  - destruct (putMember_cases clock now r b) as [[p Hput]|(t' & p & role & name & Ht & _ & _ & Hput)]; rewrite Hput; [done|].
    cbn [snd]. rewrite UpsertMember_seen, decide_False by congruence. done.
  - destruct (deleteMember_cases clock r) as [[p Hdel]|(t' & p & Ht & Hdel)]; rewrite Hdel; [done|].
    cbn [snd]. rewrite DeleteMember_seen, decide_False by congruence. done.
Qed.
Next Obligation.
  intros c s s' t _ _ _ Ha Heq. simpl in Heq. destruct c as [clock now r|clock r order|clock now r b|clock r]; simpl in *.
  - done.
  - split; [|done]. unfold listMembers. unfold tenant_of in Ha. destruct (authenticatedTenant Getenv clock r); [|done].
    injection Ha as ->. unfold Members. by rewrite Heq.
  - destruct (putMember_cases clock now r b) as [[p Hput]|(t' & p & role & name & Ht & _ & _ & Hput)]; rewrite !Hput; [done|].
    rewrite Ht in Ha. injection Ha as ->. cbn [fst snd]. assert ((UpsertMember s t p role name now).1 = (UpsertMember s' t p role name now).1) as Hu
      by (simpl; by rewrite Heq). split; [by rewrite Hu|]. rewrite !UpsertMember_seen, !decide_True, Hu, Heq by done. done.
  - destruct (deleteMember_cases clock r) as [[p Hdel]|(t' & p & Ht & Hdel)]; rewrite !Hdel; [done|].
    rewrite Ht in Ha. injection Ha as ->. cbn [fst snd]. rewrite !DeleteMember_answer, !DeleteMember_seen, !decide_True, Heq by done. done.
Qed.
End handlers.
End Tenant.
