(* ===== verification/Integrations.v ===== *)
(** * Integration configurations

    [services/integrations/store.go] and [control_server.go]: the configured
    integrations of a tenant and their validation.

    A store is only used with its lock held and hands out copies, so its maps are
    pure values. [strings.ToLower], JSON encodings and checks and random identifiers
    are parameters; where the source ranges over a map, the order is one. *)
From stdpp Require Import base option list gmap strings sorting.
From Stdlib Require Import ZArith Lia Ascii.
From S2P Require Import Prelude Proto Stores Http Policy Tenancy Services.

Module Integrations.
Import Http Gatewayauth Tenancy.

Record IntegrationRequest := {
  Req_Name : string;
  Req_Type : string;
  Req_Provider : string;
  Req_AccountID : string;
  Req_Region : string;
  Req_SecretRef : string;
  Req_Config : string
}.
Record Integration := {
  IntegrationID : string;
  TenantID : string;
  Name : string;
  Type_ : string;
  Provider : string;
  AccountID : string;
  Region : string;
  SecretRef : string;
  Config : string;
  Status : string;
  CreatedBy : string;
  CreatedAt : Time;
  UpdatedAt : Time;
  LastValidated : option Time
}.
Record IntegrationsResult := { Result_TenantID : string; Result_Integrations : list Integration; Result_Count : Z }.
Record ValidationResult := {
  Val_TenantID : string; Val_IntegrationID : string; Val_Status : string; ValidatedAt : Time; Message : string }.
Record IntegrationStore := { integrations : gmap string (gmap string Integration) }.
Definition NewIntegrationStore : IntegrationStore := {| integrations := ∅ |}.

Definition cloneRawMessage (value : string) : string := value.
Definition cloneIntegration (i : Integration) : Integration := i.
(** [newIntegrationID] on the random bytes in hexadecimal, or on the clock *)
Definition newIntegrationID (random : option string) (now : Time) : string :=
  match random with Some hex => "integration_" +:+ hex | None => "integration-" +:+ dec (UnixNano now) end.
Definition Create (s : IntegrationStore) (id tenantID actor : string) (request : IntegrationRequest) (now : Time) : Integration * IntegrationStore :=
  let integration := {|
    IntegrationID := id; TenantID := tenantID; Name := Req_Name request; Type_ := Req_Type request; Provider := Req_Provider request;
    AccountID := Req_AccountID request; Region := Req_Region request; SecretRef := Req_SecretRef request;
    Config := cloneRawMessage (Req_Config request); Status := "pending_validation"; CreatedBy := actor; CreatedAt := now; UpdatedAt := now;
    LastValidated := None |} in
  (cloneIntegration integration,
   {| integrations := <[tenantID := <[id := integration]> (bucket (integrations s) tenantID)]> (integrations s) |}).
Definition created_before (a b : Integration) : Prop := CreatedAt a ≤ CreatedAt b.
#[export] Instance created_before_dec a b : Decision (created_before a b) := decide (_ ≤ _).
(** [order] visits the identifiers of the tenant's integrations. *)
Definition List_ (s : IntegrationStore) (tenantID : string) (order : list string) : list Integration :=
  merge_sort created_before (omap (λ id, cloneIntegration <$> bucket (integrations s) tenantID !! id) order).
Definition validated (i : Integration) (now : Time) : Integration :=
  {| IntegrationID := IntegrationID i; TenantID := TenantID i; Name := Name i; Type_ := Type_ i; Provider := Provider i;
     AccountID := AccountID i; Region := Region i; SecretRef := SecretRef i; Config := Config i; Status := "validated";
     CreatedBy := CreatedBy i; CreatedAt := CreatedAt i; UpdatedAt := now; LastValidated := Some now |}.
Definition Validate (s : IntegrationStore) (tenantID integrationID : string) (now : Time) : option Integration * IntegrationStore :=
  match integrations s !! tenantID with
  | None => (None, s)
  | Some tenantIntegrations =>
      match tenantIntegrations !! integrationID with
      | None => (None, s)
      | Some i =>
          (Some (cloneIntegration (validated i now)),
           {| integrations := <[tenantID := <[integrationID := validated i now]> tenantIntegrations]> (integrations s) |})
      end
  end.

Section handlers.
Context (Getenv : string → string) (ToLower : string → string) (Valid : string → bool).

Definition decodeIntegrationRequest (b : body IntegrationRequest) : res problem IntegrationRequest := decode "integration" b.
Definition normalizeIntegrationRequest (request : IntegrationRequest) : res problem IntegrationRequest :=
  let request := {|
    Req_Name := TrimSpace (Req_Name request); Req_Type := ToLower (TrimSpace (Req_Type request));
    Req_Provider := ToLower (TrimSpace (Req_Provider request)); Req_AccountID := TrimSpace (Req_AccountID request);
    Req_Region := TrimSpace (Req_Region request); Req_SecretRef := TrimSpace (Req_SecretRef request); Req_Config := Req_Config request |} in
  if ((Req_Name request =? "") || (Req_Provider request =? ""))%string then Err (invalid_request "name and provider are required")
  else if negb (bool_decide (Req_Type request ∈ ["cloud"; "billing"; "notification"]%string))
  then Err (invalid_request "type must be one of cloud, billing, notification")
  else if negb (Req_Config request =? "")%string && negb (Valid (Req_Config request)) then Err (invalid_request "config must be valid JSON")
  else Ok request.
Definition createIntegration (s : IntegrationStore) (clock now : Time) (random : option string) (r : Request) (b : body IntegrationRequest)
    : response Integration * IntegrationStore :=
  match Policy.Policy.authenticatedActor Getenv clock r with
  | Err p => (Problem p, s)
  | Ok (tenantID, actor) =>
      match decodeIntegrationRequest b with
      | Err p => (Problem p, s)
      | Ok request =>
          match normalizeIntegrationRequest request with
          | Err p => (Problem p, s)
          | Ok request =>
              let '(i, s') := Create s (newIntegrationID random now) tenantID actor request now in (writeJSON StatusCreated i, s')
          end
      end
  end.
Definition listIntegrations (s : IntegrationStore) (clock : Time) (r : Request) (order : list string) : response IntegrationsResult :=
  match Policy.Policy.authenticatedActor Getenv clock r with
  | Err p => Problem p
  | Ok (tenantID, _) =>
      let l := List_ s tenantID order in
      writeJSON StatusOK {| Result_TenantID := tenantID; Result_Integrations := l; Result_Count := Z.of_nat (length l) |}
  end.
(** A validated integration has the time of its validation. *)
Definition validateIntegration (s : IntegrationStore) (clock now : Time) (r : Request) : response ValidationResult * IntegrationStore :=
  match Policy.Policy.authenticatedActor Getenv clock r with
  | Err p => (Problem p, s)
  | Ok (tenantID, _) =>
      let integrationID := TrimSpace (PathValue r "integration_id") in
      if (integrationID =? "")%string then (Problem (invalid_request "integration_id is required"), s)
      else
        match Validate s tenantID integrationID now with
        | (None, s') => (writeProblem StatusNotFound "not_found" "integration not found", s')
        | (Some i, s') =>
            (writeJSON StatusAccepted {| Val_TenantID := tenantID; Val_IntegrationID := IntegrationID i; Val_Status := Status i;
               ValidatedAt := default 0 (LastValidated i); Message := "bootstrap validation recorded" |}, s')
        end
  end.

(** *** The service *)

Inductive call :=
| CreateCall (clock now : Time) (random : option string) (r : Request) (b : body IntegrationRequest)
| ListCall (clock : Time) (r : Request) (order : list string)
| ValidateCall (clock now : Time) (r : Request).
Inductive answer :=
| Created (a : response Integration)
| Listed (a : response IntegrationsResult)
| Validated (a : response ValidationResult).
Definition actor_tenant (clock : Time) (r : Request) : option string :=
  match Policy.Policy.authenticatedActor Getenv clock r with Ok (t, _) => Some t | Err _ => None end.
#[export] Instance integrations_service : TenantService IntegrationStore call answer (gmap string Integration) := {|
  serve c s := match c with
               | CreateCall clock now random r b => let '(a, s') := createIntegration s clock now random r b in (Created a, s')
               | ListCall clock r order => (Listed (listIntegrations s clock r order), s)
               | ValidateCall clock now r => let '(a, s') := validateIntegration s clock now r in (Validated a, s')
               end;
  author c := match c with
              | CreateCall clock _ _ r _ | ListCall clock r _ | ValidateCall clock _ r => actor_tenant clock r
              end;
  seen t s := bucket (integrations s) t
|}.
(** Integrations are stored under their own tenant and identifier, and are validated
    exactly when they have a time of validation. *)
Definition well_formed (s : IntegrationStore) : Prop :=
  ∀ t id i, bucket (integrations s) t !! id = Some i →
    TenantID i = t ∧ IntegrationID i = id ∧ Status i = match LastValidated i with Some _ => "validated" | None => "pending_validation" end%string.

Lemma Validate_spec s t id now :
  (Validate s t id now).1 = (λ i, validated i now) <$> bucket (integrations s) t !! id ∧
  ∀ t', bucket (integrations (Validate s t id now).2) t' =
    if decide (t' = t) then alter (λ i, validated i now) id (bucket (integrations s) t) else bucket (integrations s) t'.
Proof.
  unfold Validate. destruct (integrations s !! t) as [m|] eqn:Hm.
  2:{ simpl. split; [unfold bucket; by rewrite Hm|]. intros t'. case_decide; [subst|done]. unfold bucket. by rewrite Hm. }
  assert (bucket (integrations s) t = m) as Hb by (unfold bucket; by rewrite Hm). rewrite Hb.
  destruct (m !! id) as [i|] eqn:Hi; simpl; (split; [by rewrite ?Hi|]); intros t'.
  - rewrite bucket_put. case_decide; [|done]. apply map_eq. intros k. destruct (decide (k = id)) as [->|Hne].
    + by rewrite lookup_insert_eq, lookup_alter_eq, Hi.
    + by rewrite lookup_insert_ne, lookup_alter_ne.
  - case_decide as Ht; [rewrite Ht, Hb|done]. apply map_eq. intros k. destruct (decide (k = id)) as [->|Hne].
    + by rewrite lookup_alter_eq, Hi.
    + by rewrite lookup_alter_ne.
Qed.
Lemma createIntegration_cases clock now random r b :
  (∃ p, ∀ s, createIntegration s clock now random r b = (Problem p, s)) ∨
  ∃ t actor id request, actor_tenant clock r = Some t ∧
    ∀ s, createIntegration s clock now random r b = (writeJSON StatusCreated (Create s id t actor request now).1, (Create s id t actor request now).2).
Proof.
  unfold createIntegration, actor_tenant. destruct (Policy.Policy.authenticatedActor Getenv clock r) as [[t actor]|]; [|eauto].
  destruct (decodeIntegrationRequest b) as [q|]; [|eauto]. destruct (normalizeIntegrationRequest q) as [q'|]; [|eauto].
  right. by exists t, actor, (newIntegrationID random now), q'.
Qed.
Definition validation_answer (t : string) (i : option Integration) : response ValidationResult :=
  match i with
  | None => writeProblem StatusNotFound "not_found" "integration not found"
  | Some i => writeJSON StatusAccepted {| Val_TenantID := t; Val_IntegrationID := IntegrationID i; Val_Status := Status i;
               ValidatedAt := default 0 (LastValidated i); Message := "bootstrap validation recorded" |}
  end.
Lemma validateIntegration_cases clock now r :
  (∃ p, ∀ s, validateIntegration s clock now r = (Problem p, s)) ∨
  ∃ t id, actor_tenant clock r = Some t ∧
    ∀ s, validateIntegration s clock now r = (validation_answer t (Validate s t id now).1, (Validate s t id now).2).
Proof.
  unfold validateIntegration, actor_tenant. destruct (Policy.Policy.authenticatedActor Getenv clock r) as [[t actor]|]; [|eauto].
  destruct (String.eqb_spec (TrimSpace (PathValue r "integration_id")) ""); [eauto|].
  right. exists t, (TrimSpace (PathValue r "integration_id")). split; [done|]. intros s. by destruct (Validate s _ _ _) as [[i|] ?].
Qed.

#[export] Program Instance integrations_isolated : Isolated IntegrationStore call answer (gmap string Integration) := {|
  proper _ := True;
  invariant := well_formed
|}.
Next Obligation.
  intros c s _ Hs. destruct c as [clock now random r b|clock r order|clock now r]; [|done|]; simpl.
  - destruct (createIntegration_cases clock now random r b) as [[p Hc]|(t & actor & id & q & _ & Hc)]; rewrite Hc; [done|].
    intros t' id' i. cbn [snd Create integrations]. rewrite bucket_put. case_decide as Ht; [subst t'|by apply Hs].
    intros [[<- <-]|[_ Hi]]%lookup_insert_Some; [done|by apply Hs].
  - destruct (validateIntegration_cases clock now r) as [[p Hv]|(t & id & _ & Hv)]; rewrite Hv; [done|].
    intros t' id' i. cbn [snd]. rewrite (proj2 (Validate_spec s t id now)). case_decide as Ht; [subst t'|by apply Hs].
    intros [(-> & j & Hj & ->)|[_ Hi]]%lookup_alter_Some; [|by apply Hs]. destruct (Hs _ _ j Hj) as (? & ? & _). by simpl.
Qed.
Next Obligation.
  intros c s t _ _ Ha. destruct c as [clock now random r b|clock r order|clock now r]; [|done|]; simpl in *.
  - destruct (createIntegration_cases clock now random r b) as [[p Hc]|(t' & actor & id & q & Ht & Hc)]; rewrite Hc; [done|].
    cbn [snd Create integrations]. rewrite bucket_put, decide_False by congruence. done.
  - destruct (validateIntegration_cases clock now r) as [[p Hv]|(t' & id & Ht & Hv)]; rewrite Hv; [done|].
    cbn [snd]. rewrite (proj2 (Validate_spec s t' id now)), decide_False by congruence. done.
Qed.
Next Obligation.
  intros c s s' t _ _ _ Ha Heq. simpl in Heq. destruct c as [clock now random r b|clock r order|clock now r]; simpl in *.
  - destruct (createIntegration_cases clock now random r b) as [[p Hc]|(t' & actor & id & q & Ht & Hc)]; rewrite !Hc; [done|].
    rewrite Ht in Ha. injection Ha as ->. split; [done|]. cbn [snd Create integrations]. by rewrite !bucket_put, !decide_True, Heq by done.
  - split; [|done]. unfold listIntegrations. unfold actor_tenant in Ha.
    destruct (Policy.Policy.authenticatedActor Getenv clock r) as [[t' actor]|]; [|done]. injection Ha as ->. unfold List_. by rewrite Heq.
  - destruct (validateIntegration_cases clock now r) as [[p Hv]|(t' & id & Ht & Hv)]; rewrite !Hv; [done|].
    rewrite Ht in Ha. injection Ha as ->. cbn [fst snd]. destruct (Validate_spec s t id now) as [H1 H2], (Validate_spec s' t id now) as [H1' H2'].
    by rewrite H1, H1', H2, H2', !decide_True, Heq by done.
Qed.
End handlers.
End Integrations.
