(* ===== verification/Registry.v ===== *)
(** * The cluster registry

    [services/cluster-registry]: the clusters of a tenant and their enrollment
    ([repository.go], [server.go]).

    A store is only used with its lock held and hands out copies, so its maps are
    pure values. [strings.ToLower], JSON encodings and checks and random identifiers
    are parameters; where the source ranges over a map, the order is one. *)
From stdpp Require Import base option list gmap strings sorting.
From Stdlib Require Import ZArith Lia Ascii.
From S2P Require Import Prelude Proto Stores Http Tenancy Services.

Module Registry.
Import Http Gatewayauth Tenancy.

Definition defaultEnrollmentTTL : Duration := 15 * Minute.
Record Cluster := {
  TenantID : string;
  ClusterID : string;
  ClusterName : string;
  Provider : string;
  AccountID : string;
  Region : string;
  Status : string;
  Capabilities : list string;
  Labels : gmap string string;
  CreatedAt : Time;
  UpdatedAt : Time
}.
Record RegisterClusterRequest := {
  Req_ClusterName : string;
  Req_Provider : string;
  Req_AccountID : string;
  Req_Region : string;
  Req_Capabilities : list string;
  Req_Labels : gmap string string
}.
Record RegisterClusterResponse := { Resp_Cluster : Cluster; EnrollmentToken : string; TokenExpiresAt : Time }.
Record MemoryRepository := { clusters : gmap string Cluster }.
Definition NewMemoryRepository : MemoryRepository := {| clusters := ∅ |}.

Definition zero_byte : ascii := Ascii.zero.
Definition clusterKey (tenantID clusterID : string) : string := tenantID +:+ String zero_byte clusterID.
(** [newID] on the random bytes in hexadecimal, or the error of the random source *)
Definition newID (prefix : string) (random : res string string) : res string string :=
  match random with Ok hex => Ok (prefix +:+ "_" +:+ hex) | Err e => Err ("generate " +:+ prefix +:+ " id: " +:+ e) end.
Definition NewToken (random : res string string) : res string string :=
  match random with Ok hex => Ok hex | Err e => Err ("generate enrollment token: " +:+ e) end.
(** Copies *)
Definition cloneStringMap (source : gmap string string) : gmap string string := source.
Definition cloneStrings (source : list string) : list string := source.
Definition cloneCluster (c : Cluster) : Cluster := c.
Definition stored (c : Cluster) (id : string) (now : Time) : Cluster :=
  {| TenantID := TenantID c; ClusterID := id; ClusterName := ClusterName c; Provider := Provider c; AccountID := AccountID c;
     Region := Region c; Status := "pending_enrollment"; Capabilities := cloneStrings (Capabilities c);
     Labels := cloneStringMap (Labels c); CreatedAt := now; UpdatedAt := now |}.
Definition Create (s : MemoryRepository) (c : Cluster) (random : res string string) (now : Time) : res string Cluster * MemoryRepository :=
  let put id := (Ok (stored c id now), {| clusters := <[clusterKey (TenantID c) id := stored c id now]> (clusters s) |}) in
  if (ClusterID c =? "")%string then
    match newID "clu" random with
    | Err e => (Err e, s)
    | Ok id => put id
    end
  else put (ClusterID c).
Definition created_before (a b : Cluster) : Prop := CreatedAt a ≤ CreatedAt b.
#[export] Instance created_before_dec a b : Decision (created_before a b) := decide (_ ≤ _).
(** [order] visits the keys of all clusters. *)
Definition List_ (s : MemoryRepository) (tenantID : string) (order : list string) : list Cluster :=
  merge_sort created_before
    (omap (λ k, clusters s !! k ≫= λ c, if (TenantID c =? tenantID)%string then Some (cloneCluster c) else None) order).
Definition ErrClusterNotFound : string := "cluster not found".
Definition Get (s : MemoryRepository) (tenantID clusterID : string) : res string Cluster :=
  match clusters s !! clusterKey tenantID clusterID with
  | Some c => Ok (cloneCluster c)
  | None => Err ErrClusterNotFound
  end.

Definition clean_step (acc : list string) (value : string) : list string :=
  let value := TrimSpace value in
  if (value =? "")%string || bool_decide (value ∈ acc) then acc else acc ++ [value].
Definition cleanStrings (values : list string) : list string := foldl clean_step [] values.
(** [order] visits the keys: two keys that agree without their white space are
    written to the same one. *)
Definition label_step (values : gmap string string) (acc : gmap string string) (key : string) : gmap string string :=
  match values !! key with
  | Some value =>
      if negb (TrimSpace key =? "")%string && negb (TrimSpace value =? "")%string then <[TrimSpace key := TrimSpace value]> acc else acc
  | None => acc
  end.
Definition cleanLabels (values : gmap string string) (order : list string) : gmap string string := foldl (label_step values) ∅ order.

Section handlers.
Context (Getenv : string → string).

(** The body as the decoder reads it, the randomness of the token and of the
    identifier, the time of creation and the order of the labels *)
Record registration := {
  decoded : res string RegisterClusterRequest;
  token_random : res string string;
  id_random : res string string;
  created : Time;
  label_order : list string
}.
Definition registerCluster (s : MemoryRepository) (clock : Time) (r : Request) (x : registration) : response RegisterClusterResponse * MemoryRepository :=
  match authenticatedTenant Getenv clock r with
  | Err p => (Problem p, s)
  | Ok tenantID =>
      match decoded x with
      | Err e => (Problem (invalid_request ("invalid JSON request: " +:+ e)), s)
      | Ok request =>
          if (TrimSpace (Req_ClusterName request) =? "")%string then (Problem (invalid_request "cluster_name is required"), s)
          else
            match NewToken (token_random x) with
            | Err _ => (writeProblem StatusInternalServerError "internal_error" "generate enrollment token failed", s)
            | Ok token =>
                let cluster := {|
                  TenantID := tenantID; ClusterID := ""; ClusterName := TrimSpace (Req_ClusterName request);
                  Provider := TrimSpace (Req_Provider request); AccountID := TrimSpace (Req_AccountID request);
                  Region := TrimSpace (Req_Region request); Status := ""; Capabilities := cleanStrings (Req_Capabilities request);
                  Labels := cleanLabels (Req_Labels request) (label_order x); CreatedAt := 0; UpdatedAt := 0 |} in
                match Create s cluster (id_random x) (created x) with
                | (Err _, s') => (writeProblem StatusInternalServerError "internal_error" "register cluster failed", s')
                | (Ok c, s') => (writeJSON StatusCreated {| Resp_Cluster := c; EnrollmentToken := token;
                                                           TokenExpiresAt := CreatedAt c + defaultEnrollmentTTL |}, s')
                end
            end
      end
  end.
Definition listClusters (s : MemoryRepository) (clock : Time) (r : Request) (order : list string) : response (list Cluster) :=
  match authenticatedTenant Getenv clock r with
  | Err p => Problem p
  | Ok tenantID => writeJSON StatusOK (List_ s tenantID order)
  end.
(** The error of [Get] is always [ErrClusterNotFound]. *)
Definition getCluster (s : MemoryRepository) (clock : Time) (r : Request) : response Cluster :=
  match authenticatedTenant Getenv clock r with
  | Err p => Problem p
  | Ok tenantID =>
      match Get s tenantID (PathValue r "cluster_id") with
      | Err _ => writeProblem StatusNotFound "not_found" "cluster not found"
      | Ok c => writeJSON StatusOK c
      end
  end.

(** *** The service *)

Inductive call :=
| RegisterCall (clock : Time) (r : Request) (x : registration)
| ListCall (clock : Time) (r : Request) (order : list string)
| GetCall (clock : Time) (r : Request).
Inductive answer :=
| Registered (a : response RegisterClusterResponse)
| Listed (a : response (list Cluster))
| Got (a : response Cluster).
#[export] Instance registry_service : TenantService MemoryRepository call answer (gmap string Cluster) := {|
  serve c s := match c with
               | RegisterCall clock r x => let '(a, s') := registerCluster s clock r x in (Registered a, s')
               | ListCall clock r order => (Listed (listClusters s clock r order), s)
               | GetCall clock r => (Got (getCluster s clock r), s)
               end;
  author c := match c with RegisterCall clock r _ | ListCall clock r _ | GetCall clock r => tenant_of Getenv clock r end;
  seen t s := filter (λ kc, TenantID kc.2 = t) (clusters s)
|}.
Definition zero_free (s : string) : Prop := StringFacts.has_byte zero_byte s = false.
(** Clusters are stored under the key of their own tenant and identifier, and no
    tenant has the separator in its name: HTTP does not let it into a header. *)
Definition well_formed (s : MemoryRepository) : Prop :=
  ∀ k c, clusters s !! k = Some c → k = clusterKey (TenantID c) (ClusterID c) ∧ zero_free (TenantID c).

Lemma clusterKey_tenant t c t' c' : zero_free t → zero_free t' → clusterKey t c = clusterKey t' c' → t = t'.
Proof.
  unfold zero_free, clusterKey. revert t'. induction t as [|a t IH]; intros [|a' t'] Ht Ht'; [done|..].
  - intros [= <- _]. by unfold StringFacts.has_byte in Ht'.
  - intros [= -> _]. by unfold StringFacts.has_byte in Ht.
  - rewrite !StringFacts.string_app_cons. intros [= -> Heq]. f_equal. unfold StringFacts.has_byte in *. simpl in Ht, Ht'.
    apply orb_false_iff in Ht as [_ Ht], Ht' as [_ Ht']. by apply IH.
Qed.
Lemma Create_spec c random now :
  (∃ e, ∀ s, Create s c random now = (Err e, s)) ∨
  ∃ id, ∀ s, Create s c random now = (Ok (stored c id now), {| clusters := <[clusterKey (TenantID c) id := stored c id now]> (clusters s) |}).
Proof. unfold Create. destruct (ClusterID c =? "")%string; [destruct (newID "clu" random) as [id|e]|]; eauto. Qed.
Lemma registerCluster_cases clock r x :
  (∃ p, ∀ s, registerCluster s clock r x = (Problem p, s)) ∨
  ∃ t a c, tenant_of Getenv clock r = Some t ∧ TenantID c = t ∧
    ∀ s, registerCluster s clock r x = (a, {| clusters := <[clusterKey t (ClusterID c) := c]> (clusters s) |}).
Proof.
  unfold registerCluster, tenant_of. destruct (authenticatedTenant Getenv clock r) as [t|]; [|eauto].
  destruct (decoded x) as [q|]; [|eauto]. destruct (_ =? _)%string; [eauto|]. destruct (NewToken (token_random x)) as [token|]; [|eauto].
  set (c := Build_Cluster _ _ _ _ _ _ _ _ _ _ _). destruct (Create_spec c (id_random x) (created x)) as [[e He]|[id Hid]].
  - left. eexists. intros s. by rewrite He.
  - right. eexists t, _, (stored c id (created x)). split; [done|]. split; [done|]. intros s. by rewrite Hid.
Qed.
Lemma seen_insert s k c t :
  filter (λ kc, TenantID kc.2 = t) (<[k := c]> (clusters s)) =
  if decide (TenantID c = t) then <[k := c]> (filter (λ kc, TenantID kc.2 = t) (clusters s))
  else delete k (filter (λ kc, TenantID kc.2 = t) (clusters s)).
Proof.
  case_decide as Ht; [by rewrite map_filter_insert_True|]. rewrite map_filter_insert_False by done.
  by rewrite map_filter_delete.
Qed.
(** A tenant finds only clusters of its own under its keys. *)
Lemma lookup_own s t id :
  well_formed s → zero_free t →
  clusters s !! clusterKey t id = clusters s !! clusterKey t id ≫= λ c, if (TenantID c =? t)%string then Some (cloneCluster c) else None.
Proof.
  intros Hs Ht. destruct (clusters s !! clusterKey t id) as [c|] eqn:Hk; [|done]. destruct (Hs _ _ Hk) as [Hkey Hz].
  apply clusterKey_tenant in Hkey; [|done|done]. subst t. simpl. by rewrite String.eqb_refl.
Qed.

#[export] Program Instance registry_isolated : Isolated MemoryRepository call answer (gmap string Cluster) := {|
  proper c := ∀ t, author c = Some t → zero_free t;
  invariant := well_formed
|}.
Next Obligation.
  intros c s Hc Hs. destruct c as [clock r x|clock r order|clock r]; [|done|done]; simpl in *.
  destruct (registerCluster_cases clock r x) as [[p Hp]|(t & a & c & Ht & Htc & Hp)]; rewrite Hp; [done|].
  intros k c'. cbn [snd clusters]. intros [[<- <-]|[_ Hk]]%lookup_insert_Some; [|by apply Hs]. subst t. split; [done|by apply Hc].
Qed.
Next Obligation.
  intros c s t Hc Hs Ha. destruct c as [clock r x|clock r order|clock r]; [|done|done]; simpl in *.
  destruct (registerCluster_cases clock r x) as [[p Hp]|(t' & a & c & Ht & Htc & Hp)]; rewrite Hp; [done|].
  cbn [snd clusters]. rewrite seen_insert, decide_False by congruence. apply delete_id, map_lookup_filter_None.
  destruct (clusters s !! _) as [c'|] eqn:Hk; [right|by left]. intros c'' [= <-] Heq. simpl in Heq.
  destruct (Hs _ _ Hk) as [Hkey Hz]. apply clusterKey_tenant in Hkey; [|by apply Hc|done]. congruence.
Qed.
Next Obligation.
  intros c s s' t Hc Hs Hs' Ha Heq. simpl in Heq.
  assert (∀ k, (clusters s !! k ≫= λ c, if (TenantID c =? t)%string then Some (cloneCluster c) else None) =
               (clusters s' !! k ≫= λ c, if (TenantID c =? t)%string then Some (cloneCluster c) else None)) as Hl.
  { intros k. assert (∀ m : gmap string Cluster, (m !! k ≫= λ c, if (TenantID c =? t)%string then Some (cloneCluster c) else None) =
      filter (λ kc, TenantID kc.2 = t) m !! k) as Hf.
    { intros m. rewrite map_lookup_filter. destruct (m !! k) as [c0|]; [|done]. simpl.
      destruct (String.eqb_spec (TenantID c0) t); [by rewrite option_guard_True|by rewrite option_guard_False]. }
    by rewrite !Hf, Heq. }
  destruct c as [clock r x|clock r order|clock r]; simpl in *.
  - destruct (registerCluster_cases clock r x) as [[p Hp]|(t' & a & c & Ht & Htc & Hp)]; rewrite !Hp; [done|].
    split; [done|]. cbn [snd clusters]. by rewrite !seen_insert, Heq.
  - split; [|done]. unfold listClusters. unfold tenant_of in Ha. destruct (authenticatedTenant Getenv clock r); [|done].
    injection Ha as ->. unfold List_. do 3 f_equal.
    induction order as [|k order IH]; [done|]. csimpl. by rewrite Hl, IH.
  - split; [|done]. unfold getCluster. specialize (Hc t Ha). unfold tenant_of in Ha. destruct (authenticatedTenant Getenv clock r); [|done].
    injection Ha as ->. unfold Get. by rewrite (lookup_own s), (lookup_own s'), Hl by done.
Qed.
End handlers.
End Registry.
