(* ===== verification/Isolation.v ===== *)
(** * Isolation of tenants

    The policy service through the interface of [Tenancy.v], and the isolation of
    tenants in the four services that keep a store per tenant. *)
From stdpp Require Import base option list gmap strings sorting.
From Stdlib Require Import ZArith Lia Ascii.
From S2P Require Import Prelude Proto Stores Http Policy Tenancy Services Members Integrations Registry.

(** ** Policies *)

(** The policy service of [Policy.v], through the same interface *)
Module Policies.
Import Http Gatewayauth Tenancy Policy.

Section handlers.
Context (Parse : string → option Time) (Valid : string → bool) (Getenv : string → string).

Inductive call :=
| ListCall (clock : Time) (r : Request) (familyOrder : list string) (versionOrder : string → list string)
| CreateCall (clock now : Time) (random : option string) (r : Request) (b : body VersionRequest)
| ActivateCall (clock now : Time) (r : Request).
Inductive answer :=
| Listed (a : response PolicyFamiliesResult)
| Versioned (a : response PolicyVersion).
Definition actor_tenant (clock : Time) (r : Request) : option string :=
  match authenticatedActor Getenv clock r with Ok (t, _) => Some t | Err _ => None end.
#[export] Instance policies_service : TenantService Store call answer (gmap string policyFamilyState) := {|
  serve c s := match c with
               | ListCall clock r fo vo => (Listed (listPolicies Getenv s clock r fo vo), s)
               | CreateCall clock now random r b => let '(a, s') := createVersion Parse Valid Getenv s clock now random r b in (Versioned a, s')
               | ActivateCall clock now r => let '(a, s') := activateVersion Getenv s clock now r in (Versioned a, s')
               end;
  author c := match c with ListCall clock r _ _ | CreateCall clock _ _ r _ | ActivateCall clock _ r => actor_tenant clock r end;
  seen t s := bucket (families s) t
|}.

Lemma family_state_bucket s t f : family_state s t f = bucket (families s) t !! f.
Proof. unfold family_state, bucket. destruct (families s !! t); simpl; [done|]. by rewrite lookup_empty. Qed.
Lemma set_state_bucket s t f state t' :
  bucket (families (set_state s t f state)) t' = if decide (t' = t) then <[f := state]> (bucket (families s) t) else bucket (families s) t'.
Proof. unfold set_state. cbn [families]. by rewrite bucket_put. Qed.

(** A change of the store: the answer and the new state of one family, from the state
    it has *)
Definition local {A} (t : string) (op : Store → A * Store) : Prop :=
  ∃ f (g : option policyFamilyState → A * option policyFamilyState),
    ∀ s, op s = ((g (family_state s t f)).1,
                 match (g (family_state s t f)).2 with Some state => set_state s t f state | None => s end).
Lemma local_unseen {A} t (op : Store → A * Store) s t' : local t op → t' ≠ t → bucket (families (op s).2) t' = bucket (families s) t'.
Proof.
  intros (f & g & Hop) Hne. rewrite Hop. cbn [snd]. case_match; [|done]. by rewrite set_state_bucket, decide_False.
Qed.
Lemma local_determined {A} t (op : Store → A * Store) s s' :
  local t op → bucket (families s) t = bucket (families s') t →
  (op s).1 = (op s').1 ∧ bucket (families (op s).2) t = bucket (families (op s').2) t.
Proof.
  intros (f & g & Hop) Heq. rewrite !Hop, !family_state_bucket, Heq. cbn [fst snd]. split; [done|].
  case_match; [|done]. by rewrite !set_state_bucket, !decide_True, Heq.
Qed.
Lemma local_const {A} t (a : A) : local t (λ s, (a, s)).
Proof. by exists EmptyString, (λ _, (a, None)). Qed.
Lemma local_map {A B} t (h : A → B) (op : Store → A * Store) : local t op → local t (λ s, (h (op s).1, (op s).2)).
Proof. intros (f & g & Hop). exists f, (λ state, (h (g state).1, (g state).2)). intros s. by rewrite Hop. Qed.
Lemma CreateVersion_local generated t f actor request now : local t (λ s, CreateVersion Parse s generated t f actor request now).
Proof.
  exists f, (λ state, let '(a, s') := CreateVersion Parse {| families := match state with Some x => {[t := {[f := x]}]} | None => ∅ end |}
                        generated t f actor request now in (a, family_state s' t f)).
  intros s. unfold CreateVersion.
  assert (family_state {| families := match family_state s t f with Some x => {[t := {[f := x]}]} | None => ∅ end |} t f = family_state s t f) as ->.
  { unfold family_state at 1. cbn [families]. destruct (family_state s t f); [by rewrite lookup_singleton_eq; simpl; rewrite lookup_singleton_eq|].
    by rewrite lookup_empty. }
  destruct (versions _ !! _); cbn [fst snd]; by rewrite family_state_set, decide_True.
Qed.
Lemma ActivateVersion_local t f version actor now : local t (λ s, ActivateVersion s t f version actor now).
Proof.
  exists f, (λ state, let '(a, s') := ActivateVersion {| families := match state with Some x => {[t := {[f := x]}]} | None => ∅ end |}
                        t f version actor now in (a, match a with Some _ => family_state s' t f | None => None end)).
  intros s. unfold ActivateVersion.
  assert (family_state {| families := match family_state s t f with Some x => {[t := {[f := x]}]} | None => ∅ end |} t f = family_state s t f) as ->.
  { unfold family_state at 1. cbn [families]. destruct (family_state s t f); [by rewrite lookup_singleton_eq; simpl; rewrite lookup_singleton_eq|].
    by rewrite lookup_empty. }
  destruct (family_state s t f) as [state|] eqn:Hst; [|done]. destruct (versions state !! version); [|done].
  cbn [fst snd]. by rewrite family_state_set, decide_True.
Qed.
Lemma createVersion_local clock now random r b :
  (∃ p, ∀ s, createVersion Parse Valid Getenv s clock now random r b = (Problem p, s)) ∨
  ∃ t, actor_tenant clock r = Some t ∧ local t (λ s, createVersion Parse Valid Getenv s clock now random r b).
Proof.
  unfold createVersion, actor_tenant. destruct (authenticatedActor Getenv clock r) as [[t actor]|]; [|eauto].
  destruct (pathPolicyName _ _) as [f|]; [|eauto]. destruct (decodeVersionRequest b) as [q|]; [|eauto].
  destruct (normalizeVersionRequest Parse Valid q) as [request|]; [|eauto]. right. exists t. split; [done|].
  destruct (local_map t (λ a, match a with Err _ => writeProblem StatusConflict "conflict" "policy version already exists" | Ok v => writeJSON StatusCreated v end)
    _ (CreateVersion_local (newPolicyVersionID random now) t f actor request now)) as (f' & g & Hg).
  exists f', g. intros s. rewrite <- Hg. by destruct (CreateVersion _ _ _ _ _ _ _ _) as [[v|e] s'].
Qed.
Lemma activateVersion_local clock now r :
  (∃ p, ∀ s, activateVersion Getenv s clock now r = (Problem p, s)) ∨
  ∃ t, actor_tenant clock r = Some t ∧ local t (λ s, activateVersion Getenv s clock now r).
Proof.
  unfold activateVersion, actor_tenant. destruct (authenticatedActor Getenv clock r) as [[t actor]|]; [|eauto].
  destruct (pathPolicyName _ "family") as [f|]; [|eauto]. destruct (pathPolicyName _ "version") as [version|]; [|eauto].
  right. exists t. split; [done|].
  destruct (local_map t (λ a, match a with None => writeProblem StatusNotFound "not_found" "policy version not found" | Some v => writeJSON StatusOK v end)
    _ (ActivateVersion_local t f version actor now)) as (f' & g & Hg).
  exists f', g. intros s. rewrite <- Hg. by destruct (ActivateVersion _ _ _ _ _ _) as [[v|] s'].
Qed.

#[export] Program Instance policies_isolated : Isolated Store call answer (gmap string policyFamilyState) := {|
  proper _ := True;
  invariant _ := True
|}.
Next Obligation. done. Qed.
Next Obligation.
  intros c s t _ _ Ha. destruct c as [clock r fo vo|clock now random r b|clock now r]; [done|..]; simpl in *.
  - destruct (createVersion_local clock now random r b) as [[p Hp]|(t' & Ht & Hl)]; [by rewrite Hp|].
    pose proof (local_unseen t' _ s t Hl) as Hu. cbv beta in Hu. destruct (createVersion _ _ _ _ _ _ _ _ _). apply Hu. congruence.
  - destruct (activateVersion_local clock now r) as [[p Hp]|(t' & Ht & Hl)]; [by rewrite Hp|].
    pose proof (local_unseen t' _ s t Hl) as Hu. cbv beta in Hu. destruct (activateVersion _ _ _ _ _). apply Hu. congruence.
Qed.
Next Obligation.
  intros c s s' t _ _ _ Ha Heq. simpl in Heq. destruct c as [clock r fo vo|clock now random r b|clock now r]; simpl in *.
  - split; [|done]. unfold listPolicies. unfold actor_tenant in Ha.
    destruct (authenticatedActor Getenv clock r) as [[t' actor]|]; [|done]. injection Ha as ->. unfold Families. unfold bucket in Heq. by rewrite Heq.
  - destruct (createVersion_local clock now random r b) as [[p Hp]|(t' & Ht & Hl)]; [by rewrite !Hp|].
    rewrite Ht in Ha. injection Ha as ->. destruct (local_determined t _ s s' Hl Heq) as [H1 H2]. cbv beta in *.
    destruct (createVersion _ _ _ s _ _ _ _ _), (createVersion _ _ _ s' _ _ _ _ _). simpl in *. by rewrite H1, H2.
  - destruct (activateVersion_local clock now r) as [[p Hp]|(t' & Ht & Hl)]; [by rewrite !Hp|].
    rewrite Ht in Ha. injection Ha as ->. destruct (local_determined t _ s s' Hl Heq) as [H1 H2]. cbv beta in *.
    destruct (activateVersion _ s _ _ _), (activateVersion _ s' _ _ _). simpl in *. by rewrite H1, H2.
Qed.
End handlers.
End Policies.

(** ** Isolation *)

Module Isolation.
Import Tenancy.

Section services.
Context (Getenv ToLower : string → string) (Valid : string → bool) (Parse : string → option Time).

(** C28: tenants do not interfere: in the membership, integration, registry and policy
    services a tenant's requests, in any sequence of requests of all tenants, are
    answered as if the requests of the other tenants had not been made. *)
Theorem tenants_do_not_interfere t :
  (∀ calls s, Members.Tenant.well_formed s → undisturbed (H := Members.Tenant.members_service Getenv ToLower) t calls s) ∧
  (∀ calls s, Integrations.Integrations.well_formed s → undisturbed (H := Integrations.Integrations.integrations_service Getenv ToLower Valid) t calls s) ∧
  (∀ calls s, Registry.Registry.well_formed s →
     Forall (λ c, ∀ t', author (TenantService := Registry.Registry.registry_service Getenv) c = Some t' → Registry.Registry.zero_free t') calls →
     undisturbed (H := Registry.Registry.registry_service Getenv) t calls s) ∧
  (∀ calls s, undisturbed (H := Policies.policies_service Parse Valid Getenv) t calls s).
Proof.
  split_and!; intros calls s.
  - intros Hs. by apply (isolated_undisturbed (H0 := Members.Tenant.members_isolated Getenv ToLower)); [apply Forall_true|].
  - intros Hs. by apply (isolated_undisturbed (H0 := Integrations.Integrations.integrations_isolated Getenv ToLower Valid)); [apply Forall_true|].
  - intros Hs Hp. by apply (isolated_undisturbed (H0 := Registry.Registry.registry_isolated Getenv)).
  - by apply (isolated_undisturbed (H0 := Policies.policies_isolated Parse Valid Getenv)); [apply Forall_true|].
Qed.
End services.

Definition sample_member_call (tenant principal : string) : Members.Tenant.call :=
  Members.Tenant.Put 1 1 {| Http.Http.Method := "PUT"; Http.Http.Url := {| Auth.Scheme := ""; Auth.Host := ""; Auth.Path := "/api/v1/tenant/members/p"; Auth.RawPath := "" |};
    Http.Http.RawQuery := ""; Http.Http.ReqHost := "tenant"; Http.Http.Header := Http.Http.Set_ ∅ Http.Gatewayauth.TenantHeader tenant;
    Http.Http.PathValues := <["principal_id" := principal]> ∅ |}%string
    (Http.Http.JSONBody {| Members.Tenant.Req_Role := "admin"; Members.Tenant.Req_DisplayName := "" |}).
Lemma tenants_do_not_interfere_witness :
  let calls := [sample_member_call "a" "p"; sample_member_call "b" "p"; sample_member_call "a" "q"]%string in
  let service := Members.Tenant.members_service (λ _, EmptyString) (λ s, s) in
  undisturbed (H := service) "a"%string calls Members.Tenant.NewStore ∧
  length (answers (H := service) "a"%string calls Members.Tenant.NewStore) = 2%nat ∧
  length (own (H := service) "a"%string calls) = 2%nat.
Proof.
  cbv zeta. split.
  - apply (proj1 (tenants_do_not_interfere (λ _, EmptyString) (λ s, s) (λ _, true) (λ _, None) "a"%string)).
    intros t p m. simpl. rewrite lookup_empty. simpl. by rewrite lookup_empty.
  - split; vm_compute; reflexivity.
Defined.
End Isolation.
