(* ===== verification/AuditLog.v ===== *)
(** * Audit events

    [services/audit]: a bounded log of events that all tenants share ([store.go],
    [server.go]).

    A store is only used with its lock held and hands out copies, so its list is a
    pure value. [strings.ToLower], JSON encodings and checks and random identifiers
    are parameters. *)
From stdpp Require Import base option list gmap strings.
From Stdlib Require Import ZArith Lia Ascii.
From S2P Require Import Prelude Proto Stores Http Services.

Module Audit.
Import Http Gatewayauth.

Record EventRequest := {
  Req_ActorID : string;
  Req_Action : string;
  Req_ResourceType : string;
  Req_ResourceID : string;
  Req_Outcome : string;
  Req_Details : string
}.
Record Event := {
  AuditID : string;
  TenantID : string;
  ActorID : string;
  Action : string;
  ResourceType : string;
  ResourceID : string;
  Outcome : string;
  Details : string;
  OccurredAt : Time
}.
Record EventFilter := { F_ActorID : string; F_ResourceType : string; F_ResourceID : string; F_Limit : Z }.
Record EventsResult := { Result_TenantID : string; Result_Events : list Event; Result_Limit : Z }.
Record Store := { maxEvents : Z; events : list Event }.
Definition NewStore (maxEvents : Z) : Store := {| maxEvents := if maxEvents <=? 0 then 1000 else maxEvents; events := [] |}.

Definition cloneRawMessage (value : string) : string := value.
(** [newAuditID] on the random bytes in hexadecimal, or on the clock *)
Definition newAuditID (random : option string) (now : Time) : string :=
  match random with Some hex => "audit_" +:+ hex | None => "audit-" +:+ dec (UnixNano now) end.
Definition event_of (id tenantID : string) (request : EventRequest) (now : Time) : Event :=
  {| AuditID := id; TenantID := tenantID; ActorID := Req_ActorID request; Action := Req_Action request;
     ResourceType := Req_ResourceType request; ResourceID := Req_ResourceID request; Outcome := Req_Outcome request;
     Details := cloneRawMessage (Req_Details request); OccurredAt := now |}.
Definition Append (s : Store) (id tenantID : string) (request : EventRequest) (now : Time) : Event * Store :=
  let event := event_of id tenantID request now in
  let all := events s ++ [event] in
  let n := Z.of_nat (length all) in
  (event, {| maxEvents := maxEvents s; events := if maxEvents s <? n then drop (Z.to_nat (n - maxEvents s)) all else all |}).
(** Whether the loop of [List] skips an event *)
Definition skips (tenantID : string) (filter : EventFilter) (e : Event) : bool :=
  negb (TenantID e =? tenantID)%string || (negb (F_ActorID filter =? "")%string && negb (ActorID e =? F_ActorID filter)%string)
  || (negb (F_ResourceType filter =? "")%string && negb (ResourceType e =? F_ResourceType filter)%string)
  || (negb (F_ResourceID filter =? "")%string && negb (ResourceID e =? F_ResourceID filter)%string).
(** The loop of [List] from the event before the [i]-th backwards *)
Fixpoint list_back (tenantID : string) (filter : EventFilter) (limit : Z) (es : list Event) (i : nat) (result : list Event) : list Event :=
  match i with
  | O => result
  | S i' =>
      if Z.of_nat (length result) <? limit then
        match es !! i' with
        | Some e => list_back tenantID filter limit es i' (if skips tenantID filter e then result else result ++ [e])
        | None => result
        end
      else result
  end.
Definition List_ (s : Store) (tenantID : string) (filter : EventFilter) : list Event :=
  let limit := if F_Limit filter <=? 0 then 100 else F_Limit filter in
  list_back tenantID filter limit (events s) (length (events s)) [].

Section handlers.
Context (Getenv : string → string) (ToLower : string → string) (Valid : string → bool).

Definition decodeEventRequest (b : body EventRequest) : res problem EventRequest := decode "audit event" b.
Definition normalizeEvent (request : EventRequest) : res problem EventRequest :=
  let request := {|
    Req_ActorID := TrimSpace (Req_ActorID request); Req_Action := TrimSpace (Req_Action request);
    Req_ResourceType := TrimSpace (Req_ResourceType request); Req_ResourceID := TrimSpace (Req_ResourceID request);
    Req_Outcome := ToLower (TrimSpace (Req_Outcome request)); Req_Details := cloneRawMessage (Req_Details request) |} in
  if ((Req_ActorID request =? "") || (Req_Action request =? "") || (Req_ResourceType request =? "") || (Req_ResourceID request =? ""))%string
  then Err (invalid_request "actor_id, action, resource_type, and resource_id are required")
  else if negb (bool_decide (Req_Outcome request ∈ ["succeeded"; "failed"; "denied"]%string))
  then Err (invalid_request "outcome must be one of succeeded, failed, denied")
  else if negb (Req_Details request =? "")%string && negb (Valid (Req_Details request)) then Err (invalid_request "details must be valid JSON")
  else Ok request.
Definition eventFilter (r : Request) : res problem EventFilter :=
  let rawLimit := TrimSpace (QueryGet r "limit") in
  let parsed :=
    if (rawLimit =? "")%string then Ok 100
    else match Strconv.Atoi rawLimit with
         | Some n => if n <? 1 then Err (invalid_request "limit must be a positive integer") else Ok n
         | None => Err (invalid_request "limit must be a positive integer")
         end in
  match parsed with
  | Err p => Err p
  | Ok limit =>
      Ok {| F_ActorID := TrimSpace (QueryGet r "actor_id"); F_ResourceType := TrimSpace (QueryGet r "resource_type");
            F_ResourceID := TrimSpace (QueryGet r "resource_id"); F_Limit := if 500 <? limit then 500 else limit |}
  end.
Definition appendEvent (s : Store) (clock now : Time) (random : option string) (r : Request) (b : body EventRequest) : response Event * Store :=
  match authenticatedTenant Getenv clock r with
  | Err p => (Problem p, s)
  | Ok tenantID =>
      match decodeEventRequest b with
      | Err p => (Problem p, s)
      | Ok request =>
          match normalizeEvent request with
          | Err p => (Problem p, s)
          | Ok event => let '(e, s') := Append s (newAuditID random now) tenantID event now in (writeJSON StatusAccepted e, s')
          end
      end
  end.
Definition listEvents (s : Store) (clock : Time) (r : Request) : response EventsResult :=
  match authenticatedTenant Getenv clock r with
  | Err p => Problem p
  | Ok tenantID =>
      match eventFilter r with
      | Err p => Problem p
      | Ok filter => writeJSON StatusOK {| Result_TenantID := tenantID; Result_Events := List_ s tenantID filter; Result_Limit := F_Limit filter |}
      end
  end.
End handlers.

(** *** The log *)

(** An append as the store receives it *)
Record append := { app_id : string; app_tenant : string; app_request : EventRequest; app_now : Time }.
Definition appended (a : append) : Event := event_of (app_id a) (app_tenant a) (app_request a) (app_now a).
Definition Appends (s : Store) (l : list append) : Store :=
  foldl (λ s a, (Append s (app_id a) (app_tenant a) (app_request a) (app_now a)).2) s l.
(** The abstract log: everything ever appended, of which the newest [n] are retained *)
Definition retained (n : Z) (log : list Event) : list Event := drop (length log - Z.to_nat n) log.
Definition limit_of (filter : EventFilter) : Z := if F_Limit filter <=? 0 then 100 else F_Limit filter.
Definition newest_matching (tenantID : string) (filter : EventFilter) (es : list Event) : list Event :=
  take (Z.to_nat (limit_of filter)) (base.filter (λ e, skips tenantID filter e = false) (reverse es)).

Lemma limit_pos filter : 0 < limit_of filter.
Proof. unfold limit_of. destruct (Z.leb_spec (F_Limit filter) 0); lia. Qed.
Lemma list_back_spec tenantID filter limit es i result :
  (i ≤ length es)%nat → Z.of_nat (length result) ≤ limit →
  list_back tenantID filter limit es i result =
  result ++ take (Z.to_nat limit - length result) (base.filter (λ e, skips tenantID filter e = false) (reverse (take i es))).
Proof.
  revert result. induction i as [|i IH]; intros result Hi Hr; simpl.
  { by rewrite take_0, reverse_nil, filter_nil, take_nil, app_nil_r. }
  destruct (Z.ltb_spec (Z.of_nat (length result)) limit) as [Hlt|Hge].
  2:{ replace (Z.to_nat limit - length result)%nat with 0%nat by lia. by rewrite app_nil_r. }
  destruct (lookup_lt_is_Some_2 es i) as [e He]; [lia|]. rewrite He, (take_S_r es i e He), reverse_snoc, filter_cons. destruct (skips tenantID filter e) eqn:Hs.
  - rewrite decide_False by done. apply IH; lia.
  - rewrite decide_True by done. rewrite IH by (rewrite ?length_app; simpl; lia). rewrite <- app_assoc. f_equal. simpl.
    replace (Z.to_nat limit - length result)%nat with (S (Z.to_nat limit - length (result ++ [e])))%nat by (rewrite length_app; simpl; lia).
    done.
Qed.
Lemma Appends_retained n l :
  1 ≤ n → let s := Appends {| maxEvents := n; events := [] |} l in maxEvents s = n ∧ events s = retained n (appended <$> l).
Proof.
  intros Hn. induction l as [|a l IH] using rev_ind; [done|]. cbv zeta in *. unfold Appends in *. rewrite foldl_app. cbn [foldl].
  set (s := foldl _ _ l) in *. destruct IH as [Hm He]. unfold Append. cbn [snd maxEvents events]. rewrite Hm, He. split; [done|]. fold (appended a). rewrite fmap_app. unfold retained. rewrite !length_app, !length_drop.
  set (log := appended <$> l). simpl. destruct (Z.ltb_spec n (Z.of_nat (length log - (length log - Z.to_nat n) + 1))) as [Hlt|Hge].
  - rewrite <- drop_app_le by lia. rewrite drop_drop. f_equal. lia.
  - rewrite <- drop_app_le by lia. f_equal. lia.
Qed.

(** C29: the audit store is the abstract bounded log: after any appends a listing
    answers the newest events of the tenant that match the filter, newest first and
    up to the limit, among the newest [maxEvents] of everything appended. *)
Theorem audit_refines_log n l tenantID filter :
  let s := Appends (NewStore n) l in
  List_ s tenantID filter = newest_matching tenantID filter (retained (maxEvents (NewStore n)) (appended <$> l)) ∧
  Forall (λ e, TenantID e = tenantID) (List_ s tenantID filter).
Proof.
  assert (1 ≤ maxEvents (NewStore n)) as Hn by (simpl; destruct (Z.leb_spec n 0); lia).
  destruct (Appends_retained _ l Hn) as [Hm He]. fold (NewStore n) in *. cbv zeta.
  assert (List_ (Appends (NewStore n) l) tenantID filter =
    newest_matching tenantID filter (retained (maxEvents (NewStore n)) (appended <$> l))) as Heq.
  { unfold List_. fold (limit_of filter). pose proof (limit_pos filter). rewrite list_back_spec by (simpl; lia). simpl.
    rewrite Nat.sub_0_r, firstn_all. unfold newest_matching. do 3 f_equal. exact He. }
  split; [done|]. rewrite Heq. unfold newest_matching. apply Forall_take, Forall_forall. intros e [Hs _]%list_elem_of_filter.
  unfold skips in Hs. apply orb_false_iff in Hs as [Hs _]. apply orb_false_iff in Hs as [Hs _]. apply orb_false_iff in Hs as [Hs _].
  by apply negb_false_iff, String.eqb_eq in Hs.
Qed.

(** The bound is shared: the appends of one tenant drop the events of another. *)
Definition sample_append (tenant : string) : append :=
  {| app_id := "audit_1"; app_tenant := tenant; app_now := unix_epoch;
     app_request := {| Req_ActorID := "user"; Req_Action := "delete"; Req_ResourceType := "policy"; Req_ResourceID := "p1";
                       Req_Outcome := "succeeded"; Req_Details := "" |} |}.
Definition all_events : EventFilter := {| F_ActorID := ""; F_ResourceType := ""; F_ResourceID := ""; F_Limit := 0 |}.
Lemma audit_evicts_other_tenants :
  let tenant := sample_append "tenant-a" in
  let other := sample_append "tenant-b" in
  List_ (Appends (NewStore 2) [tenant]) "tenant-a" all_events = [appended tenant] ∧
  List_ (Appends (NewStore 2) [tenant; other; other]) "tenant-a" all_events = [].
Proof. by vm_compute. Qed.
End Audit.
