(* ===== verification/Exports.v ===== *)
(** * Export jobs

    [services/export]: export requests and their manifests, in a store of bounded
    size that all tenants share ([store.go], [server.go]).

    A store is only used with its lock held and hands out copies, so its maps are
    pure values. [strings.ToLower], JSON encodings and checks and random identifiers
    are parameters. *)
From stdpp Require Import base option list gmap strings.
From Stdlib Require Import ZArith Lia Ascii.
From S2P Require Import Prelude Crypto Proto Stores Http Services.

Module Exports.
Import Http Gatewayauth.

Record ExportRequest := {
  Req_QueryType : string;
  Req_Format : string;
  Req_ClusterID : string;
  Req_Start : string;
  Req_End : string;
  Req_GroupBy : string
}.
Record ExportSpec := {
  QueryType : string;
  Format : string;
  ClusterID : string;
  Start : Time;
  End_ : Time;
  GroupBy : string
}.
Record ExportManifest := {
  SchemaVersion : string;
  ContentType : string;
  ByteSize : Z;
  SHA256 : string;
  Inline : bool;
  URI : string;
  GeneratedAt : Time
}.
Record ExportJob := {
  ExportID : string;
  TenantID : string;
  Status : string;
  Spec : ExportSpec;
  Manifest : ExportManifest;
  CreatedAt : Time;
  UpdatedAt : Time
}.
Record Store := { maxJobs : Z; order : list string; jobs : gmap string ExportJob }.
Definition NewStore (maxJobs : Z) : Store := {| maxJobs := if maxJobs <=? 0 then 1000 else maxJobs; order := []; jobs := ∅ |}.

Section store.
(** [json.Marshal] of an export's identifier, tenant and specification *)
Context (Marshal : string → string → ExportSpec → res string string).

(** [newExportID] on the random bytes in hexadecimal, or on the clock *)
Definition newExportID (random : option string) (now : Time) : string :=
  match random with Some hex => "export_" +:+ hex | None => "export-" +:+ dec (UnixNano now) end.
Definition contentType (format : string) : string :=
  if (format =? "csv")%string then "text/csv"
  else if (format =? "parquet")%string then "application/vnd.apache.parquet" else "application/json".
Definition exportManifest (exportID tenantID : string) (spec : ExportSpec) (generatedAt : Time) : res string ExportManifest :=
  match Marshal exportID tenantID spec with
  | Err e => Err ("encode export manifest payload: " +:+ e)
  | Ok data =>
      Ok {| SchemaVersion := "export-manifest-v1"; ContentType := contentType (Format spec);
            ByteSize := Z.of_nat (String.length data); SHA256 := hex_encode (sha256 data); Inline := true; URI := ""; GeneratedAt := generatedAt |}
  end.
(** The loop of [evictLocked], which drops the oldest identifier each turn *)
Fixpoint evict (maxJobs : Z) (order : list string) (jobs : gmap string ExportJob) : list string * gmap string ExportJob :=
  match order with
  | oldest :: rest => if maxJobs <? Z.of_nat (length order) then evict maxJobs rest (delete oldest jobs) else (order, jobs)
  | [] => (order, jobs)
  end.
Definition evictLocked (s : Store) : Store :=
  let '(order', jobs') := evict (maxJobs s) (order s) (jobs s) in {| maxJobs := maxJobs s; order := order'; jobs := jobs' |}.
Definition Create (s : Store) (id tenantID : string) (spec : ExportSpec) (now : Time) : res string ExportJob * Store :=
  match exportManifest id tenantID spec now with
  | Err e => (Err e, s)
  | Ok manifest =>
      let job := {| ExportID := id; TenantID := tenantID; Status := "succeeded"; Spec := spec; Manifest := manifest;
                    CreatedAt := now; UpdatedAt := now |} in
      (Ok job, evictLocked {| maxJobs := maxJobs s; order := order s ++ [id]; jobs := <[id := job]> (jobs s) |})
  end.
Definition Get (s : Store) (tenantID exportID : string) : option ExportJob :=
  match jobs s !! exportID with
  | Some job => if negb (TenantID job =? tenantID)%string then None else Some job
  | None => None
  end.

Section handlers.
Context (Getenv : string → string) (ToLower : string → string) (ParseTime : string → option Time).

Definition decodeExportRequest (b : body ExportRequest) : res problem ExportRequest := decode "export" b.
Definition parseRequiredTime (value name : string) : res string Time :=
  let value := TrimSpace value in
  if (value =? "")%string then Err (name +:+ " is required")
  else match ParseTime value with Some t => Ok t | None => Err (name +:+ " must be an RFC3339 timestamp") end.
Definition exportSpec (request : ExportRequest) : res problem ExportSpec :=
  let queryType := TrimSpace (Req_QueryType request) in
  if negb (bool_decide (queryType ∈ ["usage"; "costs"; "allocation"]%string))
  then Err (invalid_request "query_type must be one of usage, costs, allocation")
  else
    let format := ToLower (TrimSpace (Req_Format request)) in
    let format := if (format =? "")%string then "json"%string else format in
    if negb (bool_decide (format ∈ ["json"; "csv"; "parquet"]%string))
    then Err (invalid_request "format must be one of json, csv, parquet")
    else
      match parseRequiredTime (Req_Start request) "start" with
      | Err e => Err (invalid_request e)
      | Ok start =>
          match parseRequiredTime (Req_End request) "end" with
          | Err e => Err (invalid_request e)
          | Ok end_ =>
              if negb (start <? end_) then Err (invalid_request "start must be before end")
              else
                let groupBy := TrimSpace (Req_GroupBy request) in
                Ok {| QueryType := queryType; Format := format; ClusterID := TrimSpace (Req_ClusterID request); Start := start; End_ := end_;
                      GroupBy := if (groupBy =? "")%string then "namespace"%string else groupBy |}
          end
      end.
Definition createExport (s : Store) (clock now : Time) (random : option string) (r : Request) (b : body ExportRequest) : response ExportJob * Store :=
  match authenticatedTenant Getenv clock r with
  | Err p => (Problem p, s)
  | Ok tenantID =>
      match decodeExportRequest b with
      | Err p => (Problem p, s)
      | Ok request =>
          match exportSpec request with
          | Err p => (Problem p, s)
          | Ok spec =>
              match Create s (newExportID random now) tenantID spec now with
              | (Err _, s') => (writeProblem StatusInternalServerError "export_failed" "create export job failed", s')
              | (Ok job, s') => (writeJSON StatusAccepted job, s')
              end
          end
      end
  end.
Definition getExport (s : Store) (clock : Time) (r : Request) : response ExportJob :=
  match authenticatedTenant Getenv clock r with
  | Err p => Problem p
  | Ok tenantID =>
      let exportID := TrimSpace (PathValue r "export_id") in
      if (exportID =? "")%string then Problem (invalid_request "export_id is required")
      else match Get s tenantID exportID with
           | None => writeProblem StatusNotFound "not_found" "export job not found"
           | Some job => writeJSON StatusOK job
           end
  end.
End handlers.

(** *** The jobs *)

(** The store holds the newest jobs, each under its own identifier. *)
Record well_formed (s : Store) : Prop := {
  wf_max : 1 ≤ maxJobs s;
  wf_order : NoDup (order s);
  wf_bound : Z.of_nat (length (order s)) ≤ maxJobs s;
  wf_jobs id : is_Some (jobs s !! id) ↔ id ∈ order s;
  wf_ids id job : jobs s !! id = Some job → ExportID job = id
}.
Lemma NewStore_wf n : well_formed (NewStore n).
Proof.
  split; simpl; [destruct (Z.leb_spec n 0); lia|constructor|destruct (Z.leb_spec n 0); lia| |done].
  intros id. rewrite lookup_empty. split; [by intros [? ?]|set_solver].
Qed.
Lemma export_evict_spec m o j :
  1 ≤ m → NoDup o → let k := (length o - Z.to_nat m)%nat in
  evict m o j = (drop k o, foldr delete j (reverse (take k o))).
Proof.
  revert j. induction o as [|x o IH]; intros j Hm Hnd; [done|]. apply NoDup_cons in Hnd as [_ Hnd]. cbv zeta. cbn [evict].
  destruct (Z.ltb_spec m (Z.of_nat (length (x :: o)))) as [Hlt|Hge].
  - rewrite IH by done. simpl length in *. replace (S (length o) - Z.to_nat m)%nat with (S (length o - Z.to_nat m)) by lia.
    cbn [drop take]. rewrite reverse_cons, foldr_snoc. done.
  - simpl length in *. replace (S (length o) - Z.to_nat m)%nat with 0%nat by lia. done.
Qed.
Lemma foldr_delete_lookup {A} (m : gmap string A) l k : foldr delete m l !! k = if decide (k ∈ l) then None else m !! k.
Proof.
  induction l as [|x l IH]; [by rewrite decide_False by set_solver|]. simpl. destruct (decide (x = k)) as [->|Hne].
  - rewrite lookup_delete_eq, decide_True by set_solver. done.
  - rewrite lookup_delete_ne, IH by done. repeat case_decide; set_solver.
Qed.
(** A created job is kept, only its tenant can read it, and what is dropped for it
    are the oldest jobs. *)
Lemma created_export_kept s id tenantID spec now job s' :
  well_formed s → id ∉ order s → Create s id tenantID spec now = (Ok job, s') →
  well_formed s' ∧ Get s' tenantID id = Some job ∧ (∀ t, t ≠ tenantID → Get s' t id = None) ∧
  order s' = drop (length (order s) + 1 - Z.to_nat (maxJobs s)) (order s ++ [id]).
Proof.
  intros [Hmax Hnd Hb Hj Hids] Hid. unfold Create. destruct (exportManifest id tenantID spec now) as [manifest|] eqn:He; [|done].
  set (job' := Build_ExportJob _ _ _ _ _ _ _). intros [= <- <-]. unfold evictLocked. cbn [maxJobs order jobs].
  assert (NoDup (order s ++ [id])) as Hnd' by (apply NoDup_app; split_and!; [done|set_solver|apply NoDup_singleton]).
  rewrite export_evict_spec by done. rewrite length_app. simpl length. set (k := (length (order s) + 1 - Z.to_nat (maxJobs s))%nat).
  assert (k ≤ length (order s))%nat as Hk by lia.
  rewrite (take_app_le (order s)) by lia. cbn [maxJobs order jobs].
  assert (∀ i, foldr delete (<[id := job']> (jobs s)) (reverse (take k (order s))) !! i =
    if decide (i ∈ take k (order s)) then None else <[id := job']> (jobs s) !! i) as Hlook.
  { intros i. rewrite foldr_delete_lookup. repeat case_decide; try done; by rewrite elem_of_reverse in *. }
  assert (id ∉ take k (order s)) as Hidk by (intros Hin; by apply Hid, (subseteq_take k)).
  assert (foldr delete (<[id := job']> (jobs s)) (reverse (take k (order s))) !! id = Some job') as Hget
    by (by rewrite Hlook, decide_False, lookup_insert_eq).
  rewrite <- (take_drop k (order s ++ [id])) in Hnd'. apply NoDup_app in Hnd' as (_ & Hdisj & Hdrop).
  rewrite (take_app_le (order s)) in Hdisj by lia.
  assert (∀ i, (i ∈ order s ++ [id] ∧ i ∉ take k (order s)) ↔ i ∈ drop k (order s ++ [id])) as Hsplit.
  { intros i. rewrite <- (take_drop k (order s ++ [id])) at 1. rewrite (take_app_le (order s)), elem_of_app by lia.
    split; [tauto|]. intros Hi. split; [by right|]. intros Hi'. by apply (Hdisj i). }
  split_and!.
  - split; cbn [maxJobs order jobs]; [done| | |..].
    + done.
    + rewrite length_drop, length_app. simpl. lia.
    + intros i. rewrite Hlook. rewrite <- (Hsplit i). case_decide as Hi; [split; [by intros [? ?]|tauto]|].
      split; [intros Hin; split; [|done]|intros [Hin _]].
      * destruct (decide (i = id)) as [->|]; [set_solver|]. rewrite lookup_insert_ne in Hin by done. apply Hj in Hin. set_solver.
      * destruct (decide (i = id)) as [->|Hne]; [rewrite lookup_insert_eq; eauto|]. rewrite lookup_insert_ne by done. apply Hj. set_solver.
    + intros i j. rewrite Hlook. case_decide; [done|]. intros [[<- <-]|[_ Hi]]%lookup_insert_Some; [done|by apply Hids].
  - unfold Get. cbn [jobs]. rewrite Hget. simpl. by rewrite String.eqb_refl.
  - intros t Ht. unfold Get. cbn [jobs]. rewrite Hget. simpl. destruct (String.eqb_spec tenantID t); [congruence|done].
  - done.
Qed.
End store.
End Exports.
