(* ===== verification/Scoring.v ===== *)
(** * Scores of Karpenter node pools

    [services/integrations/scoring.go] on the snapshots of
    [services/integrations/types.go]: bin packing, spot suitability and utilisation
    of every node pool. The scores are computed in [float64]; as in the other
    engines the definitions are stated over number types. *)
From stdpp Require Import base option list gmap strings sorting.
From Stdlib Require Import ZArith Lia QArith Qcanon Qround SpecFloat Lqa.
From S2P Require Import Prelude Proto Allocation Recommendations.

Module Scoring.
Import Allocation Recommendations.
Open Scope Z_scope.

(** ** Data *)

Record NodePool := {
  Pool_Name : string;
  Pool_UID : string;
  Pool_NodeClassName : string;
  CapacityTypes : list string;
  InstanceCategories : list string;
  InstanceTypes : list string;
  Zones : list string;
  Architectures : list string;
  Consolidation : bool;
  Weight : Z
}.
Record NodeClass := {
  Class_Name : string;
  Class_UID : string;
  Class_APIVersion : string;
  Subnets : list string;
  SecurityGroups : list string;
  AMIFamily : string;
  Class_Role : string
}.

Section numbers.
Context {F : Type} `{Arith F} `{Rounding F}.

Record NodeClaim := {
  Claim_Name : string;
  Claim_UID : string;
  NodePoolName : string;
  Claim_NodeClassName : string;
  Claim_NodeName : string;
  CapacityType : string;
  InstanceType : string;
  Zone : string;
  Architecture : string;
  Ready : bool;
  CPUCapacityMillicores : Z;
  MemoryCapacityBytes : Z;
  CPURequestedMillicores : Z;
  MemoryRequestedBytes : Z;
  CPUUtilizationPercent : F;
  MemoryUtilizationPercent : F
}.
Record Snapshot := {
  Snap_ClusterID : string;
  Snap_GeneratedAt : Time;
  NodePools : list NodePool;
  NodeClasses : list NodeClass;
  NodeClaims : list NodeClaim
}.
Record NodePoolScore := {
  Score_NodePoolName : string;
  Score_NodeClassName : string;
  NodeClaimCount : Z;
  ReadyNodeClaimCount : Z;
  BinPackingScore : F;
  SpotSuitabilityScore : F;
  NodeUtilizationScore : F
}.
Record Scores := {
  Scores_ClusterID : string;
  Scores_GeneratedAt : Time;
  Scores_NodePools : list NodePoolScore;
  Scores_BinPacking : F;
  Scores_SpotSuitability : F;
  Scores_NodeUtilization : F
}.

(** ** The scorer *)

Definition clamp (value min max : F) : F := if ltb value min then min else if ltb max value then max else value.
Definition clamp01 (value : F) : F := clamp value (of_Z 0) (of_Z 1).
Definition roundScore (value : F) : F := div (round (mul value (of_Z 100))) (of_Z 100).
Definition score100 (value : F) : F := roundScore (mul (clamp01 value) (of_Z 100)).
Definition ratio (numerator denominator : Z) : F := if denominator =? 0 then of_Z 0 else div (of_Z numerator) (of_Z denominator).
Definition contains (values : list string) (candidate : string) : bool := existsb (λ v, (v =? candidate)%string) values.
Definition uniqueCount (values : list string) : Z :=
  Z.of_nat (size (foldl (λ (seen : gset string) v, if negb (v =? "")%string then {[v]} ∪ seen else seen) ∅ values)).
Definition firstNonZero (left right : Time) : Time := if negb (IsZero left) then left else right.
(** [math.Min] on numbers *)
Definition Min (a b : F) : F := if ltb a b then a else b.
Definition sum (l : list F) : F := foldl add (of_Z 0) l.
Definition is_zero (x : F) : bool := leb x (of_Z 0) && leb (of_Z 0) x.

Definition claim_weight (claim : NodeClaim) : F :=
  let cpu := ratio (CPURequestedMillicores claim) (CPUCapacityMillicores claim) in
  let memory := ratio (MemoryRequestedBytes claim) (MemoryCapacityBytes claim) in
  clamp01 (div (add cpu memory) (of_Z 2)).
Definition binPackingScore (claims : list NodeClaim) : F :=
  match claims with
  | [] => of_Z 0
  | _ => score100 (div (sum (claim_weight <$> claims)) (of_Z (Z.of_nat (length claims))))
  end.
Definition claim_utilization (claim : NodeClaim) : F :=
  let cpu := div (CPUUtilizationPercent claim) (of_Z 100) in
  let cpu := if is_zero cpu then ratio (CPURequestedMillicores claim) (CPUCapacityMillicores claim) else cpu in
  let memory := div (MemoryUtilizationPercent claim) (of_Z 100) in
  let memory := if is_zero memory then ratio (MemoryRequestedBytes claim) (MemoryCapacityBytes claim) else memory in
  clamp01 (div (add cpu memory) (of_Z 2)).
(** The loop passes over the claims that are not ready. *)
Definition nodeUtilizationScore (claims : list NodeClaim) : F :=
  match filter (λ c, Ready c = true) claims with
  | [] => of_Z 0
  | ready => score100 (div (sum (claim_utilization <$> ready)) (of_Z (Z.of_nat (length ready))))
  end.
Definition spotSuitabilityScore (pool : NodePool) : F :=
  let score := if contains (CapacityTypes pool) "spot" then add (of_Z 0) (of_Z 45) else of_Z 0 in
  let score := if contains (CapacityTypes pool) "on-demand" && contains (CapacityTypes pool) "spot" then add score (of_Z 10) else score in
  let score := add score (Min (mul (of_Z (uniqueCount (InstanceCategories pool))) (of_Z 8)) (of_Z 24)) in
  let score := add score (Min (mul (of_Z (uniqueCount (InstanceTypes pool))) (of_Z 4)) (of_Z 16)) in
  let score := add score (Min (mul (of_Z (uniqueCount (Zones pool))) (of_Z 5)) (of_Z 15)) in
  let score := if Consolidation pool then add score (of_Z 5) else score in
  clamp score (of_Z 0) (of_Z 100).
Definition averagePoolScore (scores : list NodePoolScore) (value : NodePoolScore → F) : F :=
  match scores with
  | [] => of_Z 0
  | _ => roundScore (div (sum (value <$> scores)) (of_Z (Z.of_nat (length scores))))
  end.
Definition scoreNodePool (pool : NodePool) (claims : list NodeClaim) : NodePoolScore :=
  {| Score_NodePoolName := Pool_Name pool; Score_NodeClassName := Pool_NodeClassName pool;
     NodeClaimCount := Z.of_nat (length claims); ReadyNodeClaimCount := Z.of_nat (length (filter (λ c, Ready c = true) claims));
     BinPackingScore := binPackingScore claims; SpotSuitabilityScore := spotSuitabilityScore pool;
     NodeUtilizationScore := nodeUtilizationScore claims |}.
Definition claim_step (m : gmap string (list NodeClaim)) (claim : NodeClaim) : gmap string (list NodeClaim) :=
  <[NodePoolName claim := default [] (m !! NodePoolName claim) ++ [claim]]> m.
Definition name_before (a b : NodePoolScore) : Prop := String.ltb (Score_NodePoolName b) (Score_NodePoolName a) = false.
#[export] Instance name_before_dec a b : Decision (name_before a b) := decide (_ = _).
(** [ties] orders the scores before they are sorted by name: the sort is not stable. *)
Definition Score (ties : list NodePoolScore → list NodePoolScore) (now : Time) (snapshot : Snapshot) : Scores :=
  let claimsByPool := foldl claim_step ∅ (NodeClaims snapshot) in
  let poolScores := merge_sort name_before
    (ties ((λ pool, scoreNodePool pool (default [] (claimsByPool !! Pool_Name pool))) <$> NodePools snapshot)) in
  {| Scores_ClusterID := Snap_ClusterID snapshot; Scores_GeneratedAt := firstNonZero (Snap_GeneratedAt snapshot) now;
     Scores_NodePools := poolScores; Scores_BinPacking := averagePoolScore poolScores BinPackingScore;
     Scores_SpotSuitability := averagePoolScore poolScores SpotSuitabilityScore;
     Scores_NodeUtilization := averagePoolScore poolScores NodeUtilizationScore |}.

Lemma claims_by_pool (claims : list NodeClaim) k m :
  default [] (foldl claim_step m claims !! k) = default [] (m !! k) ++ filter (λ c, NodePoolName c = k) claims.
Proof.
  revert m. induction claims as [|c claims IH]; intros m; simpl; [by rewrite app_nil_r|]. rewrite IH, filter_cons. unfold claim_step.
  destruct (decide (NodePoolName c = k)) as [<-|Hne]; [rewrite lookup_insert_eq|by rewrite lookup_insert_ne]. simpl. by rewrite <- app_assoc.
Qed.

Lemma Score_pools ties now (snapshot : Snapshot) :
  (∀ l, ties l ≡ₚ l) →
  Scores_NodePools (Score ties now snapshot) ≡ₚ
  (λ pool, scoreNodePool pool (filter (λ c, NodePoolName c = Pool_Name pool) (NodeClaims snapshot))) <$> NodePools snapshot.
Proof.
  intros Ht. unfold Score. cbn [Scores_NodePools]. rewrite merge_sort_Permutation, Ht.
  erewrite list_fmap_ext; [done|]. intros i pool _. simpl. by rewrite claims_by_pool, lookup_empty.
Qed.
End numbers.

(** ** Bounds in exact arithmetic *)

Section exact_scores.
#[local] Existing Instance exact.
#[local] Existing Instance exact_rounding.

Definition within (lo hi : Z) (x : Qc) : Prop := (inject_Z lo <= x)%Q ∧ (x <= inject_Z hi)%Q.
Lemma ltb_exact (x y : Qc) : ltb x y = true ↔ (x < y)%Q.
Proof.
  simpl. unfold Qccompare. pose proof (Qlt_alt x y) as Hlt. destruct (this x ?= this y)%Q; split; intros Hx; try done; [by apply Hlt in Hx|by apply Hlt|by apply Hlt in Hx].
Qed.
Lemma ltb_exact_false (x y : Qc) : ltb x y = false → (y <= x)%Q.
Proof. intros Hx. apply Qnot_lt_le. intros Hy%ltb_exact. congruence. Qed.
Lemma value_of_Z (z : Z) : (this (of_Z z : Qc) == inject_Z z)%Q.
Proof. simpl. by rewrite Qred_correct. Qed.
Lemma value_add (x y : Qc) : (this (add x y) == x + y)%Q.
Proof. simpl. by rewrite Qred_correct. Qed.
Lemma value_mul (x y : Qc) : (this (mul x y) == x * y)%Q.
Proof. simpl. by rewrite Qred_correct. Qed.
Lemma value_div (x y : Qc) : (this (div x y) == x / y)%Q.
Proof. simpl. by rewrite !Qred_correct. Qed.

Lemma clamp_within (v : Qc) lo hi : lo ≤ hi → within lo hi (clamp v (of_Z lo) (of_Z hi)).
Proof.
  intros Hle. rewrite Zle_Qle in Hle. unfold within, clamp. pose proof (value_of_Z lo) as Hl. pose proof (value_of_Z hi) as Hh.
  destruct (ltb v (of_Z lo)) eqn:H1; [rewrite Hl; split; [apply Qle_refl|done]|]. apply ltb_exact_false in H1.
  destruct (ltb (of_Z hi) v) eqn:H2; [rewrite Hh; split; [done|apply Qle_refl]|]. apply ltb_exact_false in H2. split; lra.
Qed.
Lemma sum_within hi (l : list Qc) : Forall (within 0 hi) l → within 0 (hi * Z.of_nat (length l)) (sum l).
Proof.
  unfold sum. assert (∀ a acc, within 0 a acc → Forall (within 0 hi) l → within 0 (a + hi * Z.of_nat (length l)) (foldl add acc l)) as Hgen.
  { induction l as [|x l IH]; intros a acc Hacc Hl; [simpl; by rewrite Z.mul_0_r, Z.add_0_r|].
    apply Forall_cons in Hl as [Hx Hl]. simpl foldl. replace (a + hi * Z.of_nat (length (x :: l))) with ((a + hi) + hi * Z.of_nat (length l)) by (simpl length; lia).
    apply IH; [|done]. unfold within in *. rewrite value_add, inject_Z_plus. change (inject_Z 0) with 0%Q in *. lra. }
  intros Hl. apply (Hgen 0 (of_Z 0)); [|done]. unfold within. rewrite value_of_Z. split; apply Qle_refl.
Qed.
Lemma average_within hi (l : list Qc) :
  l ≠ [] → Forall (within 0 hi) l → within 0 hi (div (sum l) (of_Z (Z.of_nat (length l)))).
Proof.
  intros Hne Hl. apply sum_within in Hl as [H1 H2]. unfold within. rewrite value_div, value_of_Z. set (n := Z.of_nat (length l)) in *.
  assert (0 < inject_Z n)%Q as Hn by (change 0%Q with (inject_Z 0); rewrite <- Zlt_Qlt; destruct l; [done|unfold n; simpl; lia]).
  rewrite inject_Z_mult in H2. change (inject_Z 0) with 0%Q in *. split.
  - apply Qle_shift_div_l; [done|]. lra.
  - by apply Qle_shift_div_r.
Qed.
Lemma roundScore_within (x : Qc) hi : 0 ≤ hi → within 0 hi x → within 0 hi (roundScore x).
Proof.
  intros Hhi [H1 H2]. unfold within, roundScore. rewrite value_div, value_of_Z. set (y := mul x (of_Z 100)).
  assert (this y == x * inject_Z 100)%Q as Hy by (unfold y; by rewrite value_mul, value_of_Z).
  change (inject_Z 0) with 0%Q in *. assert (leb (of_Z 0) y = true) as Hl.
  { apply leb_exact. rewrite value_of_Z, Hy. change (inject_Z 0) with 0%Q. change (inject_Z 100) with 100%Q. lra. }
  unfold round, exact_rounding. rewrite Hl, value_of_Z. unfold Qc_floor.
  assert (this (y + half)%Qc == x * 100 + (1 # 2))%Q as Hv by (change (y + half)%Qc with (add y half); by rewrite value_add, Hy).
  rewrite (Qfloor_comp _ _ Hv). change (inject_Z 100) with 100%Q. split.
  - apply Qle_shift_div_l; [done|]. rewrite Qmult_0_l. change 0%Q with (inject_Z 0). rewrite <- Zle_Qle.
    change 0 with (Qfloor 0). apply Qfloor_resp_le. lra.
  - apply Qle_shift_div_r; [done|]. change 100%Q with (inject_Z 100). rewrite <- inject_Z_mult, <- Zle_Qle.
    assert (Qfloor (inject_Z (hi * 100) + (1 # 2)) = hi * 100) as <-.
    { unfold Qfloor, inject_Z. simpl. Z.div_mod_to_equations. lia. }
    apply Qfloor_resp_le. rewrite inject_Z_mult. change (inject_Z 100) with 100%Q. lra.
Qed.

#[export] Instance name_before_total {F} : Total (name_before (F := F)).
Proof.
  intros a b. unfold name_before, String.ltb. rewrite (String.compare_antisym (Score_NodePoolName b) (Score_NodePoolName a)).
  destruct (String.compare _ _); simpl; auto.
Qed.
Definition bounded (p : NodePoolScore (F := Qc)) : Prop :=
  within 0 100 (BinPackingScore p) ∧ within 0 100 (SpotSuitabilityScore p) ∧ within 0 100 (NodeUtilizationScore p).
Lemma zero_within hi : 0 ≤ hi → within 0 hi (of_Z 0).
Proof. intros Hhi. unfold within. rewrite value_of_Z. split; [apply Qle_refl|by rewrite <- Zle_Qle]. Qed.
Lemma score100_within (v : Qc) : within 0 100 (score100 v).
Proof.
  apply roundScore_within; [done|]. destruct (clamp_within v 0 1) as [H1 H2]; [done|]. fold (clamp01 v) in *. unfold within.
  rewrite value_mul, value_of_Z. change (inject_Z 0) with 0%Q in *. change (inject_Z 1) with 1%Q in *. change (inject_Z 100) with 100%Q. lra.
Qed.
Lemma scoreNodePool_bounded pool claims : bounded (scoreNodePool pool claims).
Proof.
  split_and!; cbn [scoreNodePool BinPackingScore SpotSuitabilityScore NodeUtilizationScore].
  - unfold binPackingScore. destruct claims; [by apply zero_within|apply score100_within].
  - by apply clamp_within.
  - unfold nodeUtilizationScore. destruct (filter _ claims); [by apply zero_within|apply score100_within].
Qed.
Lemma averagePoolScore_within scores value : Forall (λ p, within 0 100 (value p)) scores → within 0 100 (averagePoolScore scores value).
Proof.
  intros Hs. unfold averagePoolScore. destruct scores as [|p scores]; [by apply zero_within|]. apply roundScore_within; [done|].
  rewrite <- (length_fmap value (p :: scores)). apply average_within; [done|]. by apply Forall_fmap.
Qed.
(** C30: the scores of a snapshot are in order of pool name, one per pool, count the
    claims of their pool, and in exact arithmetic every score and every average is
    between 0 and 100, whatever capacities, requests and utilisations are reported. *)
Theorem scores_bounded ties now (snapshot : Snapshot (F := Qc)) :
  (∀ l, ties l ≡ₚ l) →
  let s := Score ties now snapshot in
  Sorted name_before (Scores_NodePools s) ∧
  (Scores_NodePools s ≡ₚ (λ pool, scoreNodePool pool (filter (λ c, NodePoolName c = Pool_Name pool) (NodeClaims snapshot))) <$> NodePools snapshot) ∧
  Forall (λ p, bounded p ∧ 0 ≤ ReadyNodeClaimCount p ≤ NodeClaimCount p) (Scores_NodePools s) ∧
  within 0 100 (Scores_BinPacking s) ∧ within 0 100 (Scores_SpotSuitability s) ∧ within 0 100 (Scores_NodeUtilization s).
Proof.
  intros Ht s. set (pools := Scores_NodePools s).
  assert (pools ≡ₚ (λ pool, scoreNodePool pool (filter (λ c, NodePoolName c = Pool_Name pool) (NodeClaims snapshot))) <$> NodePools snapshot) as Hp by by apply Score_pools.
  assert (Forall (λ p, bounded p ∧ 0 ≤ ReadyNodeClaimCount p ≤ NodeClaimCount p) pools) as Hall.
  { rewrite Hp. apply Forall_fmap, Forall_true. intros pool. split; [apply scoreNodePool_bounded|]. cbn [compose scoreNodePool ReadyNodeClaimCount NodeClaimCount].
    pose proof (length_filter (λ c, Ready c = true) (filter (λ c, NodePoolName c = Pool_Name pool) (NodeClaims snapshot))). lia. }
  split_and!; [apply Sorted_merge_sort; apply _|done|done|..]; apply averagePoolScore_within; eapply Forall_impl; try exact Hall; by intros p [(?&?&?) _].
Qed.
End exact_scores.

Definition sample_claim (requested : Z) : NodeClaim (F := Qc) := {|
  Claim_Name := "claim"; Claim_UID := "u"; NodePoolName := "general"; Claim_NodeClassName := "default"; Claim_NodeName := "node-1";
  CapacityType := "spot"; InstanceType := "m7g.large"; Zone := "a"; Architecture := "arm64"; Ready := true;
  CPUCapacityMillicores := 2000; MemoryCapacityBytes := 1000; CPURequestedMillicores := requested; MemoryRequestedBytes := 9000;
  CPUUtilizationPercent := of_Z (-40); MemoryUtilizationPercent := of_Z 250 |}.
Definition sample_pool (name : string) : NodePool := {|
  Pool_Name := name; Pool_UID := "p"; Pool_NodeClassName := "default"; CapacityTypes := ["spot"; "on-demand"];
  InstanceCategories := ["c"; "m"; "r"]; InstanceTypes := []; Zones := ["a"; "b"]; Architectures := []; Consolidation := true; Weight := 0 |}%string.
Definition sample_snapshot : Snapshot (F := Qc) := {|
  Snap_ClusterID := "c1"; Snap_GeneratedAt := unix_epoch; NodePools := [sample_pool "spot"; sample_pool "general"]; NodeClasses := [];
  NodeClaims := [sample_claim 500; sample_claim 4000] |}%string.
Lemma scores_bounded_witness :
  let s := Score (λ l, l) 0 sample_snapshot in
  Score_NodePoolName <$> Scores_NodePools s = ["general"; "spot"]%string ∧ NodeClaimCount <$> Scores_NodePools s = [2; 0] ∧
  within 0 100 (Scores_BinPacking s) ∧ within 0 100 (Scores_NodeUtilization s).
Proof.
  destruct (scores_bounded (λ l, l) 0 sample_snapshot) as (_ & _ & _ & H1 & _ & H3); [done|].
  split; [vm_compute; reflexivity|]. split; [vm_compute; reflexivity|]. split; [exact H1|exact H3].
Defined.
End Scoring.
