(* ===== verification/SqlSelect.v ===== *)
(** * SELECT and INSERT statements on tables that keep the newest version of a row

    The part of ClickHouse's SQL the pricing service uses, read from the text of its
    statements: a WHERE clause of alternatives per line, an ORDER BY of descending
    terms, and the columns of an INSERT. Tables are [ReplacingMergeTree(version)]: a
    query with [FINAL] sees one row per sorting key, the one with the highest
    version and the last inserted of equal ones. *)
From stdpp Require Import base option list strings.
From Stdlib Require Import ZArith Lia Ascii.
From S2P Require Import Prelude Sql.

Module SqlSelect.
Import Strings Sql.

(** ** Reading statements *)

(** An alternative of a condition *)
Inductive atom := Compare (column op operand : string) | IsNull (column : string).
(** A term of an ORDER BY: a column, or the number of columns equal to their
    arguments *)
Inductive term := Column (column : string) | Matches (columns : list string).
Record statement := {
  from : string;
  where_ : list (list atom);
  order_by : list term
}.

(** The words of a line, without its parentheses and commas *)
Fixpoint spaced (s : string) : string :=
  match s with
  | EmptyString => EmptyString
  | String c s' => String (if Ascii.eqb c "(" || Ascii.eqb c ")" || Ascii.eqb c "," then " " else c)%char (spaced s')
  end.
Definition words (line : string) : list string := filter (λ w, w ≠ EmptyString) (Split (spaced line) " ").
Fixpoint atoms (ws : list string) : option (list atom) :=
  match ws with
  | c :: op :: w :: rest =>
      let a := if (op =? "IS")%string && (w =? "NULL")%string then IsNull c else Compare c op w in
      match rest with
      | [] => Some [a]
      | or :: rest' => if (or =? "OR")%string then cons a <$> atoms rest' else None
      end
  | _ => None
  end.
Fixpoint matches_term (ws : list string) : option (list string) :=
  match ws with
  | if_ :: c :: eq :: q :: one :: zero :: rest =>
      if bool_decide ([if_; eq; q; one; zero] = ["if"; "="; "?"; "1"; "0"]%string) then
        match rest with
        | [] => Some [c]
        | plus :: rest' => if (plus =? "+")%string then cons c <$> matches_term rest' else None
        end
      else None
  | _ => None
  end.
(** A descending term *)
Definition term_of (ws : list string) : option term :=
  match reverse ws with
  | desc :: c :: [] => if (desc =? "DESC")%string then Some (Column c) else None
  | desc :: ws' => if (desc =? "DESC")%string then Matches <$> matches_term (reverse ws') else None
  | [] => None
  end.
(** The lines after the select list: a table, conditions, terms and [LIMIT 1] *)
Fixpoint order_lines (lines : list (list string)) : option (list term) :=
  match lines with
  | [ws] => if bool_decide (ws = ["LIMIT"; "1"]%string) then Some [] else None
  | ws :: lines' => t ← term_of ws; cons t <$> order_lines lines'
  | [] => None
  end.
Fixpoint where_lines (lines : list (list string)) : option (list (list atom) * list term) :=
  match lines with
  | ws :: lines' =>
      match ws with
      | w :: ws' =>
          if (w =? "AND")%string then a ← atoms ws'; '(conditions, terms) ← where_lines lines'; Some (a :: conditions, terms)
          else if bool_decide (ws = ["ORDER"; "BY"]%string) then pair [] <$> order_lines lines' else None
      | [] => None
      end
  | [] => None
  end.
Definition from_line (ws : list string) : option string :=
  match ws with [f; t; final] => if bool_decide ([f; final] = ["FROM"; "FINAL"]%string) then Some t else None | _ => None end.
Fixpoint from_lines (lines : list (list string)) : option statement :=
  match lines with
  | ws :: lines' =>
      match from_line ws with
      | Some t =>
          match lines' with
          | (w :: ws') :: lines'' =>
              if (w =? "WHERE")%string
              then a ← atoms ws'; '(conditions, terms) ← where_lines lines''; Some {| from := t; where_ := a :: conditions; order_by := terms |}
              else None
          | _ => None
          end
      | None => from_lines lines'
      end
  | [] => None
  end.
(** A condition or a term per line, however the text is broken *)
Definition flush (line : list string) : list (list string) := match line with [] => [] | _ => [line] end.
Fixpoint cut_line (line ws : list string) : list (list string) :=
  match ws with
  | [] => flush line
  | w :: ws' =>
      if (w =? "AND")%string then flush line ++ cut_line [w] ws'
      else if (w =? "BY")%string then (line ++ [w]) :: cut_line [] ws' else cut_line (line ++ [w]) ws'
  end.
Definition read_select (sql : string) : option statement := from_lines (mjoin (cut_line [] <$> (words <$> Split sql (byte_of 10)))).
(** The table and the columns of an INSERT *)
Definition read_insert (sql : string) : option (string * list string) :=
  match words sql with
  | insert :: into :: t :: columns => if bool_decide ([insert; into] = ["INSERT"; "INTO"]%string) then Some (t, columns) else None
  | _ => None
  end.

(** ** Evaluating statements *)

#[export] Instance value_eq_dec `{EqDecision decimal} : EqDecision (value decimal).
Proof. solve_decision. Defined.

Section evaluation.
Context {decimal : Type} (decimal_leb : decimal → decimal → bool).
(** A cell is NULL or a value; a row has a cell per column. *)
Abbreviation cell := (option (value decimal)).
Abbreviation row := (list (string * cell)).
Fixpoint at_ (r : row) (column : string) : cell :=
  match r with
  | (c, v) :: r' => if (c =? column)%string then v else at_ r' column
  | [] => None
  end.

(** Conditions consume the arguments in order; a comparison with NULL does not
    hold. *)
Definition atom_holds (r : row) (a : atom) (args : list (value decimal)) : option (bool * list (value decimal)) :=
  match a with
  | IsNull c => Some (match at_ r c with None => true | Some _ => false end, args)
  | Compare c op w =>
      '(v, args') ← operand w args;
      match at_ r c with
      | None => Some (false, args')
      | Some x => b ← compare_values decimal_leb op x v; Some (b, args')
      end
  end.
Fixpoint some_holds (r : row) (alternatives : list atom) (args : list (value decimal)) : option (bool * list (value decimal)) :=
  match alternatives with
  | [] => Some (false, args)
  | a :: rest => '(b, args') ← atom_holds r a args; '(b', args'') ← some_holds r rest args'; Some (b || b', args'')
  end.
Fixpoint all_hold (r : row) (conditions : list (list atom)) (args : list (value decimal)) : option (bool * list (value decimal)) :=
  match conditions with
  | [] => Some (true, args)
  | c :: rest => '(b, args') ← some_holds r c args; '(b', args'') ← all_hold r rest args'; Some (b && b', args'')
  end.
Fixpoint count_matches (r : row) (columns : list string) (args : list (value decimal)) : option (Z * list (value decimal)) :=
  match columns with
  | [] => Some (0, args)
  | c :: rest =>
      '(b, args') ← atom_holds r (Compare c "=" "?") args; '(n, args'') ← count_matches r rest args';
      Some ((if (b : bool) then 1 else 0) + n, args'')
  end.
Fixpoint order_keys (r : row) (terms : list term) (args : list (value decimal)) : option (list Z) :=
  match terms with
  | [] => match args with [] => Some [] | _ => None end
  | Column c :: rest => match at_ r c with Some (VTime z | VUint z) => cons z <$> order_keys r rest args | _ => None end
  | Matches cs :: rest => '(n, args') ← count_matches r cs args; cons n <$> order_keys r rest args'
  end.
(** Whether a row is selected, and its keys in the order of the result *)
Definition evaluate (s : statement) (args : list (value decimal)) (r : row) : option (bool * list Z) :=
  '(b, args') ← all_hold r (where_ s) args; pair b <$> order_keys r (order_by s) args'.
End evaluation.

(** Lexicographic order of sort keys *)
Fixpoint lex_le (a b : list Z) : Prop :=
  match a, b with
  | x :: a', y :: b' => x < y ∨ x = y ∧ lex_le a' b'
  | [], _ => True
  | _ :: _, [] => False
  end.
Lemma lex_le_total a b : length a = length b → lex_le a b ∨ lex_le b a.
Proof.
  revert b. induction a as [|x a IH]; intros [|y b] Hl; simpl in *; try done; [by left|].
  destruct (IH b) as [H|H]; [lia| |]; destruct (Z.lt_trichotomy x y) as [?|[?|?]]; auto.
Qed.
Lemma lex_le_trans a b c : lex_le a b → lex_le b c → lex_le a c.
Proof.
  revert b c. induction a as [|x a IH]; intros [|y b] [|z c]; simpl; try done.
  intros [?|[-> Ha]] [?|[-> Hb]]; [left; lia|left; lia|left; lia|]. right. split; [done|]. by eapply IH.
Qed.

(** ** Newest versions *)

Section newest.
Context {A K : Type} `{EqDecision K} (key : A → K) (version : A → Z).
Definition newest (acc : option A) (r : A) : option A :=
  match acc with Some a => if version a <=? version r then Some r else acc | None => Some r end.
(** The row of a key a query with [FINAL] sees *)
Definition final (rows : list A) (k : K) : option A := foldl newest None (filter (λ r, key r = k) rows).
Definition survives (rows : list A) (r : A) : Prop := final rows (key r) = Some r.

Lemma final_snoc rows x k : final (rows ++ [x]) k = if decide (key x = k) then newest (final rows k) x else final rows k.
Proof. unfold final. rewrite filter_app, foldl_app, filter_cons, filter_nil. by destruct (decide (key x = k)). Qed.
Lemma final_elem rows k r : final rows k = Some r → r ∈ rows ∧ key r = k.
Proof.
  induction rows as [|x rows IH] using rev_ind; [done|]. rewrite final_snoc, elem_of_app, list_elem_of_singleton.
  destruct (decide (key x = k)) as [Hx|Hx]; [|naive_solver]. unfold newest.
  destruct (final rows k) as [a|]; [case_match|]; intros [= <-]; naive_solver.
Qed.
Lemma final_some rows r : r ∈ rows → is_Some (final rows (key r)).
Proof.
  induction rows as [|x rows IH] using rev_ind; intros Hr; [by apply elem_of_nil in Hr|].
  rewrite final_snoc. destruct (decide (key x = key r)) as [Hx|Hx].
  - unfold newest. destruct (final rows (key r)); [case_match|]; eauto.
  - apply IH. by apply elem_of_app in Hr as [?| ->%list_elem_of_singleton].
Qed.
Lemma final_last rows a : (∀ r, r ∈ rows → version r ≤ version a) → survives (rows ++ [a]) a.
Proof.
  intros Hv. unfold survives. rewrite final_snoc, decide_True by done. unfold newest.
  destruct (final rows (key a)) as [x|] eqn:Hx; [|done]. apply final_elem in Hx as [Hx _].
  by destruct (Z.leb_spec (version x) (version a)); [|specialize (Hv x Hx); lia].
Qed.
Lemma replaced rows a b : key a = key b → version a ≤ version b → a ≠ b → ¬ survives (rows ++ [a; b]) a.
Proof.
  intros Hk Hv Hne Hs. unfold survives in Hs. change [a; b] with ([a] ++ [b]) in Hs.
  rewrite app_assoc, !final_snoc, Hk, !decide_True in Hs by done. unfold newest in Hs.
  destruct (final rows (key b)) as [x|]; repeat (case_match; simplify_eq; try done); lia.
Qed.
End newest.

(** Rows that represent entries keep the newest entry of every key. *)
Section related.
Context {A B K L : Type} `{EqDecision K, EqDecision L} (R : A → B → Prop).
Context (key : A → K) (version : A → Z) (key' : B → L) (version' : B → Z) (image : L → K) `{!Inj (=) (=) image}.
Hypothesis same : ∀ a b, R a b → key a = image (key' b) ∧ version a = version' b.

Lemma final_related rows entries l :
  Forall2 R rows entries → option_Forall2 R (final key version rows (image l)) (final key' version' entries l).
Proof.
  revert entries. induction rows as [|a rows IH] using rev_ind; intros entries Hall.
  { apply Forall2_nil_inv_l in Hall as ->. constructor. }
  apply Forall2_app_inv_l in Hall as (entries' & [|b [|]] & Hrows & Hb & ->); decompose_Forall_hyps.
  rewrite !final_snoc. specialize (IH _ Hrows). destruct (same a b) as [Hk Hv]; [done|]. rewrite Hk.
  destruct (decide (key' b = l)) as [->|Hl].
  - rewrite decide_True by done. destruct IH as [x y Hxy|]; simpl; [|by constructor].
    destruct (same x y) as [_ ->]; [done|]. rewrite Hv. case_match; by constructor.
  - rewrite decide_False; [done|]. intros Hi. by apply (inj image) in Hi.
Qed.
Lemma survives_row rows entries a :
  Forall2 R rows entries → survives key version rows a → ∃ b, R a b ∧ survives key' version' entries b.
Proof.
  intros Hall Ha. unfold survives in *. pose proof (final_elem _ _ _ _ _ Ha) as [Hin _].
  apply list_elem_of_lookup in Hin as [i Hi]. destruct (Forall2_lookup_l _ _ _ _ _ Hall Hi) as (b0 & _ & Hb0).
  destruct (same a b0 Hb0) as [Hk _]. rewrite Hk in Ha. pose proof (final_related _ _ (key' b0) Hall) as Hr. rewrite Ha in Hr.
  inversion Hr as [x y Hxy Hx Hy|]; subst. exists y. split; [done|]. symmetry in Hy. by destruct (final_elem _ _ _ _ _ Hy) as [_ ->].
Qed.
Lemma survives_entry rows entries b :
  Forall2 R rows entries → survives key' version' entries b → ∃ a, R a b ∧ survives key version rows a.
Proof.
  intros Hall Hb. unfold survives in *. pose proof (final_related _ _ (key' b) Hall) as Hr. rewrite Hb in Hr.
  inversion Hr as [x y Hxy Hx Hy|]; subst. exists x. split; [done|]. destruct (same x b Hxy) as [-> _]. by symmetry.
Qed.
End related.
End SqlSelect.
