(* ===== verification/Pricing.v ===== *)
(** * Catalog prices and billing charges

    [services/pricing]: the imports of catalog prices and of billing charges and the
    lookup of the price in force ([server.go], [types.go]), and their statements
    ([repository.go]) on the two ClickHouse tables of
    [deploy/clickhouse/migrations/010_pricing_billing_imports.sql].

    [shopspring/decimal], [encoding/json], the case mappings of [strings] and
    [time.Parse] are parameters, and so is what a column keeps of a time or a
    decimal. Where the source ranges over a map, the order is one. *)
From stdpp Require Import base option list gmap strings.
From Stdlib Require Import ZArith Lia Ascii.
From S2P Require Import Prelude Proto Stores Effects Http Services Sql SqlSelect.

Module Pricing.
Import Strings Http Gatewayauth Sql SqlSelect.
Open Scope Z_scope.

(** ** Data *)

Section types.
(** [map[string]any] *)
Context {attributes : Type}.
Record CatalogPriceInput := {
  Provider : string;
  AccountID : string;
  Region : string;
  Service : string;
  SKU : string;
  ResourceType : string;
  PurchaseOption : string;
  Unit_ : string;
  Currency : string;
  UnitPrice : string;
  EffectiveStart : Time;
  EffectiveEnd : option Time;
  Source : string;
  PriceVersion : string;
  Attributes : attributes
}.
Record BillingChargeInput := {
  ChargeID : string;
  Ch_Provider : string;
  Ch_AccountID : string;
  BillingPeriodStart : Time;
  BillingPeriodEnd : Time;
  UsageStart : Time;
  UsageEnd : Time;
  Ch_Service : string;
  Ch_SKU : string;
  ResourceID : string;
  CostCategory : string;
  Ch_Currency : string;
  ListCost : string;
  NetCost : string;
  AmortizedCost : string;
  InvoicedCost : string;
  Credits : string;
  Taxes : string;
  InvoiceID : string;
  Ch_Source : string;
  Ch_Attributes : attributes
}.
Record CatalogImportRequest := { Prices : list CatalogPriceInput }.
Record BillingImportRequest := { Charges : list BillingChargeInput }.
Record ImportResponse := { TenantID : string; Imported : Z; IngestedAt : Time }.
Record EffectivePriceQuery := {
  Q_TenantID : string;
  Q_Provider : string;
  Q_AccountID : string;
  Q_Region : string;
  Q_Service : string;
  Q_SKU : string;
  Q_ResourceType : string;
  Q_PurchaseOption : string;
  Q_Unit : string;
  At : Time
}.
Record EffectivePriceResult := {
  R_TenantID : string;
  R_Provider : string;
  R_AccountID : string;
  R_Region : string;
  R_Service : string;
  R_SKU : string;
  R_ResourceType : string;
  R_PurchaseOption : string;
  R_Unit : string;
  R_Currency : string;
  R_UnitPrice : string;
  R_EffectiveStart : Time;
  R_EffectiveEnd : option Time;
  R_Source : string;
  R_PriceVersion : string;
  R_Attributes : attributes;
  MatchedAt : Time
}.
(** [CatalogPrice] and [BillingCharge] embed their inputs. *)
Record CatalogPrice := { price : CatalogPriceInput; P_TenantID : string; P_IngestedAt : Time; P_Version : Z }.
Record BillingCharge := { charge : BillingChargeInput; C_TenantID : string; C_IngestedAt : Time; C_Version : Z }.
End types.
Arguments CatalogPriceInput : clear implicits.
Arguments BillingChargeInput : clear implicits.
Arguments CatalogImportRequest : clear implicits.
Arguments BillingImportRequest : clear implicits.
Arguments EffectivePriceResult : clear implicits.
Arguments CatalogPrice : clear implicits.
Arguments BillingCharge : clear implicits.

Definition maxImportBatch : Z := 1000.

Definition catalogPriceColumns : list string :=
  ["tenant_id"; "provider"; "account_id"; "region"; "service"; "sku"; "resource_type";
   "purchase_option"; "unit"; "currency"; "unit_price"; "effective_start"; "effective_end";
   "source"; "price_version"; "attributes"; "ingested_at"; "version"]%string.
Definition billingChargeColumns : list string :=
  ["tenant_id"; "charge_id"; "provider"; "account_id"; "billing_period_start";
   "billing_period_end"; "usage_start"; "usage_end"; "service"; "sku"; "resource_id";
   "cost_category"; "currency"; "list_cost"; "net_cost"; "amortized_cost"; "invoiced_cost";
   "credits"; "taxes"; "invoice_id"; "source"; "attributes"; "ingested_at"; "version"]%string.
Definition joinColumns (columns : list string) : string := Join columns ", ".

Definition valueOrDefaultString (value fallback : string) : string :=
  let value := TrimSpace value in if negb (value =? "")%string then value else fallback.

Definition effective_price_text : string := "
SELECT
    tenant_id,
    provider,
    account_id,
    region,
    service,
    sku,
    resource_type,
    purchase_option,
    unit,
    currency,
    unit_price,
    effective_start,
    effective_end,
    source,
    price_version,
    attributes
FROM kube_cost.catalog_price_interval FINAL
WHERE tenant_id = ?
  AND provider = ?
  AND region = ?
  AND service = ?
  AND resource_type = ?
  AND purchase_option = ?
  AND unit = ?
  AND effective_start <= ?
  AND (effective_end IS NULL OR effective_end > ?)
  AND (account_id = ? OR account_id = '')
  AND (sku = ? OR sku = '')
ORDER BY
    if(account_id = ?, 1, 0) + if(sku = ?, 1, 0) DESC,
    effective_start DESC,
    version DESC
LIMIT 1".
Definition effectiveCatalogPriceSQL {decimal} (q : EffectivePriceQuery) : string * list (value decimal) :=
  (effective_price_text,
   [VString (Q_TenantID q); VString (Q_Provider q); VString (Q_Region q); VString (Q_Service q);
    VString (Q_ResourceType q); VString (Q_PurchaseOption q); VString (Q_Unit q); VTime (At q); VTime (At q);
    VString (Q_AccountID q); VString (Q_SKU q); VString (Q_AccountID q); VString (Q_SKU q)]).

Section pricing.
Context {attributes decimal : Type}.
(** [decimal.Decimal], JSON documents, case mappings and [time.Parse] *)
Context (NewFromString : string → res string decimal) (decimal_String : decimal → string).
Context (Marshal : attributes → res string string) (Unmarshal : string → attributes) (nil_map : attributes).
Context (ToLower ToUpper : string → string) (ParseTime : string → option Time).
Abbreviation CatalogPriceInput := (CatalogPriceInput attributes).
Abbreviation BillingChargeInput := (BillingChargeInput attributes).
Abbreviation CatalogPrice := (CatalogPrice attributes).
Abbreviation BillingCharge := (BillingCharge attributes).
Abbreviation EffectivePriceResult := (EffectivePriceResult attributes).

(** ** Checks *)

(** The first blank field in the order the map is visited *)
Fixpoint first_blank (fields : list (string * string)) : option string :=
  match fields with
  | [] => None
  | (name, value) :: fields' => if (TrimSpace value =? "")%string then Some name else first_blank fields'
  end.
Fixpoint first_not_decimal (fields : list (string * string)) : option string :=
  match fields with
  | [] => None
  | (name, value) :: fields' => match NewFromString value with Err _ => Some name | Ok _ => first_not_decimal fields' end
  end.
Definition required_price_fields (p : CatalogPriceInput) : list (string * string) :=
  [("provider", Provider p); ("region", Region p); ("service", Service p); ("sku", SKU p);
   ("resource_type", ResourceType p); ("unit", Unit_ p); ("currency", Currency p);
   ("unit_price", UnitPrice p); ("price_version", PriceVersion p)]%string.
Definition validateCatalogPrice (range : list (string * string) → list (string * string)) (p : CatalogPriceInput) : option string :=
  match first_blank (range (required_price_fields p)) with
  | Some name => Some (name +:+ " is required")
  | None =>
      if negb (String.length (TrimSpace (Currency p)) =? 3)%nat then Some "currency must be a 3-letter code"%string
      else match NewFromString (UnitPrice p) with
           | Err _ => Some "unit_price must be a decimal string"%string
           | Ok _ =>
               if IsZero (EffectiveStart p) then Some "effective_start is required"%string
               else match EffectiveEnd p with
                    | Some e => if negb (EffectiveStart p <? e) then Some "effective_end must be after effective_start"%string else None
                    | None => None
                    end
           end
  end.
Definition cost_fields (c : BillingChargeInput) : list (string * string) :=
  [("list_cost", ListCost c); ("net_cost", NetCost c); ("amortized_cost", AmortizedCost c);
   ("invoiced_cost", InvoicedCost c); ("credits", Credits c); ("taxes", Taxes c)]%string.
Definition required_charge_fields (c : BillingChargeInput) : list (string * string) :=
  [("charge_id", ChargeID c); ("provider", Ch_Provider c); ("account_id", Ch_AccountID c); ("service", Ch_Service c);
   ("cost_category", CostCategory c); ("currency", Ch_Currency c); ("list_cost", ListCost c); ("net_cost", NetCost c);
   ("amortized_cost", AmortizedCost c); ("invoiced_cost", InvoicedCost c); ("credits", Credits c); ("taxes", Taxes c);
   ("invoice_id", InvoiceID c)]%string.
Definition validateBillingCharge (range : list (string * string) → list (string * string)) (c : BillingChargeInput) : option string :=
  match first_blank (range (required_charge_fields c)) with
  | Some name => Some (name +:+ " is required")
  | None =>
      if negb (String.length (TrimSpace (Ch_Currency c)) =? 3)%nat then Some "currency must be a 3-letter code"%string
      else match first_not_decimal (range (cost_fields c)) with
           | Some name => Some (name +:+ " must be a decimal string")
           | None =>
               if IsZero (BillingPeriodStart c) || IsZero (BillingPeriodEnd c) || negb (BillingPeriodStart c <? BillingPeriodEnd c)
               then Some "billing period timestamps are required and must be ordered"%string
               else if IsZero (UsageStart c) || IsZero (UsageEnd c) || negb (UsageStart c <? UsageEnd c)
               then Some "usage timestamps are required and must be ordered"%string
               else None
           end
  end.
Definition normalizeCatalogPrice (p : CatalogPriceInput) : CatalogPriceInput :=
  {| Provider := ToLower (TrimSpace (Provider p)); AccountID := TrimSpace (AccountID p); Region := TrimSpace (Region p);
     Service := TrimSpace (Service p); SKU := TrimSpace (SKU p); ResourceType := TrimSpace (ResourceType p);
     PurchaseOption := valueOrDefaultString (PurchaseOption p) "on_demand"; Unit_ := TrimSpace (Unit_ p);
     Currency := ToUpper (TrimSpace (Currency p)); UnitPrice := TrimSpace (UnitPrice p);
     EffectiveStart := EffectiveStart p; EffectiveEnd := EffectiveEnd p;
     Source := valueOrDefaultString (Source p) "import"; PriceVersion := TrimSpace (PriceVersion p);
     Attributes := Attributes p |}.
Definition normalizeBillingCharge (c : BillingChargeInput) : BillingChargeInput :=
  {| ChargeID := ChargeID c; Ch_Provider := ToLower (TrimSpace (Ch_Provider c)); Ch_AccountID := TrimSpace (Ch_AccountID c);
     BillingPeriodStart := BillingPeriodStart c; BillingPeriodEnd := BillingPeriodEnd c;
     UsageStart := UsageStart c; UsageEnd := UsageEnd c; Ch_Service := TrimSpace (Ch_Service c); Ch_SKU := TrimSpace (Ch_SKU c);
     ResourceID := TrimSpace (ResourceID c); CostCategory := TrimSpace (CostCategory c);
     Ch_Currency := ToUpper (TrimSpace (Ch_Currency c)); ListCost := ListCost c; NetCost := NetCost c;
     AmortizedCost := AmortizedCost c; InvoicedCost := InvoicedCost c; Credits := Credits c; Taxes := Taxes c;
     InvoiceID := InvoiceID c; Ch_Source := valueOrDefaultString (Ch_Source c) "import"; Ch_Attributes := Ch_Attributes c |}.

(** ** Rows *)

Abbreviation cell := (option (value decimal)).
Definition str (s : string) : cell := Some (VString s).
Definition catalogPriceRow (p : CatalogPrice) : res string (list cell) :=
  let i := price p in
  match NewFromString (UnitPrice i) with
  | Err e => Err ("invalid unit_price: " +:+ e)
  | Ok unitPrice =>
      match Marshal (Attributes i) with
      | Err e => Err ("encode catalog price attributes: " +:+ e)
      | Ok encoded =>
          Ok [str (P_TenantID p); str (Provider i); str (AccountID i); str (Region i); str (Service i); str (SKU i);
              str (ResourceType i); str (PurchaseOption i); str (Unit_ i); str (Currency i); Some (VDecimal unitPrice);
              Some (VTime (EffectiveStart i)); VTime <$> EffectiveEnd i; str (Source i); str (PriceVersion i);
              str encoded; Some (VTime (P_IngestedAt p)); Some (VUint (P_Version p))]
      end
  end.
(** The decimal of a field and the error that names it *)
Definition decimal_field (name value : string) : res string decimal :=
  match NewFromString value with Ok d => Ok d | Err e => Err ("invalid " +:+ name +:+ ": " +:+ e) end.
Definition billingChargeRow (c : BillingCharge) : res string (list cell) :=
  let i := charge c in
  listCost ← decimal_field "list_cost" (ListCost i);
  netCost ← decimal_field "net_cost" (NetCost i);
  amortizedCost ← decimal_field "amortized_cost" (AmortizedCost i);
  invoicedCost ← decimal_field "invoiced_cost" (InvoicedCost i);
  credits ← decimal_field "credits" (Credits i);
  taxes ← decimal_field "taxes" (Taxes i);
  match Marshal (Ch_Attributes i) with
  | Err e => Err ("encode billing charge attributes: " +:+ e)
  | Ok encoded =>
      Ok [str (C_TenantID c); str (ChargeID i); str (Ch_Provider i); str (Ch_AccountID i);
          Some (VTime (BillingPeriodStart i)); Some (VTime (BillingPeriodEnd i)); Some (VTime (UsageStart i)); Some (VTime (UsageEnd i));
          str (Ch_Service i); str (Ch_SKU i); str (ResourceID i); str (CostCategory i); str (Ch_Currency i);
          Some (VDecimal listCost); Some (VDecimal netCost); Some (VDecimal amortizedCost); Some (VDecimal invoicedCost);
          Some (VDecimal credits); Some (VDecimal taxes);
          str (InvoiceID i); str (Ch_Source i); str encoded; Some (VTime (C_IngestedAt c)); Some (VUint (C_Version c))]
  end.

(** ** The repository *)

(** Calls to the database driver. A batch is prepared, filled row by row and sent. *)
Inductive first_answer := QueryFailed (e : string) | ReadFailed (e : string) | NoRow | FirstRow (cells : list cell).
Inductive repo_op :=
| Ping
| PrepareBatch (sql : string)
| Append (cells : list cell)
| Send
| SelectFirst (sql : string) (args : list (value decimal)).
Definition repo_ans (o : repo_op) : Type :=
  match o with SelectFirst _ _ => first_answer | _ => option string end.
Abbreviation prog := (prog repo_ans).

(** The two imports differ in their texts and rows. *)
Section import.
Context {A : Type} (what sql : string) (row_of : A → res string (list cell)).
Fixpoint append_rows (items : list A) : prog (option string) :=
  match items with
  | [] => Ret None
  | item :: items' =>
      match row_of item with
      | Err e => Ret (Some e)
      | Ok cells =>
          failed ← call (Append cells);
          match (failed : option string) with
          | Some e => Ret (Some ("append " +:+ what +:+ " row: " +:+ e))
          | None => append_rows items'
          end
      end
  end.
Definition send_rows (items : list A) : prog (option string) :=
  failed ← append_rows items;
  match failed with
  | Some e => Ret (Some e)
  | None =>
      failed ← call Send;
      Ret (match (failed : option string) with Some e => Some ("send " +:+ what +:+ " batch: " +:+ e) | None => None end)
  end.
Definition import_rows (items : list A) : prog (option string) :=
  match items with
  | [] => Ret None
  | _ =>
      failed ← call (PrepareBatch sql);
      match (failed : option string) with
      | Some e => Ret (Some ("prepare " +:+ what +:+ " batch: " +:+ e))
      | None => send_rows items
      end
  end.
End import.
Definition ImportCatalogPrices (prices : list CatalogPrice) : prog (option string) :=
  import_rows "catalog price" ("INSERT INTO kube_cost.catalog_price_interval (" +:+ joinColumns catalogPriceColumns +:+ ")")
    catalogPriceRow prices.
Definition ImportBillingCharges (charges : list BillingCharge) : prog (option string) :=
  import_rows "billing charge" ("INSERT INTO kube_cost.billing_charge (" +:+ joinColumns billingChargeColumns +:+ ")")
    billingChargeRow charges.

(** Errors of a lookup *)
Inductive lookup_error := ErrEffectivePriceNotFound | LookupFailed (detail : string).
Definition scan_price (matchedAt : Time) (cells : list cell) : option EffectivePriceResult :=
  match cells with
  | [Some (VString tenantID); Some (VString provider); Some (VString accountID); Some (VString region);
     Some (VString service); Some (VString sku); Some (VString resourceType); Some (VString purchaseOption);
     Some (VString unit); Some (VString currency); Some (VDecimal unitPrice); Some (VTime effectiveStart);
     effectiveEnd; Some (VString source); Some (VString priceVersion); Some (VString encoded)] =>
      let result effectiveEnd :=
        {| R_TenantID := tenantID; R_Provider := provider; R_AccountID := accountID; R_Region := region; R_Service := service;
           R_SKU := sku; R_ResourceType := resourceType; R_PurchaseOption := purchaseOption; R_Unit := unit;
           R_Currency := currency; R_UnitPrice := decimal_String unitPrice; R_EffectiveStart := effectiveStart;
           R_EffectiveEnd := effectiveEnd; R_Source := source; R_PriceVersion := priceVersion;
           R_Attributes := if negb (TrimSpace encoded =? "")%string then Unmarshal encoded else nil_map;
           MatchedAt := matchedAt |} in
      match effectiveEnd with
      | None => Some (result None)
      | Some (VTime e) => Some (result (Some e))
      | Some _ => None
      end
  | _ => None
  end.
Definition EffectiveCatalogPrice (q : EffectivePriceQuery) : prog (lookup_error + EffectivePriceResult) :=
  let '(sql, args) := effectiveCatalogPriceSQL q in
  answer ← call (SelectFirst sql args);
  Ret (match (answer : first_answer) with
       | QueryFailed e => inl (LookupFailed ("query effective catalog price: " +:+ e))
       | ReadFailed e => inl (LookupFailed ("read effective catalog price: " +:+ e))
       | NoRow => inl ErrEffectivePriceNotFound
       | FirstRow cells =>
           match scan_price (At q) cells with
           | Some result => inr result
           | None => inl (LookupFailed "scan effective catalog price")
           end
       end).

(** ** The HTTP handlers *)

Section handlers.
Context (Getenv : string → string).
(** The order in which the checks of the n-th item of a request visit their maps *)
Context (range : nat → list (string * string) → list (string * string)).

Definition decodeJSON {T} (b : body T) : res problem T :=
  match b with JSONBody v => Ok v | _ => Err (invalid_request "request body must be valid JSON") end.
Definition health : prog (response string) :=
  failed ← call Ping;
  Ret (match (failed : option string) with
       | Some _ => writeProblem StatusServiceUnavailable "dependency_unavailable" "clickhouse unavailable"
       | None => writeJSON StatusOK "ok"%string
       end).
(** The loop over the items of an import, with the index of the first *)
Fixpoint check_items {A B} (validate : (list (string * string) → list (string * string)) → A → option string) (accept : A → B)
    (n : nat) (items : list A) : res string (list B) :=
  match items with
  | [] => Ok []
  | item :: items' =>
      match validate (range n) item with
      | Some e => Err e
      | None => rest ← check_items validate accept (S n) items'; Ok (accept item :: rest)
      end
  end.
Definition catalog_price (tenantID : string) (ingestedAt : Time) (input : CatalogPriceInput) : CatalogPrice :=
  {| price := normalizeCatalogPrice input; P_TenantID := tenantID; P_IngestedAt := ingestedAt; P_Version := u64 (UnixNano ingestedAt) |}.
Definition billing_charge (tenantID : string) (ingestedAt : Time) (input : BillingChargeInput) : BillingCharge :=
  {| charge := normalizeBillingCharge input; C_TenantID := tenantID; C_IngestedAt := ingestedAt; C_Version := u64 (UnixNano ingestedAt) |}.
Definition importCatalogPrices (clock now : Time) (r : Request) (b : body (CatalogImportRequest attributes)) : prog (response ImportResponse) :=
  match authenticatedTenant Getenv clock r with
  | Err p => Ret (Problem p)
  | Ok tenantID =>
      match decodeJSON b with
      | Err p => Ret (Problem p)
      | Ok request =>
          let n := Z.of_nat (length (Prices request)) in
          if (n =? 0) || (maxImportBatch <? n) then Ret (Problem (invalid_request "prices must contain 1 to 1000 items"))
          else match check_items validateCatalogPrice (catalog_price tenantID now) 0 (Prices request) with
               | Err e => Ret (Problem (invalid_request e))
               | Ok prices =>
                   failed ← ImportCatalogPrices prices;
                   Ret (match failed with
                        | Some _ => writeProblem StatusInternalServerError "import_failed" "catalog price import failed"
                        | None => writeJSON StatusAccepted {| TenantID := tenantID; Imported := Z.of_nat (length prices); IngestedAt := now |}
                        end)
               end
      end
  end.
Definition importBillingCharges (clock now : Time) (r : Request) (b : body (BillingImportRequest attributes)) : prog (response ImportResponse) :=
  match authenticatedTenant Getenv clock r with
  | Err p => Ret (Problem p)
  | Ok tenantID =>
      match decodeJSON b with
      | Err p => Ret (Problem p)
      | Ok request =>
          let n := Z.of_nat (length (Charges request)) in
          if (n =? 0) || (maxImportBatch <? n) then Ret (Problem (invalid_request "charges must contain 1 to 1000 items"))
          else match check_items validateBillingCharge (billing_charge tenantID now) 0 (Charges request) with
               | Err e => Ret (Problem (invalid_request e))
               | Ok charges =>
                   failed ← ImportBillingCharges charges;
                   Ret (match failed with
                        | Some _ => writeProblem StatusInternalServerError "import_failed" "billing charge import failed"
                        | None => writeJSON StatusAccepted {| TenantID := tenantID; Imported := Z.of_nat (length charges); IngestedAt := now |}
                        end)
               end
      end
  end.
Definition effectivePriceQueryFromRequest (now : Time) (r : Request) (tenantID : string) : res problem EffectivePriceQuery :=
  let query at_ := {|
    Q_TenantID := tenantID; Q_Provider := ToLower (TrimSpace (QueryGet r "provider")); Q_AccountID := TrimSpace (QueryGet r "account_id");
    Q_Region := TrimSpace (QueryGet r "region"); Q_Service := TrimSpace (QueryGet r "service"); Q_SKU := TrimSpace (QueryGet r "sku");
    Q_ResourceType := TrimSpace (QueryGet r "resource_type");
    Q_PurchaseOption := valueOrDefaultString (QueryGet r "purchase_option") "on_demand";
    Q_Unit := TrimSpace (QueryGet r "unit"); At := at_ |} in
  let q := query 0 in
  match first_blank (range 0 [("provider", Q_Provider q); ("region", Q_Region q); ("service", Q_Service q);
                              ("resource_type", Q_ResourceType q); ("unit", Q_Unit q)]%string) with
  | Some name => Err (invalid_request (name +:+ " is required"))
  | None =>
      let at_ := TrimSpace (QueryGet r "at") in
      if (at_ =? "")%string then Ok (query now)
      else match ParseTime at_ with
           | None => Err (invalid_request "at must be an RFC3339 timestamp")
           | Some parsed => Ok (query parsed)
           end
  end.
Definition effectiveCatalogPrice (clock now : Time) (r : Request) : prog (response EffectivePriceResult) :=
  match authenticatedTenant Getenv clock r with
  | Err p => Ret (Problem p)
  | Ok tenantID =>
      match effectivePriceQueryFromRequest now r tenantID with
      | Err p => Ret (Problem p)
      | Ok query =>
          result ← EffectiveCatalogPrice query;
          Ret (match result with
               | inl ErrEffectivePriceNotFound => writeProblem StatusNotFound "not_found" "effective catalog price not found"
               | inl (LookupFailed _) => writeProblem StatusInternalServerError "query_failed" "effective catalog price lookup failed"
               | inr result => writeJSON StatusOK result
               end)
      end
  end.
End handlers.

(** ** The tables *)

Section database.
Context `{EqDecision decimal} (decimal_leb : decimal → decimal → bool).
(** What a column keeps of a time and of a decimal, and the time the driver passes
    for an argument *)
Context (column_time : string → Time → Time) (column_decimal : decimal → decimal) (argument_time : Time → Time).
Abbreviation row := (list (string * cell)).

(** [FixedString(3)] is padded with zero bytes. *)
Definition pad3 (s : string) : string :=
  String.string_of_list_ascii (String.list_ascii_of_string s ++ replicate (3 - String.length s) (byte_of 0)).
Definition stored (column : string) (c : cell) : cell :=
  match c with
  | Some (VTime t) => Some (VTime (column_time column t))
  | Some (VDecimal d) => Some (VDecimal (column_decimal d))
  | Some (VString s) => Some (VString (if (column =? "currency")%string then pad3 s else s))
  | _ => c
  end.
Definition stored_row (columns : list string) (cells : list cell) : row := zip_with (λ column c, (column, stored column c)) columns cells.
Definition bound (v : value decimal) : value decimal := match v with VTime t => VTime (argument_time t) | _ => v end.

(** The rows of every table in the order they were inserted, and the open batch with
    its table, columns and rows *)
Record db := { tables : gmap string (list row); batch : option (string * list string * list row) }.
Definition rows_of (w : db) (t : string) : list row := default [] (tables w !! t).
(** The sorting keys of the migration *)
Definition sorting_key (t : string) : list string :=
  if (t =? "kube_cost.catalog_price_interval")%string
  then ["tenant_id"; "provider"; "account_id"; "region"; "service"; "sku"; "resource_type"; "purchase_option"; "effective_start"; "price_version"]%string
  else if (t =? "kube_cost.billing_charge")%string
  then ["tenant_id"; "provider"; "account_id"; "billing_period_start"; "charge_id"]%string
  else [].
Definition row_key (t : string) (r : row) : list cell := at_ r <$> sorting_key t.
Definition row_version (r : row) : Z := match at_ r "version" with Some (VUint z) => z | _ => 0 end.
(** The rows a query with [FINAL] sees *)
Definition visible (w : db) (t : string) (r : row) : Prop := survives (row_key t) row_version (rows_of w t) r.
Definition selected (w : db) (s : statement) (args : list (value decimal)) (r : row) (keys : list Z) : Prop :=
  visible w (from s) r ∧ evaluate decimal_leb s (bound <$> args) r = Some (true, keys).

(** What the database may answer. Any call can fail, and a batch whose sending failed
    may have been inserted. Rows past their retention are not considered. *)
Definition sent (w w' : db) : Prop :=
  ∃ t columns rows, batch w = Some (t, columns, rows) ∧ w' = {| tables := <[t := rows_of w t ++ rows]> (tables w); batch := None |}.
Definition db_effect (o : repo_op) (w : db) : repo_ans o → db → Prop :=
  match o with
  | Ping => λ _ w', w' = w
  | PrepareBatch sql => λ failed w',
      match failed with
      | Some _ => w' = w
      | None => ∃ t columns, read_insert sql = Some (t, columns) ∧ w' = {| tables := tables w; batch := Some (t, columns, []) |}
      end
  | Append cells => λ failed w',
      match failed with
      | Some _ => w' = w
      | None => ∃ t columns rows, batch w = Some (t, columns, rows) ∧ length cells = length columns ∧
                  w' = {| tables := tables w; batch := Some (t, columns, rows ++ [stored_row columns cells]) |}
      end
  | Send => λ failed w', match failed with Some _ => w' = w ∨ sent w w' | None => sent w w' end
  | SelectFirst sql args => λ answer w',
      w' = w ∧
      match answer with
      | QueryFailed _ | ReadFailed _ => True
      | NoRow => ∃ s, read_select sql = Some s ∧ ∀ r keys, ¬ selected w s args r keys
      | FirstRow cells =>
          ∃ s r keys, read_select sql = Some s ∧ selected w s args r keys ∧
            (∀ r' keys', selected w s args r' keys' → lex_le keys' keys) ∧ cells = at_ r <$> columns sql
      end
  end.

(** *** Batches *)

(** The rows of items, if all of them have one *)
Fixpoint all_rows {A} (row_of : A → res string (list cell)) (columns : list string) (items : list A) : option (list row) :=
  match items with
  | [] => Some []
  | item :: items' => match row_of item with Ok cells => cons (stored_row columns cells) <$> all_rows row_of columns items' | Err _ => None end
  end.
Lemma append_rows_effect {A} what (row_of : A → res string (list cell)) items w failed w' t columns rows :
  exec db_effect (append_rows what row_of items) w failed w' → batch w = Some (t, columns, rows) →
  tables w' = tables w ∧
  (failed = None → ∃ new, all_rows row_of columns items = Some new ∧ batch w' = Some (t, columns, rows ++ new)).
Proof.
  revert w rows. induction items as [|item items IH]; intros w rows; simpl.
  { intros [-> ->] Hb. split; [done|]. intros _. exists []. by rewrite app_nil_r. }
  destruct (row_of item) as [cells|e]; [|by intros [-> ->]].
  intros (failed1 & w1 & Ha & Hrest) Hb. simpl in Ha. destruct failed1 as [e|].
  { subst w1. destruct Hrest as [-> ->]. done. }
  destruct Ha as (t' & columns' & rows' & Hb' & _ & ->). rewrite Hb in Hb'. injection Hb' as <- <- <-.
  destruct (IH _ _ Hrest eq_refl) as [Ht Hn]. split; [done|]. intros Hf. destruct (Hn Hf) as (new & -> & Hw). simpl.
  eexists. split; [done|]. by rewrite Hw, <- app_assoc.
Qed.
(** An import inserts the rows of all its items or none. *)
Lemma import_rows_effect {A} what sql (row_of : A → res string (list cell)) items w failed w' t columns :
  exec db_effect (import_rows what sql row_of items) w failed w' → read_insert sql = Some (t, columns) → items ≠ [] →
  (failed ≠ None ∧ tables w' = tables w) ∨
  ∃ new, all_rows row_of columns items = Some new ∧ tables w' = <[t := rows_of w t ++ new]> (tables w).
Proof.
  intros He Hsql Hne. destruct items as [|item items]; [done|]. unfold import_rows in He.
  destruct He as (failed1 & w1 & Hp & He). simpl in Hp. destruct failed1 as [e|].
  { subst w1. destruct He as [-> ->]. by left. }
  destruct Hp as (t' & columns' & Hsql' & ->). rewrite Hsql in Hsql'. injection Hsql' as <- <-.
  change (exec db_effect (send_rows what row_of (item :: items)) {| tables := tables w; batch := Some (t, columns, []) |} failed w') in He.
  unfold send_rows in He.
  apply exec_bind in He as (failed2 & w2 & Ha & He). destruct (append_rows_effect _ _ _ _ _ _ _ _ _ Ha eq_refl) as [Ht Hn].
  destruct failed2 as [e|]; [destruct He as [-> ->]; by left|]. destruct (Hn eq_refl) as (new & Hnew & Hb). simpl in Ht.
  assert (∀ w3, sent w2 w3 → tables w3 = <[t := rows_of w t ++ new]> (tables w)) as Hsent.
  { intros w3 (t' & columns' & rows' & Hb' & ->). rewrite Hb in Hb'. injection Hb' as <- <- <-. simpl. unfold rows_of. by rewrite Ht. }
  destruct He as (failed3 & w3 & Hs & He). simpl in Hs.
  destruct He as [-> ->]. destruct failed3 as [e|]; [destruct Hs as [->|Hs]|]; [by left|right; eauto|right; eauto].
Qed.

(** *** Requests *)

Definition visible_fields (fields : list (string * string)) : Prop := Forall (λ f, TrimSpace f.2 ≠ EmptyString) fields.
Record valid_price (p : CatalogPriceInput) : Prop := {
  price_fields : visible_fields (required_price_fields p);
  price_currency : String.length (TrimSpace (Currency p)) = 3%nat;
  price_decimal : ∃ d, NewFromString (UnitPrice p) = Ok d;
  price_start : EffectiveStart p ≠ 0;
  price_end : ∀ e, EffectiveEnd p = Some e → EffectiveStart p < e
}.
Record valid_charge (c : BillingChargeInput) : Prop := {
  charge_fields : visible_fields (required_charge_fields c);
  charge_currency : String.length (TrimSpace (Ch_Currency c)) = 3%nat;
  charge_decimals : Forall (λ f, ∃ d, NewFromString f.2 = Ok d) (cost_fields c);
  charge_period : BillingPeriodStart c ≠ 0 ∧ BillingPeriodEnd c ≠ 0 ∧ BillingPeriodStart c < BillingPeriodEnd c;
  charge_usage : UsageStart c ≠ 0 ∧ UsageEnd c ≠ 0 ∧ UsageStart c < UsageEnd c
}.

Lemma first_blank_none fields : first_blank fields = None ↔ visible_fields fields.
Proof.
  unfold visible_fields. induction fields as [|[name v] fields IH]; simpl; [done|]. rewrite Forall_cons. simpl.
  destruct (String.eqb_spec (TrimSpace v) ""); naive_solver.
Qed.
Lemma first_not_decimal_none fields : first_not_decimal fields = None ↔ Forall (λ f, ∃ d, NewFromString f.2 = Ok d) fields.
Proof.
  induction fields as [|[name v] fields IH]; simpl; [done|]. rewrite Forall_cons. simpl.
  destruct (NewFromString v); naive_solver.
Qed.
Lemma IsZero_false t : IsZero t = false ↔ t ≠ 0.
Proof. unfold IsZero. destruct (Z.eqb_spec t 0); naive_solver. Qed.

Section requests.
Context (Getenv : string → string) (range : nat → list (string * string) → list (string * string)).
(** The order of a map is a permutation of its entries. *)
Hypothesis range_permutes : ∀ n fields, range n fields ≡ₚ fields.

Lemma validate_price_none n p : validateCatalogPrice (range n) p = None ↔ valid_price p.
Proof.
  assert (first_blank (range n (required_price_fields p)) = None ↔ visible_fields (required_price_fields p)) as Hb.
  { rewrite first_blank_none. unfold visible_fields. by rewrite range_permutes. }
  unfold validateCatalogPrice. split.
  - intros Hv. destruct (first_blank _); [done|]. destruct (Nat.eqb_spec (String.length (TrimSpace (Currency p))) 3) as [Hc|]; [|done].
    destruct (NewFromString (UnitPrice p)) eqn:Hd; [|done]. simpl in Hv. destruct (IsZero (EffectiveStart p)) eqn:Hs; [done|].
    apply IsZero_false in Hs. split; [by apply Hb|done|eauto|done|]. intros e He. rewrite He in Hv.
    by destruct (Z.ltb_spec (EffectiveStart p) e).
  - intros [Hf Hc [d Hd] Hs He]. apply Hb in Hf as ->. rewrite Hc, Hd. simpl. apply IsZero_false in Hs as ->.
    destruct (EffectiveEnd p) as [e|]; [|done]. by destruct (Z.ltb_spec (EffectiveStart p) e); [|specialize (He e eq_refl); lia].
Qed.
Lemma validate_charge_none n c : validateBillingCharge (range n) c = None ↔ valid_charge c.
Proof.
  assert (first_blank (range n (required_charge_fields c)) = None ↔ visible_fields (required_charge_fields c)) as Hb.
  { rewrite first_blank_none. unfold visible_fields. by rewrite range_permutes. }
  assert (first_not_decimal (range n (cost_fields c)) = None ↔ Forall (λ f, ∃ d, NewFromString f.2 = Ok d) (cost_fields c)) as Hd.
  { rewrite first_not_decimal_none. by rewrite range_permutes. }
  assert (∀ s e, IsZero s || IsZero e || negb (s <? e) = false ↔ s ≠ 0 ∧ e ≠ 0 ∧ s < e) as Hi.
  { intros s e. unfold IsZero. destruct (Z.eqb_spec s 0), (Z.eqb_spec e 0), (Z.ltb_spec s e); simpl; intuition (done || lia). }
  unfold validateBillingCharge. split.
  - intros Hv. destruct (first_blank _); [done|]. destruct (Nat.eqb_spec (String.length (TrimSpace (Ch_Currency c))) 3) as [Hc|]; [|done]. simpl in Hv.
    destruct (first_not_decimal _); [done|].
    destruct (IsZero (BillingPeriodStart c) || _ || _) eqn:Hp; [done|]. destruct (IsZero (UsageStart c) || _ || _) eqn:Hu; [done|].
    split; [by apply Hb|done|by apply Hd|by apply Hi|by apply Hi].
  - intros [Hf Hc Hds Hp Hu]. apply Hb in Hf as ->. rewrite Hc. apply Hd in Hds as ->. apply Hi in Hp as ->. by apply Hi in Hu as ->.
Qed.
Lemma check_items_spec {A B} validate (valid : A → Prop) (accept : A → B) n items :
  (∀ n item, validate (range n) item = None ↔ valid item) →
  match check_items range validate accept n items with
  | Ok accepted => Forall valid items ∧ accepted = accept <$> items
  | Err _ => ¬ Forall valid items
  end.
Proof.
  intros Hv. revert n. induction items as [|item items IH]; intros n; simpl; [done|].
  specialize (Hv n item). destruct (validate (range n) item) as [e|].
  - intros Hall. apply Forall_cons in Hall as [Hi _]. by apply Hv in Hi.
  - specialize (IH (S n)). destruct (check_items _ _ _ _ _) as [rest|e]; simpl; rewrite Forall_cons; naive_solver.
Qed.

(** *** The catalog *)

Definition catalog_table : string := "kube_cost.catalog_price_interval".
(** The row of a price *)
Definition entry (r : row) (p : CatalogPrice) : Prop := ∃ cells, catalogPriceRow p = Ok cells ∧ r = stored_row catalogPriceColumns cells.
Definition catalog_log (w : db) (log : list CatalogPrice) : Prop := Forall2 entry (rows_of w catalog_table) log.

(** Of the prices recorded under one key the newest is in force. *)
Definition price_key (p : CatalogPrice) :=
  let i := price p in
  (P_TenantID p, Provider i, AccountID i, Region i, Service i, SKU i, ResourceType i, PurchaseOption i,
   column_time "effective_start" (EffectiveStart i), PriceVersion i).
Definition live (log : list CatalogPrice) (p : CatalogPrice) : Prop := survives price_key P_Version log p.
(** A price answers a query if it is for the resource, in force at the time, and for
    the account and SKU of the query or for any. *)
Record offered (q : EffectivePriceQuery) (p : CatalogPrice) : Prop := {
  offered_tenant : P_TenantID p = Q_TenantID q;
  offered_provider : Provider (price p) = Q_Provider q;
  offered_region : Region (price p) = Q_Region q;
  offered_service : Service (price p) = Q_Service q;
  offered_resource : ResourceType (price p) = Q_ResourceType q;
  offered_purchase : PurchaseOption (price p) = Q_PurchaseOption q;
  offered_unit : Unit_ (price p) = Q_Unit q;
  offered_start : column_time "effective_start" (EffectiveStart (price p)) ≤ argument_time (At q);
  offered_end : ∀ e, EffectiveEnd (price p) = Some e → argument_time (At q) < column_time "effective_end" e;
  offered_account : AccountID (price p) = Q_AccountID q ∨ AccountID (price p) = EmptyString;
  offered_sku : SKU (price p) = Q_SKU q ∨ SKU (price p) = EmptyString
}.
(** Specific prices come before general ones, then later ones before earlier ones. *)
Definition rank (q : EffectivePriceQuery) (p : CatalogPrice) : list Z :=
  [(if (AccountID (price p) =? Q_AccountID q)%string then 1 else 0) + (if (SKU (price p) =? Q_SKU q)%string then 1 else 0);
   column_time "effective_start" (EffectiveStart (price p)); P_Version p].
Definition best (q : EffectivePriceQuery) (log : list CatalogPrice) (p : CatalogPrice) : Prop :=
  live log p ∧ offered q p ∧ ∀ p', live log p' → offered q p' → lex_le (rank q p') (rank q p).
Definition answers (q : EffectivePriceQuery) (p : CatalogPrice) (result : EffectivePriceResult) : Prop :=
  let i := price p in
  ∃ d encoded, NewFromString (UnitPrice i) = Ok d ∧ Marshal (Attributes i) = Ok encoded ∧ result = {|
    R_TenantID := P_TenantID p; R_Provider := Provider i; R_AccountID := AccountID i; R_Region := Region i; R_Service := Service i;
    R_SKU := SKU i; R_ResourceType := ResourceType i; R_PurchaseOption := PurchaseOption i; R_Unit := Unit_ i;
    R_Currency := pad3 (Currency i); R_UnitPrice := decimal_String (column_decimal d);
    R_EffectiveStart := column_time "effective_start" (EffectiveStart i);
    R_EffectiveEnd := column_time "effective_end" <$> EffectiveEnd i; R_Source := Source i; R_PriceVersion := PriceVersion i;
    R_Attributes := if negb (TrimSpace encoded =? "")%string then Unmarshal encoded else nil_map; MatchedAt := At q |}.

(** **** Rows and prices *)

Lemma entry_inv r p :
  entry r p → ∃ d encoded, NewFromString (UnitPrice (price p)) = Ok d ∧ Marshal (Attributes (price p)) = Ok encoded ∧
  let i := price p in
  r = [("tenant_id", str (P_TenantID p)); ("provider", str (Provider i)); ("account_id", str (AccountID i)); ("region", str (Region i));
       ("service", str (Service i)); ("sku", str (SKU i)); ("resource_type", str (ResourceType i));
       ("purchase_option", str (PurchaseOption i)); ("unit", str (Unit_ i)); ("currency", str (pad3 (Currency i)));
       ("unit_price", Some (VDecimal (column_decimal d)));
       ("effective_start", Some (VTime (column_time "effective_start" (EffectiveStart i))));
       ("effective_end", VTime <$> (column_time "effective_end" <$> EffectiveEnd i)); ("source", str (Source i));
       ("price_version", str (PriceVersion i)); ("attributes", str encoded);
       ("ingested_at", Some (VTime (column_time "ingested_at" (P_IngestedAt p)))); ("version", Some (VUint (P_Version p)))]%string.
Proof.
  intros (cells & Hc & ->). unfold catalogPriceRow in Hc. destruct (NewFromString _) as [d|]; [|done]. destruct (Marshal _) as [encoded|]; [|done].
  injection Hc as <-. exists d, encoded. split; [done|]. split; [done|]. simpl. by destruct (EffectiveEnd (price p)).
Qed.
Definition key_cells (k : string * string * string * string * string * string * string * string * Z * string) : list cell :=
  let '(t, pr, ac, re, se, sk, rt, po, st, pv) := k in
  [str t; str pr; str ac; str re; str se; str sk; str rt; str po; Some (VTime st); str pv].
#[local] Instance key_cells_inj : Inj (=) (=) key_cells.
Proof. intros k k' H. destruct k as [[[[[[[[[??]?]?]?]?]?]?]?]?], k' as [[[[[[[[[??]?]?]?]?]?]?]?]?]. unfold key_cells, str in H. by simplify_eq. Qed.
Lemma entry_key r p : entry r p → row_key catalog_table r = key_cells (price_key p) ∧ row_version r = P_Version p.
Proof. intros (d & encoded & _ & _ & ->)%entry_inv. done. Qed.

(** The statement of a lookup *)
Definition effective_statement : statement := {|
  from := catalog_table;
  where_ := [[Compare "tenant_id" "=" "?"]; [Compare "provider" "=" "?"]; [Compare "region" "=" "?"]; [Compare "service" "=" "?"];
             [Compare "resource_type" "=" "?"]; [Compare "purchase_option" "=" "?"]; [Compare "unit" "=" "?"];
             [Compare "effective_start" "<=" "?"]; [IsNull "effective_end"; Compare "effective_end" ">" "?"];
             [Compare "account_id" "=" "?"; Compare "account_id" "=" "''"]; [Compare "sku" "=" "?"; Compare "sku" "=" "''"]];
  order_by := [Matches ["account_id"; "sku"]; Column "effective_start"; Column "version"]%string |}.
Lemma read_effective : read_select effective_price_text = Some effective_statement.
Proof. vm_compute. reflexivity. Qed.
Lemma effective_columns : columns effective_price_text = take 16 catalogPriceColumns.
Proof. vm_compute. reflexivity. Qed.

Lemma evaluate_entry q r p :
  entry r p → ∃ b, evaluate decimal_leb effective_statement (bound <$> (effectiveCatalogPriceSQL q).2) r = Some (b, rank q p) ∧
                   (b = true ↔ offered q p).
Proof.
  intros (d & encoded & _ & _ & ->)%entry_inv.
  destruct (EffectiveEnd (price p)) as [e|] eqn:He; cbn; rewrite Z.add_0_r; eexists; (split; [reflexivity|]);
    rewrite ?orb_false_r, ?andb_true_r, ?andb_true_iff, ?orb_true_iff, ?String.eqb_eq, ?Z.leb_le, ?Z.ltb_lt.
  - split; [intros (?&?&?&?&?&?&?&?&?&?&?); split; try done; by intros e' [= <-]%(eq_trans (eq_sym He))|]. intros []. eauto 20.
  - split; [intros (?&?&?&?&?&?&?&?&?&?); split; try done; by intros e' ?%(eq_trans (eq_sym He))|]. intros []. eauto 20.
Qed.

(** **** Lookups *)

Lemma selected_price q w log r keys :
  catalog_log w log → selected w effective_statement (effectiveCatalogPriceSQL q).2 r keys →
  ∃ p, entry r p ∧ live log p ∧ offered q p ∧ keys = rank q p.
Proof.
  intros Hlog [Hv He]. destruct (survives_row entry _ _ _ _ key_cells entry_key _ _ _ Hlog Hv) as (p & Hp & Hl).
  destruct (evaluate_entry q r p Hp) as (b & Hb & Ho). rewrite He in Hb. injection Hb as <- ->. exists p. split_and!; try done. by apply Ho.
Qed.
Lemma price_selected q w log p :
  catalog_log w log → live log p → offered q p →
  ∃ r, entry r p ∧ selected w effective_statement (effectiveCatalogPriceSQL q).2 r (rank q p).
Proof.
  intros Hlog Hl Ho. destruct (survives_entry entry (row_key catalog_table) row_version _ _ key_cells entry_key _ _ _ Hlog Hl) as (r & Hr & Hv).
  destruct (evaluate_entry q r p Hr) as (b & Hb & Hb'). apply Hb' in Ho as ->. exists r. by repeat split.
Qed.
Lemma scan_entry q r p :
  entry r p → ∃ result, scan_price (At q) (at_ r <$> columns effective_price_text) = Some result ∧ answers q p result.
Proof.
  intros (d & encoded & Hd & Hm & ->)%entry_inv. rewrite effective_columns. unfold answers. rewrite Hd, Hm.
  eexists. split; [|by do 2 eexists]. by destruct (EffectiveEnd (price p)).
Qed.
Lemma lookup_effect q w log result w' :
  catalog_log w log → exec db_effect (EffectiveCatalogPrice q) w result w' →
  w' = w ∧ match result with
           | inr result => ∃ p, best q log p ∧ answers q p result
           | inl ErrEffectivePriceNotFound => ∀ p, live log p → ¬ offered q p
           | inl (LookupFailed _) => True
           end.
Proof.
  intros Hlog He. unfold EffectiveCatalogPrice in He. destruct He as (answer & w1 & [-> Ha] & -> & ->). split; [done|].
  destruct answer as [e|e| |cells]; [done|done| |].
  - destruct Ha as (s & Hs & Hnone). rewrite read_effective in Hs. injection Hs as <-. intros p Hl Ho.
    destruct (price_selected q w log p Hlog Hl Ho) as (r & _ & Hsel). by apply Hnone in Hsel.
  - destruct Ha as (s & r & keys & Hs & Hsel & Hbest & ->). rewrite read_effective in Hs. injection Hs as <-.
    destruct (selected_price _ _ _ _ _ Hlog Hsel) as (p & Hr & Hl & Ho & ->).
    destruct (scan_entry q r p Hr) as (result & Hres & Hans). rewrite Hres. exists p. split; [|done]. split_and!; [done|done|].
    intros p' Hl' Ho'. destruct (price_selected q w log p' Hlog Hl' Ho') as (r' & _ & Hsel'). by eapply Hbest.
Qed.

(** **** Imports *)

Inductive import :=
| ImportPrices (clock now : Time) (r : Request) (b : body (CatalogImportRequest attributes))
| ImportCharges (clock now : Time) (r : Request) (b : body (BillingImportRequest attributes)).
Definition handle (i : import) : prog (response ImportResponse) :=
  match i with
  | ImportPrices clock now r b => importCatalogPrices Getenv range clock now r b
  | ImportCharges clock now r b => importBillingCharges Getenv range clock now r b
  end.
(** The prices a well-formed request of an authenticated tenant imports *)
Definition batch_size {A} (items : list A) : Prop := 1 ≤ Z.of_nat (length items) ≤ maxImportBatch.
Definition accepts_prices (i : import) (prices : list CatalogPrice) (accepted : ImportResponse) : Prop :=
  ∃ clock now r request t,
    i = ImportPrices clock now r (JSONBody request) ∧ authenticatedTenant Getenv clock r = Ok t ∧ batch_size (Prices request) ∧
    Forall valid_price (Prices request) ∧ prices = catalog_price t now <$> Prices request ∧
    accepted = {| TenantID := t; Imported := Z.of_nat (length (Prices request)); IngestedAt := now |}.
(** What an import does to the catalog: an accepted one adds all its prices, a refused
    one none, and one that fails in the database all or none. *)
Inductive catalog_step (i : import) : response ImportResponse → list CatalogPrice → list CatalogPrice → Prop :=
| prices_accepted prices accepted log :
    accepts_prices i prices accepted → catalog_step i (JSON StatusAccepted accepted) log (log ++ prices)
| prices_failed prices accepted p log log' :
    accepts_prices i prices accepted → problem_status p = StatusInternalServerError → log' = log ∨ log' = log ++ prices →
    catalog_step i (Problem p) log log'
| prices_refused p log :
    (∀ prices accepted, ¬ accepts_prices i prices accepted) → problem_status p ≠ StatusInternalServerError → catalog_step i (Problem p) log log
| charges_imported clock now r b response log : i = ImportCharges clock now r b → catalog_step i response log log.

Lemma all_rows_entries prices new :
  all_rows catalogPriceRow catalogPriceColumns prices = Some new → Forall2 entry new prices.
Proof.
  revert new. induction prices as [|p prices IH]; intros new; simpl; [by intros [= <-]|].
  destruct (catalogPriceRow p) as [cells|] eqn:Hp; [|done]. destruct (all_rows _ _ prices) as [rest|]; [|done].
  intros [= <-]. constructor; [by exists cells|auto].
Qed.
Lemma read_catalog_insert :
  read_insert ("INSERT INTO kube_cost.catalog_price_interval (" +:+ joinColumns catalogPriceColumns +:+ ")") = Some (catalog_table, catalogPriceColumns).
Proof. vm_compute. reflexivity. Qed.
Lemma read_billing_insert :
  read_insert ("INSERT INTO kube_cost.billing_charge (" +:+ joinColumns billingChargeColumns +:+ ")") = Some ("kube_cost.billing_charge"%string, billingChargeColumns).
Proof. vm_compute. reflexivity. Qed.
Lemma batch_size_check {A} (items : list A) :
  (Z.of_nat (length items) =? 0) || (maxImportBatch <? Z.of_nat (length items)) = false ↔ batch_size items.
Proof. unfold batch_size. destruct (Z.eqb_spec (Z.of_nat (length items)) 0), (Z.ltb_spec maxImportBatch (Z.of_nat (length items))); simpl; split; (done || lia). Qed.
Lemma catalog_extended w w' log prices new :
  catalog_log w log → tables w' = <[catalog_table := rows_of w catalog_table ++ new]> (tables w) →
  all_rows catalogPriceRow catalogPriceColumns prices = Some new → catalog_log w' (log ++ prices).
Proof.
  intros Hlog Ht Hnew. unfold catalog_log, rows_of. rewrite Ht, lookup_insert_eq. simpl.
  apply Forall2_app; [done|by apply all_rows_entries].
Qed.
Lemma authenticated_problem clock r p : authenticatedTenant Getenv clock r = Err p → problem_status p ≠ StatusInternalServerError.
Proof.
  unfold authenticatedTenant, trustedGateway. intros H.
  repeat (case_match; simplify_eq; try done); by injection H as <-.
Qed.
Lemma refused_step clock now r b p log :
  (∀ t request, authenticatedTenant Getenv clock r = Ok t → b = JSONBody request → batch_size (Prices request) → ¬ Forall valid_price (Prices request)) →
  problem_status p ≠ StatusInternalServerError → catalog_step (ImportPrices clock now r b) (Problem p) log log.
Proof.
  intros Hno Hp. apply prices_refused; [|done]. intros prices accepted (clock' & now' & r' & request & t & [= <- <- <- ->] & Ht & Hn & Hv & _).
  by apply (Hno t request).
Qed.
Lemma import_prices_step clock now r b w log resp w' :
  catalog_log w log → exec db_effect (importCatalogPrices Getenv range clock now r b) w resp w' →
  ∃ log', catalog_step (ImportPrices clock now r b) resp log log' ∧ catalog_log w' log'.
Proof.
  intros Hlog He. unfold importCatalogPrices in He. destruct (authenticatedTenant Getenv clock r) as [t|p] eqn:Ht.
  2:{ destruct He as [-> ->]. exists log. split; [|done]. apply refused_step; [congruence|by eapply authenticated_problem]. }
  destruct b as [| | |request]; simpl in He; try (destruct He as [-> ->]; exists log; split; [by apply refused_step|done]).
  destruct (_ || _) eqn:Hn.
  { destruct He as [-> ->]. exists log. split; [|done]. apply refused_step; [|done]. intros t' request' _ [= <-] Hs%batch_size_check. congruence. }
  apply batch_size_check in Hn.
  pose proof (check_items_spec validateCatalogPrice valid_price (catalog_price t now) 0 (Prices request) validate_price_none) as Hc.
  destruct (check_items _ _ _ _ _) as [prices|e].
  2:{ destruct He as [-> ->]. exists log. split; [|done]. apply refused_step; [|done]. by intros t' request' _ [= <-] _. }
  destruct Hc as [Hv ->]. apply exec_bind in He as (failed & w1 & Hi & -> & ->).
  assert (accepts_prices (ImportPrices clock now r (JSONBody request)) (catalog_price t now <$> Prices request)
    {| TenantID := t; Imported := Z.of_nat (length (Prices request)); IngestedAt := now |}) as Ha by (by do 5 eexists).
  assert (catalog_price t now <$> Prices request ≠ []) as Hne by (unfold batch_size in Hn; destruct (Prices request); simpl in *; [lia|done]).
  destruct (import_rows_effect _ _ _ _ _ _ _ _ _ Hi read_catalog_insert Hne) as [[Hf Hw]|(new & Hnew & Hw)].
  - destruct failed as [e|]; [|done]. exists log. split; [by eapply prices_failed; [|done|left]|]. unfold catalog_log, rows_of in *. by rewrite Hw.
  - exists (log ++ (catalog_price t now <$> Prices request)). split; [|by eapply catalog_extended].
    destruct failed as [e|]; [by eapply prices_failed; [|done|right]|]. rewrite length_fmap. by apply prices_accepted.
Qed.
Lemma import_charges_step clock now r b w log resp w' :
  catalog_log w log → exec db_effect (importBillingCharges Getenv range clock now r b) w resp w' → catalog_log w' log.
Proof.
  intros Hlog He. unfold importBillingCharges in He. destruct (authenticatedTenant Getenv clock r) as [t|p]; [|by destruct He as [-> ->]].
  destruct b as [| | |request]; simpl in He; try by destruct He as [-> ->].
  destruct (_ || _) eqn:Hn; [by destruct He as [-> ->]|]. apply batch_size_check in Hn.
  pose proof (check_items_spec validateBillingCharge valid_charge (billing_charge t now) 0 (Charges request) validate_charge_none) as Hc.
  destruct (check_items _ _ _ _ _) as [charges|e]; [|by destruct He as [-> ->]].
  destruct Hc as [_ ->]. apply exec_bind in He as (failed & w1 & Hi & _ & ->).
  assert (billing_charge t now <$> Charges request ≠ []) as Hne by (unfold batch_size in Hn; destruct (Charges request); simpl in *; [lia|done]).
  unfold catalog_log, rows_of in *.
  destruct (import_rows_effect _ _ _ _ _ _ _ _ _ Hi read_billing_insert Hne) as [[_ ->]|(new & _ & ->)]; [done|].
  by rewrite lookup_insert_ne.
Qed.
Lemma import_step i w log resp w' :
  catalog_log w log → exec db_effect (handle i) w resp w' → ∃ log', catalog_step i resp log log' ∧ catalog_log w' log'.
Proof.
  destruct i as [clock now r b|clock now r b]; intros Hlog He; [by eapply import_prices_step|].
  exists log. split; [by eapply charges_imported|by eapply import_charges_step].
Qed.

(** Databases that start without prices and serve imports, and the catalogs their
    answers allow *)
Inductive served : list (import * response ImportResponse) → db → Prop :=
| served_none w : rows_of w catalog_table = [] → served [] w
| served_import trace w i resp w' : served trace w → exec db_effect (handle i) w resp w' → served (trace ++ [(i, resp)]) w'.
Inductive recorded : list (import * response ImportResponse) → list CatalogPrice → Prop :=
| recorded_none : recorded [] []
| recorded_import trace log i resp log' : recorded trace log → catalog_step i resp log log' → recorded (trace ++ [(i, resp)]) log'.
Lemma served_recorded trace w : served trace w → ∃ log, recorded trace log ∧ catalog_log w log.
Proof.
  induction 1 as [w Hw|trace w i resp w' _ (log & Hr & Hlog) He].
  - exists []. split; [constructor|]. unfold catalog_log. rewrite Hw. constructor.
  - destruct (import_step _ _ _ _ _ Hlog He) as (log' & Hs & Hlog'). exists log'. split; [by econstructor|done].
Qed.

(** C31: The pricing service implements a price catalog. Whatever imports it has served,
    and however the database answered them, there is a catalog made of the prices of
    the accepted imports (and of all or none of the prices of each failed one, and no
    others) such that a lookup leaves the tables alone and answers a price of the
    tenant for the resource that is in force at the time, is not replaced by a newer
    version, and is as specific to the account and SKU and as recent as any; it
    answers 404 only if there is no such price, and otherwise reports a failure of the
    database. *)
Theorem lookup_answers_best_price trace w clock now r t q resp w' :
  served trace w → authenticatedTenant Getenv clock r = Ok t →
  effectivePriceQueryFromRequest range now r t = Ok q →
  exec db_effect (effectiveCatalogPrice Getenv range clock now r) w resp w' →
  w' = w ∧ ∃ log, recorded trace log ∧
  match resp with
  | JSON status result => status = StatusOK ∧ ∃ p, best q log p ∧ answers q p result
  | Problem e => (problem_status e = StatusNotFound ∧ ∀ p, live log p → ¬ offered q p) ∨ problem_status e = StatusInternalServerError
  end.
Proof.
  intros (log & Hr & Hlog)%served_recorded Ht Hq He. unfold effectiveCatalogPrice in He. rewrite Ht, Hq in He.
  apply exec_bind in He as (result & w1 & Hl & -> & ->). destruct (lookup_effect _ _ _ _ _ Hlog Hl) as [-> Hres].
  split; [done|]. exists log. split; [done|]. destruct result as [[|]|result]; simpl; auto.
Qed.

(** **** Imported prices *)

Definition import_time (i : import) : Time := match i with ImportPrices _ now _ _ | ImportCharges _ now _ _ => now end.
Lemma recorded_import_of trace log p :
  recorded trace log → p ∈ log →
  ∃ i resp t input, (i, resp) ∈ trace ∧ p = catalog_price t (import_time i) input ∧ valid_price input.
Proof.
  intros Hr. revert p. induction Hr as [|trace log i resp log' _ IH Hs]; intros p Hp; [by apply elem_of_nil in Hp|].
  assert (p ∈ log ∨ ∃ prices accepted, accepts_prices i prices accepted ∧ p ∈ prices) as [Hp'|(prices & accepted & Ha & Hp')].
  { destruct Hs as [prices accepted log Ha|prices accepted pr log log' Ha _ [-> | ->]| |]; try apply elem_of_app in Hp; naive_solver. }
  - destruct (IH p Hp') as (i' & resp' & t & input & Hin & ? & ?). exists i', resp', t, input. rewrite elem_of_app. auto.
  - destruct Ha as (clock & now & r & request & t & -> & _ & _ & Hv & -> & _). apply list_elem_of_fmap in Hp' as (input & -> & Hin).
    rewrite Forall_forall in Hv. exists (ImportPrices clock now r (JSONBody request)), resp, t, input.
    split_and!; [apply elem_of_app; right; by left|done|auto].
Qed.
(** C32: An imported price is found again. After an accepted import whose last price is
    [input], if no import before it came from a later clock, a lookup of the tenant that
    names the fields of [input] as the import did, at a time in its interval, answers a
    price at least as specific and recent as [input], unless the database fails. The
    condition on the clock is needed: a row from a later clock stays in force. That the
    table drops prices seven years after their start is not modelled. *)
Theorem imported_price_found trace c n r0 inputs input s accepted w clock now r t q resp w' :
  served (trace ++ [(ImportPrices c n r0 (JSONBody {| Prices := inputs ++ [input] |}), JSON s accepted)]) w →
  (∀ i resp, (i, resp) ∈ trace → u64 (UnixNano (import_time i)) ≤ u64 (UnixNano n)) →
  authenticatedTenant Getenv c r0 = Ok t → authenticatedTenant Getenv clock r = Ok t →
  QueryGet r "provider" = Provider input → QueryGet r "account_id" = AccountID input → QueryGet r "region" = Region input →
  QueryGet r "service" = Service input → QueryGet r "sku" = SKU input → QueryGet r "resource_type" = ResourceType input →
  QueryGet r "purchase_option" = PurchaseOption input → QueryGet r "unit" = Unit_ input →
  effectivePriceQueryFromRequest range now r t = Ok q →
  column_time "effective_start" (EffectiveStart input) ≤ argument_time (At q) →
  (∀ e, EffectiveEnd input = Some e → argument_time (At q) < column_time "effective_end" e) →
  exec db_effect (effectiveCatalogPrice Getenv range clock now r) w resp w' →
  match resp with
  | JSON status result => status = StatusOK ∧ ∃ p, answers q p result ∧ offered q p ∧ lex_le (rank q (catalog_price t n input)) (rank q p)
  | Problem e => problem_status e = StatusInternalServerError
  end.
Proof.
  intros (log & Hrec & Hlog)%served_recorded Hclock Ht0 Ht Hpr Hac Hre Hse Hsk Hrt Hpo Hun Hq Hstart Hend He.
  assert (live log (catalog_price t n input)) as Hlive.
  { inversion Hrec as [Hnil|trace' log0 i' resp' log' Hrec0 Hs Htr]; subst; [by destruct trace|].
    apply app_inj_tail in Htr as [-> Hi]. simplify_eq.
    inversion Hs as [prices acc log1 Ha| | |]; subst; [|done].
    destruct Ha as (clock' & now' & r' & request & t' & [= <- <- <- <-] & Ht' & _ & _ & -> & _). rewrite Ht0 in Ht'. injection Ht' as <-.
    cbn [Prices]. rewrite fmap_app, app_assoc. simpl. apply final_last. intros p [Hp|Hp]%elem_of_app.
    - destruct (recorded_import_of _ _ _ Hrec0 Hp) as (i & resp1 & t1 & input1 & Hin & -> & _). by apply (Hclock i resp1).
    - apply list_elem_of_fmap in Hp as (input1 & -> & _). simpl. lia. }
  assert (offered q (catalog_price t n input)) as Hoff.
  { unfold effectivePriceQueryFromRequest in Hq. rewrite Hpr, Hac, Hre, Hse, Hsk, Hrt, Hpo, Hun in Hq.
    repeat (case_match; try done); injection Hq as <-; split; auto. }
  unfold effectiveCatalogPrice in He. rewrite Ht, Hq in He. apply exec_bind in He as (result & w1 & Hl & -> & ->).
  destruct (lookup_effect _ _ _ _ _ Hlog Hl) as [_ Hres]. destruct result as [[|]|result]; simpl; [by destruct (Hres _ Hlive)|done|].
  destruct Hres as (p & (_ & Hp & Hbest) & Ha). split; [done|]. exists p. split_and!; [done|done|]. exact (Hbest _ Hlive Hoff).
Qed.

(** Every imported price has a SKU, so a lookup without one never finds any. *)
Lemma lookup_without_sku_fails trace w clock now r t q resp w' :
  served trace w → authenticatedTenant Getenv clock r = Ok t → effectivePriceQueryFromRequest range now r t = Ok q →
  Q_SKU q = EmptyString → exec db_effect (effectiveCatalogPrice Getenv range clock now r) w resp w' →
  ∃ e, resp = Problem e.
Proof.
  intros (log & Hr & Hlog)%served_recorded Ht Hq Hsku He. unfold effectiveCatalogPrice in He. rewrite Ht, Hq in He.
  apply exec_bind in He as (result & w1 & Hl & -> & ->). destruct (lookup_effect _ _ _ _ _ Hlog Hl) as [_ Hres].
  destruct result as [[|]|result]; simpl; [by eexists|by eexists|exfalso].
  destruct Hres as (p & (Hlive & Ho & _) & _). apply final_elem in Hlive as [Hp _].
  destruct (recorded_import_of _ _ _ Hr Hp) as (i & resp & t' & input & _ & -> & [Hf _ _ _ _]).
  unfold visible_fields, required_price_fields in Hf. decompose_Forall_hyps. destruct (offered_sku _ _ Ho); simpl in *; congruence.
Qed.
(** The sorting key of the table does not have the unit: of two prices of one import
    that differ in their units only, the first is lost. *)
Lemma units_replace_each_other t now log i j :
  price_key (catalog_price t now i) = price_key (catalog_price t now j) → Unit_ (normalizeCatalogPrice i) ≠ Unit_ (normalizeCatalogPrice j) →
  ¬ live (log ++ [catalog_price t now i; catalog_price t now j]) (catalog_price t now i).
Proof. intros Hk Hu. apply replaced; [done|done|]. intros Heq. apply Hu. unfold catalog_price in Heq. congruence. Qed.
End requests.
End database.
End pricing.

(** *** A sample catalog *)

Module Sample.
Definition ascii_map (f : ascii → ascii) (s : string) : string := String.string_of_list_ascii (f <$> String.list_ascii_of_string s).
(** Whole amounts, attributes kept as documents, columns that keep whole seconds, and
    maps visited backwards *)
Definition NewFromString (s : string) : res string Z := match Strconv.ParseInt s with Some z => Ok z | None => Err "can't convert to decimal"%string end.
Definition Marshal (document : string) : res string string := Ok document.
Definition seconds (t : Time) : Time := Truncate t Second.
Definition range (n : nat) (fields : list (string * string)) : list (string * string) := reverse fields.
Definition Getenv (name : string) : string := EmptyString.
Definition ToLower : string → string := ascii_map lower_byte.
Definition ToUpper : string → string := ascii_map upper_byte.
Abbreviation db_effect := (db_effect (decimal := Z) Z.leb (λ _, seconds) id seconds).
Abbreviation handle := (handle NewFromString Marshal ToLower ToUpper Getenv range).
Abbreviation lookup := (effectiveCatalogPrice dec id EmptyString ToLower Strconv.ParseInt Getenv range).
Abbreviation served := (served NewFromString Marshal ToLower ToUpper Z.leb (λ _, seconds) id seconds Getenv range).

Definition now : Time := unix_epoch + 1781870400 * Second.
Definition sample_price : CatalogPriceInput string := {|
  Provider := "AWS"; AccountID := "123"; Region := "us-east-1"; Service := "EC2"; SKU := "m7g.large"; ResourceType := "instance";
  PurchaseOption := ""; Unit_ := "hour"; Currency := "usd"; UnitPrice := "77"; EffectiveStart := now - 24 * Hour;
  EffectiveEnd := None; Source := ""; PriceVersion := "aws-2026-06"; Attributes := "null" |}.
Definition import_request : Request := sample_request "POST" "/api/v1/prices/catalog" "" [(TenantHeader, "tenant-a"%string)].
Definition lookup_request : Request :=
  sample_request "GET" "/api/v1/prices/effective"
    "provider=AWS&account_id=123&region=us-east-1&service=EC2&sku=m7g.large&resource_type=instance&unit=hour" [(TenantHeader, "tenant-a"%string)].
Definition sample_import : import := ImportPrices now now import_request (JSONBody {| Prices := [] ++ [sample_price] |}).
Definition accepted : ImportResponse := {| TenantID := "tenant-a"; Imported := 1; IngestedAt := now |}.
Definition recorded_price : CatalogPrice string := catalog_price ToLower ToUpper "tenant-a" now sample_price.
Definition cells_of : list (option (value Z)) := match catalogPriceRow NewFromString Marshal recorded_price with Ok cells => cells | Err _ => [] end.
Definition empty_db : db (decimal := Z) := {| tables := ∅; batch := None |}.
Definition stored_db : db (decimal := Z) := {| tables := {[catalog_table := [stored_row (λ _, seconds) id catalogPriceColumns cells_of]]}; batch := None |}.

Lemma sample_served : served ([] ++ [(sample_import, JSON StatusAccepted accepted)]) stored_db.
Proof.
  eapply served_import; [by apply (served_none _ _ _ _ _ _ _ _ _ _ empty_db)|].
  unfold handle, sample_import, importCatalogPrices.
  replace (authenticatedTenant Getenv now import_request) with (Ok "tenant-a"%string : res problem string) by (vm_compute; reflexivity).
  cbn [decodeJSON Prices app length].
  replace (check_items _ _ _ _ _) with (Ok [recorded_price] : res string (list (CatalogPrice string))) by (vm_compute; reflexivity).
  exists None, {| tables := ∅; batch := Some (catalog_table, catalogPriceColumns, []) |}. split.
  { exists catalog_table, catalogPriceColumns. split; vm_compute; reflexivity. }
  match goal with |- exec _ ?p _ _ _ => let p' := eval cbn in p in change p with p' end.
  replace (catalogPriceRow NewFromString Marshal recorded_price) with (Ok cells_of : res string (list (option (value Z)))) by (vm_compute; reflexivity).
  exists None, {| tables := ∅; batch := Some (catalog_table, catalogPriceColumns, [stored_row (λ _, seconds) id catalogPriceColumns cells_of]) |}.
  split; [by exists catalog_table, catalogPriceColumns, []|]. exists None, stored_db.
  split; [|by split]. by exists catalog_table, catalogPriceColumns, [stored_row (λ _, seconds) id catalogPriceColumns cells_of].
Qed.
Definition sample_query : EffectivePriceQuery := {|
  Q_TenantID := "tenant-a"; Q_Provider := "aws"; Q_AccountID := "123"; Q_Region := "us-east-1"; Q_Service := "EC2";
  Q_SKU := "m7g.large"; Q_ResourceType := "instance"; Q_PurchaseOption := "on_demand"; Q_Unit := "hour"; At := now |}.
Definition sample_result : EffectivePriceResult string := {|
  R_TenantID := "tenant-a"; R_Provider := "aws"; R_AccountID := "123"; R_Region := "us-east-1"; R_Service := "EC2";
  R_SKU := "m7g.large"; R_ResourceType := "instance"; R_PurchaseOption := "on_demand"; R_Unit := "hour"; R_Currency := "USD";
  R_UnitPrice := "77"; R_EffectiveStart := now - 24 * Hour; R_EffectiveEnd := None; R_Source := "import";
  R_PriceVersion := "aws-2026-06"; R_Attributes := "null"; MatchedAt := now |}.
Lemma sample_authenticated r : r = import_request ∨ r = lookup_request → authenticatedTenant Getenv now r = Ok "tenant-a"%string.
Proof. intros [-> | ->]; vm_compute; reflexivity. Qed.
Lemma sample_read : effectivePriceQueryFromRequest ToLower Strconv.ParseInt range now lookup_request "tenant-a" = Ok sample_query.
Proof. vm_compute. reflexivity. Qed.
Lemma sample_looked_up : exec db_effect (lookup now now lookup_request) stored_db (JSON StatusOK sample_result) stored_db.
Proof.
  unfold effectiveCatalogPrice. rewrite sample_authenticated by auto. rewrite sample_read.
  set (r := stored_row (λ _, seconds) id catalogPriceColumns cells_of).
  exists (FirstRow (at_ r <$> columns effective_price_text)), stored_db.
  split; [|split; [vm_compute; reflexivity|done]]. split; [done|]. exists effective_statement, r, [2; now - 24 * Hour; u64 (UnixNano now)].
  split_and!; [exact read_effective|split; vm_compute; reflexivity| |done].
  intros r' keys' [Hv He]. apply final_elem in Hv as [Hr%list_elem_of_singleton _]. subst r'.
  assert (keys' = [2; now - 24 * Hour; u64 (UnixNano now)]) as ->; [|vm_compute; intuition].
  apply (f_equal (option_map snd)) in He. injection He as <-. vm_compute. reflexivity.
Qed.
Lemma range_permutes n fields : range n fields ≡ₚ fields.
Proof. apply reverse_Permutation. Qed.

(** The two theorems at this import and lookup *)
Lemma lookup_answers_best_price_witness :
  stored_db = stored_db ∧ ∃ log, recorded NewFromString ToLower ToUpper Getenv ([] ++ [(sample_import, JSON StatusAccepted accepted)]) log ∧
  StatusOK = StatusOK ∧
  ∃ p, best (λ _, seconds) seconds sample_query log p ∧
       answers NewFromString dec Marshal id EmptyString (λ _, seconds) id sample_query p sample_result.
Proof.
  exact (lookup_answers_best_price NewFromString dec Marshal id EmptyString ToLower ToUpper Strconv.ParseInt Z.leb (λ _, seconds) id seconds Getenv range range_permutes
    _ _ _ _ _ _ _ _ _ sample_served
    (sample_authenticated _ (or_intror eq_refl)) sample_read sample_looked_up).
Defined.
Lemma imported_price_found_witness :
  StatusOK = StatusOK ∧
  ∃ p, answers NewFromString dec Marshal id EmptyString (λ _, seconds) id sample_query p sample_result ∧
       offered (λ _, seconds) seconds sample_query p ∧
       lex_le (rank (λ _, seconds) sample_query recorded_price) (rank (λ _, seconds) sample_query p).
Proof.
  refine (imported_price_found NewFromString dec Marshal id EmptyString ToLower ToUpper Strconv.ParseInt Z.leb (λ _, seconds) id seconds Getenv range range_permutes
    [] now now import_request [] sample_price StatusAccepted accepted
    stored_db now now lookup_request "tenant-a" sample_query (JSON StatusOK sample_result) stored_db sample_served _
    (sample_authenticated _ (or_introl eq_refl)) (sample_authenticated _ (or_intror eq_refl)) _ _ _ _ _ _ _ _ sample_read _ _ sample_looked_up).
  - intros i resp Hin. by apply elem_of_nil in Hin.
  - vm_compute; reflexivity.
  - vm_compute; reflexivity.
  - vm_compute; reflexivity.
  - vm_compute; reflexivity.
  - vm_compute; reflexivity.
  - vm_compute; reflexivity.
  - vm_compute; reflexivity.
  - vm_compute; reflexivity.
  - vm_compute; discriminate.
  - done.
Defined.
End Sample.
End Pricing.
