(* ===== verification/WorkflowSql.v ===== *)
(** * The statements of the workflow service

    [services/workflow/repository.go]: the texts the repository sends, read by
    [SqlSelect.v], on tables of named cells. [Workflow.v] reasons about the two tables as
    lists of recommendations and actions; here every execution of a command on the
    tables of cells is shown to be one on those lists. *)
From stdpp Require Import base option list gmap strings.
From Stdlib Require Import ZArith Lia.
From S2P Require Import Prelude Effects Sql SqlSelect Workflow.

Module WorkflowSql.
Import Sql SqlSelect Workflow.

(** ** The texts *)

Definition recommendationSelectSQL : string := "
SELECT
    tenant_id,
    recommendation_id,
    cluster_id,
    namespace_uid,
    target_kind,
    target_uid,
    recommendation_type,
    safety_class,
    status,
    analysis_window_start,
    analysis_window_end,
    generated_at,
    expires_at,
    current_configuration,
    proposed_configuration,
    evidence,
    currency,
    monthly_gross_savings,
    monthly_net_savings,
    confidence,
    risk_score,
    policy_version,
    model_version,
    computation_version,
    version
FROM kube_cost.recommendation FINAL
WHERE tenant_id = ? AND recommendation_id = ?
ORDER BY generated_at DESC
LIMIT 1".
Definition table_name (t : table) : string :=
  match t with recommendation_table => "kube_cost.recommendation" | recommendation_action_table => "kube_cost.recommendation_action" end.
(** The statement of a batch *)
Definition insert_text (t : table) (columns : string) : string := "INSERT INTO " +:+ table_name t +:+ " (" +:+ columns +:+ ")".
Definition recommendation_statement : statement := {|
  from := table_name recommendation_table;
  where_ := [[Compare "tenant_id" "=" "?"]; [Compare "recommendation_id" "=" "?"]];
  order_by := [Column "generated_at"]%string |}.
Lemma read_recommendation : read_select recommendationSelectSQL = Some recommendation_statement.
Proof. vm_compute. reflexivity. Qed.
Lemma recommendation_columns : Sql.columns recommendationSelectSQL = recommendationColumns.
Proof. vm_compute. reflexivity. Qed.
Lemma read_recommendation_insert : read_insert (insert_text recommendation_table (joinColumns recommendationColumns)) = Some (table_name recommendation_table, recommendationColumns).
Proof. vm_compute. reflexivity. Qed.

(** ** Tables of cells *)

Section tables.
Context `{EqDecision decimal} (decimal_leb : decimal → decimal → bool) (decimal_String : decimal → string).
Abbreviation named_row := (list (string * option (value decimal))).
Abbreviation cell := (Workflow.cell (decimal := decimal)).
Abbreviation scan := (scanRecommendation decimal_String).

(** A value of a row, and what the driver makes of it *)
Definition value_of (c : cell) : value decimal :=
  match c with CString s => VString s | CTime t => VTime t | CDecimal d => VDecimal d | CUint64 z => VUint z | CUUID s => VString s end.
Definition cell_of (v : value decimal) : cell :=
  match v with VString s => CString s | VTime t => CTime t | VDecimal d => CDecimal d | VUint z => CUint64 z end.
Definition named (columns : list string) (cells : list cell) : named_row := zip columns ((λ c, Some (value_of c)) <$> cells).

(** The sorting key and the version of the migration *)
Definition sorting_columns : list string :=
  ["tenant_id"; "cluster_id"; "recommendation_type"; "target_kind"; "target_uid"; "recommendation_id"]%string.
Definition row_key (r : named_row) : list (option (value decimal)) := at_ r <$> sorting_columns.
Definition row_version (r : named_row) : Z := match at_ r "version" with Some (VUint z) => z | _ => 0 end.

Record sql_db := { sql_recommendations : list named_row; sql_actions : list (list cell) }.
Definition selected (rows : list named_row) (s : statement) (args : list (value decimal)) (r : named_row) (keys : list Z) : Prop :=
  survives row_key row_version rows r ∧ evaluate decimal_leb s args r = Some (true, keys).
(** The driver accepts a row of a recommendation if its values have the types of the
    columns. *)
Definition sql_appended (t : table) (columns : string) (row : list cell) (w w' : sql_db) : Prop :=
  ∃ names, read_insert (insert_text t columns) = Some (table_name t, names) ∧
  match t with
  | recommendation_table =>
      (∃ r, scan row = Ok r) ∧
      w' = {| sql_recommendations := sql_recommendations w ++ [named names row]; sql_actions := sql_actions w |}
  | recommendation_action_table => w' = {| sql_recommendations := sql_recommendations w; sql_actions := sql_actions w ++ [row] |}
  end.
(** What ClickHouse may answer to the statements; [LIMIT 1] is the first row. *)
Definition sql_effect (o : repo_op (decimal := decimal)) (w : sql_db) : repo_ans o → sql_db → Prop :=
  match o with
  | SelectRecommendation t id => λ answer w',
      w' = w ∧
      match answer with
      | QueryFailed _ | ReadFailed _ => True
      | NoRow => ∃ s, read_select recommendationSelectSQL = Some s ∧
                   ∀ r keys, ¬ selected (sql_recommendations w) s [VString t; VString id] r keys
      | FirstRow cells =>
          ∃ s r keys values, read_select recommendationSelectSQL = Some s ∧
            selected (sql_recommendations w) s [VString t; VString id] r keys ∧
            (∀ r' keys', selected (sql_recommendations w) s [VString t; VString id] r' keys' → lex_le keys' keys) ∧
            at_ r <$> Sql.columns recommendationSelectSQL = Some <$> values ∧ cells = cell_of <$> values
      end
  | NewString => λ _ w', w' = w
  | InsertRow t columns row => λ answer w',
      match answer with
      | Sent => sql_appended t columns row w w'
      | PrepareFailed _ | AppendFailed _ => w' = w
      | SendFailed _ => w' = w ∨ sql_appended t columns row w w'
      end
  end.

(** ** Rows and recommendations *)

Definition entry (row : named_row) (r : Recommendation) : Prop := ∃ cells, scan cells = Ok r ∧ row = named recommendationColumns cells.
Definition refines (w : sql_db) (v : db (decimal := decimal)) : Prop :=
  Forall2 entry (sql_recommendations w) (recommendations v) ∧ sql_actions w = actions v.

Lemma recommendation_entry_inv row r :
  entry row r → ∃ gross net confidence risk,
    MonthlyGrossSavings r = decimal_String gross ∧ MonthlyNetSavings r = decimal_String net ∧
    Confidence r = decimal_String confidence ∧ RiskScore r = decimal_String risk ∧
    row = zip recommendationColumns (Some <$> [VString (TenantID r); VString (RecommendationID r); VString (ClusterID r); VString (NamespaceUID r);
      VString (TargetKind r); VString (TargetUID r); VString (RecommendationType r); VString (SafetyClass r); VString (Status r);
      VTime (AnalysisWindowStart r); VTime (AnalysisWindowEnd r); VTime (GeneratedAt r); VTime (ExpiresAt r);
      VString (CurrentConfiguration r); VString (ProposedConfiguration r); VString (Evidence r); VString (Currency r);
      VDecimal gross; VDecimal net; VDecimal confidence; VDecimal risk; VString (PolicyVersion r); VString (ModelVersion r);
      VString (ComputationVersion r); VUint (Version r)]).
Proof.
  intros (cells & Hs & ->). unfold scanRecommendation in Hs. repeat (case_match; try discriminate Hs). injection Hs as <-.
  do 4 eexists. cbn. eauto.
Qed.
Definition key_image (key : list string) : list (option (value decimal)) := (λ s, Some (VString s)) <$> key.
#[local] Instance key_image_inj : Inj (=) (=) key_image.
Proof. apply list_fmap_eq_inj. by intros ?? [= ->]. Qed.
Lemma recommendation_entry_key row r : entry row r → row_key row = key_image (sort_key r) ∧ row_version row = Version r.
Proof. intros (? & ? & ? & ? & _ & _ & _ & _ & ->)%recommendation_entry_inv. done. Qed.
Lemma final_rows rows key : Workflow.final key rows = SqlSelect.final sort_key Version rows key.
Proof. done. Qed.
Lemma evaluate_recommendation t id row r :
  entry row r → ∃ b, evaluate decimal_leb recommendation_statement [VString t; VString id] row = Some (b, [GeneratedAt r]) ∧ (b = true ↔ concerns t id r).
Proof.
  intros (? & ? & ? & ? & _ & _ & _ & _ & ->)%recommendation_entry_inv. cbn. eexists. split; [reflexivity|]. unfold concerns.
  by rewrite orb_false_r, orb_false_r, andb_true_r, andb_true_iff, !String.eqb_eq.
Qed.
(** Rows and recommendations are selected alike. *)
Lemma selected_entry t id rows recs row keys :
  Forall2 entry rows recs → selected rows recommendation_statement [VString t; VString id] row keys →
  ∃ r, entry row r ∧ survives sort_key Version recs r ∧ concerns t id r ∧ keys = [GeneratedAt r].
Proof.
  intros Hall [Hs He]. destruct (survives_row entry _ _ _ _ key_image recommendation_entry_key _ _ _ Hall Hs) as (r & Hr & Hl).
  destruct (evaluate_recommendation t id row r Hr) as (b & Hb & Hc). rewrite He in Hb. injection Hb as <- ->. exists r. split_and!; [done..|by apply Hc|done].
Qed.
Lemma entry_selected t id rows recs r :
  Forall2 entry rows recs → survives sort_key Version recs r → concerns t id r →
  ∃ row, entry row r ∧ selected rows recommendation_statement [VString t; VString id] row [GeneratedAt r].
Proof.
  intros Hall Hs Hc. destruct (survives_entry entry row_key row_version _ _ key_image recommendation_entry_key _ _ _ Hall Hs) as (row & Hr & Hv).
  destruct (evaluate_recommendation t id row r Hr) as (b & Hb & Hb'). apply Hb' in Hc as ->. by exists row.
Qed.
Lemma scan_recommendation row r values :
  entry row r → at_ row <$> Sql.columns recommendationSelectSQL = Some <$> values → scan (cell_of <$> values) = Ok r.
Proof.
  intros (? & ? & ? & ? & Hg & Hn & Hc & Hk & ->)%recommendation_entry_inv. rewrite recommendation_columns.
  match goal with |- context [zip _ (Some <$> ?l)] => assert (at_ (zip recommendationColumns (Some <$> l)) <$> recommendationColumns = Some <$> l) as -> by reflexivity end.
  intros <-%(inj (fmap Some)). cbn. rewrite <- Hg, <- Hn, <- Hc, <- Hk. by destruct r.
Qed.

Lemma select_simulation t id w v answer w' :
  refines w v → sql_effect (SelectRecommendation t id) w answer w' → db_effect decimal_String (SelectRecommendation t id) v answer v ∧ w' = w.
Proof.
  intros [Hall _] [-> Ha]. split; [|done]. split; [done|]. destruct answer as [e|e| |cells]; [done|done| |].
  - destruct Ha as (s & Hs & Hno). rewrite read_recommendation in Hs. injection Hs as <-. intros r Hin Hc.
    destruct (final_some sort_key Version _ r Hin) as [r' Hf]. apply final_elem in Hf as Hf'. destruct Hf' as [_ Hk].
    destruct (entry_selected t id _ _ r' Hall) as (row & _ & Hsel); [unfold survives; by rewrite Hk| |by eapply Hno].
    destruct Hc as [<- <-]. unfold sort_key in Hk. injection Hk as ? _ _ _ _ ?. by split.
  - destruct Ha as (s & row & keys & values & Hs & Hsel & Hmax & Hv & ->). rewrite read_recommendation in Hs. injection Hs as <-.
    destruct (selected_entry _ _ _ _ _ _ Hall Hsel) as (r & Hr & Hl & Hc & ->). exists r. split; [by eapply scan_recommendation|]. split_and!; [done|done|].
    intros r' Hf' Hc'. destruct (entry_selected _ _ _ _ _ Hall Hf' Hc') as (row' & _ & Hsel'). apply Hmax in Hsel'. cbn in Hsel'. lia.
Qed.
(** The calls of the repository: an insert names the columns of its table. *)
Definition well_formed (o : repo_op (decimal := decimal)) : Prop :=
  match o with
  | InsertRow t columns _ => columns = joinColumns match t with recommendation_table => recommendationColumns | recommendation_action_table => actionColumns end
  | _ => True
  end.
Lemma insert_simulation t columns row w v w' :
  refines w v → well_formed (InsertRow t columns row) →
  sql_appended t columns row w w' → ∃ v', appended decimal_String t row v v' ∧ refines w' v'.
Proof.
  intros [Hall Hact] Hcols (names & Hn & Happ). cbn in Hcols. subst columns. destruct t.
  - rewrite read_recommendation_insert in Hn. injection Hn as <-. destruct Happ as [[r Hr] ->].
    eexists. split; [by exists r|]. split; [|done]. apply Forall2_app; [done|]. constructor; [|done]. by exists row.
  - subst. eexists. split; [done|]. split; [done|]. cbn. by rewrite Hact.
Qed.
Lemma call_simulation o w v answer w' :
  well_formed o → refines w v → sql_effect o w answer w' → ∃ v', db_effect decimal_String o v answer v' ∧ refines w' v'.
Proof.
  intros Hw HR He. destruct o as [t id| |t columns row].
  - destruct (select_simulation t id w v answer w' HR He) as [Hv ->]. by exists v.
  - cbn in He. subst w'. by exists v.
  - destruct answer as [|e|e|e]; cbn in He; try (subst w'; by exists v).
    + by eapply insert_simulation.
    + destruct He as [->|He]; [exists v; split; [by left|done]|].
      destruct (insert_simulation t columns row w v w' HR Hw He) as (v' & ? & ?). exists v'. split; [by right|done].
Qed.

Context {any : Type} (NewFromString : string → option decimal) (Marshal : option (gmap string any) → option string) (json_of : ExecutionRequest → any).
Abbreviation Apply := (ApplyCommand decimal_String NewFromString Marshal json_of).
Lemma insert_calls updated command action request :
  calls well_formed (insertRecommendation (decimal := decimal) NewFromString updated) ∧
  calls well_formed (insertAction (decimal := decimal) Marshal json_of command action request).
Proof. unfold insertRecommendation, insertAction. split; case_match; by repeat split. Qed.
Lemma record_calls command updated action request : calls well_formed (record_command NewFromString Marshal json_of command updated action request).
Proof.
  destruct (insert_calls updated command action request) as [H1 H2].
  apply calls_bind; [done|]. intros [e|]; [done|]. apply calls_bind; [done|]. by intros [e|].
Qed.
Lemma command_calls command : calls well_formed (Apply command).
Proof.
  apply calls_bind; [by repeat (split || intros [])|]. intros [current|e]; [|done]. unfold apply_to. do 2 (case_match; [done|]).
  split; [done|]. intros actionID. cbn. case_match; [split; [done|]; intros executionID|]; apply record_calls.
Qed.

(** C39: The statements of the workflow service do what its model of the tables says. On
    tables of named cells with the sorting key and version column of the migration,
    whatever the statements of a command answer and change, read from their texts, is
    what the lists of recommendations and actions allow: so the theorems on histories,
    hand-offs and races hold for the tables, too. *)
Theorem statements_implement_tables command w v result w' :
  refines w v → exec sql_effect (Apply command) w result w' →
  ∃ v', exec (db_effect decimal_String) (Apply command) v result v' ∧ refines w' v'.
Proof.
  intros HR He. eapply (exec_simulation sql_effect (db_effect decimal_String) refines well_formed); [|apply command_calls|done|done].
  intros o w1 v1 x w2. apply call_simulation.
Qed.
End tables.

Definition sample_row : list (string * option (value string)) := named recommendationColumns (sample_cells (sample "open" 1)).
Definition sample_tables : sql_db (decimal := string) := {| sql_recommendations := [sample_row]; sql_actions := [] |}.
Definition sample_values : list (value string) := value_of <$> sample_cells (sample "open" 1).
Lemma sample_refines : refines id sample_tables (sample_db (sample "open" 1)).
Proof. split; [|done]. constructor; [|done]. by exists (sample_cells (sample "open" 1)). Qed.
Lemma statements_implement_tables_witness :
  let approve := sample_command "approve" "approved" 1 2 in
  ∃ result w' v', exec (sql_effect (λ _ _, true) id) (ApplyCommand id Some sample_marshal (λ _, tt) approve) sample_tables (Ok result) w' ∧
    length (sql_recommendations w') = 2%nat ∧
    exec (db_effect id) (ApplyCommand id Some sample_marshal (λ _, tt) approve) (sample_db (sample "open" 1)) (Ok result) v' ∧ refines id w' v'.
Proof.
  intros approve.
  assert (∃ result w', exec (sql_effect (λ _ _, true) id) (ApplyCommand id Some sample_marshal (λ _, tt) approve) sample_tables (Ok result) w' ∧
    length (sql_recommendations w') = 2%nat) as (result & w' & He & Hl).
  { eexists _, _. split.
    - exists (FirstRow (cell_of <$> sample_values)), sample_tables. split.
      { split; [done|]. exists recommendation_statement, sample_row, [GeneratedAt (sample "open" 1)], sample_values.
        split_and!; [exact read_recommendation|split; vm_compute; reflexivity| |vm_compute; reflexivity|done].
        intros r' keys' [Hs Hk]. apply final_elem in Hs as [->%list_elem_of_singleton _]. vm_compute in Hk. injection Hk as <-. vm_compute. auto. }
      exists "action-1"%string, sample_tables. split; [done|].
      eexists Sent, _. split; [|eexists Sent, _; split; [|split; reflexivity]].
      + exists recommendationColumns. split; [vm_compute; reflexivity|]. split; [by eexists|reflexivity].
      + exists actionColumns. split; [vm_compute; reflexivity|reflexivity].
    - reflexivity. }
  destruct (statements_implement_tables (λ _ _, true) id Some sample_marshal (λ _, tt) approve sample_tables (sample_db (sample "open" 1)) (Ok result) w'
    sample_refines He) as (v' & Hv & HR).
  by exists result, w', v'.
Defined.
End WorkflowSql.
