(* ===== verification/Calendar.v ===== *)
(** * Formatted times sort as times

    Code that keys or sorts by [Format(time.RFC3339)] relies on the strings of
    different hours being different, and on their order. The format pads its numbers,
    so the bytes compare as the numbers do; days are compared through one cycle of the
    calendar, 400 years, by computation. *)
From stdpp Require Import base option list list_numbers strings pretty.
From Stdlib Require Import ZArith Lia Ascii.
From S2P Require Import Prelude Proto Stores.

Module Calendar.
Import Paths.

(** ** Sequences whose neighbours increase *)

Lemma increasing {A} (R : A → A → Prop) `{!Transitive R} (f : Z → A) lo hi :
  (∀ z, lo ≤ z → z + 1 < hi → R (f z) (f (z + 1))) → ∀ a b, lo ≤ a → a < b → b < hi → R (f a) (f b).
Proof.
  intros Hf a b Ha Hab Hb. replace b with (a + 1 + Z.of_nat (Z.to_nat (b - a - 1))) in * by lia. clear Hab.
  induction (Z.to_nat (b - a - 1)) as [|n IH]; [rewrite Z.add_0_r in *; by apply Hf|].
  trans (f (a + 1 + Z.of_nat n)); [apply IH; lia|].
  replace (a + 1 + Z.of_nat (S n)) with (a + 1 + Z.of_nat n + 1) in * by lia. apply Hf; lia.
Qed.
(** A check of the [n] numbers from [z] *)
Fixpoint all_from (p : Z → bool) (n : nat) (z : Z) : bool :=
  match n with O => true | S n' => p z && all_from p n' (z + 1) end.
Lemma all_from_spec p n lo : all_from p n lo = true → ∀ z, lo ≤ z < lo + Z.of_nat n → p z = true.
Proof.
  revert lo. induction n as [|n IH]; intros lo; simpl; [lia|]. intros [Hp Hr]%andb_true_iff z Hz.
  destruct (decide (z = lo)) as [->|]; [done|]. apply (IH _ Hr). lia.
Qed.

(** ** Strings of equal length *)

Definition before (s t : string) : Prop := String.compare s t = Lt.
Lemma compare_app a b s t :
  String.length a = String.length b →
  String.compare (a +:+ s) (b +:+ t) = match String.compare a b with Eq => String.compare s t | c => c end.
Proof.
  revert b. induction a as [|x a IH]; intros [|y b]; simpl; try done. intros [= Hl]. rewrite (IH b Hl).
  unfold Ascii.compare. by destruct (N.compare _ _).
Qed.
Lemma compare_refl s : String.compare s s = Eq.
Proof. induction s as [|x s IH]; simpl; [done|]. unfold Ascii.compare. by rewrite N.compare_refl. Qed.
Lemma before_prefix a s t : before s t → before (a +:+ s) (a +:+ t).
Proof. unfold before. intros Hs. by rewrite compare_app, compare_refl. Qed.
Lemma before_head a b s t : String.length a = String.length b → before a b → before (a +:+ s) (b +:+ t).
Proof. unfold before. intros Hl Ha. by rewrite compare_app, Ha. Qed.
#[global] Instance before_transitive : Transitive before.
Proof.
  unfold before. intros s. induction s as [|x s IH]; intros [|y t] [|z u]; simpl; try done.
  unfold Ascii.compare. destruct (N.compare_spec (N_of_ascii x) (N_of_ascii y)) as [Hxy|Hxy|Hxy], (N.compare_spec (N_of_ascii y) (N_of_ascii z)) as [Hyz|Hyz|Hyz];
    try done; intros H1 H2; destruct (N.compare_spec (N_of_ascii x) (N_of_ascii z)); try (done || lia). by eapply IH.
Qed.

(** ** Padded numbers *)

Definition padded_ok (n : nat) (z : Z) : bool :=
  (String.length (zero_pad n z) =? n)%nat && match String.compare (zero_pad n z) (zero_pad n (z + 1)) with Lt => true | _ => false end.
Lemma padded_2 : all_from (padded_ok 2) 99 0 = true.
Proof. vm_compute. reflexivity. Qed.
Lemma padded_4 : all_from (padded_ok 4) (Z.to_nat 9999) 0 = true.
Proof. vm_compute. reflexivity. Qed.
Lemma padded_spec n hi : all_from (padded_ok n) (Z.to_nat hi) 0 = true → String.length (zero_pad n hi) = n → 0 ≤ hi →
  (∀ z, 0 ≤ z ≤ hi → String.length (zero_pad n z) = n) ∧
  (∀ a b, 0 ≤ a → a < b → b ≤ hi → before (zero_pad n a) (zero_pad n b)).
Proof.
  intros Hall Hhi H0. pose proof (all_from_spec _ _ _ Hall) as Hp. unfold padded_ok in Hp. split.
  - intros z Hz. destruct (decide (z = hi)) as [->|]; [done|]. specialize (Hp z ltac:(lia)).
    apply andb_true_iff in Hp as [Hp _]. by apply Nat.eqb_eq.
  - intros a b Ha Hab Hb. apply (increasing before (zero_pad n) 0 (hi + 1)); [|lia..]. intros z Hz Hz'. specialize (Hp z ltac:(lia)).
    apply andb_true_iff in Hp as [_ Hp]. unfold before. by destruct (String.compare _ _).
Qed.
Lemma pad2_length z : 0 ≤ z ≤ 99 → String.length (zero_pad 2 z) = 2%nat.
Proof. by apply (padded_spec 2 99 padded_2). Qed.
Lemma pad2_before a b : 0 ≤ a → a < b → b ≤ 99 → before (zero_pad 2 a) (zero_pad 2 b).
Proof. by apply (padded_spec 2 99 padded_2). Qed.
Lemma pad4_length z : 0 ≤ z ≤ 9999 → String.length (zero_pad 4 z) = 4%nat.
Proof. by apply (padded_spec 4 9999 padded_4). Qed.
Lemma pad4_before a b : 0 ≤ a → a < b → b ≤ 9999 → before (zero_pad 4 a) (zero_pad 4 b).
Proof. by apply (padded_spec 4 9999 padded_4). Qed.

(** ** Days *)

Definition lex3 (a b : Z * Z * Z) : Prop :=
  a.1.1 < b.1.1 ∨ a.1.1 = b.1.1 ∧ (a.1.2 < b.1.2 ∨ a.1.2 = b.1.2 ∧ a.2 < b.2).
#[global] Instance lex3_transitive : Transitive lex3.
Proof. intros a b c. unfold lex3. lia. Qed.
(** A cycle of 400 years starts on 1 March; [civil] finds the year of a day in it, and
    the month and day from the day of that year. *)
Definition year_of (doe : Z) : Z := (doe - doe / 1460 + doe / 36524 - doe / 146096) / 365.
Definition first_day (y : Z) : Z := 365 * y + y / 4 - y / 100.
Definition last_day (y : Z) : Z := if y =? 399 then 146096 else first_day (y + 1) - 1.
Definition month_day (doy : Z) : Z * Z * Z :=
  let mp := (5 * doy + 2) / 153 in
  let m := if mp <? 10 then mp + 3 else mp - 9 in
  (if m <=? 2 then 1 else 0, m, doy - (153 * mp + 2) / 5 + 1).
Lemma year_of_next a : 0 ≤ a → year_of a ≤ year_of (a + 1).
Proof. intros Ha. unfold year_of. apply Z.div_le_mono; [done|]. Z.to_euclidean_division_equations. lia. Qed.
Lemma year_of_mono a b : 0 ≤ a ≤ b → year_of a ≤ year_of b.
Proof.
  intros [Ha Hab]. replace b with (a + Z.of_nat (Z.to_nat (b - a))) by lia. clear Hab.
  induction (Z.to_nat (b - a)) as [|n IH]; [rewrite Z.add_0_r; lia|].
  replace (a + Z.of_nat (S n)) with (a + Z.of_nat n + 1) by lia. pose proof (year_of_next (a + Z.of_nat n)). lia.
Qed.
Definition year_ok (y : Z) : bool :=
  (year_of (first_day y) =? y) && (year_of (last_day y) =? y) && (0 <=? first_day y) && (364 <=? last_day y - first_day y) && (last_day y - first_day y <=? 365).
Lemma years_of_a_cycle : all_from year_ok 400 0 = true.
Proof. vm_compute. reflexivity. Qed.
Lemma year_bounds doe : 0 ≤ doe < 146097 → ∃ y, 0 ≤ y < 400 ∧ first_day y ≤ doe ≤ last_day y.
Proof.
  intros Hdoe. assert (∀ n, (n ≤ 399)%nat → doe < first_day (Z.of_nat n) → ∃ y, 0 ≤ y < 400 ∧ first_day y ≤ doe ≤ last_day y) as Hn.
  { induction n as [|n IH]; intros Hn Hd; [change (first_day (Z.of_nat 0)) with 0 in Hd; lia|].
    destruct (decide (doe < first_day (Z.of_nat n))); [apply IH; lia|]. exists (Z.of_nat n). split; [lia|]. unfold last_day.
    destruct (Z.eqb_spec (Z.of_nat n) 399); [lia|]. rewrite Nat2Z.inj_succ, <- Z.add_1_r in Hd. lia. }
  destruct (decide (doe < first_day (Z.of_nat 399))) as [Hd|Hd]; [by apply (Hn 399%nat)|].
  exists 399. change (Z.of_nat 399) with 399 in Hd. change (last_day 399) with 146096. lia.
Qed.
Lemma civil_parts era y doe :
  0 ≤ y < 400 → first_day y ≤ doe ≤ last_day y → 0 ≤ doe < 146097 →
  civil (era * 146097 + doe - 306) =
  let '(o, m, e) := month_day (doe - first_day y) in (y + era * 400 + o, m, e).
Proof.
  intros Hy Hd Hdoe. unfold civil. replace (era * 146097 + doe - 306 + 306) with (doe + era * 146097) by lia.
  rewrite Z.div_add, Z.mod_add, (Z.div_small doe 146097), (Z.mod_small doe), Z.add_0_l by done.
  assert ((doe - doe / 1460 + doe / 36524 - doe / 146096) / 365 = y) as ->; [|done].
  pose proof (all_from_spec _ _ _ years_of_a_cycle y ltac:(lia)) as Hok. unfold year_ok in Hok. change (year_of doe = y).
  pose proof (year_of_mono (first_day y) doe). pose proof (year_of_mono doe (last_day y)). lia.
Qed.
Lemma day_parts d : ∃ era y doe,
  d = era * 146097 + doe - 306 ∧ 0 ≤ y < 400 ∧ first_day y ≤ doe ≤ last_day y ∧ 0 ≤ doe < 146097.
Proof.
  pose proof (Z.mod_pos_bound (d + 306) 146097 eq_refl) as Hm. destruct (year_bounds _ Hm) as (y & Hy & Hd).
  exists ((d + 306) / 146097), y, ((d + 306) mod 146097). pose proof (Z.div_mod (d + 306) 146097). split; [lia|done].
Qed.
Definition day_ok (doy : Z) : bool :=
  let '(o, m, e) := month_day doy in let '(o', m', e') := month_day (doy + 1) in
  (1 <=? m) && (m <=? 12) && (1 <=? e) && (e <=? 31) && ((o <? o') || (o =? o') && ((m <? m') || (m =? m') && (e <? e'))).
Lemma days_of_a_year : all_from day_ok 366 0 = true.
Proof. vm_compute. reflexivity. Qed.
Lemma year_length y : 0 ≤ y < 400 → 364 ≤ last_day y - first_day y ≤ 365.
Proof. intros Hy. pose proof (all_from_spec _ _ _ years_of_a_cycle y ltac:(lia)) as Hok. unfold year_ok in Hok. lia. Qed.
Lemma civil_range d : 1 ≤ (civil d).1.2 ≤ 12 ∧ 1 ≤ (civil d).2 ≤ 31.
Proof.
  destruct (day_parts d) as (era & y & doe & -> & Hy & Hd & Hdoe). rewrite (civil_parts era y) by done. pose proof (year_length y Hy).
  pose proof (all_from_spec _ _ _ days_of_a_year (doe - first_day y) ltac:(lia)) as Hok. unfold day_ok in Hok.
  destruct (month_day (doe - first_day y)) as [[o m] e], (month_day (doe - first_day y + 1)) as [[o' m'] e']. simpl. lia.
Qed.
Lemma civil_next d : lex3 (civil d) (civil (d + 1)).
Proof.
  destruct (day_parts d) as (era & y & doe & -> & Hy & Hd & Hdoe). rewrite (civil_parts era y) by done. pose proof (year_length y Hy).
  destruct (decide (doe = last_day y)) as [->|Hne].
  - (* the last day of February, and 1 March *)
    assert (∃ e, month_day (last_day y - first_day y) = (1, 2, e)) as [e ->].
    { assert (last_day y - first_day y = 364 ∨ last_day y - first_day y = 365) as [-> | ->] by lia; eexists; reflexivity. }
    destruct (decide (y = 399)) as [->|Hy'].
    + replace (era * 146097 + last_day 399 - 306 + 1) with ((era + 1) * 146097 + 0 - 306) by (change (last_day 399) with 146096; lia).
      rewrite (civil_parts (era + 1) 0) by (vm_compute; intuition discriminate). change (month_day (0 - first_day 0)) with (0, 3, 1). unfold lex3. simpl. lia.
    + assert (last_day y = first_day (y + 1) - 1) as Hl by (unfold last_day; destruct (Z.eqb_spec y 399); [done|lia]).
      pose proof (year_length (y + 1) ltac:(lia)).
      assert (last_day (y + 1) ≤ 146096) by (unfold last_day, first_day; destruct (Z.eqb_spec (y + 1) 399); [lia|]; Z.to_euclidean_division_equations; lia).
      replace (era * 146097 + last_day y - 306 + 1) with (era * 146097 + first_day (y + 1) - 306) by lia.
      rewrite (civil_parts era (y + 1)) by lia. rewrite Z.sub_diag. change (month_day 0) with (0, 3, 1). unfold lex3. simpl. lia.
  - assert (last_day y ≤ 146096) by (unfold last_day, first_day; destruct (Z.eqb_spec y 399); [lia|]; Z.to_euclidean_division_equations; lia).
    replace (era * 146097 + doe - 306 + 1) with (era * 146097 + (doe + 1) - 306) by lia. rewrite (civil_parts era y) by lia.
    replace (doe + 1 - first_day y) with (doe - first_day y + 1) by lia.
    pose proof (all_from_spec _ _ _ days_of_a_year (doe - first_day y) ltac:(lia)) as Hok. unfold day_ok in Hok.
    destruct (month_day (doe - first_day y)) as [[o m] e], (month_day (doe - first_day y + 1)) as [[o' m'] e']. unfold lex3. simpl. lia.
Qed.
Lemma civil_before a b : a < b → lex3 (civil a) (civil b).
Proof. intros Hab. apply (increasing lex3 civil a (b + 1)); [|lia..]. intros z _ _. apply civil_next. Qed.

(** ** Times of the years 1 to 9999 *)

Definition max_time : Time := 3652059 * (24 * Hour).
Definition formattable (t : Time) : Prop := 0 ≤ t < max_time.
Lemma date_year t : formattable t → 1 ≤ (date t).1.1 ≤ 9999.
Proof.
  intros [H0 H1]. unfold date. assert (0 ≤ t / (24 * Hour) ≤ 3652058) as [Hl Hu].
  { split; [apply Z.div_pos; [done|reflexivity]|]. unfold max_time in H1. apply Z.lt_succ_r.
    apply Z.div_lt_upper_bound; [reflexivity|]. lia. }
  split.
  - apply Z.le_lteq in Hl as [Hl| <-]; [|vm_compute; discriminate]. apply civil_before in Hl. unfold lex3 in Hl. change (civil 0).1.1 with 1 in Hl. lia.
  - apply Z.le_lteq in Hu as [Hu| ->]; [|vm_compute; discriminate]. apply civil_before in Hu. unfold lex3 in Hu.
    change (civil 3652058).1.1 with 9999 in Hu. lia.
Qed.
Definition clock_of (secs : Z) : Z * Z * Z := ((secs / 3600) mod 24, (secs / 60) mod 60, secs mod 60).
Lemma clock_parts secs :
  secs = 86400 * (secs / 86400) + 3600 * (clock_of secs).1.1 + 60 * (clock_of secs).1.2 + (clock_of secs).2.
Proof.
  unfold clock_of. cbn [fst snd]. pose proof (Z.div_mod secs 60). pose proof (Z.div_mod (secs / 60) 60). pose proof (Z.div_mod (secs / 3600) 24).
  assert (secs / 60 / 60 = secs / 3600) by (by rewrite Z.div_div). assert (secs / 3600 / 24 = secs / 86400) by (by rewrite Z.div_div). lia.
Qed.
Definition two_digits (z : Z) : Prop := 0 ≤ z ≤ 99.
Lemma clock_range secs : 0 ≤ (clock_of secs).1.1 < 24 ∧ 0 ≤ (clock_of secs).1.2 < 60 ∧ 0 ≤ (clock_of secs).2 < 60.
Proof. unfold clock_of. cbn [fst snd]. split_and!; by apply Z.mod_pos_bound. Qed.
Lemma clock_before a b : a / 86400 = b / 86400 → a < b → lex3 (clock_of a) (clock_of b).
Proof.
  intros Hd Hab. pose proof (clock_parts a). pose proof (clock_parts b). pose proof (clock_range a). pose proof (clock_range b). unfold lex3. lia.
Qed.
(** Three padded numbers with separators *)
Definition three (n : nat) (a : Z * Z * Z) (sep : string) : string := zero_pad n a.1.1 +:+ sep +:+ zero_pad 2 a.1.2 +:+ sep +:+ zero_pad 2 a.2.
Lemma three_before n hi a b sep s t :
  (∀ z, 0 ≤ z ≤ hi → String.length (zero_pad n z) = n) → (∀ y z, 0 ≤ y → y < z → z ≤ hi → before (zero_pad n y) (zero_pad n z)) →
  0 ≤ a.1.1 ≤ hi → 0 ≤ b.1.1 ≤ hi → two_digits a.1.2 → two_digits b.1.2 → two_digits a.2 → two_digits b.2 → lex3 a b →
  before (three n a sep +:+ s) (three n b sep +:+ t).
Proof.
  intros Hlen Hbefore Ha Hb Ha2 Hb2 Ha3 Hb3 Hab. unfold three, two_digits in *. rewrite <- !StringFacts.string_app_assoc.
  destruct Hab as [H1|[-> [H2|[-> H3]]]].
  - apply before_head; [by rewrite !Hlen|]. apply Hbefore; lia.
  - do 2 apply before_prefix. apply before_head; [by rewrite !pad2_length|]. apply pad2_before; lia.
  - do 4 apply before_prefix. apply before_head; [by rewrite !pad2_length|]. apply pad2_before; lia.
Qed.
Lemma rfc3339_parts t :
  rfc3339 t = three 4 (date t) "-" +:+ "T" +:+ three 2 (clock_of (t / Second)) ":" +:+ "Z".
Proof.
  unfold rfc3339, three, format_year, format_month, format_day, clock_of. cbn [fst snd]. by rewrite <- !StringFacts.string_app_assoc.
Qed.
(** Of two formattable times in different seconds the earlier has the smaller string. *)
Lemma rfc3339_before a b : formattable a → formattable b → a / Second < b / Second → before (rfc3339 a) (rfc3339 b).
Proof.
  intros Ha Hb Hab. rewrite !rfc3339_parts.
  assert (∀ t, t / (24 * Hour) = t / Second / 86400) as Hday by (intros t; by rewrite Z.div_div).
  destruct (decide (a / (24 * Hour) = b / (24 * Hour))) as [Heq|Hne].
  - unfold date. rewrite Heq. apply before_prefix. rewrite !Hday in Heq. apply before_prefix.
    apply (three_before 2 99); [exact pad2_length|exact pad2_before| | | | | | |by apply clock_before];
      pose proof (clock_range (a / Second)); pose proof (clock_range (b / Second)); unfold two_digits; lia.
  - apply (three_before 4 9999); [exact pad4_length|exact pad4_before| | | | | | |].
    1,2: pose proof (date_year a Ha); pose proof (date_year b Hb); lia.
    1-4: unfold two_digits, date; pose proof (civil_range (a / (24 * Hour))); pose proof (civil_range (b / (24 * Hour))); lia.
    apply civil_before. rewrite !Hday in *. assert (a / Second / 86400 ≤ b / Second / 86400) by (apply Z.div_le_mono; lia). lia.
Qed.
Lemma rfc3339_inj a b : formattable a → formattable b → rfc3339 a = rfc3339 b → a / Second = b / Second.
Proof.
  intros Ha Hb Heq. destruct (Z.lt_trichotomy (a / Second) (b / Second)) as [H|[H|H]]; [|done|];
    apply rfc3339_before in H; try done; unfold before in H; rewrite Heq, compare_refl in H; done.
Qed.

(** ** Joined keys *)

Definition no_nul (s : string) : Prop := Forall (λ c, c ≠ byte_of 0) (String.list_ascii_of_string s).
Lemma cut_nul a b s t : no_nul a → no_nul b → a +:+ String (byte_of 0) s = b +:+ String (byte_of 0) t → a = b ∧ s = t.
Proof.
  unfold no_nul. revert b. induction a as [|x a IH]; intros [|y b] Ha Hb Heq; simpl in *; [by injection Heq| | |].
  - injection Heq as <- _. apply Forall_cons in Hb as [Hb _]. done.
  - injection Heq as -> _. apply Forall_cons in Ha as [Ha _]. done.
  - injection Heq as <- Heq. apply Forall_cons in Ha as [_ Ha]. apply Forall_cons in Hb as [_ Hb]. by destruct (IH _ Ha Hb Heq) as [-> ->].
Qed.
(** Keys joined with NUL bytes determine their parts. *)
Lemma joined_inj ws ws' : length ws = length ws' → Forall no_nul ws → Forall no_nul ws' → Strings.Join ws nul = Strings.Join ws' nul → ws = ws'.
Proof.
  revert ws'. induction ws as [|w ws IH]; intros [|w' ws'] Hl Hw Hw' Heq; try done. apply Forall_cons in Hw as [Hw Hws], Hw' as [Hw' Hws'].
  destruct ws as [|v ws], ws' as [|v' ws']; try done; [by simpl in Heq; subst|].
  change (w +:+ String (byte_of 0) (Strings.Join (v :: ws) nul) = w' +:+ String (byte_of 0) (Strings.Join (v' :: ws') nul)) in Heq.
  apply cut_nul in Heq as [-> Heq]; [|done..]. f_equal. apply IH; [simpl in *; lia|done..].
Qed.
Definition not_nul (c : ascii) : bool := negb (Ascii.eqb c (byte_of 0)).
Lemma no_nul_text s : forallb not_nul (String.list_ascii_of_string s) = true → no_nul s.
Proof.
  rewrite forallb_forall. intros Hs. apply Forall_forall. intros c Hc%list_elem_of_In%Hs ->. unfold not_nul in Hc. by rewrite Ascii.eqb_refl in Hc.
Qed.
Lemma no_nul_app s t : no_nul s → no_nul t → no_nul (s +:+ t).
Proof. unfold no_nul. rewrite Stores.Auth.list_ascii_app, Forall_app. auto. Qed.
Lemma zero_pad_no_nul n z : no_nul (zero_pad n z).
Proof.
  apply no_nul_app.
  - unfold no_nul. rewrite String.list_ascii_of_string_of_list_ascii. apply Forall_replicate. done.
  - apply no_nul_text, StringFacts.dec_bytes; [done|]. intros k. unfold pretty_N_char. by repeat case_match.
Qed.
Lemma rfc3339_no_nul t : no_nul (rfc3339 t).
Proof.
  rewrite rfc3339_parts. unfold three.
  repeat first [apply zero_pad_no_nul | apply no_nul_app | apply no_nul_text; reflexivity].
Qed.
End Calendar.
