(* ===== verification/Relational.v ===== *)
(** * Grouping and joining lists of rows

    [GROUP BY] and equality joins as operations on lists, for the statements that
    aggregate. The order of groups is open; results are compared as permutations or
    after sorting. *)
From stdpp Require Import base option list sorting gmap.
From Stdlib Require Import ZArith Lia.
From S2P Require Import Prelude.

Module Relational.

(** The groups of the rows with equal keys *)
Definition group_by {A K} `{EqDecision K} (key : A → K) (l : list A) : list (K * list A) :=
  (λ k, (k, filter (λ x, key x = k) l)) <$> remove_dups (key <$> l).

Section facts.
Context {A K : Type} `{EqDecision K}.
Implicit Types (key : A → K) (l : list A).

Lemma elem_of_keys key l k : k ∈ remove_dups (key <$> l) ↔ ∃ x, x ∈ l ∧ key x = k.
Proof. rewrite elem_of_remove_dups, list_elem_of_fmap. naive_solver. Qed.
Lemma group_nonempty key l k : k ∈ remove_dups (key <$> l) → filter (λ x, key x = k) l ≠ [].
Proof.
  intros (x & Hx & Hk)%elem_of_keys He. assert (x ∈ filter (λ x, key x = k) l) as Hin by (by apply list_elem_of_filter).
  rewrite He in Hin. by apply elem_of_nil in Hin.
Qed.
Lemma group_by_ext key key' l : (∀ x, x ∈ l → key x = key' x) → group_by key l = group_by key' l.
Proof.
  intros Hk. unfold group_by. assert (key <$> l = key' <$> l) as -> by (apply list_fmap_ext; intros i x Hx; apply Hk; by eapply list_elem_of_lookup_2).
  apply list_fmap_ext. intros _ k _. f_equal. apply ListFacts.filter_ext_in. intros x Hx. by rewrite Hk.
Qed.
Lemma list_fmap_ext' {B C} (f g : B → C) (ks : list B) : (∀ k, k ∈ ks → f k = g k) → f <$> ks = g <$> ks.
Proof. intros Hf. apply list_fmap_ext. intros i k Hk. by apply Hf, list_elem_of_lookup_2 with i. Qed.
(** A filter by a key that occurs once selects one row. *)
Lemma filter_unique {B} (f : B → A) (P : A → Prop) `{!∀ x, Decision (P x)} (ks : list B) k :
  NoDup ks → k ∈ ks → (∀ k', k' ∈ ks → P (f k') ↔ k' = k) → filter P (f <$> ks) = [f k].
Proof.
  induction 1 as [|k' ks Hk' Hnd IH]; intros Hk HP; [by apply elem_of_nil in Hk|].
  rewrite fmap_cons, filter_cons. destruct (decide (P (f k'))) as [Hp|Hp].
  - apply HP in Hp as ->; [|left]. f_equal. apply ListFacts.filter_none. intros x (y & -> & Hy)%list_elem_of_fmap Hx.
    apply HP in Hx as ->; [done|by right].
  - apply elem_of_cons in Hk as [->|Hk]; [exfalso; apply Hp; by apply HP; [left|]|]. apply IH; [done|].
    intros y Hy. apply HP. by right.
Qed.
Lemma filter_id key l k : NoDup (key <$> l) → k ∈ key <$> l → ∃ x, filter (λ y, key y = k) l = [x] ∧ x ∈ l ∧ key x = k.
Proof.
  induction l as [|x l IH]; intros Hnd Hk; [by apply elem_of_nil in Hk|].
  rewrite fmap_cons in Hnd, Hk. apply NoDup_cons in Hnd as [Hx Hnd]. rewrite filter_cons.
  destruct (decide (key x = k)) as [<-|Hne].
  - exists x. split; [|split; [left|done]]. f_equal. apply ListFacts.filter_none. intros y Hy Heq. apply Hx. rewrite <- Heq. by apply list_elem_of_fmap_2.
  - apply elem_of_cons in Hk as [->|Hk]; [done|]. destruct (IH Hnd Hk) as (y & -> & Hy & ?). exists y. split; [done|split; [by right|done]].
Qed.
Lemma filter_id_le key l k : NoDup (key <$> l) → filter (λ y, key y = k) l = [] ∨ ∃ x, filter (λ y, key y = k) l = [x].
Proof.
  intros Hnd. destruct (filter (λ y, key y = k) l) as [|x xs] eqn:Hf; [by left|right]. assert (x ∈ filter (λ y, key y = k) l) as Hx by (rewrite Hf; left).
  apply list_elem_of_filter in Hx as [<- Hx]. destruct (filter_id key l (key x) Hnd) as (y & Hy & _); [by apply list_elem_of_fmap_2|].
  exists y. by rewrite <- Hf.
Qed.
(** Keys mapped injectively are deduplicated alike. *)
Lemma remove_dups_fmap {L} `{EqDecision L} (f : K → L) (ks : list K) :
  (∀ x y, x ∈ ks → y ∈ ks → f x = f y → x = y) → remove_dups (f <$> ks) = f <$> remove_dups ks.
Proof.
  induction ks as [|k ks IH]; intros Hinj; [done|]. rewrite fmap_cons. simpl.
  rewrite IH by (intros x y ??; apply Hinj; by right).
  destruct (decide_rel (∈) k ks) as [Hk|Hk], (decide_rel (∈) (f k) (f <$> ks)) as [Hf|Hf]; try done.
  - exfalso. apply Hf. by apply list_elem_of_fmap_2.
  - exfalso. apply list_elem_of_fmap in Hf as (k' & Heq & Hk'). apply Hinj in Heq; [|left|by right]. by subst.
Qed.
Lemma filter_fmap {B} (f : B → A) (P : A → Prop) `{!∀ x, Decision (P x)} (l : list B) :
  filter P (f <$> l) = f <$> filter (λ x, P (f x)) l.
Proof. induction l as [|x l IH]; [done|]. rewrite fmap_cons, !filter_cons. destruct (decide (P (f x))); by rewrite IH. Qed.
(** A join whose every row has one partner *)
Lemma bind_singletons {B} (f : A → list B) (g : A → B) l : (∀ x, x ∈ l → f x = [g x]) → l ≫= f = g <$> l.
Proof.
  induction l as [|x l IH]; intros Hf; [done|]. cbn. rewrite Hf by left. simpl. f_equal. apply IH. intros y Hy. apply Hf. by right.
Qed.
Lemma group_by_fmap {B} key (g : B → A) (l : list B) :
  group_by key (g <$> l : list A) = (λ kx : K * list B, (kx.1, g <$> kx.2 : list A)) <$> group_by (λ x, key (g x)) l.
Proof.
  unfold group_by. rewrite <- !list_fmap_compose. apply list_fmap_ext'. intros k _. simpl. by rewrite filter_fmap.
Qed.
(** The groups partition the rows. *)
Lemma filter_disjoint (P Q : A → Prop) `{!∀ x, Decision (P x), !∀ x, Decision (Q x)} l :
  (∀ x, P x → ¬ Q x) → filter (λ x, P x ∨ Q x) l ≡ₚ filter P l ++ filter Q l.
Proof.
  intros Hd. induction l as [|x l IH]; [done|]. rewrite !filter_cons. destruct (decide (P x)) as [Hp|Hp].
  - rewrite (decide_True _ _ (or_introl Hp)), (decide_False (P := Q x)) by (by apply Hd). simpl. by rewrite IH.
  - destruct (decide (Q x)) as [Hq|Hq].
    + rewrite (decide_True _ _ (or_intror Hq)), IH. by apply Permutation_middle.
    + rewrite decide_False by tauto. done.
Qed.
Lemma groups_filter key l ks : NoDup ks → (ks ≫= λ k, filter (λ x, key x = k) l) ≡ₚ filter (λ x, key x ∈ ks) l.
Proof.
  induction 1 as [|k ks Hk Hnd IH]; cbn.
  - rewrite ListFacts.filter_none; [done|]. intros x _ Hx. by apply elem_of_nil in Hx.
  - rewrite IH. rewrite <- filter_disjoint by (intros x -> ?; done).
    apply reflexive_eq, list_filter_iff. intros x. by rewrite elem_of_cons.
Qed.
Lemma groups_partition key l : (remove_dups (key <$> l) ≫= λ k, filter (λ x, key x = k) l) ≡ₚ l.
Proof.
  rewrite groups_filter by apply NoDup_remove_dups. rewrite ListFacts.filter_all; [done|].
  intros x Hx. apply elem_of_keys. eauto.
Qed.
End facts.

(** Reading a map along all its keys, in any order, and along a list that has them *)
Lemma omap_keys {K A} `{Countable K} (m : gmap K A) (order ks : list K) :
  order ≡ₚ elements (dom m) → NoDup ks → (∀ k, is_Some (m !! k) → k ∈ ks) → omap (λ k, m !! k) order ≡ₚ omap (λ k, m !! k) ks.
Proof.
  intros -> Hnd Hks. trans (omap (λ k, m !! k) (filter (λ k, k ∈ dom m) ks)).
  - apply omap_Permutation, NoDup_Permutation; [apply NoDup_elements|by apply NoDup_filter|].
    intros k. rewrite elem_of_elements, list_elem_of_filter, elem_of_dom. naive_solver.
  - clear. induction ks as [|k ks IH]; [done|]. rewrite filter_cons. simpl. destruct (decide (k ∈ dom m)) as [Hk|Hk]; simpl.
    + destruct (m !! k); by rewrite IH.
    + apply not_elem_of_dom in Hk as ->. done.
Qed.

(** ** Sorted lists of the same elements *)

Section sorted.
Context {A : Type} (R : A → A → Prop).
(** Two sorted permutations are equal if the order separates their elements. *)
Lemma sorted_perm_eq l l' :
  StronglySorted R l → StronglySorted R l' → l ≡ₚ l' → (∀ x y, x ∈ l → y ∈ l → R x y → R y x → x = y) → l = l'.
Proof.
  intros Hl. revert l'. induction Hl as [|x l Hl IH Hx]; intros l' Hl' Hp Ha; [by apply Permutation_nil_l in Hp|].
  destruct Hl' as [|y l' Hl' Hy]; [by apply Permutation_nil_r in Hp|].
  rewrite Forall_forall in Hx, Hy.
  assert (x = y) as ->.
  { assert (y ∈ x :: l) as Hyl by (rewrite Hp; left). assert (x ∈ y :: l') as Hxl by (rewrite <- Hp; left).
    apply elem_of_cons in Hyl as [->|Hyl]; [done|]. apply elem_of_cons in Hxl as [->|Hxl]; [done|].
    apply Ha; [left|by right|by apply Hx|by apply Hy]. }
  f_equal. apply IH; [done|by eapply Permutation.Permutation_cons_inv|]. intros u v Hu Hv. apply Ha; by right.
Qed.
Lemma StronglySorted_filter_rel (P : A → Prop) `{!∀ x, Decision (P x)} l : StronglySorted R l → StronglySorted R (filter P l).
Proof.
  induction 1 as [|x l Hl IH Hx]; [constructor|]. rewrite filter_cons. case_decide; [|done].
  constructor; [done|]. rewrite Forall_forall in *. intros y [_ Hy]%list_elem_of_filter. auto.
Qed.
End sorted.
Lemma StronglySorted_map {A B} (R : A → A → Prop) (S : B → B → Prop) (f : A → B) l :
  (∀ x y, x ∈ l → y ∈ l → R x y → S (f x) (f y)) → StronglySorted R l → StronglySorted S (f <$> l).
Proof.
  intros Hf Hl. induction Hl as [|x l Hl IH Hx]; [constructor|]. rewrite fmap_cons. constructor.
  - apply IH. intros u v Hu Hv. apply Hf; by right.
  - rewrite Forall_fmap. rewrite Forall_forall in *. intros y Hy. apply Hf; [left|by right|auto].
Qed.
End Relational.
