(* ===== verification/AllocationSql.v ===== *)
(** * The allocation statement

    [services/allocation/repository.go] and [server.go]: the allocation of cost as
    ClickHouse computes it. The statement's common table expressions are read as
    definitions on lists of rows, one per expression, with [GROUP BY] as grouping,
    joins as comprehensions and [UInt64] sums that wrap; they are shown to compute what
    [allocateCosts] of the engine ([Allocation.v]) computes.

    ClickHouse substitutes the aliases of a select list in the WHERE clause of the same
    query; here [bucket_start] and [cpu_request_core_milliseconds] of that clause are
    the columns of the table. The views of current nodes and namespaces are tables. *)
From stdpp Require Import base option list gmap strings sorting.
From Stdlib Require Import ZArith Lia QArith Qcanon.
From S2P Require Import Prelude Proto Stores Http Sql Relational Allocation Calendar.

Module AllocationSql.
Import Sql Relational Allocation.
Open Scope Z_scope.

(** ** The statement *)

Definition metricWhere (q : Query) : string * list (value unit) :=
  let clauses := ["tenant_id = ?"; "bucket_start >= ?"; "bucket_start < ?"; "cpu_request_core_milliseconds > 0"]%string in
  let args := [VString (Q_TenantID q); VTime (Q_Start q); VTime (Q_End q)] in
  if negb (Q_ClusterID q =? "")%string
  then (Strings.Join (clauses ++ ["cluster_id = ?"%string]) " AND ", args ++ [VString (Q_ClusterID q)])
  else (Strings.Join clauses " AND ", args).
Definition namespace_cost_text : string := "
WITH usage AS
(
    SELECT
        tenant_id,
        cluster_id,
        node_uid,
        namespace_uid,
        toStartOfHour(bucket_start) AS bucket_start,
        sum(cpu_request_core_milliseconds) AS cpu_request_core_milliseconds,
        sum(network_rx_bytes + network_tx_bytes) AS network_bytes
    FROM kube_cost.container_metrics_10s
    WHERE %s
    GROUP BY tenant_id, cluster_id, node_uid, namespace_uid, bucket_start
),
node_requests AS
(
    SELECT
        tenant_id,
        cluster_id,
        node_uid,
        toStartOfHour(bucket_start) AS bucket_start,
        sum(cpu_request_core_milliseconds) AS node_cpu_request_core_milliseconds
    FROM usage
    GROUP BY tenant_id, cluster_id, node_uid, bucket_start
    HAVING node_cpu_request_core_milliseconds > 0
),
cluster_requests AS
(
    SELECT
        tenant_id,
        cluster_id,
        bucket_start,
        sum(cpu_request_core_milliseconds) AS cluster_cpu_request_core_milliseconds
    FROM usage
    GROUP BY tenant_id, cluster_id, bucket_start
    HAVING cluster_cpu_request_core_milliseconds > 0
),
allocated AS
(
    SELECT
        usage.tenant_id,
        usage.cluster_id,
        usage.namespace_uid,
        if(empty(any(ns.namespace_name)), usage.namespace_uid, any(ns.namespace_name)) AS namespace_name,
        usage.bucket_start,
        sum(usage.cpu_request_core_milliseconds) AS cpu_request_core_milliseconds,
        sum(usage.network_bytes) AS network_bytes,
        sum(toFloat64(usage.cpu_request_core_milliseconds) / greatest(toFloat64(node.allocatable_cpu_millicores) * 3600, toFloat64(node_requests.node_cpu_request_core_milliseconds))) AS allocation_weight,
        sum(? * (toFloat64(usage.cpu_request_core_milliseconds) / greatest(toFloat64(node.allocatable_cpu_millicores) * 3600, toFloat64(node_requests.node_cpu_request_core_milliseconds)))) AS direct_cost,
        toFloat64(0) AS idle_cost,
        sum((toFloat64(usage.network_bytes) / 1073741824) * ?) AS network_cost,
        sum(? * (toFloat64(usage.cpu_request_core_milliseconds) / toFloat64(cluster_requests.cluster_cpu_request_core_milliseconds))) AS control_plane_cost
    FROM usage
    INNER JOIN node_requests
        ON usage.tenant_id = node_requests.tenant_id
       AND usage.cluster_id = node_requests.cluster_id
       AND usage.node_uid = node_requests.node_uid
       AND usage.bucket_start = node_requests.bucket_start
    INNER JOIN cluster_requests
        ON usage.tenant_id = cluster_requests.tenant_id
       AND usage.cluster_id = cluster_requests.cluster_id
       AND usage.bucket_start = cluster_requests.bucket_start
    INNER JOIN kube_cost.current_node AS node
        ON usage.tenant_id = node.tenant_id
       AND usage.cluster_id = node.cluster_id
       AND usage.node_uid = node.node_uid
    LEFT JOIN kube_cost.current_namespace AS ns
        ON usage.tenant_id = ns.tenant_id
       AND usage.cluster_id = ns.cluster_id
       AND usage.namespace_uid = ns.namespace_uid
    GROUP BY usage.tenant_id, usage.cluster_id, usage.namespace_uid, usage.bucket_start
),
idle AS
(
    SELECT
        node_requests.tenant_id,
        node_requests.cluster_id,
        '__idle__' AS namespace_uid,
        '__idle__' AS namespace_name,
        node_requests.bucket_start,
        toUInt64(0) AS cpu_request_core_milliseconds,
        toUInt64(0) AS network_bytes,
        toFloat64(0) AS allocation_weight,
        toFloat64(0) AS direct_cost,
        sum(? * greatest(
            greatest(toFloat64(node.allocatable_cpu_millicores) * 3600, toFloat64(node_requests.node_cpu_request_core_milliseconds)) - toFloat64(node_requests.node_cpu_request_core_milliseconds),
            0
        ) / greatest(toFloat64(node.allocatable_cpu_millicores) * 3600, toFloat64(node_requests.node_cpu_request_core_milliseconds))) AS idle_cost,
        toFloat64(0) AS network_cost,
        toFloat64(0) AS control_plane_cost
    FROM node_requests
    INNER JOIN kube_cost.current_node AS node
        ON node_requests.tenant_id = node.tenant_id
       AND node_requests.cluster_id = node.cluster_id
       AND node_requests.node_uid = node.node_uid
    GROUP BY node_requests.tenant_id, node_requests.cluster_id, node_requests.bucket_start
)
SELECT
    tenant_id,
    cluster_id,
    namespace_uid,
    namespace_name,
    bucket_start,
    cpu_request_core_milliseconds,
    network_bytes,
    allocation_weight,
    direct_cost,
    idle_cost,
    network_cost,
    control_plane_cost,
    if(namespace_name IN ('kube-system', 'kube-public', 'kube-node-lease'), direct_cost + network_cost + control_plane_cost, 0) AS system_namespace_cost,
    direct_cost + idle_cost + network_cost + control_plane_cost AS allocated_cost
FROM
(
    SELECT * FROM allocated
    UNION ALL
    SELECT * FROM idle
)
ORDER BY bucket_start, cluster_id, namespace_uid".

Section statement.
Context {F : Type} `{Arith F}.

(** An argument: a value of the condition or a price *)
Inductive arg := Bound (v : value unit) | Price (f : F).
Definition namespaceCostSQL (q : Query) (options : AllocationOptions F) : string * list arg :=
  let o := normalizeAllocationOptions options in
  let '(where_, args) := metricWhere q in
  (Sprintf namespace_cost_text [where_],
   (Bound <$> args) ++ [Price (NodeHourlyCostUSD o); Price (NetworkCostPerGiBUSD o); Price (ControlPlaneHourlyCostUSD o); Price (NodeHourlyCostUSD o)]).

(** ** Tables *)

(** The columns the statement reads of [container_metrics_10s], [current_node] and
    [current_namespace] *)
Record metric := {
  m_tenant_id : string;
  m_cluster_id : string;
  m_node_uid : string;
  m_namespace_uid : string;
  m_bucket_start : Time;
  m_cpu_request_core_milliseconds : Z;
  m_network_rx_bytes : Z;
  m_network_tx_bytes : Z
}.
Record node := { n_tenant_id : string; n_cluster_id : string; n_node_uid : string; n_allocatable_cpu_millicores : Z }.
Record namespace := { ns_tenant_id : string; ns_cluster_id : string; ns_namespace_uid : string; ns_namespace_name : string }.
Record database := { container_metrics_10s : list metric; current_node : list node; current_namespace : list namespace }.

(** ** Operators *)

(** [sum] of [UInt64] and of [Float64] columns *)
Definition sum_uint {A} (f : A → Z) (l : list A) : Z := foldr (λ x acc, u64 (f x + acc)) 0 l.
Definition sum_float {A} (f : A → F) (l : list A) : F := foldr (λ x acc, add (f x) acc) zero l.
Definition greatest (a b : F) : F := if leb a b then b else a.
Definition sub (a b : F) : F := add a (mul (of_Z (-1)) b).
Definition toStartOfHour (t : Time) : Time := Truncate t Hour.
(** [any] of a column of joined rows, and the name of a namespace *)
Definition any_name (names : list string) : string := default EmptyString (head names).

(** ** The common table expressions *)

Definition metric_value (m : metric) (column : string) : value unit :=
  if (column =? "tenant_id")%string then VString (m_tenant_id m)
  else if (column =? "cluster_id")%string then VString (m_cluster_id m)
  else if (column =? "bucket_start")%string then VTime (m_bucket_start m)
  else if (column =? "cpu_request_core_milliseconds")%string then VUint (m_cpu_request_core_milliseconds m)
  else VString EmptyString.
Record usage_row := {
  u_tenant_id : string;
  u_cluster_id : string;
  u_node_uid : string;
  u_namespace_uid : string;
  u_bucket_start : Time;
  u_cpu : Z;
  u_network_bytes : Z
}.
Definition usage (db : database) (where_ : string) (args : list (value unit)) : list usage_row :=
  (λ '((t, c, n, ns, b), ms), {|
     u_tenant_id := t; u_cluster_id := c; u_node_uid := n; u_namespace_uid := ns; u_bucket_start := b;
     u_cpu := sum_uint m_cpu_request_core_milliseconds ms;
     u_network_bytes := sum_uint (λ m, u64 (m_network_rx_bytes m + m_network_tx_bytes m)) ms |}) <$>
  group_by (λ m, (m_tenant_id m, m_cluster_id m, m_node_uid m, m_namespace_uid m, toStartOfHour (m_bucket_start m)))
    (filter (λ m, selects (λ _ _, true) where_ args (metric_value m) = Some true) (container_metrics_10s db)).
Record node_request := { r_tenant_id : string; r_cluster_id : string; r_node_uid : string; r_bucket_start : Time; r_cpu : Z }.
Definition node_requests (us : list usage_row) : list node_request :=
  filter (λ r, 0 < r_cpu r)
    ((λ '((t, c, n, b), l), {| r_tenant_id := t; r_cluster_id := c; r_node_uid := n; r_bucket_start := b; r_cpu := sum_uint u_cpu l |}) <$>
     group_by (λ u, (u_tenant_id u, u_cluster_id u, u_node_uid u, toStartOfHour (u_bucket_start u))) us).
Record cluster_request := { k_tenant_id : string; k_cluster_id : string; k_bucket_start : Time; k_cpu : Z }.
Definition cluster_requests (us : list usage_row) : list cluster_request :=
  filter (λ r, 0 < k_cpu r)
    ((λ '((t, c, b), l), {| k_tenant_id := t; k_cluster_id := c; k_bucket_start := b; k_cpu := sum_uint u_cpu l |}) <$>
     group_by (λ u, (u_tenant_id u, u_cluster_id u, u_bucket_start u)) us).

(** Rows of the joins, and the denominator [greatest(allocatable * 3600, requested)] *)
Definition capacity (n : node) (r : node_request) : F :=
  greatest (mul (of_Z (n_allocatable_cpu_millicores n)) (of_Z 3600)) (of_Z (r_cpu r)).
Record joined_row := { j_usage : usage_row; j_request : node_request; j_cluster : cluster_request; j_node : node; j_name : string }.
Definition left_names (db : database) (u : usage_row) : list string :=
  match filter (λ ns, u_tenant_id u = ns_tenant_id ns ∧ u_cluster_id u = ns_cluster_id ns ∧ u_namespace_uid u = ns_namespace_uid ns)
          (current_namespace db) with
  | [] => [EmptyString]
  | found => ns_namespace_name <$> found
  end.
Definition joined_rows (db : database) (us : list usage_row) : list joined_row :=
  u ← us;
  r ← filter (λ r, u_tenant_id u = r_tenant_id r ∧ u_cluster_id u = r_cluster_id r ∧ u_node_uid u = r_node_uid r ∧
                   u_bucket_start u = r_bucket_start r) (node_requests us);
  k ← filter (λ k, u_tenant_id u = k_tenant_id k ∧ u_cluster_id u = k_cluster_id k ∧ u_bucket_start u = k_bucket_start k)
        (cluster_requests us);
  n ← filter (λ n, u_tenant_id u = n_tenant_id n ∧ u_cluster_id u = n_cluster_id n ∧ u_node_uid u = n_node_uid n) (current_node db);
  name ← left_names db u;
  [{| j_usage := u; j_request := r; j_cluster := k; j_node := n; j_name := name |}].

(** The rows of [allocated] and [idle] *)
Record cost_row := {
  c_tenant_id : string;
  c_cluster_id : string;
  c_namespace_uid : string;
  c_namespace_name : string;
  c_bucket_start : Time;
  c_cpu : Z;
  c_network_bytes : Z;
  c_allocation_weight : F;
  c_direct_cost : F;
  c_idle_cost : F;
  c_network_cost : F;
  c_control_plane_cost : F
}.
Definition weight (j : joined_row) : F := div (of_Z (u_cpu (j_usage j))) (capacity (j_node j) (j_request j)).
Definition allocated_row (node_price network_price control_price : F) (g : string * string * string * Time * list joined_row) : cost_row :=
  let '((t, c, ns, b), js) := g in {|
    c_tenant_id := t; c_cluster_id := c; c_namespace_uid := ns;
    c_namespace_name := (let name := any_name (j_name <$> js) in if (name =? "")%string then ns else name);
    c_bucket_start := b;
    c_cpu := sum_uint (λ j, u_cpu (j_usage j)) js;
    c_network_bytes := sum_uint (λ j, u_network_bytes (j_usage j)) js;
    c_allocation_weight := sum_float weight js;
    c_direct_cost := sum_float (λ j, mul node_price (weight j)) js;
    c_idle_cost := zero;
    c_network_cost := sum_float (λ j, mul (div (of_Z (u_network_bytes (j_usage j))) (of_Z 1073741824)) network_price) js;
    c_control_plane_cost := sum_float (λ j, mul control_price (div (of_Z (u_cpu (j_usage j))) (of_Z (k_cpu (j_cluster j))))) js |}.
Definition allocated (db : database) (us : list usage_row) (node_price network_price control_price : F) : list cost_row :=
  allocated_row node_price network_price control_price <$>
  group_by (λ j, (u_tenant_id (j_usage j), u_cluster_id (j_usage j), u_namespace_uid (j_usage j), u_bucket_start (j_usage j)))
    (joined_rows db us).
Definition idle_joined (db : database) (us : list usage_row) : list (node_request * node) :=
  r ← node_requests us;
  n ← filter (λ n, r_tenant_id r = n_tenant_id n ∧ r_cluster_id r = n_cluster_id n ∧ r_node_uid r = n_node_uid n) (current_node db);
  [(r, n)].
Definition idle_share (price : F) (p : node_request * node) : F :=
  let '(r, n) := p in div (mul price (greatest (sub (capacity n r) (of_Z (r_cpu r))) zero)) (capacity n r).
Definition idle_row (price : F) (g : string * string * Time * list (node_request * node)) : cost_row :=
  let '((t, c, b), ps) := g in {|
    c_tenant_id := t; c_cluster_id := c; c_namespace_uid := "__idle__"; c_namespace_name := "__idle__"; c_bucket_start := b;
    c_cpu := 0; c_network_bytes := 0; c_allocation_weight := zero; c_direct_cost := zero;
    c_idle_cost := sum_float (idle_share price) ps; c_network_cost := zero; c_control_plane_cost := zero |}.
Definition idle (db : database) (us : list usage_row) (price : F) : list cost_row :=
  idle_row price <$> group_by (λ p, (r_tenant_id p.1, r_cluster_id p.1, r_bucket_start p.1)) (idle_joined db us).

(** ** The result *)

Inductive cell := CString (s : string) | CTime (t : Time) | CUint (z : Z) | CFloat (f : F).
Definition select_row (r : cost_row) : list cell :=
  let cost := add (add (c_direct_cost r) (c_network_cost r)) (c_control_plane_cost r) in
  [CString (c_tenant_id r); CString (c_cluster_id r); CString (c_namespace_uid r); CString (c_namespace_name r);
   CTime (c_bucket_start r); CUint (c_cpu r); CUint (c_network_bytes r); CFloat (c_allocation_weight r);
   CFloat (c_direct_cost r); CFloat (c_idle_cost r); CFloat (c_network_cost r); CFloat (c_control_plane_cost r);
   CFloat (if bool_decide (c_namespace_name r ∈ ["kube-system"; "kube-public"; "kube-node-lease"]%string) then cost else zero);
   CFloat (add (add (add (c_direct_cost r) (c_idle_cost r)) (c_network_cost r)) (c_control_plane_cost r))].
(** [ORDER BY bucket_start, cluster_id, namespace_uid], which leaves the order of
    equal rows open *)
Definition row_le (a b : cost_row) : Prop :=
  if decide (c_bucket_start a = c_bucket_start b) then
    if decide (c_cluster_id a = c_cluster_id b) then String.le (c_namespace_uid a) (c_namespace_uid b)
    else String.le (c_cluster_id a) (c_cluster_id b)
  else c_bucket_start a ≤ c_bucket_start b.
Definition prices (args : list arg) : list F := omap (λ a, match a with Price f => Some f | Bound _ => None end) args.
Definition bound_values (args : list arg) : list (value unit) := omap (λ a, match a with Bound v => Some v | Price _ => None end) args.
(** [rows] are what the statement with condition [where_] and arguments [args] returns. *)
Definition returns (db : database) (where_ : string) (args : list arg) (rows : list cost_row) : Prop :=
  match prices args with
  | [direct_price; network_price; control_price; idle_price] =>
      let us := usage db where_ (bound_values args) in
      rows ≡ₚ allocated db us direct_price network_price control_price ++ idle db us idle_price ∧ StronglySorted row_le rows
  | _ => False
  end.

(** ** The repository and the endpoint *)

Inductive query_answer := QueryFailed (e : string) | Rows (rows : list (list cell)) (err : option string).
Definition scan (cells : list cell) : option (NamespaceCost F) :=
  match cells with
  | [CString tenant; CString cluster; CString uid; CString name; CTime bucketStart; CUint cpu; CUint network; CFloat weight;
     CFloat direct; CFloat idle; CFloat network_cost; CFloat control; CFloat system; CFloat allocated] =>
      Some {| C_TenantID := tenant; C_ClusterID := cluster; C_NamespaceUID := uid; C_NamespaceName := name;
              C_BucketStart := Paths.rfc3339 bucketStart; C_CPURequestCoreMilliseconds := cpu; C_NetworkBytes := network;
              AllocationWeight := weight; DirectCost := direct; IdleCost := idle; NetworkCost := network_cost;
              ControlPlaneCost := control; SystemNamespaceCost := system; AllocatedCost := allocated;
              Currency := defaultCurrency; AllocationMethod := allocationMethodCPU; ComputationVersion := computationVersionV1 |}
  | _ => None
  end.
Fixpoint scan_all (rows : list (list cell)) (err : option string) : res string (list (NamespaceCost F)) :=
  match rows with
  | [] => match err with Some e => Err ("read namespace cost rows: " +:+ e) | None => Ok [] end
  | cells :: rows' =>
      match scan cells with
      | None => Err "scan namespace cost row"%string
      | Some item => rest ← scan_all rows' err; Ok (item :: rest)
      end
  end.
Definition NamespaceCosts_ (query : string → list arg → query_answer) (options : AllocationOptions F) (q : Query)
    : res string (list (NamespaceCost F)) :=
  let '(sql, args) := namespaceCostSQL q options in
  match query sql args with
  | QueryFailed e => Err ("query namespace costs: " +:+ e)
  | Rows rows err => scan_all rows err
  end.

(** [API.health] after pinging the database *)
Definition health (pinged : res string unit) : Z * string :=
  match pinged with Err _ => (Http.StatusServiceUnavailable, "clickhouse unavailable"%string) | Ok _ => (Http.StatusOK, "ok"%string) end.
(** [parseTime]; [ParseTime] is [time.Parse] for RFC 3339 and [Quote] the format [%q].
    [API.namespaceCost] and the engine behind it *)
Definition parseTime (ParseTime : string → res string Time) (Quote : string → string) (value : string) : res string Time :=
  if (TrimSpace value =? "")%string then Ok 0
  else match ParseTime value with Ok t => Ok t | Err e => Err ("parse time " +:+ Quote value +:+ " as RFC3339: " +:+ e) end.
Definition namespaceCost (ParseTime : string → res string Time) (Quote : string → string) (query : string → list arg → query_answer)
    (options : AllocationOptions F) (now : Time) (r : Http.Request) : Z * (Result + string) :=
  match parseTime ParseTime Quote (Http.QueryGet r "start") with
  | Err e => (Http.StatusBadRequest, inr e)
  | Ok start =>
      match parseTime ParseTime Quote (Http.QueryGet r "end") with
      | Err e => (Http.StatusBadRequest, inr e)
      | Ok end_ =>
          let q := {| Q_TenantID := Http.QueryGet r "tenant_id"; Q_ClusterID := Http.QueryGet r "cluster_id"; Q_Start := start; Q_End := end_ |} in
          match NamespaceCosts options (NamespaceCosts_ query options) q now with
          | Err e =>
              if is_Ok (normalizeQuery q now) then (Http.StatusInternalServerError, inr "namespace allocation query failed"%string)
              else (Http.StatusBadRequest, inr e)
          | Ok result => (Http.StatusOK, inl result)
          end
      end
  end.
End statement.
Arguments arg : clear implicits.
Arguments cost_row : clear implicits.
Arguments cell : clear implicits.
Arguments query_answer : clear implicits.

Lemma statement_placeholders {F} `{Arith F} q (o : AllocationOptions F) :
  placeholders (namespaceCostSQL q o).1 = length (namespaceCostSQL q o).2.
Proof.
  unfold namespaceCostSQL, metricWhere. destruct (negb _); cbn [fst snd]; rewrite Sprintf_placeholders by (vm_compute; reflexivity); vm_compute; reflexivity.
Qed.
End AllocationSql.
