(* ===== verification/AllocationAgreement.v ===== *)
(** * The allocation statement agrees with the engine

    In exact arithmetic the rows of the statement of [AllocationSql.v] are what
    [allocateCosts] of [Allocation.v] computes from the same usage, apart from idle rows
    of cost zero. *)
From stdpp Require Import base option list gmap strings sorting.
From Stdlib Require Import ZArith Lia QArith Qcanon.
From S2P Require Import Prelude Proto Stores Sql Relational Allocation Calendar AllocationSql.

Module Agreement.
Import Sql Relational Allocation Calendar AllocationSql.
Open Scope Z_scope.

(** ** Sums *)

Definition zs {A} (f : A → Z) (l : list A) : Z := foldr (λ x acc, f x + acc) 0 l.
Lemma zs_app {A} (f : A → Z) l l' : zs f (l ++ l') = zs f l + zs f l'.
Proof. induction l as [|x l IH]; simpl; [done|]. rewrite IH. lia. Qed.
Lemma zs_perm {A} (f : A → Z) l l' : l ≡ₚ l' → zs f l = zs f l'.
Proof. induction 1; simpl; lia. Qed.
Lemma zs_nonneg {A} (f : A → Z) l : Forall (λ x, 0 ≤ f x) l → 0 ≤ zs f l.
Proof. induction 1; simpl; lia. Qed.
Lemma zs_le {A} (f g : A → Z) l : (∀ x, x ∈ l → f x ≤ g x) → zs f l ≤ zs g l.
Proof.
  induction l as [|x l IH]; intros Hf; simpl; [done|]. pose proof (Hf x ltac:(left)).
  pose proof (IH (λ y Hy, Hf y (list_elem_of_further _ _ _ Hy))). lia.
Qed.
Lemma zs_filter_le {A} (f : A → Z) (P : A → Prop) `{!∀ x, Decision (P x)} l : Forall (λ x, 0 ≤ f x) l → zs f (filter P l) ≤ zs f l.
Proof. induction 1 as [|x l Hx _ IH]; [done|]. rewrite filter_cons. case_decide; simpl; lia. Qed.
Lemma zs_elem {A} (f : A → Z) l x : Forall (λ x, 0 ≤ f x) l → x ∈ l → f x ≤ zs f l.
Proof.
  intros Hf Hx. apply list_elem_of_split in Hx as (l1 & l2 & ->). apply Forall_app in Hf as [H1 H2]. apply Forall_cons in H2 as [_ H2].
  rewrite zs_app. simpl. pose proof (zs_nonneg f l1 H1). pose proof (zs_nonneg f l2 H2). lia.
Qed.
Lemma zs_group {A} (f : A → Z) (P Q : A → Prop) `{!∀ x, Decision (P x), !∀ x, Decision (Q x)} l x :
  Forall (λ x, 0 ≤ f x) l → x ∈ filter P (filter Q l) → f x ≤ zs f (filter P (filter Q l)) ≤ zs f l.
Proof.
  intros Hf Hx. assert (Forall (λ x, 0 ≤ f x) (filter Q l)) as Hq.
  { apply Forall_forall. intros y [_ Hy]%list_elem_of_filter. rewrite Forall_forall in Hf. auto. }
  split; [apply zs_elem; [|done]|].
  - apply Forall_forall. intros y [_ Hy]%list_elem_of_filter. rewrite Forall_forall in Hq. auto.
  - trans (zs f (filter Q l)); by apply zs_filter_le.
Qed.
Lemma zs_bind {A B} (f : A → Z) (g : B → list A) ks : zs (λ k, zs f (g k)) ks = zs f (ks ≫= g).
Proof. induction ks as [|k ks IH]; [done|].
  change (zs f (g k) + zs (λ k, zs f (g k)) ks = zs f (g k ++ (ks ≫= g))). by rewrite IH, zs_app. Qed.
Lemma zs_fmap {A B} (f : A → Z) (g : B → A) l : zs f (g <$> l) = zs (f ∘ g) l.
Proof. induction l as [|x l IH]; [done|]. change (f (g x) + zs f (g <$> l) = f (g x) + zs (f ∘ g) l). by rewrite IH. Qed.
Lemma sum_uint_zs {A} (f : A → Z) l : sum_uint f l = u64 (zs f l).
Proof.
  unfold sum_uint. induction l as [|x l IH]; [done|]. simpl. rewrite IH. unfold u64. by rewrite Zplus_mod_idemp_r.
Qed.
Lemma sum_float_qsum {A} (f : A → Qc) l : sum_float f l = qsum f l.
Proof.
  induction l as [|x l IH]; [by apply Qc_is_canon|]. change (f x + sum_float f l = f x + qsum f l)%Qc. by rewrite IH.
Qed.

(** ** Exact numbers *)

Lemma of_Z_mul (a b : Z) : of_Z (a * b) = ((of_Z a : Qc) * of_Z b)%Qc.
Proof. simpl. apply Qc_is_canon. simpl. rewrite !Qred_correct. by rewrite inject_Z_mult. Qed.
Lemma leb_of_Z a b : leb (of_Z a : Qc) (of_Z b) = (a <=? b).
Proof.
  cbn [leb of_Z exact]. unfold Qccompare. cbn [this Q2Qc]. rewrite (Qcompare_comp _ _ (Qred_correct _) _ _ (Qred_correct _)).
  unfold Qcompare. cbn [inject_Z Qnum Qden]. rewrite !Z.mul_1_r. unfold Z.leb. by destruct (a ?= b).
Qed.
Lemma of_Z_pos a : 0 < a → (0 < (of_Z a : Qc))%Qc.
Proof.
  intros Ha. rewrite <- of_Z_0. apply Qclt_alt. cbn [of_Z exact]. unfold Qccompare. cbn [this Q2Qc]. rewrite (Qcompare_comp _ _ (Qred_correct _) _ _ (Qred_correct _)).
  unfold Qcompare. cbn [inject_Z Qnum Qden]. rewrite !Z.mul_1_r. by apply Z.compare_lt_iff.
Qed.
Lemma of_Z_sub a b : sub (of_Z a : Qc) (of_Z b) = of_Z (a - b).
Proof. unfold sub. rewrite <- of_Z_mul. cbn [add exact]. rewrite <- of_Z_add. f_equal; lia. Qed.
Lemma Qc_mul_pos (x y : Qc) : (0 < x → 0 < y → 0 < x * y)%Qc.
Proof. intros Hx Hy. rewrite <- (Qcmult_0_l y). by apply Qcmult_lt_compat_r. Qed.
Lemma Qc_inv_pos (x : Qc) : (0 < x → 0 < / x)%Qc.
Proof. unfold Qclt. intros Hx. change ((0 < Qred (/ x))%Q). rewrite Qred_correct. by apply Qinv_lt_0_compat. Qed.
Lemma qsum_pos {A} (f : A → Qc) l : l ≠ [] → (∀ x, x ∈ l → (0 < f x)%Qc) → (0 < qsum f l)%Qc.
Proof.
  destruct l as [|x l]; [done|]. intros _. revert x. induction l as [|y l IH]; intros x Hf.
  - cbn [qsum]. rewrite Qcplus_0_r. apply Hf. left.
  - change (0 < f x + qsum f (y :: l))%Qc. rewrite <- (Qcplus_0_r 0). eapply Qclt_le_trans; [|apply Qcplus_le_compat; [apply Qcle_refl|apply Qclt_le_weak, IH; intros z Hz; apply Hf; by right]].
    rewrite Qcplus_0_r. rewrite Qcplus_0_r. apply Hf. left.
Qed.
Lemma greatest_of_Z a b : greatest (of_Z a : Qc) (of_Z b) = of_Z (Z.max a b).
Proof. unfold greatest. rewrite leb_of_Z. destruct (Z.leb_spec a b); f_equal; lia. Qed.

(** ** The engine's maps *)

Section engine.
Context (o : AllocationOptions Qc) (t : totals).
Implicit Types (r : NodeNamespaceRequest) (it : NamespaceCost Qc).

Lemma request_items rs k :
  Forall (λ r, counted t r = true) rs →
  foldl (request_step o t) ∅ rs !! k =
  match filter (λ r, namespaceBucketKey r = k) rs with
  | [] => None
  | (r :: _) as l => Some (foldl (λ it r, charge o t r it) (newItem r (NamespaceUID r) (NamespaceName r)) l)
  end.
Proof.
  induction rs as [|r rs IH] using rev_ind; intros Hc; [done|].
  apply Forall_app in Hc as [Hc Hr]. rewrite Forall_singleton in Hr. specialize (IH Hc).
  rewrite foldl_app, filter_app, filter_cons, filter_nil. simpl. unfold request_step at 1. rewrite Hr.
  destruct (decide (namespaceBucketKey r = k)) as [<-|Hk].
  - rewrite lookup_insert_eq, IH. f_equal. destruct (filter _ rs) as [|r0 l]; [done|]. simpl. by rewrite foldl_app.
  - rewrite lookup_insert_ne, IH by done. by rewrite app_nil_r.
Qed.
(** An item after it was charged for a list of requests *)
Definition charged it rs : NamespaceCost Qc := {|
  C_TenantID := C_TenantID it; C_ClusterID := C_ClusterID it; C_NamespaceUID := C_NamespaceUID it;
  C_NamespaceName := C_NamespaceName it; C_BucketStart := C_BucketStart it;
  C_CPURequestCoreMilliseconds := u64 (C_CPURequestCoreMilliseconds it + zs CPURequestCoreMilliseconds rs);
  C_NetworkBytes := u64 (C_NetworkBytes it + zs NetworkBytes rs);
  AllocationWeight := (AllocationWeight it + qsum (nodeWeight t) rs)%Qc;
  DirectCost := (DirectCost it + qsum (directOf o t) rs)%Qc;
  IdleCost := IdleCost it;
  NetworkCost := (NetworkCost it + qsum (networkOf o) rs)%Qc;
  ControlPlaneCost := (ControlPlaneCost it + qsum (controlPlaneOf o t) rs)%Qc;
  SystemNamespaceCost :=
    (SystemNamespaceCost it + qsum (λ r, if isSystemNamespace (NamespaceName r) (NamespaceUID r) then requestCost o t r else 0) rs)%Qc;
  AllocatedCost := (AllocatedCost it + qsum (requestCost o t) rs)%Qc;
  Currency := Currency it; AllocationMethod := AllocationMethod it; ComputationVersion := ComputationVersion it |}.
Lemma foldl_charge it rs :
  u64 (C_CPURequestCoreMilliseconds it) = C_CPURequestCoreMilliseconds it → u64 (C_NetworkBytes it) = C_NetworkBytes it →
  foldl (λ it r, charge o t r it) it rs = charged it rs.
Proof.
  intros Hc Hn. induction rs as [|r rs IH] using rev_ind.
  - destruct it. unfold charged. cbn in *. rewrite !Z.add_0_r, Hc, Hn. f_equal; ring.
  - rewrite foldl_app. cbn [foldl]. rewrite IH. unfold charge, charged. cbn [C_TenantID C_ClusterID C_NamespaceUID C_NamespaceName
      C_BucketStart C_CPURequestCoreMilliseconds C_NetworkBytes AllocationWeight DirectCost IdleCost NetworkCost ControlPlaneCost
      SystemNamespaceCost AllocatedCost Currency AllocationMethod ComputationVersion].
    rewrite !zs_app, !qsum_app. cbn [zs qsum foldr]. f_equal; try (unfold u64; rewrite Zplus_mod_idemp_l; f_equal; lia); cbn [add exact]; try ring.
    destruct (isSystemNamespace _ _); ring.
Qed.

Definition idle_active (nodeKey : string) : Prop :=
  denominator t nodeKey ≠ 0 ∧ at_ (nodeTotals t) nodeKey < denominator t nodeKey.
#[local] Instance idle_active_dec nodeKey : Decision (idle_active nodeKey) := _.
Lemma idle_items rs m ks k :
  foldl (idle_step o t rs) m ks !! k =
  match filter (λ nk, idle_active nk ∧ idleNamespaceBucketKey (firstNodeRequest nk rs) = k) ks with
  | [] => m !! k
  | (nk :: _) as l =>
      Some (foldl (λ it nk, add_idle (idleCostOf o t nk) it)
              (default (newItem (firstNodeRequest nk rs) idleNamespaceUID idleNamespaceName) (m !! k)) l)
  end.
Proof.
  induction ks as [|nk ks IH] using rev_ind; [done|].
  rewrite foldl_app, filter_app, filter_cons, filter_nil. cbn [foldl]. set (M := foldl _ m ks) in *. unfold idle_step.
  destruct (Z.eqb_spec (denominator t nk) 0) as [H0|H0]; [|destruct (Z.leb_spec (denominator t nk) (at_ (nodeTotals t) nk)) as [H1|H1]]; cbn [orb].
  1,2: rewrite decide_False by (unfold idle_active; intros [[??] _]; lia || done); by rewrite app_nil_r.
  destruct (decide (idleNamespaceBucketKey (firstNodeRequest nk rs) = k)) as [<-|Hk].
  - rewrite decide_True by done. rewrite lookup_insert_eq, IH. destruct (filter _ ks) as [|nk0 l]; [done|]. cbn [app foldl]. by rewrite foldl_app.
  - rewrite decide_False by (by intros [_ ?]). rewrite lookup_insert_ne, app_nil_r by done. exact IH.
Qed.
Definition idled it ks : NamespaceCost Qc := {|
  C_TenantID := C_TenantID it; C_ClusterID := C_ClusterID it; C_NamespaceUID := C_NamespaceUID it;
  C_NamespaceName := C_NamespaceName it; C_BucketStart := C_BucketStart it;
  C_CPURequestCoreMilliseconds := C_CPURequestCoreMilliseconds it; C_NetworkBytes := C_NetworkBytes it;
  AllocationWeight := AllocationWeight it; DirectCost := DirectCost it; IdleCost := (IdleCost it + qsum (idleCostOf o t) ks)%Qc;
  NetworkCost := NetworkCost it; ControlPlaneCost := ControlPlaneCost it; SystemNamespaceCost := SystemNamespaceCost it;
  AllocatedCost := (AllocatedCost it + qsum (idleCostOf o t) ks)%Qc;
  Currency := Currency it; AllocationMethod := AllocationMethod it; ComputationVersion := ComputationVersion it |}.
Lemma foldl_idle it ks : foldl (λ it nk, add_idle (idleCostOf o t nk) it) it ks = idled it ks.
Proof.
  induction ks as [|nk ks IH] using rev_ind.
  - destruct it. unfold idled. cbn. f_equal; ring.
  - rewrite foldl_app. cbn [foldl]. rewrite IH. unfold add_idle, idled. cbn [C_TenantID C_ClusterID C_NamespaceUID C_NamespaceName
      C_BucketStart C_CPURequestCoreMilliseconds C_NetworkBytes AllocationWeight DirectCost IdleCost NetworkCost ControlPlaneCost
      SystemNamespaceCost AllocatedCost Currency AllocationMethod ComputationVersion].
    rewrite !qsum_app. cbn [qsum]. f_equal; cbn [add exact]; ring.
Qed.
End engine.

Lemma allocatable_spec rs k A :
  0 ≤ A → (∀ r, r ∈ rs → eligible r → nodeBucketKey r = k → u64 (NodeAllocatableMillicores r * 3600) = A) →
  (at_ (nodeAllocatable (totals_of rs)) k = 0 ∨ at_ (nodeAllocatable (totals_of rs)) k = A) ∧
  ((∃ r, r ∈ rs ∧ eligible r ∧ nodeBucketKey r = k) → at_ (nodeAllocatable (totals_of rs)) k = A).
Proof.
  intros HA. induction rs as [|r rs IH] using rev_ind; intros Hr.
  { split; [by left|]. by intros (? & ?%elem_of_nil & _). }
  destruct IH as [IH1 IH2]; [intros r' Hr'; apply Hr, elem_of_app; by left|]. specialize (Hr r).
  rewrite totals_snoc, exists_snoc. destruct (decide (eligible r)) as [He|He].
  2:{ rewrite total_step_skip by done. split; [done|]. intros [?|[? _]]; [auto|done]. }
  unfold total_step. destruct He as [He1 He2]. destruct (String.eqb_spec (NodeUID r) ""); [done|].
  destruct (Z.eqb_spec (CPURequestCoreMilliseconds r) 0); [done|]. cbn [orb nodeAllocatable].
  destruct (decide (nodeBucketKey r = k)) as [<-|Hk].
  - rewrite Hr by (try done; apply elem_of_app; right; by left). enough (at_ (if at_ (nodeAllocatable (totals_of rs)) (nodeBucketKey r) <? A
      then <[nodeBucketKey r:=A]> (nodeAllocatable (totals_of rs)) else nodeAllocatable (totals_of rs)) (nodeBucketKey r) = A) as -> by auto.
    destruct (Z.ltb_spec (at_ (nodeAllocatable (totals_of rs)) (nodeBucketKey r)) A); [unfold at_; by rewrite lookup_insert_eq|]. destruct IH1; lia.
  - assert (∀ b : bool, at_ (if b then <[nodeBucketKey r:=u64 (NodeAllocatableMillicores r * 3600)]> (nodeAllocatable (totals_of rs))
      else nodeAllocatable (totals_of rs)) k = at_ (nodeAllocatable (totals_of rs)) k) as -> by (intros []; [unfold at_; by rewrite lookup_insert_ne|done]).
    split; [done|]. intros [?|[_ ?]]; [auto|done].
Qed.

(** ** The order of items *)

#[export] Instance less_eq_transitive {F} : Transitive (less_eq (F := F)).
Proof.
  intros x y z. unfold less_eq. repeat case_decide; intros Hxy Hyz; try congruence; try (etransitivity; eassumption).
  all: repeat match goal with H : _ = _ |- _ => rewrite H in * end; try done; exfalso;
    match goal with H : ?a ≠ ?b |- _ => apply H; apply (anti_symm String.le); assumption end.
Qed.
#[export] Instance less_eq_total {F} : Total (less_eq (F := F)).
Proof.
  intros x y. unfold less_eq. repeat case_decide; try congruence; apply (total String.le).
Qed.
Lemma less_eq_antisymm {F} (x y : NamespaceCost F) :
  less_eq x y → less_eq y x → C_BucketStart x = C_BucketStart y ∧ C_ClusterID x = C_ClusterID y ∧ C_NamespaceUID x = C_NamespaceUID y.
Proof.
  unfold less_eq. repeat case_decide; intros; try congruence.
  - split_and!; try done. by apply (anti_symm String.le).
  - exfalso. match goal with H : C_ClusterID x ≠ _ |- _ => by apply H, (anti_symm String.le) end.
  - exfalso. match goal with H : C_BucketStart x ≠ _ |- _ => by apply H, (anti_symm String.le) end.
Qed.
Lemma before_le s s' : before s s' → String.le s s' ∧ s ≠ s'.
Proof. unfold before, String.le, String.leb. intros Hs. rewrite Hs. split; [done|]. intros ->. by rewrite compare_refl in Hs. Qed.

(** ** The usage of a query *)

Definition system_names : list string := ["kube-system"; "kube-public"; "kube-node-lease"]%string.
Definition node_id (n : node) : string * string * string := (n_tenant_id n, n_cluster_id n, n_node_uid n).
Definition namespace_id (ns : namespace) : string * string * string := (ns_tenant_id ns, ns_cluster_id ns, ns_namespace_uid ns).
(** The node with an id, and the name of the namespace of a usage row, in the current
    views *)
Definition node_by (db : database) (t c n : string) : node :=
  default {| n_tenant_id := ""; n_cluster_id := ""; n_node_uid := ""; n_allocatable_cpu_millicores := 0 |}
    (head (filter (λ x, t = n_tenant_id x ∧ c = n_cluster_id x ∧ n = n_node_uid x) (current_node db))).
Definition node_of (db : database) (u : usage_row) : node := node_by db (u_tenant_id u) (u_cluster_id u) (u_node_uid u).
Definition raw_name (db : database) (u : usage_row) : string := any_name (left_names db u).
Definition name_of (db : database) (u : usage_row) : string :=
  if (raw_name db u =? "")%string then u_namespace_uid u else raw_name db u.
(** The usage of a query as requests of the engine *)
Definition request_of (db : database) (u : usage_row) : NodeNamespaceRequest := {|
  TenantID := u_tenant_id u; ClusterID := u_cluster_id u; NodeUID := u_node_uid u; NamespaceUID := u_namespace_uid u;
  NamespaceName := name_of db u; BucketStart := u_bucket_start u; CPURequestCoreMilliseconds := u_cpu u;
  NetworkBytes := u_network_bytes u; NodeAllocatableMillicores := n_allocatable_cpu_millicores (node_of db u) |}.
Definition usage_of (db : database) (q : Query) : list usage_row := usage db (metricWhere q).1 (metricWhere q).2.
Definition requests_of (db : database) (q : Query) : list NodeNamespaceRequest := request_of db <$> usage_of db q.

Definition in_query (q : Query) (m : metric) : Prop :=
  selects (λ _ _ : unit, true) (metricWhere q).1 (metricWhere q).2 (metric_value m) = Some true.
(** Consistent tables: requests are numbers whose total fits 64 bits, ids have no NUL
    byte, the nodes of the requests are known and known once, their capacity fits 64
    bits, namespaces are known at most once, none has the name of the idle row, and one
    with the id of a system namespace has the name of one. *)
Record consistent (db : database) (q : Query) : Prop := {
  cpu_nonneg : Forall (λ m, 0 ≤ m_cpu_request_core_milliseconds m) (container_metrics_10s db);
  cpu_total : zs m_cpu_request_core_milliseconds (container_metrics_10s db) < two64;
  ids_plain m : m ∈ container_metrics_10s db → in_query q m →
    no_nul (m_tenant_id m) ∧ no_nul (m_cluster_id m) ∧ no_nul (m_node_uid m) ∧ no_nul (m_namespace_uid m);
  not_idle m : m ∈ container_metrics_10s db → in_query q m → m_namespace_uid m ≠ idleNamespaceUID;
  nodes_known m : m ∈ container_metrics_10s db → in_query q m →
    m_node_uid m ≠ EmptyString ∧ (m_tenant_id m, m_cluster_id m, m_node_uid m) ∈ node_id <$> current_node db;
  nodes_unique : NoDup (node_id <$> current_node db);
  nodes_fit : Forall (λ n, 0 ≤ n_allocatable_cpu_millicores n ∧ n_allocatable_cpu_millicores n * 3600 < two64) (current_node db);
  namespaces_unique : NoDup (namespace_id <$> current_namespace db);
  system_named u : u ∈ usage_of db q → isSystemNamespace (name_of db u) (u_namespace_uid u) = true → name_of db u ∈ system_names
}.

Lemma in_query_spec q m :
  in_query q m ↔
  m_tenant_id m = Q_TenantID q ∧ Q_Start q ≤ m_bucket_start m < Q_End q ∧ 0 < m_cpu_request_core_milliseconds m ∧
  (Q_ClusterID q ≠ EmptyString → m_cluster_id m = Q_ClusterID q).
Proof.
  unfold in_query, metricWhere, selects. destruct (String.eqb_spec (Q_ClusterID q) "") as [Hc|Hc]; cbn [negb fst snd];
    (* the words of the condition *)
    [replace (Strings.Split _ _) with ["tenant_id"; "="; "?"; "AND"; "bucket_start"; ">="; "?"; "AND"; "bucket_start"; "<"; "?"; "AND";
      "cpu_request_core_milliseconds"; ">"; "0"]%string by (vm_compute; reflexivity)
    |replace (Strings.Split _ _) with ["tenant_id"; "="; "?"; "AND"; "bucket_start"; ">="; "?"; "AND"; "bucket_start"; "<"; "?"; "AND";
      "cpu_request_core_milliseconds"; ">"; "0"; "AND"; "cluster_id"; "="; "?"]%string by (vm_compute; reflexivity)]; cbn;
    match goal with |- context [(λ z : Z, (VUint z, ?l)) <$> ?x] => replace x with (Some 0) by (vm_compute; reflexivity) end; cbn;
    (etransitivity; [apply (inj_iff Some)|]); rewrite !andb_true_iff, ?String.eqb_eq, !Z.leb_le, !Z.ltb_lt; naive_solver.
Qed.

Section usage.
Context (db : database) (q : Query) (Hdb : consistent db q).
Context (Hstart : 0 ≤ Q_Start q) (Hend : Q_End q ≤ max_time) (Hhour : Q_Start q mod Hour = 0).
Abbreviation us := (usage_of db q).

Record usable (u : usage_row) : Prop := {
  usable_tenant : u_tenant_id u = Q_TenantID q;
  usable_cpu : 0 < u_cpu u;
  usable_ids : no_nul (u_tenant_id u) ∧ no_nul (u_cluster_id u) ∧ no_nul (u_node_uid u) ∧ no_nul (u_namespace_uid u);
  usable_node : u_node_uid u ≠ EmptyString;
  usable_known : (u_tenant_id u, u_cluster_id u, u_node_uid u) ∈ node_id <$> current_node db;
  usable_namespace : u_namespace_uid u ≠ idleNamespaceUID;
  usable_bucket : formattable (u_bucket_start u) ∧ u_bucket_start u mod Hour = 0
}.
Lemma hour_window t : Q_Start q ≤ t < Q_End q → formattable (toStartOfHour t) ∧ toStartOfHour t mod Hour = 0.
Proof.
  intros Ht. unfold toStartOfHour, Truncate. change (Hour <=? 0) with false. cbv iota.
  pose proof (Z.div_mod t Hour). pose proof (Z.mod_pos_bound t Hour eq_refl). replace (t - t mod Hour) with ((t / Hour) * Hour) by lia.
  split; [|by apply Z.mod_mul]. assert (0 ≤ t / Hour) by (apply Z.div_pos; [lia|reflexivity]). unfold formattable. split; [|lia].
  apply Z.mul_nonneg_nonneg; [done|]. unfold Hour, Minute, Second. lia.
Qed.
#[local] Instance in_query_dec m : Decision (in_query q m).
Proof. unfold in_query. apply _. Defined.
Abbreviation metrics_in := (filter (in_query q) (container_metrics_10s db)).
Lemma usage_usable u : u ∈ us → usable u.
Proof.
  intros Hu. unfold usage_of, usage in Hu. apply list_elem_of_fmap in Hu as ([[[[[t c] n] ns] b] ms] & -> & Hg).
  apply list_elem_of_fmap in Hg as (k & [= <- ->] & Hk). pose proof (group_nonempty _ _ _ Hk) as Hne.
  apply elem_of_keys in Hk as (m & Hm & Hkey). injection Hkey as <- <- <- <- <-.
  pose proof Hm as [Hq Hin]%list_elem_of_filter. apply in_query_spec in Hq as Hs. destruct Hs as (Ht & Hw & Hc & _).
  destruct (ids_plain _ _ Hdb m Hin Hq) as (? & ? & ? & ?). destruct (nodes_known _ _ Hdb m Hin Hq).
  split; cbn; [done| |done|done|done|by apply (not_idle _ _ Hdb m)|by apply hour_window].
  rewrite sum_uint_zs. assert (m ∈ filter (λ x, (m_tenant_id x, m_cluster_id x, m_node_uid x, m_namespace_uid x, toStartOfHour (m_bucket_start x)) =
    (m_tenant_id m, m_cluster_id m, m_node_uid m, m_namespace_uid m, toStartOfHour (m_bucket_start m))) metrics_in) as Hmg by (by apply list_elem_of_filter).
  match goal with |- 0 < u64 ?z => assert (m_cpu_request_core_milliseconds m ≤ z ≤ zs m_cpu_request_core_milliseconds (container_metrics_10s db)) as Hz
    by exact (zs_group _ _ _ _ _ (cpu_nonneg _ _ Hdb) Hmg) end.
  pose proof (cpu_total _ _ Hdb). rewrite u64_id; [lia|split; lia].
Qed.
(** The usage adds up to the metrics. *)
Lemma usage_total : Forall (λ u, 0 ≤ u_cpu u) us ∧ zs u_cpu us < two64.
Proof.
  split; [apply Forall_forall; intros u Hu; pose proof (usable_cpu _ (usage_usable u Hu)); lia|].
  pose proof (cpu_total _ _ Hdb) as Ht. pose proof (zs_filter_le m_cpu_request_core_milliseconds (in_query q) _ (cpu_nonneg _ _ Hdb)) as Hf.
  enough (zs u_cpu us ≤ zs m_cpu_request_core_milliseconds metrics_in) by lia.
  rewrite <- (zs_perm _ _ _ (groups_partition (λ m, (m_tenant_id m, m_cluster_id m, m_node_uid m, m_namespace_uid m, toStartOfHour (m_bucket_start m))) metrics_in)).
  rewrite <- zs_bind. unfold usage_of, usage, group_by. rewrite !zs_fmap. apply zs_le.
  intros [[[[t c] n] ns] b] _. cbn. rewrite sum_uint_zs. unfold u64. apply Z.mod_le; [|done].
  apply zs_nonneg, Forall_forall. intros m [_ [_ Hm]%list_elem_of_filter]%list_elem_of_filter.
  pose proof (cpu_nonneg _ _ Hdb) as Hnn. rewrite Forall_forall in Hnn. by apply Hnn.
Qed.

(** *** Keys *)

Abbreviation key4 := (string * string * string * Time)%type.
Abbreviation key3 := (string * string * Time)%type.
Definition node_key (u : usage_row) : key4 := (u_tenant_id u, u_cluster_id u, u_node_uid u, u_bucket_start u).
Definition namespace_key (u : usage_row) : key4 := (u_tenant_id u, u_cluster_id u, u_namespace_uid u, u_bucket_start u).
Definition cluster_key (u : usage_row) : key3 := (u_tenant_id u, u_cluster_id u, u_bucket_start u).
(** The strings the engine makes of them *)
Definition string4 (k : key4) : string := let '(t, c, x, b) := k in joined [t; c; x; Paths.rfc3339 b].
Definition string3 (k : key3) : string := let '(t, c, b) := k in joined [t; c; Paths.rfc3339 b].
Definition good4 (k : key4) : Prop := let '(t, c, x, b) := k in no_nul t ∧ no_nul c ∧ no_nul x ∧ formattable b ∧ b mod Hour = 0.
Definition good3 (k : key3) : Prop := let '(t, c, b) := k in no_nul t ∧ no_nul c ∧ formattable b ∧ b mod Hour = 0.

Lemma hours_equal a b : a mod Hour = 0 → b mod Hour = 0 → formattable a → formattable b → Paths.rfc3339 a = Paths.rfc3339 b → a = b.
Proof.
  intros Ha Hb Fa Fb Heq%rfc3339_inj; [|done..]. unfold Hour, Minute in *. apply Z.mod_divide in Ha as [x ->]; [|done]. apply Z.mod_divide in Hb as [y ->]; [|done].
  rewrite !Z.mul_assoc, !Z.div_mul in Heq by done. lia.
Qed.
Lemma string4_inj k k' : good4 k → good4 k' → string4 k = string4 k' → k = k'.
Proof.
  destruct k as [[[t c] x] b], k' as [[[t' c'] x'] b']. intros (?&?&?&?&?) (?&?&?&?&?) Heq.
  apply joined_inj in Heq; [|done|by repeat constructor; [..|apply rfc3339_no_nul]|by repeat constructor; [..|apply rfc3339_no_nul]].
  injection Heq as -> -> -> Heq. by rewrite (hours_equal b b').
Qed.
Lemma string3_inj k k' : good3 k → good3 k' → string3 k = string3 k' → k = k'.
Proof.
  destruct k as [[t c] b], k' as [[t' c'] b']. intros (?&?&?&?) (?&?&?&?) Heq.
  apply joined_inj in Heq; [|done|by repeat constructor; [..|apply rfc3339_no_nul]|by repeat constructor; [..|apply rfc3339_no_nul]].
  injection Heq as -> -> Heq. by rewrite (hours_equal b b').
Qed.
Lemma good_node_key u : u ∈ us → good4 (node_key u).
Proof. intros Hu. destruct (usage_usable u Hu) as [_ _ (?&?&?&?) _ _ _ [??]]. done. Qed.
Lemma good_namespace_key u : u ∈ us → good4 (namespace_key u).
Proof. intros Hu. destruct (usage_usable u Hu) as [_ _ (?&?&?&?) _ _ _ [??]]. done. Qed.
Lemma good_cluster_key u : u ∈ us → good3 (cluster_key u).
Proof. intros Hu. destruct (usage_usable u Hu) as [_ _ (?&?&?&?) _ _ _ [??]]. done. Qed.

(** *** The joins *)

Definition total {K} `{EqDecision K} (key : usage_row → K) (k : K) : Z := zs u_cpu (filter (λ v, key v = k) us).
Lemma total_bound {K} `{EqDecision K} (key : usage_row → K) u : u ∈ us → 0 < total key (key u) < two64.
Proof.
  intros Hu. destruct usage_total as [Hnn Ht]. pose proof (usable_cpu _ (usage_usable u Hu)). unfold total.
  pose proof (zs_filter_le u_cpu (λ v, key v = key u) us Hnn).
  assert (u_cpu u ≤ zs u_cpu (filter (λ v, key v = key u) us)); [|lia]. apply zs_elem; [|by apply list_elem_of_filter].
  apply Forall_forall. intros v [_ Hv]%list_elem_of_filter. rewrite Forall_forall in Hnn. auto.
Qed.
Definition node_request_of (k : key4) : node_request :=
  let '(t, c, n, b) := k in {| r_tenant_id := t; r_cluster_id := c; r_node_uid := n; r_bucket_start := b; r_cpu := total node_key k |}.
Definition cluster_request_of (k : key3) : cluster_request :=
  let '(t, c, b) := k in {| k_tenant_id := t; k_cluster_id := c; k_bucket_start := b; k_cpu := total cluster_key k |}.

Lemma usage_hour u : u ∈ us → toStartOfHour (u_bucket_start u) = u_bucket_start u.
Proof.
  intros Hu. destruct (usage_usable u Hu) as [_ _ _ _ _ _ [_ Hb]]. unfold toStartOfHour, Truncate. change (Hour <=? 0) with false. cbv iota. lia.
Qed.
Lemma sum_total {K} `{EqDecision K} (key : usage_row → K) k : k ∈ remove_dups (key <$> us) → sum_uint u_cpu (filter (λ v, key v = k) us) = total key k ∧ 0 < total key k.
Proof. intros (u & Hu & <-)%elem_of_keys. pose proof (total_bound key u Hu) as Hb. unfold total in *. rewrite sum_uint_zs, u64_id; [lia|split; lia]. Qed.
Lemma node_requests_keys : node_requests us = node_request_of <$> remove_dups (node_key <$> us).
Proof.
  unfold node_requests. rewrite (group_by_ext _ node_key) by (intros u Hu; unfold node_key; by rewrite usage_hour).
  unfold group_by. rewrite <- list_fmap_compose. rewrite ListFacts.filter_all.
  - apply list_fmap_ext'. intros [[[t c] n] b] Hk. unfold node_request_of. simpl. f_equal. by apply (sum_total node_key).
  - intros r ([[[t c] n] b] & -> & Hk)%list_elem_of_fmap. simpl. destruct (sum_total node_key _ Hk) as [Hs ?]. by rewrite Hs.
Qed.
Lemma cluster_requests_keys : cluster_requests us = cluster_request_of <$> remove_dups (cluster_key <$> us).
Proof.
  unfold cluster_requests. change (λ u, (u_tenant_id u, u_cluster_id u, u_bucket_start u)) with cluster_key.
  unfold group_by. rewrite <- list_fmap_compose. rewrite ListFacts.filter_all.
  - apply list_fmap_ext'. intros [[t c] b] Hk. unfold cluster_request_of. simpl. f_equal. by apply (sum_total cluster_key).
  - intros r ([[t c] b] & -> & Hk)%list_elem_of_fmap. simpl. destruct (sum_total cluster_key _ Hk) as [Hs ?]. by rewrite Hs.
Qed.

Lemma node_by_filter t c n :
  (t, c, n) ∈ node_id <$> current_node db →
  filter (λ x, t = n_tenant_id x ∧ c = n_cluster_id x ∧ n = n_node_uid x) (current_node db) = [node_by db t c n] ∧ node_by db t c n ∈ current_node db.
Proof.
  intros Hk. destruct (filter_id node_id _ _ (nodes_unique _ _ Hdb) Hk) as (x & Hf & Hx & _).
  assert (filter (λ x, t = n_tenant_id x ∧ c = n_cluster_id x ∧ n = n_node_uid x) (current_node db) = [x]) as Hf'.
  { rewrite <- Hf. apply list_filter_iff. intros y. unfold node_id. split; [by intros (-> & -> & ->)|by intros [= -> -> ->]]. }
  unfold node_by. by rewrite Hf'.
Qed.
Lemma one_name u : left_names db u = [raw_name db u].
Proof.
  unfold raw_name, left_names.
  destruct (filter_id_le namespace_id _ (u_tenant_id u, u_cluster_id u, u_namespace_uid u) (namespaces_unique _ _ Hdb)) as [Hf|[x Hf]];
    (erewrite (list_filter_iff _ (λ y, namespace_id y = _)); [rewrite Hf; reflexivity|]);
    intros y; unfold namespace_id; (split; [by intros (-> & -> & ->)|by intros [= -> -> ->]]).
Qed.
Definition joined_of (u : usage_row) : joined_row := {|
  j_usage := u; j_request := node_request_of (node_key u); j_cluster := cluster_request_of (cluster_key u);
  j_node := node_of db u; j_name := raw_name db u |}.
Lemma joined_rows_usage : joined_rows db us = joined_of <$> us.
Proof.
  unfold joined_rows. apply bind_singletons. intros u Hu.
  rewrite node_requests_keys, (filter_unique node_request_of _ _ (node_key u)).
  2: apply NoDup_remove_dups.
  2: { apply elem_of_keys. eauto. }
  2: { intros [[[t c] n] b] _. unfold node_key. simpl. split; [by intros (-> & -> & -> & ->)|by intros [= -> -> -> ->]]. }
  rewrite cluster_requests_keys, (filter_unique cluster_request_of _ _ (cluster_key u)).
  2: apply NoDup_remove_dups.
  2: { apply elem_of_keys. eauto. }
  2: { intros [[t c] b] _. unfold cluster_key. simpl. split; [by intros (-> & -> & ->)|by intros [= -> -> ->]]. }
  destruct (node_by_filter _ _ _ (usable_known _ (usage_usable u Hu))) as [Hn _]. rewrite Hn, one_name. done.
Qed.
Definition node_at (k : key4) : node := let '(t, c, n, b) := k in node_by db t c n.
Lemma idle_joined_keys : idle_joined db us = (λ k, (node_request_of k, node_at k)) <$> remove_dups (node_key <$> us).
Proof.
  unfold idle_joined. rewrite node_requests_keys. rewrite list_fmap_bind. apply bind_singletons. intros k (u & Hu & <-)%elem_of_keys. simpl.
  destruct (node_by_filter _ _ _ (usable_known _ (usage_usable u Hu))) as [Hn _]. by rewrite Hn.
Qed.

(** *** The engine's totals *)

Abbreviation rs := (requests_of db q).
Lemma request_eligible u : u ∈ us → eligible (request_of db u).
Proof. intros Hu. destruct (usage_usable u Hu) as [_ Hc _ Hn _ _ _]. split; [done|]. simpl. lia. Qed.
Lemma ztotal_requests {K} `{EqDecision K} key (key' : usage_row → K) (str : K → string) k l :
  (∀ u, u ∈ l → u ∈ us) → (∀ u, key (request_of db u) = str (key' u)) → (∀ u, u ∈ l → str (key' u) = str k → key' u = k) →
  ztotal key (request_of db <$> l) (str k) = zs u_cpu (filter (λ v, key' v = k) l).
Proof.
  intros Hl Hkey Hinj. induction l as [|u l IH]; [done|]. rewrite fmap_cons, filter_cons. simpl.
  rewrite IH by (intros v Hv; first [apply Hl | apply Hinj]; by right).
  destruct (decide (key' u = k)) as [Hk|Hk].
  - rewrite decide_True; [done|]. split; [apply request_eligible, Hl; by left|]. by rewrite Hkey, Hk.
  - rewrite decide_False; [done|]. intros [_ Heq]. apply Hk, Hinj; [by left|]. by rewrite <- Hkey.
Qed.
Lemma requests_fit : fits rs.
Proof.
  destruct usage_total as [Hnn Ht]. unfold requests_of. split; [rewrite Forall_fmap; exact Hnn|].
  assert (∀ l, zsum (request_of db <$> l) = zs u_cpu l) as -> by (induction l as [|u l IH]; [done|]; rewrite fmap_cons; simpl; by rewrite IH). done.
Qed.
Abbreviation t := (totals_of rs).
Lemma node_total u : u ∈ us → at_ (nodeTotals t) (string4 (node_key u)) = total node_key (node_key u).
Proof.
  intros Hu. destruct (totals_spec rs requests_fit) as (-> & _). unfold requests_of, total. apply ztotal_requests; [done|done|].
  intros v Hv. apply string4_inj; by apply good_node_key.
Qed.
Lemma cluster_total u : u ∈ us → at_ (clusterTotals t) (string3 (cluster_key u)) = total cluster_key (cluster_key u).
Proof.
  intros Hu. destruct (totals_spec rs requests_fit) as (_ & -> & _). unfold requests_of, total. apply ztotal_requests; [done|done|].
  intros v Hv. apply string3_inj; by apply good_cluster_key.
Qed.
Lemma node_capacity_fits u : u ∈ us → 0 ≤ n_allocatable_cpu_millicores (node_of db u) * 3600 < two64.
Proof.
  intros Hu. destruct (node_by_filter _ _ _ (usable_known _ (usage_usable u Hu))) as [_ Hn].
  pose proof (nodes_fit _ _ Hdb) as Hf. rewrite Forall_forall in Hf. destruct (Hf _ Hn). unfold node_of. lia.
Qed.
Lemma node_allocatable u : u ∈ us → at_ (nodeAllocatable t) (string4 (node_key u)) = n_allocatable_cpu_millicores (node_of db u) * 3600.
Proof.
  intros Hu. apply allocatable_spec; [by apply node_capacity_fits| |].
  - intros r (v & -> & Hv)%list_elem_of_fmap _ Hk. change (string4 (node_key v) = string4 (node_key u)) in Hk.
    apply string4_inj in Hk; [|by apply good_node_key..]. simpl. injection Hk as Ht Hc Hn _. unfold node_of. rewrite Ht, Hc, Hn.
    apply u64_id. by apply node_capacity_fits.
  - exists (request_of db u). split; [by apply list_elem_of_fmap_2|]. split; [by apply request_eligible|done].
Qed.
Lemma node_denominator u : u ∈ us →
  denominator t (string4 (node_key u)) = Z.max (n_allocatable_cpu_millicores (node_of db u) * 3600) (total node_key (node_key u)).
Proof. intros Hu. unfold denominator, maxUint64. rewrite node_total, node_allocatable by done. destruct (Z.ltb_spec (n_allocatable_cpu_millicores (node_of db u) * 3600) (total node_key (node_key u))); lia. Qed.
Lemma capacity_denominator u : u ∈ us → capacity (node_of db u) (node_request_of (node_key u)) = (of_Z (denominator t (string4 (node_key u))) : Qc).
Proof. intros Hu. rewrite node_denominator by done. unfold capacity. cbn [mul exact]. rewrite <- of_Z_mul, greatest_of_Z. done. Qed.
Lemma request_counted u : u ∈ us → counted t (request_of db u) = true.
Proof.
  intros Hu. unfold counted. change (nodeBucketKey (request_of db u)) with (string4 (node_key u)). rewrite node_denominator by done.
  pose proof (total_bound node_key u Hu). pose proof (usable_cpu _ (usage_usable u Hu)). simpl.
  destruct (Z.eqb_spec (Z.max (n_allocatable_cpu_millicores (node_of db u) * 3600) (total node_key (node_key u))) 0); [lia|]. destruct (Z.eqb_spec (u_cpu u) 0); [lia|done].
Qed.

(** *** Shares of a usage row *)

Context (options : AllocationOptions Qc).
Abbreviation o := (normalizeAllocationOptions options).
Lemma weight_agrees u : u ∈ us → weight (joined_of u) = (nodeWeight t (request_of db u) : Qc).
Proof. intros Hu. unfold weight, nodeWeight. simpl j_node. simpl j_request. by rewrite capacity_denominator. Qed.
Lemma control_agrees u : u ∈ us →
  mul (ControlPlaneHourlyCostUSD o) (div (of_Z (u_cpu u)) (of_Z (k_cpu (cluster_request_of (cluster_key u))))) = controlPlaneOf o t (request_of db u).
Proof.
  intros Hu. unfold controlPlaneOf, controlPlaneWeight. change (clusterBucketKey (request_of db u)) with (string3 (cluster_key u)). rewrite cluster_total by done.
  pose proof (total_bound cluster_key u Hu). destruct (Z.ltb_spec 0 (total cluster_key (cluster_key u))); [done|lia].
Qed.

(** *** Rows and items *)

Definition item_of_row (r : cost_row Qc) : NamespaceCost Qc :=
  let cost := (c_direct_cost r + c_network_cost r + c_control_plane_cost r)%Qc in {|
  C_TenantID := c_tenant_id r; C_ClusterID := c_cluster_id r; C_NamespaceUID := c_namespace_uid r; C_NamespaceName := c_namespace_name r;
  C_BucketStart := Paths.rfc3339 (c_bucket_start r); C_CPURequestCoreMilliseconds := c_cpu r; C_NetworkBytes := c_network_bytes r;
  AllocationWeight := c_allocation_weight r; DirectCost := c_direct_cost r; IdleCost := c_idle_cost r; NetworkCost := c_network_cost r;
  ControlPlaneCost := c_control_plane_cost r;
  SystemNamespaceCost := if bool_decide (c_namespace_name r ∈ system_names) then cost else 0%Qc;
  AllocatedCost := (c_direct_cost r + c_idle_cost r + c_network_cost r + c_control_plane_cost r)%Qc;
  Currency := defaultCurrency; AllocationMethod := allocationMethodCPU; ComputationVersion := computationVersionV1 |}.
Lemma scan_row r : scan (select_row r) = Some (item_of_row r).
Proof. unfold scan, select_row, item_of_row. cbn [add exact]. unfold zero. by rewrite of_Z_0. Qed.

Abbreviation direct_price := (NodeHourlyCostUSD o).
Definition group_of (k : key4) : list usage_row := filter (λ u, namespace_key u = k) us.
Definition cost_of (k : key4) : cost_row Qc :=
  allocated_row (NodeHourlyCostUSD o) (NetworkCostPerGiBUSD o) (ControlPlaneHourlyCostUSD o) (k, joined_of <$> group_of k).
Lemma allocated_keys :
  allocated db us (NodeHourlyCostUSD o) (NetworkCostPerGiBUSD o) (ControlPlaneHourlyCostUSD o) = cost_of <$> remove_dups (namespace_key <$> us).
Proof.
  unfold allocated. rewrite joined_rows_usage, group_by_fmap. unfold group_by. rewrite <- !list_fmap_compose. done.
Qed.
Lemma sum_joined (f : joined_row → Qc) (g : NodeNamespaceRequest → Qc) l :
  (∀ u, u ∈ l → f (joined_of u) = g (request_of db u)) → sum_float f (joined_of <$> l) = qsum g (request_of db <$> l).
Proof.
  rewrite sum_float_qsum. induction l as [|u l IH]; intros Hf; [done|]. rewrite !fmap_cons. cbn [qsum]. rewrite Hf by left. f_equal. apply IH.
  intros v Hv. apply Hf. by right.
Qed.
Lemma sum_uint_joined (f : usage_row → Z) (g : NodeNamespaceRequest → Z) l :
  (∀ u, f u = g (request_of db u)) → sum_uint (λ j, f (j_usage j)) (joined_of <$> l) = u64 (zs g (request_of db <$> l)).
Proof. intros Hf. rewrite sum_uint_zs, !zs_fmap. f_equal. induction l as [|u l IH]; [done|]. simpl. by rewrite IH, Hf. Qed.
Lemma name_of_group k u v : u ∈ group_of k → v ∈ group_of k → name_of db u = name_of db v ∧ u_namespace_uid u = u_namespace_uid v.
Proof.
  intros [Hu _]%list_elem_of_filter [Hv _]%list_elem_of_filter. rewrite <- Hv in Hu. injection Hu as Ht Hc Hn _.
  unfold name_of, raw_name, left_names. by rewrite Ht, Hc, Hn.
Qed.
Lemma system_iff u : u ∈ us → isSystemNamespace (name_of db u) (u_namespace_uid u) = bool_decide (name_of db u ∈ system_names).
Proof.
  intros Hu. destruct (isSystemNamespace _ _) eqn:Hs.
  - symmetry. apply bool_decide_eq_true. by apply (system_named _ _ Hdb).
  - symmetry. unfold isSystemNamespace in Hs. by apply orb_false_iff in Hs as [Hs _].
Qed.
(** The charged item of a key is the row of the statement. *)
Lemma charged_item k u0 l :
  group_of k = u0 :: l →
  stamp (charged o t (newItem (request_of db u0) (u_namespace_uid u0) (name_of db u0)) (request_of db <$> group_of k)) = item_of_row (cost_of k).
Proof.
  intros Hg. assert (∀ u, u ∈ group_of k → u ∈ us) as Hin by (by intros u [_ ?]%list_elem_of_filter).
  assert (u0 ∈ group_of k) as Hu0 by (rewrite Hg; left). pose proof Hu0 as [Hk _]%list_elem_of_filter. destruct k as [[[t' c] ns] b].
  injection Hk as <- <- <- <-. cbv iota beta in *.
  set (G := group_of (u_tenant_id u0, u_cluster_id u0, u_namespace_uid u0, u_bucket_start u0)) in *.
  assert (any_name (j_name <$> (joined_of <$> G)) = raw_name db u0) as Hname by (rewrite Hg; done).
  unfold stamp, charged, item_of_row, cost_of, allocated_row. fold G. cbv beta iota.
  cbn [C_TenantID C_ClusterID C_NamespaceUID C_NamespaceName C_BucketStart C_CPURequestCoreMilliseconds C_NetworkBytes AllocationWeight
    DirectCost IdleCost NetworkCost ControlPlaneCost SystemNamespaceCost AllocatedCost Currency AllocationMethod ComputationVersion newItem
    c_tenant_id c_cluster_id c_namespace_uid c_namespace_name c_bucket_start c_cpu c_network_bytes c_allocation_weight c_direct_cost
    c_idle_cost c_network_cost c_control_plane_cost TenantID ClusterID NodeUID NamespaceUID BucketStart request_of].
  rewrite Hname. fold (name_of db u0). unfold zero. rewrite of_Z_0.
  rewrite (sum_uint_joined u_cpu CPURequestCoreMilliseconds), (sum_uint_joined u_network_bytes NetworkBytes) by done.
  rewrite (sum_joined weight (nodeWeight t)) by (intros u Hu; by apply weight_agrees, Hin).
  rewrite (sum_joined (λ j, mul (NodeHourlyCostUSD o) (weight j)) (directOf o t)) by (intros u Hu; unfold directOf; by rewrite weight_agrees by auto).
  rewrite (sum_joined (λ j, mul (div _ _) _) (networkOf o)) by done.
  rewrite (sum_joined (λ j, mul (ControlPlaneHourlyCostUSD o) _) (controlPlaneOf o t)) by (intros u Hu; by apply control_agrees, Hin).
  assert (qsum (requestCost o t) (request_of db <$> G) =
    qsum (directOf o t) (request_of db <$> G) + qsum (networkOf o) (request_of db <$> G)
    + qsum (controlPlaneOf o t) (request_of db <$> G))%Qc as Hcost.
  { rewrite <- !qsum_add. apply qsum_ext. done. }
  assert (∀ r, r ∈ request_of db <$> G → isSystemNamespace (NamespaceName r) (NamespaceUID r) = bool_decide (name_of db u0 ∈ system_names)) as Hsys.
  { intros r (u & -> & Hu)%list_elem_of_fmap. destruct (name_of_group _ u u0 Hu Hu0) as [<- _]. by apply system_iff, Hin. }
  f_equal; try ring.
  - rewrite (qsum_ext _ (λ r, if bool_decide (name_of db u0 ∈ system_names) then requestCost o t r else 0%Qc)).
    + destruct (bool_decide _); [rewrite <- Hcost; apply Qcplus_0_l|]. rewrite qsum_const. ring.
    + intros r Hr. specialize (Hsys r Hr). cbv beta. by rewrite Hsys.
  - rewrite Hcost. ring.
Qed.

(** *** Idle capacity *)

Abbreviation nodes := (remove_dups (node_key <$> us)).
Definition bucket_of (k : key4) : key3 := let '(tn, c, n, b) := k in (tn, c, b).
Definition idle_key (k : key3) : key4 := let '(tn, c, b) := k in (tn, c, idleNamespaceUID, b).
Abbreviation buckets := (remove_dups (bucket_of <$> nodes)).
Definition idle_pair (k : key4) : node_request * node := (node_request_of k, node_at k).
Definition idle_cost_row (k : key3) : cost_row Qc :=
  idle_row (NodeHourlyCostUSD o) (k, idle_pair <$> filter (λ n, bucket_of n = k) nodes).
Lemma idle_keys : idle db us (NodeHourlyCostUSD o) = idle_cost_row <$> buckets.
Proof.
  unfold idle. rewrite idle_joined_keys, (group_by_fmap (B := key4)), (group_by_ext _ bucket_of) by (by intros [[[??] ?] ?] _).
  unfold group_by. rewrite <- !list_fmap_compose. done.
Qed.
Lemma node_at_key u : node_at (node_key u) = node_of db u.
Proof. done. Qed.
Lemma good_node k : k ∈ nodes → good4 k.
Proof. intros (u & Hu & <-)%elem_of_keys. by apply good_node_key. Qed.
Lemma good_bucket k : k ∈ buckets → good4 (idle_key k).
Proof.
  intros (n & Hn & <-)%elem_of_keys. pose proof (good_node _ Hn) as Hg. destruct n as [[[tn c] n] b]. destruct Hg as (?&?&?&?&?).
  split_and!; try done. apply no_nul_text. reflexivity.
Qed.
Lemma first_node k : k ∈ nodes → ∃ u, u ∈ us ∧ node_key u = k ∧ firstNodeRequest (string4 k) rs = request_of db u.
Proof.
  intros Hk. pose proof (good_node k Hk) as Hg. apply elem_of_keys in Hk as (v & Hv & Hk). revert Hv. unfold requests_of.
  assert (∀ l, (∀ u, u ∈ l → u ∈ us) → v ∈ l → ∃ u, u ∈ us ∧ node_key u = k ∧ firstNodeRequest (string4 k) (request_of db <$> l) = request_of db u) as Hl; [|by apply Hl].
  induction l as [|u l IH]; intros Hin Hv; [by apply elem_of_nil in Hv|]. rewrite fmap_cons. cbn [firstNodeRequest].
  change (nodeBucketKey (request_of db u)) with (string4 (node_key u)).
  destruct (String.eqb_spec (string4 (node_key u)) (string4 k)) as [Heq|Hne].
  - exists u. assert (u ∈ us) as Hu by (apply Hin; left). split; [done|]. split; [|done]. apply string4_inj; [by apply good_node_key|done..].
  - apply IH; [intros w Hw; apply Hin; by right|]. apply elem_of_cons in Hv as [->|Hv]; [by rewrite Hk in Hne|done].
Qed.
Lemma idle_bucket_key k : k ∈ nodes → idleNamespaceBucketKey (firstNodeRequest (string4 k) rs) = string4 (idle_key (bucket_of k)).
Proof. intros Hk. destruct (first_node k Hk) as (u & _ & <- & ->). done. Qed.
Lemma node_keys nodeOrder : nodeOrder ≡ₚ elements (dom (nodeTotals t)) → nodeOrder ≡ₚ string4 <$> nodes.
Proof.
  intros ->. apply NoDup_Permutation; [apply NoDup_elements| |].
  - apply NoDup_fmap_2_strong; [|apply NoDup_remove_dups]. intros x y Hx Hy. apply string4_inj; by apply good_node.
  - intros k. rewrite elem_of_elements. destruct (totals_spec rs requests_fit) as (_ & _ & -> & _). rewrite list_elem_of_fmap. split.
    + intros (r & (u & -> & Hu)%list_elem_of_fmap & _ & <-). exists (node_key u). split; [done|]. apply elem_of_keys. eauto.
    + intros (k' & -> & (u & Hu & <-)%elem_of_keys). exists (request_of db u). split; [by apply list_elem_of_fmap_2|]. split; [by apply request_eligible|done].
Qed.
Lemma price_positive : (0 < NodeHourlyCostUSD o)%Qc.
Proof.
  cbn [NodeHourlyCostUSD normalizeAllocationOptions]. unfold zero. rewrite of_Z_0. cbn [leb exact].
  destruct (NodeHourlyCostUSD options ?= 0)%Qc eqn:Hc; [reflexivity..|]. by apply Qcgt_alt.
Qed.
(** The idle part of a node, in the statement and in the engine *)
Lemma idle_share_node k :
  k ∈ nodes → idle_share (NodeHourlyCostUSD o) (idle_pair k) = if decide (idle_active t (string4 k)) then idleCostOf o t (string4 k) else 0%Qc.
Proof.
  intros (u & Hu & <-)%elem_of_keys. unfold idle_pair. rewrite node_at_key. unfold idle_share. rewrite capacity_denominator by done.
  pose proof (node_denominator u Hu) as Hd. pose proof (node_total u Hu) as Hn. pose proof (total_bound node_key u Hu) as Hb.
  pose proof (node_capacity_fits u Hu) as Hf.
  change (r_cpu (node_request_of (node_key u))) with (total node_key (node_key u)). rewrite of_Z_sub. unfold zero. rewrite greatest_of_Z, <- Hn.
  assert (of_Z (denominator t (string4 (node_key u))) ≠ (0 : Qc)%Qc) as Hne by (apply of_Z_ne; lia).
  rewrite Z.max_l by lia. unfold idle_active, idleCostOf. rewrite u64_id by (split; lia). cbn [mul div exact].
  case_decide as Ha; [field; done|].
  assert (denominator t (string4 (node_key u)) - at_ (nodeTotals t) (string4 (node_key u)) = 0) as -> by lia.
  rewrite of_Z_0. field. done.
Qed.
Lemma idle_share_pos k : k ∈ nodes → idle_active t (string4 k) → (0 < idleCostOf o t (string4 k))%Qc.
Proof.
  intros (u & Hu & <-)%elem_of_keys [Ha Hb].
  pose proof (node_denominator u Hu) as Hd. pose proof (node_total u Hu) as Hn. pose proof (total_bound node_key u Hu).
  pose proof (node_capacity_fits u Hu). unfold idleCostOf. rewrite u64_id by (split; lia).
  cbn [mul div exact]. apply Qc_mul_pos; [apply price_positive|]. apply Qc_mul_pos; [|apply Qc_inv_pos]; apply of_Z_pos; lia.
Qed.

(** *** The engine's items *)

Abbreviation namespaces := (remove_dups (namespace_key <$> us)).
Context (nodeOrder : list string) (Hnodes : nodeOrder ≡ₚ elements (dom (nodeTotals t))).
Abbreviation M := (namespaceCosts rs o nodeOrder).
Abbreviation M0 := (foldl (request_step o t) ∅ rs).
Lemma requests_at K :
  M0 !! K =
  match filter (λ u, string4 (namespace_key u) = K) us with
  | [] => None
  | (u :: _) as l => Some (charged o t (newItem (request_of db u) (u_namespace_uid u) (name_of db u)) (request_of db <$> l))
  end.
Proof.
  rewrite request_items by (apply Forall_fmap, Forall_forall; intros u Hu; by apply request_counted).
  unfold requests_of. rewrite filter_fmap.
  change (λ u, namespaceBucketKey (request_of db u) = K) with (λ u, string4 (namespace_key u) = K).
  destruct (filter _ us) as [|u l]; [done|]. rewrite fmap_cons. f_equal. by apply foldl_charge.
Qed.
Definition idle_nodes (K : string) : list key4 :=
  filter (λ n, idle_active t (string4 n) ∧ string4 (idle_key (bucket_of n)) = K) nodes.
Lemma idle_at K :
  (idle_nodes K = [] ∧ M !! K = M0 !! K) ∨
  (∃ n, n ∈ idle_nodes K ∧
    M !! K = Some (idled o t (default (newItem (firstNodeRequest (string4 n) rs) idleNamespaceUID idleNamespaceName) (M0 !! K)) (string4 <$> idle_nodes K))).
Proof.
  unfold namespaceCosts. rewrite idle_items.
  assert (filter (λ nk, idle_active t nk ∧ idleNamespaceBucketKey (firstNodeRequest nk rs) = K) nodeOrder ≡ₚ string4 <$> idle_nodes K) as Hp.
  { rewrite (node_keys _ Hnodes), filter_fmap. apply reflexive_eq. f_equal. apply ListFacts.filter_ext_in. intros n Hn. by rewrite idle_bucket_key. }
  destruct (filter _ nodeOrder) as [|nk l] eqn:Hl.
  - left. symmetry in Hp. apply Permutation_nil_r in Hp. split; [|done]. by apply fmap_nil_inv in Hp.
  - right. assert (nk ∈ string4 <$> idle_nodes K) as (n & -> & Hn)%list_elem_of_fmap by (rewrite <- Hp; left).
    exists n. split; [done|]. rewrite foldl_idle. f_equal. unfold idled. by rewrite (qsum_perm _ _ _ Hp).
Qed.
(** Namespace entries *)
Lemma namespace_item k : k ∈ namespaces → stamp <$> M !! string4 k = Some (item_of_row (cost_of k)).
Proof.
  intros Hk. pose proof (group_nonempty _ _ _ Hk) as Hg. apply elem_of_keys in Hk as (u & Hu & <-).
  assert (idle_nodes (string4 (namespace_key u)) = []) as Hi.
  { apply ListFacts.filter_none. intros n Hn [_ Heq]. apply string4_inj in Heq.
    - destruct n as [[[tn c] n] b]. injection Heq as _ _ Heq _. by apply (usable_namespace _ (usage_usable u Hu)).
    - apply good_bucket, elem_of_keys. eauto.
    - by apply good_namespace_key. }
  destruct (idle_at (string4 (namespace_key u))) as [[_ ->]|(n & Hn & _)]; [|rewrite Hi in Hn; by apply elem_of_nil in Hn].
  rewrite requests_at. rewrite (ListFacts.filter_ext_in _ (λ v, namespace_key v = namespace_key u)).
  2:{ intros v Hv. split; [apply string4_inj; by apply good_namespace_key|by intros ->]. }
  fold (group_of (namespace_key u)) in *. destruct (group_of (namespace_key u)) as [|u0 l] eqn:Hl; [done|]. rewrite <- Hl.
  simpl. f_equal. by eapply charged_item.
Qed.
(** Idle entries *)
Lemma idle_cost_nodes k : k ∈ buckets → c_idle_cost (idle_cost_row k) = qsum (idleCostOf o t) (string4 <$> idle_nodes (string4 (idle_key k))).
Proof.
  intros Hk. pose proof (good_bucket k Hk) as Hg. destruct k as [[tn c] b].
  unfold idle_cost_row, idle_row. cbn [c_idle_cost]. rewrite sum_float_qsum. unfold idle_nodes.
  assert (∀ l, (∀ n, n ∈ l → n ∈ nodes) →
    qsum (idle_share (NodeHourlyCostUSD o)) (idle_pair <$> filter (λ n, bucket_of n = (tn, c, b)) l) =
    qsum (idleCostOf o t) (string4 <$> filter (λ n, idle_active t (string4 n) ∧ string4 (idle_key (bucket_of n)) = string4 (idle_key (tn, c, b))) l)) as Hl; [|by apply Hl].
  induction l as [|n l IH]; intros Hin; [done|]. specialize (IH (λ m Hm, Hin m (list_elem_of_further _ _ _ Hm))).
  assert (n ∈ nodes) as Hn by (apply Hin; left). rewrite !filter_cons.
  destruct (decide (bucket_of n = (tn, c, b))) as [Hb|Hb].
  - rewrite Hb, fmap_cons. cbn [qsum]. rewrite IH, idle_share_node by done.
    destruct (decide (idle_active t (string4 n))) as [Ha|Ha]; [by rewrite decide_True|]. rewrite decide_False by tauto. apply Qcplus_0_l.
  - rewrite decide_False; [done|]. intros [_ Heq]. apply Hb. apply string4_inj in Heq; [|apply good_bucket, elem_of_keys; eauto|done].
    destruct n as [[[??]?]?]. by injection Heq as -> -> ->.
Qed.
Lemma no_idle_requests k : k ∈ buckets → M0 !! string4 (idle_key k) = None.
Proof.
  intros Hk. rewrite requests_at, ListFacts.filter_none; [done|]. intros u Hu Heq. apply string4_inj in Heq; [|by apply good_namespace_key|by apply good_bucket].
  destruct k as [[??]?]. injection Heq as _ _ Heq _. by apply (usable_namespace _ (usage_usable u Hu)).
Qed.
Lemma idle_item k :
  k ∈ buckets →
  stamp <$> M !! string4 (idle_key k) = if decide (c_idle_cost (idle_cost_row k) = 0%Qc) then None else Some (item_of_row (idle_cost_row k)).
Proof.
  intros Hk. pose proof (idle_cost_nodes k Hk) as Hcost. destruct (idle_at (string4 (idle_key k))) as [[Hn ->]|(n & Hn & ->)].
  - rewrite no_idle_requests by done. rewrite Hn in Hcost. by rewrite decide_True.
  - rewrite decide_False.
    2:{ rewrite Hcost. apply not_eq_sym, Qclt_not_eq. apply qsum_pos.
        - intros He%fmap_nil_inv. rewrite He in Hn. by apply elem_of_nil in Hn.
        - intros x (m & -> & [[Ha _] Hm]%list_elem_of_filter)%list_elem_of_fmap. by apply idle_share_pos. }
    rewrite no_idle_requests by done. simpl. f_equal.
    apply list_elem_of_filter in Hn as [[_ Heq] Hn]. apply string4_inj in Heq; [|apply good_bucket, elem_of_keys; eauto|by apply good_bucket].
    destruct (first_node n Hn) as (u & Hu & <- & ->). destruct k as [[tn c] b]. injection Heq as <- <- <-.
    unfold stamp, idled, item_of_row. rewrite <- Hcost. cbn. replace (bool_decide _) with false by reflexivity.
    change (Q2Qc (inject_Z 0)) with (Q2Qc 0). f_equal; ring.
Qed.

(** *** The two lists *)

Definition entry_keys : list key4 := namespaces ++ (idle_key <$> buckets).
(** An item is shown unless it is an idle row of cost zero. *)
Definition shown (it : NamespaceCost Qc) : Prop := ¬ (C_NamespaceUID it = idleNamespaceUID ∧ IdleCost it = 0%Qc).
#[local] Instance shown_dec it : Decision (shown it) := _.

Lemma good_entry k : k ∈ entry_keys → good4 k.
Proof.
  intros [(u & Hu & <-)%elem_of_keys|(b & -> & Hb)%list_elem_of_fmap]%elem_of_app; [by apply good_namespace_key|by apply good_bucket].
Qed.
Lemma entry_keys_nodup : NoDup (string4 <$> entry_keys).
Proof.
  apply NoDup_fmap_2_strong; [intros x y Hx Hy; apply string4_inj; by apply good_entry|].
  apply NoDup_app. split; [apply NoDup_remove_dups|]. split.
  - intros k (u & Hu & <-)%elem_of_keys ([[tn c] b] & Heq & _)%list_elem_of_fmap. injection Heq as _ _ Heq _.
    by apply (usable_namespace _ (usage_usable u Hu)).
  - apply NoDup_fmap_2_strong; [|apply NoDup_remove_dups]. intros [[??]?] [[??]?] _ _ Heq. by injection Heq as -> -> ->.
Qed.
Lemma entry_keys_all K : is_Some (M !! K) → K ∈ string4 <$> entry_keys.
Proof.
  intros [it Hit]. unfold entry_keys. rewrite fmap_app, elem_of_app. destruct (idle_at K) as [[_ Hm]|(n & [[_ <-] Hn]%list_elem_of_filter & _)].
  - left. rewrite Hm, requests_at in Hit. destruct (filter _ us) as [|u l] eqn:Hf; [done|].
    assert (u ∈ filter (λ u, string4 (namespace_key u) = K) us) as [<- Hu]%list_elem_of_filter by (rewrite Hf; left).
    apply list_elem_of_fmap_2, elem_of_keys. eauto.
  - right. apply list_elem_of_fmap_2, list_elem_of_fmap_2, elem_of_keys. eauto.
Qed.
Lemma items_shown :
  stamp <$> omap (λ k, M !! k) (string4 <$> entry_keys) =
  filter shown (item_of_row <$> ((cost_of <$> namespaces) ++ (idle_cost_row <$> buckets))).
Proof.
  unfold entry_keys. rewrite !fmap_app, omap_app, fmap_app, filter_app. f_equal.
  - rewrite ListFacts.filter_all.
    + assert (∀ l : list key4, (∀ k, k ∈ l → k ∈ namespaces) → stamp <$> omap (λ k, M !! k) (string4 <$> l) = item_of_row <$> (cost_of <$> l)) as Hl; [|by apply Hl].
      induction l as [|k l IH]; intros Hin; [done|]. rewrite !fmap_cons. simpl. pose proof (namespace_item k (Hin k ltac:(left))) as Hk.
      destruct (M !! string4 k) as [it|]; [|done]. apply (inj Some) in Hk. rewrite fmap_cons, Hk. f_equal. apply IH. intros ??. apply Hin. by right.
    + intros it (r & -> & (k & -> & (u & Hu & <-)%elem_of_keys)%list_elem_of_fmap)%list_elem_of_fmap [Heq _].
      by apply (usable_namespace _ (usage_usable u Hu)).
  - assert (∀ l : list key3, (∀ k, k ∈ l → k ∈ buckets) → stamp <$> omap (λ k, M !! k) (string4 <$> (idle_key <$> l)) = filter shown (item_of_row <$> (idle_cost_row <$> l))) as Hl; [|by apply Hl].
    induction l as [|k l IH]; intros Hin; [done|]. rewrite !fmap_cons, filter_cons. simpl. pose proof (idle_item k (Hin k ltac:(left))) as Hk.
    specialize (IH (λ m Hm, Hin m (list_elem_of_further _ _ _ Hm))). destruct k as [[tn c] b]. destruct (decide (c_idle_cost _ = 0%Qc)) as [H0|H0] in Hk.
    + destruct (M !! _); [done|]. rewrite decide_False; [exact IH|]. intros Hs. by apply Hs.
    + destruct (M !! _) as [it|]; [|done]. apply (inj Some) in Hk. rewrite fmap_cons, Hk, decide_True; [f_equal; exact IH|]. intros [_ Hs]. by apply H0.
Qed.

Abbreviation all_rows := ((cost_of <$> namespaces) ++ (idle_cost_row <$> buckets)).
Definition row_key (r : cost_row Qc) : key4 := (c_tenant_id r, c_cluster_id r, c_namespace_uid r, c_bucket_start r).
Lemma row_keys : row_key <$> all_rows = entry_keys.
Proof.
  rewrite fmap_app. unfold entry_keys. f_equal; rewrite <- !list_fmap_compose.
  - trans (id <$> namespaces); [|apply list_fmap_id]. apply list_fmap_ext'. by intros [[[??]?]?] _.
  - apply list_fmap_ext'. by intros [[??]?] _.
Qed.
Lemma row_entry r : r ∈ all_rows → row_key r ∈ entry_keys ∧ c_tenant_id r = Q_TenantID q ∧ formattable (c_bucket_start r) ∧ c_bucket_start r mod Hour = 0.
Proof.
  intros Hr. assert (row_key r ∈ entry_keys) as Hk by (rewrite <- row_keys; by apply list_elem_of_fmap_2). split; [done|].
  pose proof (good_entry _ Hk) as (_ & _ & _ & Hb). split; [|done].
  apply elem_of_app in Hk as [(u & Hu & Hk)%elem_of_keys|(b & Hk & (n & (u & Hu & <-)%elem_of_keys & <-)%elem_of_keys)%list_elem_of_fmap].
  - injection Hk as <- _. apply (usable_tenant _ (usage_usable u Hu)).
  - injection Hk as -> _. apply (usable_tenant _ (usage_usable u Hu)).
Qed.
Lemma row_le_items x y : x ∈ all_rows → y ∈ all_rows → row_le x y → less_eq (item_of_row x) (item_of_row y).
Proof.
  intros (_ & _ & Fx & Hx)%row_entry (_ & _ & Fy & Hy)%row_entry. unfold row_le, less_eq, item_of_row.
  cbn [C_BucketStart C_ClusterID C_NamespaceUID].
  destruct (decide (c_bucket_start x = c_bucket_start y)) as [->|Hne]; [by rewrite (decide_True (P := Paths.rfc3339 _ = _))|]. intros Hle.
  assert (before (Paths.rfc3339 (c_bucket_start x)) (Paths.rfc3339 (c_bucket_start y))) as Hb.
  { apply rfc3339_before; [done..|]. unfold Hour, Minute in *. apply Z.mod_divide in Hx as [a Ea]; [|done]. apply Z.mod_divide in Hy as [b Eb]; [|done].
    rewrite Ea, Eb in Hle, Hne |- *. rewrite !Z.mul_assoc, !Z.div_mul by done. unfold Second in *. lia. }
  apply before_le in Hb as [Hb Hs]. by rewrite decide_False.
Qed.
Lemma item_determined x y :
  x ∈ all_rows → y ∈ all_rows → less_eq (item_of_row x) (item_of_row y) → less_eq (item_of_row y) (item_of_row x) → item_of_row x = item_of_row y.
Proof.
  intros Hx Hy Hxy Hyx. destruct (less_eq_antisymm _ _ Hxy Hyx) as (Hb & Hc & Hn). cbn [item_of_row C_BucketStart C_ClusterID C_NamespaceUID] in *.
  destruct (row_entry x Hx) as (Kx & Tx & _). destruct (row_entry y Hy) as (Ky & Ty & _).
  f_equal. assert (NoDup (row_key <$> all_rows)) as Hnd by (rewrite row_keys; eapply NoDup_fmap_1, entry_keys_nodup).
  apply list_elem_of_lookup in Hx as [i Hi], Hy as [j Hj].
  assert (row_key x = row_key y) as Heq.
  { apply string4_inj; [by apply good_entry..|]. unfold row_key, string4. by rewrite Tx, Ty, Hb, Hc, Hn. }
  assert (i = j) as ->; [|congruence]. eapply NoDup_lookup; [exact Hnd| |]; rewrite list_lookup_fmap; [rewrite Hi|rewrite Hj; simpl; rewrite <- Heq]; done.
Qed.
Lemma rows_allocated rows itemOrder :
  rows ≡ₚ all_rows → StronglySorted row_le rows → itemOrder ≡ₚ elements (dom M) →
  filter shown (item_of_row <$> rows) = allocateCosts rs options nodeOrder itemOrder.
Proof.
  intros Hrows Hsorted Horder. unfold allocateCosts. fold o.
  assert (stamp <$> omap (λ k, M !! k) itemOrder ≡ₚ filter shown (item_of_row <$> rows)) as Hp.
  { rewrite (omap_keys M _ _ Horder entry_keys_nodup entry_keys_all), items_shown. by rewrite Hrows. }
  symmetry. apply (sorted_perm_eq less_eq).
  - apply StronglySorted_merge_sort; apply _.
  - apply StronglySorted_filter_rel. apply (StronglySorted_map row_le); [|done].
    intros x y Hx Hy. rewrite Hrows in Hx, Hy. by apply row_le_items.
  - by rewrite merge_sort_Permutation.
  - intros x y. rewrite merge_sort_Permutation, Hp.
    intros [_ (r & -> & Hr)%list_elem_of_fmap]%list_elem_of_filter [_ (r' & -> & Hr')%list_elem_of_fmap]%list_elem_of_filter.
    rewrite Hrows in Hr, Hr'. by apply item_determined.
Qed.
End usage.

Lemma scan_all_rows rows : scan_all (select_row <$> rows) None = Ok (item_of_row <$> rows).
Proof. induction rows as [|r rows IH]; [done|]. rewrite !fmap_cons. cbn [scan_all]. by rewrite scan_row, IH. Qed.
Lemma statement_arguments q (options : AllocationOptions Qc) :
  let o := normalizeAllocationOptions options in
  prices (namespaceCostSQL q options).2 = [NodeHourlyCostUSD o; NetworkCostPerGiBUSD o; ControlPlaneHourlyCostUSD o; NodeHourlyCostUSD o] ∧
  bound_values (namespaceCostSQL q options).2 = (metricWhere q).2.
Proof. unfold namespaceCostSQL, metricWhere. by destruct (negb _). Qed.

(** C33: The allocation endpoint's statement computes what the engine's [allocateCosts]
    computes, in exact arithmetic, on tables that are [consistent] with the query: the
    requests in the window name nodes that the view of nodes knows, once each, and
    namespaces it knows at most once; identifiers have no NUL byte and are not the idle
    row's; amounts fit in 64 bits; and a system namespace has the name of one. (The
    statement leaves out usage of a node that the view lacks.) If the window is within the
    years 1 to 9999 and the database returns the rows of the statement the repository
    issues, with the prices bound to its placeholders in the order the repository binds
    them, then the answer of [NamespaceCosts] has, in the same order and with equal costs
    in every column, the items of [allocateCosts] for the window's requests per node and
    namespace; it differs only by idle rows of cost zero, which the statement emits and
    the engine does not. *)
Theorem statement_agrees db q0 now q (options : AllocationOptions Qc) query rows nodeOrder itemOrder :
  normalizeQuery q0 now = Ok q → 0 ≤ Q_Start q → Q_End q ≤ max_time → consistent db q →
  returns db (metricWhere q).1 (namespaceCostSQL q options).2 rows →
  query (namespaceCostSQL q options).1 (namespaceCostSQL q options).2 = Rows (select_row <$> rows) None →
  nodeOrder ≡ₚ elements (dom (nodeTotals (totals_of (requests_of db q)))) →
  itemOrder ≡ₚ elements (dom (namespaceCosts (requests_of db q) (normalizeAllocationOptions options) nodeOrder)) →
  ∃ result, NamespaceCosts options (NamespaceCosts_ query options) q0 now = Ok result ∧
    filter shown (Items result) = allocateCosts (requests_of db q) options nodeOrder itemOrder.
Proof.
  intros Hq H0 H1 Hdb Hrows Hquery Hn Hi. destruct (query_window _ _ _ Hq) as (_ & _ & Hhour & _).
  assert (NamespaceCosts_ query options q = Ok (item_of_row <$> rows)) as Hitems.
  { unfold NamespaceCosts_. destruct (namespaceCostSQL q options) as [sql args]. cbn [fst snd] in Hquery. by rewrite Hquery, scan_all_rows. }
  unfold NamespaceCosts. rewrite Hq. cbn [mbind res_bind]. rewrite Hitems.
  eexists. split; [reflexivity|]. cbn [Items].
  rewrite (Relational.list_fmap_ext' stamp id), list_fmap_id by (by intros ? (r & -> & _)%list_elem_of_fmap).
  unfold returns in Hrows. destruct (statement_arguments q options) as [Hp Hb]. rewrite Hp, Hb in Hrows. destruct Hrows as [Hrows Hsorted].
  change (usage db (metricWhere q).1 (metricWhere q).2) with (usage_of db q) in Hrows.
  rewrite allocated_keys, idle_keys in Hrows by done. by eapply rows_allocated.
Qed.

(** *** An hour of one namespace on one node *)

Definition sample_db : database := {|
  container_metrics_10s :=
    [{| m_tenant_id := "t"; m_cluster_id := "c"; m_node_uid := "n"; m_namespace_uid := "s"; m_bucket_start := unix_epoch + 10 * Minute;
        m_cpu_request_core_milliseconds := 1800000; m_network_rx_bytes := 10; m_network_tx_bytes := 20 |}];
  current_node := [{| n_tenant_id := "t"; n_cluster_id := "c"; n_node_uid := "n"; n_allocatable_cpu_millicores := 1000 |}];
  current_namespace := [{| ns_tenant_id := "t"; ns_cluster_id := "c"; ns_namespace_uid := "s"; ns_namespace_name := "shop" |}] |}.
Definition sample_query : Query := {| Q_TenantID := "t"; Q_ClusterID := ""; Q_Start := unix_epoch; Q_End := unix_epoch + Hour |}.
Lemma sample_consistent : consistent sample_db sample_query.
Proof.
  split; [by repeat constructor|reflexivity| | | | |by repeat constructor| |].
  1-3: intros m Hm _; apply list_elem_of_singleton in Hm as ->; cbn.
  - split_and!; apply no_nul_text; reflexivity.
  - done.
  - split; [done|left].
  - apply NoDup_singleton.
  - apply NoDup_singleton.
  - intros u Hu. assert (u ∈ usage_of sample_db sample_query → name_of sample_db u = "shop"%string ∧ u_namespace_uid u = "s"%string) as Hname.
    { unfold usage_of, usage. rewrite ListFacts.filter_all; [by intros ->%list_elem_of_singleton|].
      intros m ->%list_elem_of_singleton. apply in_query_spec. split; [done|]. split; [split; [intros Hlt|]; reflexivity || discriminate|]. done. }
    destruct (Hname Hu) as [-> ->]. discriminate.
Qed.
Definition sample_prices : AllocationOptions Qc :=
  {| NodeHourlyCostUSD := 0; ControlPlaneHourlyCostUSD := 0; NetworkCostPerGiBUSD := 0 |}%Qc.
Definition sample_rows : list (cost_row Qc) :=
  let o := normalizeAllocationOptions sample_prices in
  let us := usage_of sample_db sample_query in
  reverse (allocated sample_db us (NodeHourlyCostUSD o) (NetworkCostPerGiBUSD o) (ControlPlaneHourlyCostUSD o) ++ idle sample_db us (NodeHourlyCostUSD o)).
Lemma sample_sorted : StronglySorted row_le sample_rows.
Proof.
  assert ((λ r, (c_bucket_start r, c_cluster_id r, c_namespace_uid r)) <$> sample_rows = [(unix_epoch, "c", "__idle__"); (unix_epoch, "c", "s")]%string) as Hk
    by (vm_compute; reflexivity).
  destruct sample_rows as [|x [|y [|z l]]]; try discriminate. injection Hk as Hxb Hxc Hxn Hyb Hyc Hyn. repeat constructor.
  unfold row_le. rewrite Hxb, Hyb, Hxc, Hyc, Hxn, Hyn. by vm_compute.
Qed.
Lemma statement_agrees_witness :
  let nodeOrder := elements (dom (nodeTotals (totals_of (requests_of sample_db sample_query)))) in
  let itemOrder := elements (dom (namespaceCosts (requests_of sample_db sample_query) (normalizeAllocationOptions sample_prices) nodeOrder)) in
  ∃ result, NamespaceCosts sample_prices (NamespaceCosts_ (λ _ _, Rows (select_row <$> sample_rows) None) sample_prices) sample_query 0 = Ok result ∧
    filter shown (Items result) = allocateCosts (requests_of sample_db sample_query) sample_prices nodeOrder itemOrder.
Proof.
  intros nodeOrder itemOrder.
  apply (statement_agrees sample_db sample_query 0 sample_query sample_prices (λ _ _, Rows (select_row <$> sample_rows) None) sample_rows nodeOrder itemOrder).
  - vm_compute. reflexivity.
  - discriminate.
  - discriminate.
  - exact sample_consistent.
  - split; [apply reverse_Permutation|exact sample_sorted].
  - reflexivity.
  - reflexivity.
  - reflexivity.
Defined.
End Agreement.
