(* ===== verification/Karpenter.v ===== *)
(** * Reading Karpenter resources

    [services/integrations/reader.go] and [server.go]: node pools, node classes and node
    claims as the Kubernetes API lists them become the snapshot that is scored
    ([Scoring.v]). The clients, the accessors of unstructured objects and the parser of
    quantities are parameters with their documented behaviour. *)
From stdpp Require Import base option list gmap strings sorting.
From Stdlib Require Import ZArith Lia Ascii QArith Qcanon Lqa.
From S2P Require Import Prelude Proto Stores Http Allocation Recommendations Scoring.

Module Karpenter.
Import Strings StringFacts Http Allocation Recommendations Scoring.
Open Scope Z_scope.

(** ** JSON values as Go holds them *)

(** A float is its text, as [%v] prints it; the fields of a map have distinct names. *)
Inductive value :=
  | VNil
  | VBool (b : bool)
  | VInt (z : Z)
  | VFloat (text : string)
  | VText (s : string)
  | VSlice (l : list value)
  | VMap (m : list (string * value)).
Definition key_le (a b : string * string) : Prop := String.le a.1 b.1.
#[export] Instance key_le_dec a b : Decision (key_le a b) := String.le_dec a.1 b.1.
(** [fmt.Sprint]: maps are printed in the order of their keys *)
Fixpoint Sprint (v : value) : string :=
  match v with
  | VNil => "<nil>"
  | VBool b => if b then "true" else "false"
  | VInt z => dec z
  | VFloat text => text
  | VText s => s
  | VSlice l => "[" +:+ Join (map Sprint l) " " +:+ "]"
  | VMap m =>
      "map[" +:+ Join (map (λ e, e.1 +:+ ":" +:+ e.2) (merge_sort key_le (map (λ '(k, x), (k, Sprint x)) m))) " " +:+ "]"
  end.
(** Indexing a map of values: a missing key gives nil. *)
Definition field (m : list (string * value)) (key : string) : value :=
  default VNil (snd <$> find (λ e, (e.1 =? key)%string) m).

(** ** The libraries the reader uses *)

(** Objects: [unstructured.NestedFieldNoCopy], which finds a value or not, the typed
    variants, which find it only with their type, and the accessors *)
Class Unstructured := {
  NestedField : value → list string → option value;
  NestedString : value → list string → string * bool;
  NestedInt64 : value → list string → Z;
  NestedSlice : value → list string → list value;
  GetName : value → string;
  GetUID : value → string;
  GetAPIVersion : value → string;
  GetLabels : value → gmap string string
}.
Class UnstructuredLaws (U : Unstructured) := {
  nested_string o fields : NestedString o fields = match NestedField o fields with Some (VText s) => (s, true) | _ => (EmptyString, false) end
}.
(** Quantities: [resource.ParseQuantity] and the values in thousandths and in units *)
Class Quantities := {
  quantity : Type;
  ParseQuantity : string → option quantity;
  MilliValue : quantity → Z;
  Value : quantity → Z;
  IsZero_ : quantity → bool
}.

(** ** Parsing *)

Section reader.
Context `{!Unstructured} `{!Quantities} {F : Type} `{Arith F} `{Rounding F}.

Record nodeMetric := { cpuCapacity : Z; memoryCapacity : Z }.

Definition firstString (values : list string) : string := default EmptyString (head (filter (λ v, v ≠ EmptyString) values)).
Definition firstUint64 (values : list Z) : Z := default 0 (head (filter (λ v, v ≠ 0) values)).
Definition label (item : value) (key : string) : string := default EmptyString (GetLabels item !! key).
Definition nestedString (object : value) (fields : list string) : string := (NestedString object fields).1.
Definition nestedInt64 (object : value) (fields : list string) : Z := NestedInt64 object fields.

Definition parseQuantity (value : string) : Z :=
  if (TrimSpace value =? "")%string then 0
  else
    match ParseQuantity value with
    | Some q =>
        if HasSuffix value "m" then u64 (MilliValue q)
        else if Contains value "i" || Contains value "E" || Contains value "G" || Contains value "M" || Contains value "K"
        then u64 (Value q)
        else u64 (MilliValue q)
    | None =>
        match Strconv.ParseUint value with
        | Some parsed => if parsed <? two64 then parsed else 0
        | None => 0
        end
    end.
Definition quantityAt (object : value) (fields : list string) : Z :=
  let '(text, exists_) := NestedString object fields in
  if exists_ then parseQuantity text
  else match NestedField object fields with None => 0 | Some raw => parseQuantity (Sprint raw) end.
Definition quantityMilli (q : quantity) : Z := if IsZero_ q then 0 else u64 (MilliValue q).
Definition quantityValue (q : quantity) : Z := if IsZero_ q then 0 else u64 (Value q).
Definition percent (numerator denominator : Z) : F :=
  if denominator =? 0 then of_Z 0 else roundScore (mul (div (of_Z numerator) (of_Z denominator)) (of_Z 100)).

Definition requirementValues (requirements : list value) (key : string) : list string :=
  merge_sort String.le
    (entry ← requirements;
     match entry with
     | VMap requirement =>
         if (Sprint (field requirement "key") =? key)%string
         then match field requirement "values" with VSlice values => Sprint <$> values | _ => [] end
         else []
     | _ => []
     end).
Definition selectorTerms (object : value) (fields : list string) : list string :=
  merge_sort String.le (Sprint <$> NestedSlice object fields).
Definition consolidationEnabled (object : value) : bool :=
  let policy := nestedString object ["spec"; "disruption"; "consolidationPolicy"]%string in
  negb (policy =? "")%string && negb (policy =? "Never")%string.
Definition conditionTrue (object : value) (conditionType : string) : bool :=
  existsb (λ entry, match entry with
                    | VMap condition => (Sprint (field condition "type") =? conditionType)%string && (Sprint (field condition "status") =? "True")%string
                    | _ => false
                    end) (NestedSlice object ["status"; "conditions"]%string).

Definition parseNodePool (item : value) : NodePool :=
  let requirements := NestedSlice item ["spec"; "template"; "spec"; "requirements"]%string in {|
  Pool_Name := GetName item;
  Pool_UID := GetUID item;
  Pool_NodeClassName := firstString [nestedString item ["spec"; "template"; "spec"; "nodeClassRef"; "name"]; nestedString item ["spec"; "nodeClassRef"; "name"]]%string;
  CapacityTypes := requirementValues requirements "karpenter.sh/capacity-type";
  InstanceCategories := requirementValues requirements "karpenter.k8s.aws/instance-category";
  InstanceTypes := requirementValues requirements "node.kubernetes.io/instance-type";
  Zones := requirementValues requirements "topology.kubernetes.io/zone";
  Architectures := requirementValues requirements "kubernetes.io/arch";
  Consolidation := consolidationEnabled item;
  Weight := nestedInt64 item ["spec"; "weight"]%string |}.
Definition parseNodeClass (item : value) : NodeClass := {|
  Class_Name := GetName item;
  Class_UID := GetUID item;
  Class_APIVersion := GetAPIVersion item;
  Subnets := selectorTerms item ["spec"; "subnetSelectorTerms"]%string;
  SecurityGroups := selectorTerms item ["spec"; "securityGroupSelectorTerms"]%string;
  AMIFamily := nestedString item ["spec"; "amiFamily"]%string;
  Class_Role := nestedString item ["spec"; "role"]%string |}.
(** A nil map of metrics reads as the empty one. *)
Definition parseNodeClaim (item : value) (nodeMetrics : gmap string nodeMetric) : NodeClaim (F := F) :=
  let nodeName := firstString [nestedString item ["status"; "nodeName"]; nestedString item ["status"; "node"]]%string in
  let metric := default {| cpuCapacity := 0; memoryCapacity := 0 |} (nodeMetrics !! nodeName) in
  let cpu := firstUint64 [quantityAt item ["status"; "capacity"; "cpu"]%string; cpuCapacity metric] in
  let memory := firstUint64 [quantityAt item ["status"; "capacity"; "memory"]%string; memoryCapacity metric] in
  let cpuRequested := quantityAt item ["status"; "resources"; "requests"; "cpu"]%string in
  let memoryRequested := quantityAt item ["status"; "resources"; "requests"; "memory"]%string in {|
  Claim_Name := GetName item;
  Claim_UID := GetUID item;
  NodePoolName := firstString [label item "karpenter.sh/nodepool"; nestedString item ["spec"; "nodePoolName"]%string];
  Claim_NodeClassName := firstString [nestedString item ["spec"; "nodeClassRef"; "name"]%string; label item "karpenter.k8s.aws/ec2nodeclass"];
  Claim_NodeName := nodeName;
  CapacityType := label item "karpenter.sh/capacity-type";
  InstanceType := label item "node.kubernetes.io/instance-type";
  Zone := label item "topology.kubernetes.io/zone";
  Architecture := label item "kubernetes.io/arch";
  Ready := conditionTrue item "Ready";
  CPUCapacityMillicores := cpu;
  MemoryCapacityBytes := memory;
  CPURequestedMillicores := cpuRequested;
  MemoryRequestedBytes := memoryRequested;
  CPUUtilizationPercent := percent cpuRequested cpu;
  MemoryUtilizationPercent := percent memoryRequested memory |}.

(** ** The reader *)

Record GroupVersionResource := { Group : string; Version : string; Resource : string }.
(** A node's name and its CPU and memory capacity *)
Record core_node := { core_name : string; core_cpu : quantity; core_memory : quantity }.
(** The answers of the API server, and the order in which equal names are sorted *)
Record cluster := {
  ListResource : GroupVersionResource → res string (list value);
  ListNodes : res string (list core_node);
  ties : ∀ A, list A → list A
}.
Definition by_name {A} (name : A → string) (a b : A) : Prop := String.ltb (name b) (name a) = false.
#[local] Instance by_name_dec {A} (name : A → string) a b : Decision (by_name name a b) := decide (_ = _).
Definition sorted_by {A} (c : cluster) (name : A → string) (l : list A) : list A := merge_sort (by_name name) (ties c A l).

Definition nodePools (c : cluster) : res string (list NodePool) :=
  match ListResource c {| Group := "karpenter.sh"; Version := "v1"; Resource := "nodepools" |} with
  | Err e => Err ("list Karpenter NodePools: " +:+ e)
  | Ok items => Ok (sorted_by c Pool_Name (parseNodePool <$> items))
  end.
Definition nodeMetrics (c : cluster) : gmap string nodeMetric :=
  match ListNodes c with
  | Err _ => ∅
  | Ok nodes =>
      foldl (λ metrics node, <[core_name node := {| cpuCapacity := quantityMilli (core_cpu node); memoryCapacity := quantityValue (core_memory node) |}]> metrics)
        ∅ nodes
  end.
Definition nodeClaims (c : cluster) : res string (list (NodeClaim (F := F))) :=
  match ListResource c {| Group := "karpenter.sh"; Version := "v1"; Resource := "nodeclaims" |} with
  | Err e => Err ("list Karpenter NodeClaims: " +:+ e)
  | Ok items => Ok (sorted_by c Claim_Name ((λ item, parseNodeClaim item (nodeMetrics c)) <$> items))
  end.
Definition class_resources : list GroupVersionResource :=
  [{| Group := "karpenter.k8s.aws"; Version := "v1"; Resource := "ec2nodeclasses" |};
   {| Group := "karpenter.azure.com"; Version := "v1"; Resource := "aksnodeclasses" |}].
Definition nodeClasses (c : cluster) : list NodeClass :=
  sorted_by c Class_Name
    (gvr ← class_resources; match ListResource c gvr with Err _ => [] | Ok items => parseNodeClass <$> items end).
Definition Snapshot_ (c : cluster) (clusterID : string) (now : Time) : res string (Snapshot (F := F)) :=
  pools ← nodePools c;
  claims ← nodeClaims c;
  mret {| Snap_ClusterID := clusterID; Snap_GeneratedAt := now; NodePools := pools; NodeClasses := nodeClasses c; NodeClaims := claims |}.

(** ** The endpoints *)

Definition health : Z * string := (StatusOK, "ok"%string).
Definition snapshot (c : cluster) (clusterID : string) (now : Time) : Z * (Snapshot (F := F) + string) :=
  match Snapshot_ c clusterID now with
  | Err _ => (StatusInternalServerError, inr "read Karpenter snapshot failed"%string)
  | Ok s => (StatusOK, inl s)
  end.
Definition scores (c : cluster) (clusterID : string) (now now' : Time) : Z * (Scores (F := F) + string) :=
  match Snapshot_ c clusterID now with
  | Err _ => (StatusInternalServerError, inr "read Karpenter snapshot failed"%string)
  | Ok s => (StatusOK, inl (Score (ties c _) now' s))
  end.

(** ** Reading a cluster *)

#[local] Instance by_name_total {A} (name : A → string) : Total (by_name name).
Proof.
  intros a b. unfold by_name, String.ltb. rewrite (String.compare_antisym (name b) (name a)). destruct (String.compare _ _); simpl; auto.
Qed.
Lemma sorted_by_spec {A} c (name : A → string) l : (∀ A l, ties c A l ≡ₚ l) → Sorted (by_name name) (sorted_by c name l) ∧ sorted_by c name l ≡ₚ l.
Proof. intros Ht. unfold sorted_by. split; [apply Sorted_merge_sort; apply _|by rewrite merge_sort_Permutation]. Qed.
Lemma nodeClasses_spec c :
  (∀ A l, ties c A l ≡ₚ l) →
  Sorted (by_name Class_Name) (nodeClasses c) ∧
  nodeClasses c ≡ₚ parseNodeClass <$> (gvr ← class_resources; match ListResource c gvr with Err _ => [] | Ok items => items end).
Proof.
  intros Ht. unfold nodeClasses. match goal with |- context [sorted_by c Class_Name ?l] => destruct (sorted_by_spec c Class_Name l Ht) as [Hs Hp] end.
  split; [done|]. rewrite Hp. cbn. destruct (ListResource c _), (ListResource c _); simpl; by rewrite ?app_nil_r, ?fmap_app.
Qed.

Abbreviation pools_resource := {| Group := "karpenter.sh"; Version := "v1"; Resource := "nodepools" |}.
Abbreviation claims_resource := {| Group := "karpenter.sh"; Version := "v1"; Resource := "nodeclaims" |}.

(** *** What a score says *)

(** The claim names the pool: by its label, or if that is missing or empty, in its
    specification. *)
Definition names_pool (name : string) (item : value) : Prop :=
  let named := GetLabels item !! "karpenter.sh/nodepool"%string in
  (named = Some name ∧ name ≠ EmptyString) ∨
  ((named = None ∨ named = Some EmptyString) ∧ (NestedString item ["spec"; "nodePoolName"]%string).1 = name).
#[local] Instance names_pool_dec name item : Decision (names_pool name item).
Proof. unfold names_pool. apply _. Defined.
Lemma NodePoolName_names item metrics name :
  NodePoolName (parseNodeClaim item metrics) = name ↔ names_pool name item.
Proof.
  simpl. unfold firstString, names_pool, label, nestedString.
  destruct (GetLabels item !! _) as [[|c l]|]; simpl; destruct (NestedString item _).1 as [|c' t]; simpl; naive_solver.
Qed.
Lemma own_claims metrics name (claims : list value) :
  filter (λ claim, NodePoolName claim = name) ((λ item, parseNodeClaim item metrics) <$> claims) =
  (λ item, parseNodeClaim item metrics) <$> filter (names_pool name) claims.
Proof.
  induction claims as [|item claims IH]; [done|]. rewrite fmap_cons, !filter_cons.
  pose proof (NodePoolName_names item metrics name) as Hn. repeat case_decide; rewrite ?fmap_cons, IH; tauto.
Qed.
(** The mean over some claims of numbers between 0 and 1, in percent *)
Definition mean (part : NodeClaim (F := F) → F) (claims : list NodeClaim) : F :=
  if decide (claims = []) then of_Z 0
  else score100 (div (sum (part <$> claims)) (of_Z (Z.of_nat (length claims)))).
(** The part of a claim's capacity that is requested, and the part that is used: the
    utilisation it reports, or if that is zero, what is requested *)
Definition halves (cpu memory : F) : F := clamp01 (div (add cpu memory) (of_Z 2)).
Definition requested (claim : NodeClaim (F := F)) : F :=
  halves (ratio (CPURequestedMillicores claim) (CPUCapacityMillicores claim))
    (ratio (MemoryRequestedBytes claim) (MemoryCapacityBytes claim)).
Definition reported (percentage : F) (otherwise : F) : F :=
  if is_zero (div percentage (of_Z 100)) then otherwise else div percentage (of_Z 100).
Definition used (claim : NodeClaim (F := F)) : F :=
  halves (reported (CPUUtilizationPercent claim) (ratio (CPURequestedMillicores claim) (CPUCapacityMillicores claim)))
    (reported (MemoryUtilizationPercent claim) (ratio (MemoryRequestedBytes claim) (MemoryCapacityBytes claim))).
(** The score of a listed pool from its claims *)
Record scored (pool : value) (claims : list NodeClaim) (p : NodePoolScore (F := F)) : Prop := {
  scored_name : Score_NodePoolName p = GetName pool;
  scored_count : NodeClaimCount p = Z.of_nat (length claims);
  scored_ready : ReadyNodeClaimCount p = Z.of_nat (length (filter (λ claim, Ready claim = true) claims));
  scored_packing : BinPackingScore p = mean requested claims;
  scored_utilization : NodeUtilizationScore p = mean used (filter (λ claim, Ready claim = true) claims);
  scored_spot : SpotSuitabilityScore p = spotSuitabilityScore (parseNodePool pool)
}.
Lemma scoreNodePool_scored pool claims : scored pool claims (scoreNodePool (parseNodePool pool) claims).
Proof.
  split; simpl; try done.
  - by destruct claims.
  - unfold nodeUtilizationScore, mean. by destruct (filter _ claims).
Qed.

(** C34: the snapshot and the scores of a cluster. Both endpoints fail exactly if the node
    pools or the node claims cannot be listed; unreadable node classes and nodes only
    leave theirs out. Otherwise the snapshot has, in name order, one entry per listed
    object, and the scores have, in name order, one entry per listed pool. The counts, the
    bin packing and the utilization of an entry are computed from exactly the listed
    claims whose label (or else specification) names the pool, taken in the order of the
    snapshot: the means of what the claims request, and of what the ready ones use. *)
Theorem cluster_read c clusterID now now' :
  (∀ A l, ties c A l ≡ₚ l) →
  match ListResource c pools_resource, ListResource c claims_resource with
  | Ok pools, Ok claims =>
      let read := (λ item, parseNodeClaim item (nodeMetrics c)) in
      ∃ s sc, snapshot c clusterID now = (StatusOK, inl s) ∧ scores c clusterID now now' = (StatusOK, inl sc) ∧
        Snap_ClusterID s = clusterID ∧
        Sorted (by_name Pool_Name) (NodePools s) ∧ NodePools s ≡ₚ parseNodePool <$> pools ∧
        Sorted (by_name Claim_Name) (NodeClaims s) ∧ NodeClaims s ≡ₚ read <$> claims ∧
        Sorted (by_name Class_Name) (NodeClasses s) ∧
        NodeClasses s ≡ₚ parseNodeClass <$> (gvr ← class_resources; match ListResource c gvr with Err _ => [] | Ok items => items end) ∧
        Sorted name_before (Scores_NodePools sc) ∧
        ∃ entries, Scores_NodePools sc ≡ₚ entries ∧
          Forall2 (λ pool p, ∃ own, own `sublist_of` NodeClaims s ∧
            own ≡ₚ read <$> filter (names_pool (GetName pool)) claims ∧ scored pool own p) pools entries
  | _, _ => (snapshot c clusterID now).1 = StatusInternalServerError ∧ (scores c clusterID now now').1 = StatusInternalServerError
  end.
Proof.
  intros Ht. unfold snapshot, scores, Snapshot_, nodePools, nodeClaims.
  destruct (ListResource c pools_resource) as [pools|e]; [|done]. destruct (ListResource c claims_resource) as [claims|e]; [|done]. cbn.
  destruct (sorted_by_spec c Pool_Name (parseNodePool <$> pools) Ht) as [Sp Pp].
  destruct (sorted_by_spec c Claim_Name ((λ item, parseNodeClaim item (nodeMetrics c)) <$> claims) Ht) as [Sc Pc].
  destruct (nodeClasses_spec c Ht) as [Sk Pk].
  eexists _, _. do 2 (split; [reflexivity|]). cbn [Snap_ClusterID NodePools NodeClaims NodeClasses].
  do 7 (split; [done|]). split; [apply Sorted_merge_sort; apply _|].
  set (all := sorted_by c Claim_Name _) in *.
  exists ((λ pool, scoreNodePool pool (filter (λ c, NodePoolName c = Pool_Name pool) all)) <$> (parseNodePool <$> pools)). split.
  - rewrite Score_pools by (intros; apply Ht). cbn [NodePools NodeClaims]. by rewrite Pp.
  - rewrite <- list_fmap_compose. apply Forall2_fmap_r, Forall_Forall2_diag, Forall_true. intros pool.
    exists (filter (λ c, NodePoolName c = GetName pool) all). split; [apply sublist_filter|].
    split; [|apply scoreNodePool_scored]. by rewrite Pc, own_claims.
Qed.

End reader.

(** ** Units *)

(** Canonical quantities of CPU and of memory, and what they mean *)
Inductive cpu_amount := Cores (n : Z) | Millicores (n : Z).
Definition cpu_text (a : cpu_amount) : string := match a with Cores n => dec n | Millicores n => dec n +:+ "m" end.
Definition millicores (a : cpu_amount) : Z := match a with Cores n => n * 1000 | Millicores n => n end.
Definition binary_suffixes : list (string * Z) :=
  [("Ki", 2 ^ 10); ("Mi", 2 ^ 20); ("Gi", 2 ^ 30); ("Ti", 2 ^ 40); ("Pi", 2 ^ 50); ("Ei", 2 ^ 60)]%string.
Definition memory_text (n : Z) (suffix : string * Z) : string := dec n +:+ suffix.1.
Definition bytes (n : Z) (suffix : string * Z) : Z := n * suffix.2.

(** What [resource.ParseQuantity] is documented to read *)
Class QuantityLaws (Q : Quantities) := {
  cores_quantity n : 0 ≤ n → n * 1000 < two63 → ∃ q, ParseQuantity (dec n) = Some q ∧ MilliValue q = n * 1000;
  milli_quantity n : 0 ≤ n → n < two63 → ∃ q, ParseQuantity (dec n +:+ "m") = Some q ∧ MilliValue q = n;
  binary_quantity n suffix : suffix ∈ binary_suffixes → 0 ≤ n → bytes n suffix < two63 →
    ∃ q, ParseQuantity (memory_text n suffix) = Some q ∧ Value q = bytes n suffix
}.

Lemma has_byte_substring c n m s : has_byte c (String.substring n m s) = true → has_byte c s = true.
Proof.
  unfold has_byte. revert n m. induction s as [|d s IH]; intros [|n] [|m]; simpl; try done.
  - intros [->|Hs]%orb_true_iff; [done|]. rewrite (IH 0%nat m Hs). apply orb_true_r.
  - intros Hs. rewrite (IH n 0%nat Hs). apply orb_true_r.
  - intros Hs. rewrite (IH n (S m) Hs). apply orb_true_r.
Qed.
Lemma HasSuffix_absent s p c : has_byte c s = false → has_byte c p = true → HasSuffix s p = false.
Proof.
  intros Hs Hp. unfold HasSuffix. destruct (String.eqb_spec (String.substring (String.length s - String.length p) (String.length p) s) p) as [Heq|];
    [|apply andb_false_r].
  assert (has_byte c s = true) as Ht; [|congruence]. eapply has_byte_substring. by rewrite Heq.
Qed.
Lemma suffix_substring a b : String.substring (String.length a) (String.length b) (a +:+ b) = b.
Proof.
  induction a as [|c a IH].
  - change (EmptyString +:+ b) with b. simpl. induction b as [|d b IH]; [done|]. simpl. by rewrite IH.
  - rewrite string_app_cons. exact IH.
Qed.
Lemma HasSuffix_suffix a b : HasSuffix (a +:+ b) b = true.
Proof.
  unfold HasSuffix. assert (String.length (a +:+ b) = String.length a + String.length b)%nat as ->
    by (by rewrite <- !length_list_ascii, Stores.Auth.list_ascii_app, length_app).
  replace (String.length a + String.length b - String.length b)%nat with (String.length a) by lia. rewrite suffix_substring, String.eqb_refl, andb_true_r.
  apply Nat.leb_le. lia.
Qed.
Lemma dec_not_blank n s : visible_string s = true → (TrimSpace (dec n +:+ s) =? "")%string = false.
Proof.
  intros Hs. rewrite TrimSpace_visible.
  - pose proof (Stores.Paths.dec_nonempty n). by destruct (dec n).
  - unfold visible_string. rewrite Stores.Auth.list_ascii_app, forallb_app. apply andb_true_iff. split; [apply dec_visible|done].
Qed.

Section units.
Context `{!Unstructured} `{!UnstructuredLaws _} `{!Quantities} `{!QuantityLaws _}.
Lemma parse_cpu a : 0 ≤ millicores a → millicores a < two63 → parseQuantity (cpu_text a) = millicores a.
Proof.
  intros Hlo Hhi. unfold parseQuantity. destruct a as [n|n]; cbn [cpu_text millicores] in *.
  - rewrite <- (string_app_nil_r (dec n)) at 1. rewrite dec_not_blank by done. destruct (cores_quantity n) as (q & -> & ->); [lia|done|].
    rewrite (HasSuffix_absent _ _ "m") by (by apply has_byte_dec || done). rewrite !Contains_absent by (by apply has_byte_dec). apply u64_id. unfold is_u64. unfold two63, two64 in *. lia.
  - rewrite dec_not_blank by done. destruct (milli_quantity n) as (q & -> & ->); [done..|]. rewrite HasSuffix_suffix. apply u64_id. unfold is_u64, two63, two64 in *. lia.
Qed.
Lemma parse_memory n suffix : suffix ∈ binary_suffixes → 0 ≤ n → bytes n suffix < two63 → parseQuantity (memory_text n suffix) = bytes n suffix.
Proof.
  intros Hs Hlo Hhi. destruct (binary_quantity n suffix Hs Hlo Hhi) as (q & Hq & Hv). unfold parseQuantity. rewrite Hq, Hv.
  assert (visible_string suffix.1 = true ∧ has_byte "m" suffix.1 = false ∧ Contains suffix.1 "i" = true ∧ 0 < suffix.2) as (Hvis & Hm & Hi & Hpos).
  { unfold binary_suffixes in Hs. repeat (apply elem_of_cons in Hs as [->|Hs]; [done|]). by apply elem_of_nil in Hs. }
  unfold memory_text in *. rewrite dec_not_blank by done. rewrite (HasSuffix_absent _ _ "m") by (rewrite ?has_byte_app, ?Hm, ?has_byte_dec by done; done).
  rewrite Contains_skip by (by apply has_byte_dec). rewrite Hi. apply u64_id. unfold is_u64, bytes, two63, two64 in *. nia.
Qed.
Lemma quantity_text item fields text : NestedField item fields = Some (VText text) → quantityAt item fields = parseQuantity text.
Proof. intros Hf. unfold quantityAt. by rewrite nested_string, Hf. Qed.
Lemma quantity_missing item fields : NestedField item fields = None → quantityAt item fields = 0.
Proof. intros Hf. unfold quantityAt. by rewrite nested_string, Hf. Qed.

(** The amounts a claim reports, the capacity perhaps not *)
Record amounts := {
  cpu_capacity : option cpu_amount;
  memory_capacity : option (Z * (string * Z));
  cpu_requests : cpu_amount;
  memory_requests : Z * (string * Z)
}.
Definition reports (item : value) (a : amounts) : Prop :=
  NestedField item ["status"; "capacity"; "cpu"]%string = VText ∘ cpu_text <$> cpu_capacity a ∧
  NestedField item ["status"; "capacity"; "memory"]%string = VText ∘ uncurry memory_text <$> memory_capacity a ∧
  NestedField item ["status"; "resources"; "requests"; "cpu"]%string = Some (VText (cpu_text (cpu_requests a))) ∧
  NestedField item ["status"; "resources"; "requests"; "memory"]%string = Some (VText (uncurry memory_text (memory_requests a))).
Definition cpu_fits (a : cpu_amount) : Prop := 0 ≤ millicores a < two63.
Definition memory_fits (m : Z * (string * Z)) : Prop := m.2 ∈ binary_suffixes ∧ 0 ≤ m.1 ∧ uncurry bytes m < two63.
Definition amounts_fit (a : amounts) : Prop :=
  from_option (λ c, cpu_fits c ∧ 0 < millicores c) True (cpu_capacity a) ∧
  from_option (λ m, memory_fits m ∧ 0 < uncurry bytes m) True (memory_capacity a) ∧
  cpu_fits (cpu_requests a) ∧ memory_fits (memory_requests a).
Definition metric_of (metrics : gmap string nodeMetric) (name : string) : nodeMetric :=
  default {| cpuCapacity := 0; memoryCapacity := 0 |} (metrics !! name).
Lemma firstUint64_first x y : 0 < x → firstUint64 [x; y] = x.
Proof. intros Hx. unfold firstUint64. rewrite filter_cons_True by lia. done. Qed.
Lemma firstUint64_second y : firstUint64 [0; y] = y.
Proof. unfold firstUint64. rewrite filter_cons_False by lia. rewrite filter_cons. case_decide; [done|]. rewrite filter_nil. simpl. lia. Qed.
Lemma percent_within n d : 0 ≤ n ≤ d → within 0 100 (percent n d : Qc).
Proof.
  intros [Hn Hd]. unfold percent. destruct (Z.eqb_spec d 0) as [|Hne]; [by apply zero_within|]. apply roundScore_within; [done|].
  unfold within. rewrite value_mul, value_div, !value_of_Z. change (inject_Z 0) with 0%Q. change (inject_Z 100) with 100%Q.
  assert (0 <= inject_Z n)%Q as Q1 by (change 0%Q with (inject_Z 0); by rewrite <- Zle_Qle).
  assert (inject_Z n <= inject_Z d)%Q as Q2 by (by rewrite <- Zle_Qle).
  assert (0 < inject_Z d)%Q as Q3 by (change 0%Q with (inject_Z 0); rewrite <- Zlt_Qlt; lia).
  assert (0 <= inject_Z n / inject_Z d)%Q by (apply Qle_shift_div_l; [done|]; by rewrite Qmult_0_l).
  assert (inject_Z n / inject_Z d <= 1)%Q by (apply Qle_shift_div_r; [done|]; by rewrite Qmult_1_l). split; lra.
Qed.

(** The units of a claim. From canonical quantities - cores or [m] for CPU, a binary
    suffix for memory - a claim is read with millicores and bytes; a capacity that the
    claim does not report is the one of its node; and, in exact arithmetic, the
    utilisations of requests that fit the capacity are percentages between 0 and 100. *)
Theorem claim_units item metrics a :
  reports item a → amounts_fit a →
  let claim := parseNodeClaim (F := Qc) item metrics in
  let metric := metric_of metrics (Claim_NodeName claim) in
  CPUCapacityMillicores claim = default (cpuCapacity metric) (millicores <$> cpu_capacity a) ∧
  MemoryCapacityBytes claim = default (memoryCapacity metric) (uncurry bytes <$> memory_capacity a) ∧
  CPURequestedMillicores claim = millicores (cpu_requests a) ∧
  MemoryRequestedBytes claim = uncurry bytes (memory_requests a) ∧
  (CPURequestedMillicores claim ≤ CPUCapacityMillicores claim → within 0 100 (CPUUtilizationPercent claim)) ∧
  (MemoryRequestedBytes claim ≤ MemoryCapacityBytes claim → within 0 100 (MemoryUtilizationPercent claim)).
Proof.
  intros (Hcc & Hmc & Hcr & Hmr) (Fcc & Fmc & [Fcr Fcr'] & Fmr & Fmr' & Fmr''). unfold parseNodeClaim.
  cbn [CPUCapacityMillicores MemoryCapacityBytes CPURequestedMillicores MemoryRequestedBytes CPUUtilizationPercent MemoryUtilizationPercent Claim_NodeName].
  rewrite (quantity_text _ _ _ Hcr), (quantity_text _ _ _ Hmr), parse_cpu by done.
  destruct (memory_requests a) as [n suffix]. cbn [uncurry fst snd] in *. rewrite parse_memory by done.
  assert (0 ≤ bytes n suffix) as Hb by (unfold binary_suffixes in Fmr; repeat (apply elem_of_cons in Fmr as [->|Fmr]; [unfold bytes; simpl; lia|]); by apply elem_of_nil in Fmr).
  split; [|split; [|split_and!; [done|done|intros ?; by apply percent_within..]]].
  - destruct (cpu_capacity a) as [c|]; simpl in *.
    + destruct Fcc as [[??] ?]. rewrite (quantity_text _ _ _ Hcc), parse_cpu by done. by apply firstUint64_first.
    + rewrite (quantity_missing _ _ Hcc). apply firstUint64_second.
  - destruct (memory_capacity a) as [[m sfx]|]; simpl in *.
    + destruct Fmc as [(?&?&?) ?]. rewrite (quantity_text _ _ _ Hmc), parse_memory by done. by apply firstUint64_first.
    + rewrite (quantity_missing _ _ Hmc). apply firstUint64_second.
Qed.
(** Memory without a suffix is bytes, but it is read as if it were thousandths. *)
Lemma plain_memory_thousandfold {F} `{Arith F} `{Rounding F} item metrics n :
  0 ≤ n → n * 1000 < two63 → NestedField item ["status"; "resources"; "requests"; "memory"]%string = Some (VText (dec n)) →
  MemoryRequestedBytes (parseNodeClaim (F := F) item metrics) = n * 1000.
Proof.
  intros Hn Hb Hf. unfold parseNodeClaim. cbn [MemoryRequestedBytes]. rewrite (quantity_text _ _ _ Hf). by apply (parse_cpu (Cores n)); simpl; [lia|].
Qed.
End units.

(** ** A cluster *)

Module Sample.
Fixpoint nested (v : value) (fields : list string) : option value :=
  match fields with
  | [] => Some v
  | f :: fields' =>
      match v with
      | VMap m => match find (λ e, (e.1 =? f)%string) m with Some (_, x) => nested x fields' | None => None end
      | _ => None
      end
  end.
Definition text_at (v : value) (fields : list string) : string * bool :=
  match nested v fields with Some (VText s) => (s, true) | _ => (EmptyString, false) end.
#[local] Instance objects : Unstructured := {|
  NestedField := nested;
  NestedString := text_at;
  NestedInt64 v fields := match nested v fields with Some (VInt z) => z | _ => 0 end;
  NestedSlice v fields := match nested v fields with Some (VSlice l) => l | _ => [] end;
  GetName v := (text_at v ["metadata"; "name"]%string).1;
  GetUID v := (text_at v ["metadata"; "uid"]%string).1;
  GetAPIVersion v := (text_at v ["apiVersion"]%string).1;
  GetLabels v :=
    match nested v ["metadata"; "labels"]%string with
    | Some (VMap m) => list_to_map (omap (λ e, match e.2 with VText s => Some (e.1, s) | _ => None end) m)
    | _ => ∅
    end |}.
#[local] Instance objects_laws : UnstructuredLaws objects.
Proof. split. intros o fields. simpl. unfold text_at. repeat case_match; congruence. Qed.

(** Quantities as their thousandths *)
Definition strip (s suffix : string) : string := String.substring 0 (String.length s - String.length suffix) s.
Definition parse (s : string) : option Z :=
  if HasSuffix s "m" then Strconv.ParseUint (strip s "m")
  else
    match find (λ e, HasSuffix s e.1) binary_suffixes with
    | Some (suffix, factor) => (λ n, n * factor * 1000) <$> Strconv.ParseUint (strip s suffix)
    | None => (λ n, n * 1000) <$> Strconv.ParseUint s
    end.
#[local] Instance thousandths : Quantities :=
  {| quantity := Z; ParseQuantity := parse; MilliValue q := q; Value q := q / 1000; IsZero_ q := q =? 0 |}.
Lemma strip_app a b : strip (a +:+ b) b = a.
Proof.
  unfold strip. assert (String.length (a +:+ b) - String.length b = String.length a)%nat as ->
    by (rewrite <- !length_list_ascii, Stores.Auth.list_ascii_app, length_app; lia).
  induction a as [|c a IH]; [by destruct b|]. rewrite string_app_cons. simpl. by rewrite IH.
Qed.
Lemma ParseUint_dec n : 0 ≤ n → Strconv.ParseUint (dec n) = Some n.
Proof. destruct n as [|p|p]; [done|intros _; apply Strconv.ParseUint_pretty|lia]. Qed.
Lemma HasSuffix_length a b p : String.length b = String.length p → HasSuffix (a +:+ b) p = (b =? p)%string.
Proof.
  intros Hl. unfold HasSuffix. assert (String.length (a +:+ b) = String.length a + String.length b)%nat as ->
    by (by rewrite <- !length_list_ascii, Stores.Auth.list_ascii_app, length_app). rewrite <- Hl.
  replace (String.length a + String.length b - String.length b)%nat with (String.length a) by lia.
  rewrite suffix_substring. destruct (Nat.leb_spec (String.length b) (String.length a + String.length b)); [done|lia].
Qed.
#[local] Instance thousandths_laws : QuantityLaws thousandths.
Proof.
  split.
  - intros n Hn _. exists (n * 1000). simpl. split; [|done]. unfold parse. rewrite (HasSuffix_absent _ _ "m") by (by apply has_byte_dec || done).
    unfold binary_suffixes. simpl. rewrite !(HasSuffix_absent _ _ "i") by (by apply has_byte_dec || done). by rewrite ParseUint_dec.
  - intros n Hn _. exists n. simpl. split; [|done]. unfold parse. by rewrite HasSuffix_suffix, strip_app, ParseUint_dec.
  - intros n suffix Hs Hn _. exists (bytes n suffix * 1000). simpl. split; [|by rewrite Z.div_mul]. unfold parse, memory_text.
    rewrite (HasSuffix_absent _ _ "m") by (rewrite ?has_byte_app, ?has_byte_dec by done; unfold binary_suffixes in Hs;
      repeat (apply elem_of_cons in Hs as [->|Hs]; [done|]); by apply elem_of_nil in Hs).
    assert (find (λ e, HasSuffix (dec n +:+ suffix.1) e.1) binary_suffixes = Some suffix) as ->.
    { unfold binary_suffixes in *. simpl. repeat (apply elem_of_cons in Hs as [->|Hs]; [by rewrite !HasSuffix_length by done|]). by apply elem_of_nil in Hs. }
    destruct suffix as [sfx f]. simpl. by rewrite strip_app, ParseUint_dec.
Qed.

Definition item : value :=
  VMap [("metadata", VMap [("name", VText "claim-1"); ("labels", VMap [("karpenter.sh/nodepool", VText "general")])]);
        ("status", VMap [("nodeName", VText "node-1"); ("capacity", VMap [("memory", VText "16Gi")]);
                         ("resources", VMap [("requests", VMap [("cpu", VText "1500m"); ("memory", VText "8192Mi")])])])]%string.
Definition metrics : gmap string nodeMetric := {[ "node-1"%string := {| cpuCapacity := 4000; memoryCapacity := 2 |} ]}.
Definition sample_amounts : amounts := {|
  cpu_capacity := None; memory_capacity := Some (16, ("Gi"%string, 2 ^ 30)); cpu_requests := Millicores 1500;
  memory_requests := (8192, ("Mi"%string, 2 ^ 20)) |}.
Lemma claim_units_witness :
  reports item sample_amounts ∧
  CPUCapacityMillicores (parseNodeClaim (F := Qc) item metrics) = 4000 ∧ within 0 100 (CPUUtilizationPercent (parseNodeClaim (F := Qc) item metrics)).
Proof.
  assert (reports item sample_amounts) as Hr by (split_and!; vm_compute; reflexivity).
  destruct (claim_units item metrics sample_amounts) as (H1 & _ & H3 & _ & H5 & _); [exact Hr| |].
  - unfold amounts_fit, cpu_fits, memory_fits, sample_amounts, binary_suffixes. cbn. repeat split; try (unfold bytes, two63; simpl; lia); set_solver.
  - rewrite H1 in *. split; [done|]. split; [reflexivity|]. apply H5. rewrite H3. by vm_compute.
Defined.
Definition cluster_sample : cluster := {|
  ListResource g := if (Resource g =? "nodeclaims")%string then Ok [item] else if (Resource g =? "nodepools")%string
    then Ok [VMap [("metadata", VMap [("name", VText "general")])]%string] else Err "forbidden"%string;
  ListNodes := Err "forbidden"%string;
  ties A l := l |}.
Lemma cluster_read_witness :
  ∃ sc p, scores (F := Qc) cluster_sample "c1" unix_epoch unix_epoch = (StatusOK, inl sc) ∧
    Scores_NodePools sc ≡ₚ [p] ∧ Score_NodePoolName p = "general"%string ∧ NodeClaimCount p = 1.
Proof.
  destruct (cluster_read (F := Qc) cluster_sample "c1" unix_epoch unix_epoch)
    as (s & sc & _ & Hsc & _ & _ & _ & _ & _ & _ & _ & _ & entries & Hp & Hf); [done|].
  apply Forall2_cons_inv_l in Hf as (p & rest & (own & _ & Hown & Hs) & Hrest & ->). apply Forall2_nil_inv_l in Hrest as ->.
  exists sc, p. split; [exact Hsc|]. split; [exact Hp|]. split; [exact (scored_name _ _ _ Hs)|].
  rewrite (scored_count _ _ _ Hs), Hown. by vm_compute.
Defined.
End Sample.
End Karpenter.
