(* ===== verification/Lineage.v ===== *)
(** * Repairing the lineage of inventory rows

    [tools/lineage-normalizer/main.go]: rows of older agents that have the name of a
    namespace in [namespace_uid] get corrected copies with higher versions. The tables are
    those of the migrations 001 and 007: [ReplacingMergeTree(version)] with the sorting
    keys of 001, read through the current views of 007. *)
From stdpp Require Import base option list gmap strings.
From Stdlib Require Import ZArith Lia Ascii.
From S2P Require Import Prelude Proto Stores Sql.

Module Lineage.
Import Strings Sql.
Open Scope Z_scope.

(** ** Tables and options *)

Definition versionBump : Z := 1000000000000.
Record lineageTable := { Name : string; Columns : list string }.
Definition inventoryTables : list lineageTable := [
  {| Name := "deployment";
     Columns := [
       "tenant_id"; "cluster_id"; "namespace_uid"; "deployment_uid";
       "namespace_name"; "deployment_name"; "desired_replicas"; "available_replicas";
       "strategy"; "team"; "project"; "environment"; "cost_center"; "labels";
       "operation"; "valid_from"; "valid_to"; "observed_at"; "event_id"; "version"] |};
  {| Name := "pod";
     Columns := [
       "tenant_id"; "cluster_id"; "namespace_uid"; "deployment_uid"; "pod_uid";
       "node_uid"; "namespace_name"; "deployment_name"; "pod_name"; "phase";
       "qos_class"; "owner_kind"; "owner_uid"; "scheduled_at"; "started_at";
       "finished_at"; "labels"; "operation"; "valid_from"; "valid_to";
       "observed_at"; "event_id"; "version"] |};
  {| Name := "container";
     Columns := [
       "tenant_id"; "cluster_id"; "namespace_uid"; "deployment_uid"; "pod_uid";
       "owner_kind"; "owner_uid"; "container_name"; "container_id"; "image"; "image_id";
       "restart_count"; "cpu_request_millicores"; "cpu_limit_millicores";
       "memory_request_bytes"; "memory_limit_bytes"; "gpu_request_milli"; "operation";
       "valid_from"; "valid_to"; "observed_at"; "event_id"; "version"] |}]%string.
Record config := {
  Address : string;
  Database : string;
  Username : string;
  Password : string;
  Secure : bool;
  TenantID : string;
  ClusterID : string;
  Table : string;
  Apply : bool
}.
Record inventoryBackfill := { Backfill_Table : string; Backfill_MatchedRows : Z; SQL : string }.
Record metricReplayImpact := { Impact_Table : string; Impact_MatchedRows : Z; Note : string }.
Record report := {
  Applied : bool;
  InventoryBackfills : list inventoryBackfill;
  MetricReplayImpacts : list metricReplayImpact
}.

(** [Getenv] of the process; [ToLower] is [strings.ToLower]. *)
Definition envDefault (Getenv : string → string) (name fallback : string) : string :=
  let value := TrimSpace (Getenv name) in if (value =? "")%string then fallback else value.
Definition envBool (Getenv ToLower : string → string) (name : string) (fallback : bool) : bool :=
  let value := ToLower (TrimSpace (Getenv name)) in
  if bool_decide (value ∈ ["true"; "1"; "yes"]%string) then true
  else if bool_decide (value ∈ ["false"; "0"; "no"]%string) then false
  else fallback.
Definition selectedTables (Quote : string → string) (name : string) : res string (list lineageTable) :=
  let name := TrimSpace name in
  if (name =? "")%string || (name =? "all")%string then Ok inventoryTables
  else
    match find (λ table, (Name table =? name)%string) inventoryTables with
    | Some table => Ok [table]
    | None => Err ("unsupported table " +:+ Quote name)
    end.

(** ** Statements *)

Abbreviation cell := (value unit).
#[export] Instance cell_eq_dec : EqDecision cell.
Proof. solve_decision. Defined.
Definition namespaceNameWhere (alias : string) (cfg : config) : string * list cell :=
  let prefix := alias +:+ "." in
  let tenant := TrimSpace (TenantID cfg) in
  let cluster := TrimSpace (ClusterID cfg) in
  let '(clauses, args) := (["ns.namespace_uid != " +:+ prefix +:+ "namespace_uid"], []) in
  let '(clauses, args) := if negb (tenant =? "")%string then (clauses ++ [prefix +:+ "tenant_id = ?"], args ++ [VString tenant]) else (clauses, args) in
  let '(clauses, args) := if negb (cluster =? "")%string then (clauses ++ [prefix +:+ "cluster_id = ?"], args ++ [VString cluster]) else (clauses, args) in
  (Join clauses " AND ", args).
Definition count_text : string := "
SELECT count()
FROM kube_cost.%s AS t
INNER JOIN kube_cost.current_namespace AS ns
    ON t.tenant_id = ns.tenant_id
   AND t.cluster_id = ns.cluster_id
   AND t.namespace_uid = ns.namespace_name
WHERE %s".
Definition countInventorySQL (table : string) (cfg : config) : string * list cell :=
  let '(where_, args) := namespaceNameWhere "t" cfg in (Sprintf count_text [table; where_], args).
Definition countMetricImpactSQL (table : string) (cfg : config) : string * list cell :=
  let '(where_, args) := namespaceNameWhere "t" cfg in (Sprintf count_text [table; where_], args).
(** The expression selected for a column *)
Definition backfill_select (column : string) : string :=
  if (column =? "namespace_uid")%string then "ns.namespace_uid"
  else if (column =? "version")%string then "toUInt64(t.version + " +:+ dec versionBump +:+ ")"
  else "t." +:+ column.
Definition backfillInventorySQL (table : lineageTable) (cfg : config) : string * list cell :=
  let '(where_, args) := namespaceNameWhere "t" cfg in
  (Sprintf "
INSERT INTO kube_cost.%s (%s)
SELECT
    %s
FROM kube_cost.%s AS t
INNER JOIN kube_cost.current_namespace AS ns
    ON t.tenant_id = ns.tenant_id
   AND t.cluster_id = ns.cluster_id
   AND t.namespace_uid = ns.namespace_name
WHERE %s" [Name table; Join (Columns table) ", "; Join (backfill_select <$> Columns table) (String (byte_of 44) (String (byte_of 10) "    "));
           Name table; where_], args).

(** ** The run *)

Definition metric_tables : list string := ["container_metrics_10s"; "namespace_cost_1h"]%string.
(** A connection: counting a query's answer, and executing a statement *)
Class Connection (D : Type) := {
  QueryCount : D → string → list cell → res string Z;
  Exec : D → string → list cell → D * option string
}.
Section run.
Context {D : Type} `{!Connection D} (Quote : string → string).

Definition backfill_step (cfg : config) (st : D * res string (list inventoryBackfill)) (table : lineageTable)
    : D * res string (list inventoryBackfill) :=
  match st with
  | (db, Err e) => (db, Err e)
  | (db, Ok done_) =>
      let '(countSQL, countArgs) := countInventorySQL (Name table) cfg in
      match QueryCount db countSQL countArgs with
      | Err e => (db, Err ("count " +:+ Name table +:+ ": " +:+ e))
      | Ok count =>
          let '(applySQL, applyArgs) := backfillInventorySQL table cfg in
          let entry := {| Backfill_Table := Name table; Backfill_MatchedRows := count; SQL := applySQL |} in
          if Apply cfg && (0 <? count) then
            match Exec db applySQL applyArgs with
            | (db', Some e) => (db', Err ("backfill " +:+ Name table +:+ ": " +:+ e))
            | (db', None) => (db', Ok (done_ ++ [entry]))
            end
          else (db, Ok (done_ ++ [entry]))
      end
  end.
Definition impact_step (cfg : config) (db : D) (acc : res string (list metricReplayImpact)) (table : string) : res string (list metricReplayImpact) :=
  impacts ← acc;
  let '(countSQL, countArgs) := countMetricImpactSQL table cfg in
  match QueryCount db countSQL countArgs with
  | Err e => Err ("count " +:+ table +:+ " impact: " +:+ e)
  | Ok count =>
      Ok (impacts ++ [{| Impact_Table := table; Impact_MatchedRows := count;
                         Note := "immutable fact rows are not rewritten; replay raw archived batches or rebuild derived facts after inventory normalization" |}])
  end.
Definition run (db : D) (cfg : config) : D * res string report :=
  match selectedTables Quote (Table cfg) with
  | Err e => (db, Err e)
  | Ok tables =>
      let '(db', backfills) := foldl (backfill_step cfg) (db, Ok []) tables in
      (db', backfills ← backfills;
            impacts ← foldl (impact_step cfg db') (Ok []) metric_tables;
            mret {| Applied := Apply cfg; InventoryBackfills := backfills; MetricReplayImpacts := impacts |})
  end.
End run.

(** ** The statements on rows *)

Abbreviation row := (gmap string cell).
(** The tables, and the current namespaces *)
Record database := { tables : gmap string (list row); namespaces : list row }.
Definition rows_of (db : database) (table : string) : list row := default [] (tables db !! table).

(** A column of the joined rows, and an expression of a select list *)
Inductive expr := NsColumn (c : string) | TableColumn (c : string) | Bumped (n : Z).
Definition skip (n : nat) (s : string) : string := String.substring n (String.length s - n) s.
Definition parse_column (w : string) : option expr :=
  if HasPrefix w "ns." then Some (NsColumn (skip 3 w)) else if HasPrefix w "t." then Some (TableColumn (skip 2 w)) else None.
Definition parse_select (text : string) : option expr :=
  match Split text " " with
  | [w] => parse_column w
  | [f; plus; n] =>
      if bool_decide ([f; plus] = ["toUInt64(t.version"; "+"]%string) then Bumped <$> Strconv.ParseUint (Trim n ")") else None
  | _ => None
  end.
Definition eval (ns t : row) (e : expr) : option cell :=
  match e with
  | NsColumn c => ns !! c
  | TableColumn c => t !! c
  | Bumped n => match t !! "version"%string with Some (VUint v) => Some (VUint (u64 (v + n))) | _ => None end
  end.
(** A conjunction of comparisons between columns and arguments *)
Fixpoint holds (ns t : row) (words : list string) (args : list cell) : option bool :=
  match words with
  | lhs :: op :: rhs :: rest =>
      l ← (parse_column lhs ≫= eval ns t);
      '(r, args') ← (if (rhs =? "?")%string then match args with a :: args' => Some (a, args') | [] => None end
                     else (λ v, (v, args)) <$> (parse_column rhs ≫= eval ns t));
      b ← match l, r with
          | VString x, VString y =>
              if (op =? "=")%string then Some (x =? y)%string else if (op =? "!=")%string then Some (negb (x =? y)%string) else None
          | _, _ => None
          end;
      match rest with
      | [] => match args' with [] => Some b | _ => None end
      | and :: rest' => if (and =? "AND")%string then (λ b', b && b') <$> holds ns t rest' args' else None
      end
  | _ => None
  end.
(** The join with the current namespaces, and the rows the INSERT adds *)
Definition joins (cfg : config) (t ns : row) : Prop :=
  t !! "tenant_id"%string = ns !! "tenant_id"%string ∧ t !! "cluster_id"%string = ns !! "cluster_id"%string ∧
  t !! "namespace_uid"%string = ns !! "namespace_name"%string ∧
  holds ns t (Split (namespaceNameWhere "t" cfg).1 " ") (namespaceNameWhere "t" cfg).2 = Some true.
#[export] Instance joins_dec cfg t ns : Decision (joins cfg t ns).
Proof. unfold joins. apply _. Defined.
Definition joined (db : database) (table : string) (cfg : config) : list (row * row) :=
  t ← rows_of db table; ns ← filter (joins cfg t) (namespaces db); [(t, ns)].
Definition backfilled_row (columns : list string) (t ns : row) : row :=
  list_to_map (omap (λ '(c, text), pair c <$> (parse_select text ≫= eval ns t)) (zip columns (backfill_select <$> columns))).
Definition backfill (db : database) (table : lineageTable) (cfg : config) : database :=
  {| tables := <[Name table := rows_of db (Name table) ++ ((λ '(t, ns), backfilled_row (Columns table) t ns) <$> joined db (Name table) cfg)]> (tables db);
     namespaces := namespaces db |}.

(** ** The current views *)

(** The columns of an object's identity, the sorting key of migration 001 and the
    partition of migration 007 *)
Definition identity_columns (table : string) : list string :=
  if (table =? "deployment")%string then ["deployment_uid"]%string
  else if (table =? "pod")%string then ["pod_uid"]%string
  else ["pod_uid"; "container_name"]%string.
Definition sorting_key (table : string) (r : row) : list (option cell) :=
  (λ c, r !! c) <$> ["tenant_id"; "cluster_id"; "namespace_uid"]%string ++ identity_columns table ++ ["valid_from"; "event_id"]%string.
Definition partition (table : string) (r : row) : list (option cell) :=
  (λ c, r !! c) <$> ["tenant_id"; "cluster_id"]%string ++ identity_columns table.
Definition observed_at (r : row) : Time := match r !! "observed_at"%string with Some (VTime t) => t | _ => 0 end.
Definition version (r : row) : Z := match r !! "version"%string with Some (VUint v) => v | _ => 0 end.
Definition event_id (r : row) : string := match r !! "event_id"%string with Some (VString s) => s | _ => EmptyString end.
(** [ORDER BY observed_at DESC, version DESC, event_id DESC]: [b] is not after [a] *)
Definition older (a b : row) : Prop :=
  observed_at a < observed_at b ∨
  observed_at a = observed_at b ∧ (version a < version b ∨ version a = version b ∧ String.le (event_id a) (event_id b)).
(** [FINAL] keeps a row with the greatest version of its sorting key; the views show one
    that comes first in its partition, [row_number = 1]. *)
Definition kept (table : string) (rows : list row) (r : row) : Prop :=
  r ∈ rows ∧ ∀ s, s ∈ rows → sorting_key table s = sorting_key table r → version s ≤ version r.
Definition latest (table : string) (rows : list row) (r : row) : Prop :=
  kept table rows r ∧ ∀ s, kept table rows s → partition table s = partition table r → older s r.
(** A current view leaves deleted objects out. *)
Definition in_view (table : string) (rows : list row) (r : row) : Prop :=
  latest table rows r ∧ r !! "operation"%string = Some (VString "upsert").

(** ** Reading the statements *)

Definition in_scope (cfg : config) (t : row) : Prop :=
  (TrimSpace (TenantID cfg) ≠ EmptyString → t !! "tenant_id"%string = Some (VString (TrimSpace (TenantID cfg)))) ∧
  (TrimSpace (ClusterID cfg) ≠ EmptyString → t !! "cluster_id"%string = Some (VString (TrimSpace (ClusterID cfg)))).
(** Rows with their identity columns as text *)
Definition texts (r : row) (columns : list string) : Prop := ∀ c, c ∈ columns → ∃ s, r !! c = Some (VString s).
(** A row joins a namespace it has the name of, in its tenant and cluster, unless the
    name is also the namespace's identifier. *)
Lemma joins_spec cfg t ns :
  texts t ["tenant_id"; "cluster_id"; "namespace_uid"]%string → texts ns ["namespace_uid"]%string →
  joins cfg t ns ↔
  t !! "tenant_id"%string = ns !! "tenant_id"%string ∧ t !! "cluster_id"%string = ns !! "cluster_id"%string ∧
  t !! "namespace_uid"%string = ns !! "namespace_name"%string ∧ ns !! "namespace_uid"%string ≠ t !! "namespace_uid"%string ∧ in_scope cfg t.
Proof.
  intros Ht Hns. destruct (Ht "tenant_id"%string) as [tn Htn]; [set_solver|]. destruct (Ht "cluster_id"%string) as [c Hc]; [set_solver|].
  destruct (Ht "namespace_uid"%string) as [u Hu]; [set_solver|]. destruct (Hns "namespace_uid"%string) as [v Hv]; [set_solver|].
  unfold joins, in_scope. do 3 apply and_iff_compat_l. unfold namespaceNameWhere.
  destruct (String.eqb_spec (TrimSpace (TenantID cfg)) "") as [E1|E1], (String.eqb_spec (TrimSpace (ClusterID cfg)) "") as [E2|E2]; cbn [negb fst snd app];
    match goal with |- context [Split ?w " "] => let ws := eval vm_compute in (Split w " ") in replace (Split w " ") with ws by (vm_compute; reflexivity) end;
    cbn [holds]; repeat match goal with |- context [parse_column ?w] => let e := eval vm_compute in (parse_column w) in replace (parse_column w) with e by (vm_compute; reflexivity) end;
    cbn; rewrite ?Hv, ?Hu, ?Htn, ?Hc; cbn; rewrite ?Hv, ?Hu, ?Htn, ?Hc; cbn;
    (etransitivity; [apply (inj_iff Some)|]); rewrite ?andb_true_iff, negb_true_iff, String.eqb_neq, ?String.eqb_eq; naive_solver.
Qed.

(** The added row: the columns of the row with the identifier of the namespace and a
    higher version *)
Definition with_namespace (t : row) (u : cell) : row :=
  <["version"%string := VUint (version t + versionBump)]> (<["namespace_uid"%string := u]> t).
Definition expr_of (column : string) : expr :=
  if (column =? "namespace_uid")%string then NsColumn "namespace_uid" else if (column =? "version")%string then Bumped versionBump else TableColumn column.
Lemma selects_parsed table : table ∈ inventoryTables → Forall (λ c, parse_select (backfill_select c) = Some (expr_of c)) (Columns table).
Proof.
  intros Ht. unfold inventoryTables in Ht.
  repeat (apply elem_of_cons in Ht as [->|Ht]; [repeat (apply Forall_cons; split; [vm_compute; reflexivity|]); apply Forall_nil; exact I|]).
  by apply elem_of_nil in Ht.
Qed.
Lemma lookup_omap_columns (f : string → option cell) columns c :
  (list_to_map (omap (λ c, pair c <$> f c) columns) : row) !! c = if decide (c ∈ columns) then f c else None.
Proof.
  induction columns as [|d columns IH]; [by rewrite decide_False by apply not_elem_of_nil|]. simpl. destruct (decide (c = d)) as [->|Hne].
  - rewrite decide_True by left. destruct (f d) as [v|] eqn:Hf; cbn; [by rewrite lookup_insert_eq|].
    etransitivity; [exact IH|]. by case_decide.
  - destruct (f d) as [v|]; cbn; [rewrite lookup_insert_ne by done|]; (etransitivity; [exact IH|]); repeat case_decide; set_solver.
Qed.
Lemma zip_fmap_omap {A} (f : string → string) (g : string → option A) columns :
  omap (λ '(c, text), pair c <$> g text) (zip columns (f <$> columns)) = omap (λ c, pair c <$> g (f c)) columns.
Proof. induction columns as [|c columns IH]; [done|]. cbn. destruct (g (f c)); cbn; [f_equal|]; exact IH. Qed.
Lemma omap_ext_in {A B} (f g : A → option B) (l : list A) : (∀ x, x ∈ l → f x = g x) → omap f l = omap g l.
Proof.
  induction l as [|x l IH]; intros Hf; [done|]. cbn. rewrite Hf by left. assert (omap f l = omap g l) as Hl by (apply IH; intros y Hy; apply Hf; by right).
  by destruct (g x); cbn; [f_equal|].
Qed.

(** Rows of a table: they have its columns, text identifiers, and a version that can be
    raised. *)
Record typed (table : lineageTable) (r : row) : Prop := {
  row_columns : ∀ c, is_Some (r !! c) ↔ c ∈ Columns table;
  row_texts : texts r ["tenant_id"; "cluster_id"; "namespace_uid"]%string;
  row_version : ∃ v, r !! "version"%string = Some (VUint v) ∧ 0 ≤ v ∧ v + versionBump < two64
}.
Lemma backfilled_row_spec table t ns u :
  table ∈ inventoryTables → typed table t → ns !! "namespace_uid"%string = Some u → backfilled_row (Columns table) t ns = with_namespace t u.
Proof.
  intros Ht [Hcol _ (v & Hv & H0 & H1)] Hu. unfold backfilled_row. rewrite (zip_fmap_omap backfill_select (λ text, parse_select text ≫= eval ns t)).
  pose proof (selects_parsed _ Ht) as Hp. rewrite Forall_forall in Hp.
  rewrite (omap_ext_in _ (λ c, pair c <$> eval ns t (expr_of c))) by (intros c Hc; by rewrite (Hp c Hc)).
  apply map_eq. intros c. rewrite lookup_omap_columns. unfold with_namespace, expr_of.
  assert (is_Some (t !! c) ∨ t !! c = None) as Hc by (destruct (t !! c); eauto).
  destruct (String.eqb_spec c "namespace_uid") as [->|Hn].
  - rewrite lookup_insert_ne, lookup_insert_eq by done. rewrite decide_True; [done|].
    unfold inventoryTables in Ht. repeat (apply elem_of_cons in Ht as [->|Ht]; [set_solver|]). by apply elem_of_nil in Ht.
  - destruct (String.eqb_spec c "version") as [->|Hne].
    + rewrite lookup_insert_eq. rewrite decide_True by (apply Hcol; eauto). simpl. unfold version. rewrite Hv, u64_id; [done|]. unfold is_u64, versionBump in *. lia.
    + rewrite !lookup_insert_ne by done. simpl. case_decide as Hd; [done|]. symmetry. rewrite <- Hcol in Hd. by apply eq_None_not_Some.
Qed.

(** ** The order of rows *)

Lemma older_refl r : older r r.
Proof. right. split; [done|]. right. done. Qed.
Lemma older_trans a b c : older a b → older b c → older a c.
Proof.
  unfold older. intros [H1|[E1 H1]] [H2|[E2 H2]]; [left; lia|left; lia|left; lia|]. right. split; [lia|].
  destruct H1 as [H1|[V1 H1]], H2 as [H2|[V2 H2]]; [left; lia|left; lia|left; lia|]. right. split; [lia|]. by etransitivity.
Qed.
Lemma partition_with_namespace table r u : partition table (with_namespace r u) = partition table r.
Proof. unfold partition, identity_columns, with_namespace. repeat case_match; cbn; by rewrite !lookup_insert_ne by done. Qed.
Lemma with_namespace_facts r u :
  observed_at (with_namespace r u) = observed_at r ∧ event_id (with_namespace r u) = event_id r ∧
  with_namespace r u !! "event_id"%string = r !! "event_id"%string ∧ version (with_namespace r u) = version r + versionBump ∧
  with_namespace r u !! "namespace_uid"%string = Some u ∧ with_namespace r u !! "tenant_id"%string = r !! "tenant_id"%string ∧
  with_namespace r u !! "cluster_id"%string = r !! "cluster_id"%string.
Proof.
  unfold with_namespace, observed_at, event_id, version. split_and!; by simplify_map_eq.
Qed.
Lemma with_namespace_older a b u v : older a b → older (with_namespace a u) (with_namespace b v).
Proof.
  destruct (with_namespace_facts a u) as (Oa & Ea & _ & Va & _). destruct (with_namespace_facts b v) as (Ob & Eb & _ & Vb & _).
  unfold older. rewrite Oa, Ob, Va, Vb, Ea, Eb. naive_solver lia.
Qed.
Lemma older_with_namespace a u : older a (with_namespace a u).
Proof.
  destruct (with_namespace_facts a u) as (Oa & _ & _ & Va & _). right. split; [done|]. left. rewrite Va. unfold versionBump. lia.
Qed.
Lemma key_parts table r s : sorting_key table s = sorting_key table r → partition table s = partition table r ∧ s !! "event_id"%string = r !! "event_id"%string.
Proof. unfold sorting_key, partition, identity_columns. intros Heq. repeat case_match; cbn in *; injection Heq as; repeat split; congruence. Qed.
Lemma greatest_exists {A} (f : A → Z) (P : A → Prop) `{!∀ x, Decision (P x)} (l : list A) x :
  x ∈ l → P x → ∃ y, y ∈ l ∧ P y ∧ f x ≤ f y ∧ ∀ z, z ∈ l → P z → f z ≤ f y.
Proof.
  revert x. induction l as [|a l IH]; intros x Hx HP; [by apply elem_of_nil in Hx|].
  destruct (decide (P a)) as [Ha|Ha].
  - assert ((∃ z, z ∈ l ∧ P z) ∨ (∀ z, z ∈ l → ¬ P z)) as [(z & Hz & HPz)|Hnone].
    { destruct (decide (Exists P l)) as [He|He]; [left; by apply Exists_exists|right]. intros z Hz HPz. apply He, Exists_exists. eauto. }
    + destruct (IH z Hz HPz) as (y & Hy & HPy & _ & Hmax). destruct (Z.le_gt_cases (f a) (f y)) as [Hle|Hgt].
      * exists y. split; [by right|]. split; [done|]. assert (∀ z, z ∈ a :: l → P z → f z ≤ f y) as Hall
          by (intros z' [->|Hz']%elem_of_cons HPz'; auto). split; [by apply Hall|done].
      * exists a. split; [left|]. split; [done|]. assert (∀ z, z ∈ a :: l → P z → f z ≤ f a) as Hall
          by (intros z' [->|Hz']%elem_of_cons HPz'; [done|]; specialize (Hmax z' Hz' HPz'); lia). split; [by apply Hall|done].
    + exists a. split; [left|]. split; [done|]. assert (∀ z, z ∈ a :: l → P z → f z ≤ f a) as Hall
        by (intros z' [->|Hz']%elem_of_cons HPz'; [done|]; by destruct (Hnone z' Hz')). split; [by apply Hall|done].
  - apply elem_of_cons in Hx as [->|Hx]; [done|]. destruct (IH x Hx HP) as (y & Hy & HPy & Hle & Hmax).
    exists y. split; [by right|]. split; [done|]. split; [done|]. intros z [->|Hz]%elem_of_cons HPz; [done|auto].
Qed.
(** Seen through [FINAL], the rows of a partition that come first are those that come
    first among all, if an event is observed at one time. *)
Definition events_observed_once (rows : list row) : Prop :=
  ∀ r s, r ∈ rows → s ∈ rows → s !! "event_id"%string = r !! "event_id"%string → observed_at s = observed_at r.
Lemma latest_iff table rows r :
  events_observed_once rows →
  latest table rows r ↔ r ∈ rows ∧ ∀ s, s ∈ rows → partition table s = partition table r → older s r.
Proof.
  intros He. split.
  - intros [[Hr Hk] Hl]. split; [done|]. intros s Hs Hp.
    destruct (greatest_exists version (λ z, sorting_key table z = sorting_key table s) rows s Hs eq_refl) as (y & Hy & Hky & Hv & Hmax).
    destruct (key_parts _ _ _ Hky) as [Hpy Hey]. apply (older_trans _ y).
    + right. split; [symmetry; by apply He|]. assert (event_id s = event_id y) as -> by (unfold event_id; by rewrite Hey).
      destruct (Z.lt_trichotomy (version s) (version y)) as [?|[?|?]]; [by left|by right|lia].
    + apply Hl; [|congruence]. split; [done|]. intros z Hz Hkz. apply Hmax; [done|congruence].
  - intros [Hr Hl]. split.
    + split; [done|]. intros s Hs Hk. destruct (key_parts _ _ _ Hk) as [Hp Hev]. destruct (Hl s Hs Hp) as [Ho|[_ [Hv|[Hv _]]]]; [|lia|lia].
      rewrite (He r s Hr Hs Hev) in Ho. lia.
    + intros s [Hs _]. by apply Hl.
Qed.

(** ** The repair of a table *)

Section repair.
Context (db : database) (table : lineageTable) (cfg : config).
Abbreviation name := (Name table).
Abbreviation before := (rows_of db name).
Abbreviation after := (rows_of (backfill db table cfg) name).

Definition matched (r : row) : Prop := filter (joins cfg r) (namespaces db) ≠ [].
(** The row as it is seen once it is repaired *)
Definition repaired (r : row) : row :=
  match filter (joins cfg r) (namespaces db) with
  | [] => r
  | ns :: _ => with_namespace r (default (VString EmptyString) (ns !! "namespace_uid"%string))
  end.

(** What the tool relies on: names of namespaces are distinct in a cluster and are not
    identifiers of others, an event is observed at one time, and of two rows of an object
    observed at the same time the one with a name is not the newer one. *)
Record repairable : Prop := {
  known_table : table ∈ inventoryTables;
  rows_typed r : r ∈ before → typed table r;
  namespaces_typed ns : ns ∈ namespaces db → texts ns ["namespace_uid"]%string;
  names_unique ns ns' : ns ∈ namespaces db → ns' ∈ namespaces db → ns !! "tenant_id"%string = ns' !! "tenant_id"%string →
    ns !! "cluster_id"%string = ns' !! "cluster_id"%string → ns !! "namespace_name"%string = ns' !! "namespace_name"%string →
    ns !! "namespace_uid"%string = ns' !! "namespace_uid"%string;
  names_not_ids ns ns' : ns ∈ namespaces db → ns' ∈ namespaces db → ns !! "tenant_id"%string = ns' !! "tenant_id"%string →
    ns !! "cluster_id"%string = ns' !! "cluster_id"%string → ns !! "namespace_name"%string ≠ ns' !! "namespace_uid"%string;
  events_once : events_observed_once before;
  names_not_newer r s : r ∈ before → s ∈ before → matched r → ¬ matched s → partition name r = partition name s →
    observed_at r = observed_at s → older (repaired r) s ∧ (older s (repaired r) → s = repaired r)
}.
Hypothesis Hok : repairable.

Lemma repaired_unmatched r : ¬ matched r → repaired r = r.
Proof. unfold matched, repaired. destruct (filter _ _); [done|]. intros Hm. by destruct Hm. Qed.
Lemma repaired_matched r : matched r → ∃ ns, ns ∈ namespaces db ∧ joins cfg r ns ∧ ∃ u, ns !! "namespace_uid"%string = Some u ∧ repaired r = with_namespace r u.
Proof.
  unfold matched, repaired. destruct (filter (joins cfg r) (namespaces db)) as [|ns l] eqn:Hf; [done|]. intros _.
  assert (ns ∈ filter (joins cfg r) (namespaces db)) as [Hj Hin]%list_elem_of_filter by (rewrite Hf; left).
  exists ns. split; [done|]. split; [done|]. destruct (namespaces_typed Hok ns Hin "namespace_uid"%string) as [u ->]; [by left|]. by exists (VString u).
Qed.
#[local] Instance matched_dec r : Decision (matched r) := _.
Lemma joined_elem db' t ns :
  namespaces db' = namespaces db → (t, ns) ∈ joined db' name cfg →
  t ∈ rows_of db' name ∧ matched t ∧ (typed table t → backfilled_row (Columns table) t ns = repaired t).
Proof.
  unfold joined. intros -> Hin. apply list_elem_of_bind in Hin as (t' & Hin & Ht'). apply list_elem_of_bind in Hin as (ns' & Hin & Hns).
  apply list_elem_of_singleton in Hin as [= -> ->]. pose proof Hns as [Hj Hns0]%list_elem_of_filter.
  assert (matched t') as Hm by (unfold matched; intros He; rewrite He in Hns; by apply elem_of_nil in Hns).
  split; [done|]. split; [done|]. intros Htyped. destruct (repaired_matched t' Hm) as (ns0 & Hns1 & (E1 & E2 & E3 & _) & u & Hu & ->).
  destruct Hj as (F1 & F2 & F3 & _). apply backfilled_row_spec; [apply (known_table Hok)|done|]. rewrite <- Hu. apply (names_unique Hok); congruence.
Qed.
Lemma backfill_rows db' r :
  namespaces db' = namespaces db → (∀ t, t ∈ rows_of db' name → matched t → typed table t) →
  r ∈ rows_of (backfill db' table cfg) name ↔ r ∈ rows_of db' name ∨ ∃ s, s ∈ rows_of db' name ∧ matched s ∧ r = repaired s.
Proof.
  intros Hns' Htyped.
  assert (rows_of (backfill db' table cfg) name = rows_of db' name ++ ((λ '(t, ns), backfilled_row (Columns table) t ns) <$> joined db' name cfg)) as ->
    by (unfold rows_of at 1; cbn [backfill tables]; by rewrite lookup_insert_eq).
  rewrite elem_of_app. apply or_iff_compat_l. rewrite list_elem_of_fmap. split.
  - intros ([t ns] & -> & Hin). destruct (joined_elem db' t ns Hns' Hin) as (Ht & Hm & Heq). exists t. split; [done|]. split; [done|]. by apply Heq, Htyped.
  - intros (t & Ht & Hm & ->). destruct (repaired_matched t Hm) as (ns & Hns & Hj & u & Hu & ->). exists (t, ns). split.
    + symmetry. apply backfilled_row_spec; [apply (known_table Hok)|by apply Htyped|done].
    + unfold joined. rewrite Hns'. apply list_elem_of_bind. exists t. split; [|done]. apply list_elem_of_bind. exists ns. split; [by left|by apply list_elem_of_filter].
Qed.
Lemma after_rows r : r ∈ after ↔ r ∈ before ∨ ∃ s, s ∈ before ∧ matched s ∧ r = repaired s.
Proof. apply backfill_rows; [done|]. intros t Ht _. by apply (rows_typed Hok). Qed.
Lemma repaired_facts r :
  observed_at (repaired r) = observed_at r ∧ repaired r !! "event_id"%string = r !! "event_id"%string ∧ partition name (repaired r) = partition name r ∧
  older r (repaired r).
Proof.
  destruct (decide (matched r)) as [Hm|Hm]; [|rewrite repaired_unmatched by done; split_and!; try done; apply older_refl].
  destruct (repaired_matched r Hm) as (ns & _ & _ & u & _ & ->). destruct (with_namespace_facts r u) as (? & _ & ? & _).
  split_and!; [done|done|apply partition_with_namespace|apply older_with_namespace].
Qed.
Lemma repaired_operation r : repaired r !! "operation"%string = r !! "operation"%string.
Proof.
  destruct (decide (matched r)) as [Hm|Hm]; [|by rewrite repaired_unmatched]. destruct (repaired_matched r Hm) as (_ & _ & _ & u & _ & ->).
  unfold with_namespace. by rewrite !lookup_insert_ne.
Qed.
Lemma repaired_older r s : matched r → matched s → older r s → older (repaired r) (repaired s).
Proof.
  intros Hr Hs Ho. destruct (repaired_matched r Hr) as (_ & _ & _ & u & _ & ->). destruct (repaired_matched s Hs) as (_ & _ & _ & v & _ & ->).
  by apply with_namespace_older.
Qed.
Lemma after_events_once : events_observed_once after.
Proof.
  assert (∀ r, r ∈ after → ∃ s, s ∈ before ∧ r !! "event_id"%string = s !! "event_id"%string ∧ observed_at r = observed_at s) as Horigin.
  { intros r [Hr|(s & Hs & _ & ->)]%after_rows; [by exists r|]. exists s. destruct (repaired_facts s) as (? & ? & _). done. }
  intros r s Hr Hs He. destruct (Horigin r Hr) as (r0 & Hr0 & E1 & ->). destruct (Horigin s Hs) as (s0 & Hs0 & E2 & ->).
  apply (events_once Hok); [done..|congruence].
Qed.
(** The views show the repaired rows, and only them. *)
Lemma latest_repaired r : latest name before r → latest name after (repaired r).
Proof.
  intros [Hr Hl]%latest_iff; [|apply (events_once Hok)]. apply latest_iff; [apply after_events_once|]. split.
  { apply after_rows. destruct (decide (matched r)) as [Hm|Hm]; [right; eauto|left; by rewrite repaired_unmatched]. }
  destruct (repaired_facts r) as (Or & _ & Pr & Hrr). rewrite Pr. intros s [Hs|(t & Ht & Hm & ->)]%after_rows Hp.
  - apply (older_trans _ r); [by apply Hl|done].
  - destruct (repaired_facts t) as (Ot & _ & Pt & _). rewrite Pt in Hp. pose proof (Hl t Ht Hp) as Htr.
    destruct (decide (matched r)) as [Hmr|Hmr]; [by apply repaired_older|]. rewrite (repaired_unmatched r) by done.
    destruct (decide (observed_at t = observed_at r)) as [Ho|Ho]; [by destruct (names_not_newer Hok t r) as [? _]|].
    left. rewrite Ot. destruct Htr as [?|[? _]]; [done|congruence].
Qed.
Lemma repaired_latest r' : latest name after r' → ∃ r, latest name before r ∧ r' = repaired r.
Proof.
  intros [Hr Hl]%latest_iff; [|apply after_events_once]. assert (∀ s, s ∈ before → partition name s = partition name r' → older s r') as Hb
    by (intros s Hs; apply Hl, after_rows; by left).
  apply after_rows in Hr as [Hr|(r & Hr & Hm & ->)].
  - exists r'. split; [apply latest_iff; [apply (events_once Hok)|done]|]. destruct (decide (matched r')) as [Hm|Hm]; [|by rewrite repaired_unmatched].
    exfalso. assert (older (repaired r') r') as Ho.
    { apply Hl; [apply after_rows; eauto|]. by destruct (repaired_facts r') as (_ & _ & -> & _). }
    destruct (repaired_matched r' Hm) as (_ & _ & _ & u & _ & Heq). rewrite Heq in Ho. destruct (with_namespace_facts r' u) as (O & _ & _ & V & _).
    unfold older in Ho. rewrite O, V in Ho. unfold versionBump in Ho. lia.
  - destruct (repaired_facts r) as (Or & _ & Pr & _).
    destruct (decide (Exists (λ s, ¬ matched s ∧ partition name r = partition name s ∧ observed_at r = observed_at s) before)) as [He|Hne].
    { apply Exists_exists in He as (s & Hs & Hms & Hps & Hos). assert (s = repaired r) as Heq
        by (apply (names_not_newer Hok r s); [done..|]; apply Hb; [done|congruence]).
      exists s. split; [|by rewrite (repaired_unmatched s)]. apply latest_iff; [apply (events_once Hok)|]. split; [done|]. rewrite Heq. done. }
    exists r. split; [|done]. apply latest_iff; [apply (events_once Hok)|]. split; [done|].
    intros s Hs Hp. pose proof (Hb s Hs ltac:(congruence)) as Ho. destruct (decide (observed_at s = observed_at r)) as [He|He].
    + destruct (decide (matched s)) as [Hms|Hms].
      * assert (older (repaired s) (repaired r)) as Hor.
        { apply Hl; [apply after_rows; eauto|]. destruct (repaired_facts s) as (_ & _ & -> & _). congruence. }
        destruct (repaired_matched s Hms) as (_ & _ & _ & u & _ & Es). destruct (repaired_matched r Hm) as (_ & _ & _ & v & _ & Er).
        rewrite Es, Er in Hor. destruct (with_namespace_facts s u) as (O1 & E1 & _ & V1 & _). destruct (with_namespace_facts r v) as (O2 & E2 & _ & V2 & _).
        unfold older in *. rewrite O1, O2, V1, V2, E1, E2 in Hor. naive_solver lia.
      * destruct Hne. apply Exists_exists. exists s. split_and!; [done|done|congruence..].
    + destruct Ho as [?|[Ho _]]; [left; lia|congruence].
Qed.
(** *** Repeated runs *)

Lemma repaired_not_matched r : matched r → ¬ matched (repaired r).
Proof.
  intros Hm Hm'. destruct (repaired_matched r Hm) as (ns & Hns & (E1 & E2 & _) & u & Hu & Hr). destruct (repaired_matched _ Hm') as (ns' & Hns' & (F1 & F2 & F3 & _) & _).
  destruct (with_namespace_facts r u) as (_ & _ & _ & _ & Wu & Wt & Wc). rewrite <- Hr in Wu, Wt, Wc.
  apply (names_not_ids Hok ns' ns); congruence.
Qed.
Abbreviation once := (backfill db table cfg).
Lemma once_matched r : r ∈ after → matched r → r ∈ before.
Proof. intros [Hr|(s & Hs & Hm & ->)]%after_rows Hm'; [done|]. by apply repaired_not_matched in Hm. Qed.
(** A second run adds no new row. *)
Lemma second_run_rows r : r ∈ rows_of (backfill once table cfg) name ↔ r ∈ after.
Proof.
  rewrite (backfill_rows once) by (try done; intros t Ht Hm; by apply (rows_typed Hok), once_matched). split.
  - intros [?|(s & Hs & Hm & ->)]; [done|]. apply after_rows. right. exists s. split; [by apply once_matched|done].
  - by left.
Qed.
Lemma latest_rows rows rows' r : (∀ s, s ∈ rows ↔ s ∈ rows') → latest name rows r → latest name rows' r.
Proof.
  unfold latest, kept. intros He [[Hr Hk] Hl]. split.
  - split; [by apply He|]. intros s Hs. apply Hk. by apply He.
  - intros s [Hs Hks]. apply Hl. split; [by apply He|]. intros t Ht. apply Hks. by apply He.
Qed.
(** The rows with names stay behind: no row replaces them, and the same rows are found
    again by the next run. *)
Lemma named_rows_stay r : kept name before r → matched r → kept name after r.
Proof.
  intros [Hr Hk] Hm. split; [apply after_rows; by left|]. intros s [Hs|(t & Ht & Hmt & ->)]%after_rows Hkey; [by apply Hk|]. exfalso.
  destruct (repaired_matched t Hmt) as (ns & Hns & (E1 & E2 & _) & u & Hu & Heq). destruct (repaired_matched r Hm) as (ns' & Hns' & (F1 & F2 & F3 & _) & _).
  destruct (with_namespace_facts t u) as (_ & _ & _ & _ & Wu & Wt & Wc). rewrite <- Heq in Wu, Wt, Wc.
  unfold sorting_key in Hkey. rewrite !fmap_app in Hkey. cbn in Hkey. injection Hkey as K1 K2 K3 _.
  apply (names_not_ids Hok ns' ns); congruence.
Qed.
Lemma matches_remain : length (joined once name cfg) = length (joined db name cfg).
Proof.
  unfold joined at 1. assert (rows_of once name = before ++ ((λ '(t, ns), backfilled_row (Columns table) t ns) <$> joined db name cfg)) as Hrows
    by (unfold rows_of at 1; cbn [backfill tables]; by rewrite lookup_insert_eq).
  assert (∀ x, x ∈ ((λ '(t, ns), backfilled_row (Columns table) t ns) <$> joined db name cfg) → ∃ s, matched s ∧ x = repaired s) as Hnew.
  { intros x ([t ns] & -> & Hin)%list_elem_of_fmap. destruct (joined_elem db t ns eq_refl Hin) as (Ht & Hm & Heq). exists t.
    split; [done|]. by apply Heq, (rows_typed Hok). }
  rewrite Hrows, bind_app, length_app. cbn [backfill namespaces]. revert Hnew. generalize ((λ '(t, ns), backfilled_row (Columns table) t ns) <$> joined db name cfg).
  intros l Hnew. assert ((t ← l; ns ← filter (joins cfg t) (namespaces db); [(t, ns)]) = []) as ->; [|apply Nat.add_0_r].
  induction l as [|x l IH]; [done|]. cbn. destruct (Hnew x) as (s & Hs & ->); [left|].
  pose proof (repaired_not_matched s Hs) as Hn. unfold matched in Hn. destruct (filter _ (namespaces db)) eqn:Hf; [|by destruct Hn]. cbn. apply IH. intros y Hy. apply Hnew. by right.
Qed.
End repair.

(** ** The run on a database *)

Lemma rows_of_backfill db table cfg n :
  rows_of (backfill db table cfg) n =
  if decide (n = Name table)
  then rows_of db n ++ ((λ '(t, ns), backfilled_row (Columns table) t ns) <$> joined db n cfg) else rows_of db n.
Proof.
  unfold rows_of at 1. cbn [backfill tables]. destruct (decide (n = Name table)) as [->|Hn]; [by rewrite lookup_insert_eq|by rewrite lookup_insert_ne].
Qed.
Lemma joined_ext db db' n cfg : rows_of db' n = rows_of db n → namespaces db' = namespaces db → joined db' n cfg = joined db n cfg.
Proof. unfold joined. by intros -> ->. Qed.
Lemma selected_tables Quote name ts :
  selectedTables Quote name = Ok ts → (∀ table, table ∈ ts → table ∈ inventoryTables) ∧ NoDup (Name <$> ts).
Proof.
  unfold selectedTables. destruct (_ || _); [intros [= <-]|].
  - split; [done|]. by apply (bool_decide_unpack _); vm_compute.
  - unfold inventoryTables. cbn [find]. repeat case_match; try discriminate; intros [= <-]; (split; [intros table ->%list_elem_of_singleton; set_solver|apply NoDup_singleton]).
Qed.

Definition counted_tables : list string := (Name <$> inventoryTables) ++ metric_tables.
(** A connection to a database with these tables counts and inserts as the statements say. *)
Class ClickHouse (D : Type) `{!Connection D} (content : D → database) (cfg : config) := {
  counts db table : table ∈ counted_tables → QueryCount db (countInventorySQL table cfg).1 (countInventorySQL table cfg).2 = Ok (Z.of_nat (length (joined (content db) table cfg)));
  inserts db table : table ∈ inventoryTables →
    ∃ db', Exec db (backfillInventorySQL table cfg).1 (backfillInventorySQL table cfg).2 = (db', None) ∧ content db' = backfill (content db) table cfg
}.
Section runs.
Context {D : Type} `{!Connection D} (content : D → database) (cfg : config) `{!ClickHouse D content cfg}.

Definition entry (db : database) (table : lineageTable) : inventoryBackfill :=
  {| Backfill_Table := Name table; Backfill_MatchedRows := Z.of_nat (length (joined db (Name table) cfg)); SQL := (backfillInventorySQL table cfg).1 |}.
(** One step leaves the tables as the backfill of its table, or as they were. *)
Lemma backfill_step_content db done_ table :
  table ∈ inventoryTables →
  ∃ db', backfill_step cfg (db, Ok done_) table = (db', Ok (done_ ++ [entry (content db) table])) ∧
    namespaces (content db') = namespaces (content db) ∧ (Apply cfg = false → db' = db) ∧
    ∀ n, rows_of (content db') n = rows_of (if Apply cfg then backfill (content db) table cfg else content db) n.
Proof.
  intros Ht. unfold backfill_step. assert (Name table ∈ counted_tables) as Hct by (apply elem_of_app; left; by apply list_elem_of_fmap_2).
  pose proof (counts db (Name table) Hct) as Hc. destruct (countInventorySQL (Name table) cfg) as [sql args]. cbn [fst snd] in Hc.
  rewrite Hc. pose proof (inserts db table Ht) as Hi. unfold entry. destruct (backfillInventorySQL table cfg) as [sql' args']. cbn [fst snd] in *.
  destruct (Apply cfg); cbn [andb].
  - destruct (Z.ltb_spec 0 (Z.of_nat (length (joined (content db) (Name table) cfg)))) as [Hpos|Hz].
    + destruct Hi as (db' & -> & Hdb'). exists db'. rewrite Hdb'. done.
    + exists db. split; [done|]. split; [done|]. split; [done|]. intros n. rewrite rows_of_backfill. case_decide as Hn; [|done]. subst n.
      assert (joined (content db) (Name table) cfg = []) as -> by (apply nil_length_inv; lia). symmetry. apply app_nil_r.
  - exists db. done.
Qed.
Lemma backfill_steps ts db done_ :
  (∀ table, table ∈ ts → table ∈ inventoryTables) → NoDup (Name <$> ts) →
  ∃ db', foldl (backfill_step cfg) (db, Ok done_) ts = (db', Ok (done_ ++ (entry (content db) <$> ts))) ∧
    namespaces (content db') = namespaces (content db) ∧ (Apply cfg = false → db' = db) ∧
    (∀ table, table ∈ ts → rows_of (content db') (Name table) = rows_of (if Apply cfg then backfill (content db) table cfg else content db) (Name table)) ∧
    (∀ n, n ∉ Name <$> ts → rows_of (content db') n = rows_of (content db) n).
Proof.
  revert db done_. induction ts as [|table ts IH]; intros db done_ Hts Hnd.
  { exists db. cbn. rewrite app_nil_r. do 3 (split; [done|]). split; [by intros ? ?%elem_of_nil|done]. }
  rewrite fmap_cons in Hnd. apply NoDup_cons in Hnd as [Hni Hnd]. cbn [foldl].
  destruct (backfill_step_content db done_ table) as (db1 & -> & Hns1 & Hap1 & Hrows1); [apply Hts; left|].
  destruct (IH db1 (done_ ++ [entry (content db) table])) as (db' & -> & Hns & Hap & Hin & Hout); [intros t Ht; apply Hts; by right|done|].
  assert (∀ n, n ≠ Name table → rows_of (content db1) n = rows_of (content db) n) as Hother.
  { intros n Hn. rewrite Hrows1. destruct (Apply cfg); [|done]. by rewrite rows_of_backfill, decide_False. }
  assert (∀ t, t ∈ ts → Name t ≠ Name table) as Hne by (intros t Ht Heq; apply Hni; rewrite <- Heq; by apply list_elem_of_fmap_2).
  exists db'. split; [|split; [congruence|split; [|split]]].
  - do 2 f_equal. rewrite <- app_assoc. do 2 f_equal. rewrite fmap_cons. cbn. f_equal. apply list_fmap_ext. intros i t Ht%list_elem_of_lookup_2.
    unfold entry. by rewrite (joined_ext (content db) (content db1)) by (done || apply Hother, Hne, Ht).
  - intros Ha. rewrite Hap by done. by apply Hap1.
  - intros t [->|Ht]%elem_of_cons.
    + rewrite Hout by done. apply Hrows1.
    + rewrite Hin by done. destruct (Apply cfg); [|by apply Hother, Hne]. rewrite !rows_of_backfill, !decide_True by done.
      by rewrite (joined_ext (content db) (content db1)), Hother by (done || apply Hother, Hne, Ht || apply Hne, Ht).
  - intros n Hn. rewrite fmap_cons, not_elem_of_cons in Hn. destruct Hn as [Hn1 Hn2]. rewrite Hout by done. by apply Hother.
Qed.

Lemma impact_steps db names acc : (∀ n, n ∈ names → n ∈ counted_tables) → ∃ impacts, foldl (impact_step cfg db) (Ok acc) names = Ok impacts.
Proof.
  revert acc. induction names as [|n names IH]; intros acc Hn; [by exists acc|]. cbn [foldl]. unfold impact_step at 2. cbn [mbind res_bind].
  pose proof (counts db n (Hn n ltac:(left))) as Hc. change (countMetricImpactSQL n cfg) with (countInventorySQL n cfg).
  destruct (countInventorySQL n cfg) as [sql args]. cbn [fst snd] in Hc. cbn. rewrite Hc. apply IH. intros m Hm. apply Hn. by right.
Qed.

End runs.

(** ** A deployment stored under the name of its namespace *)

Module Sample.
Definition cfg : config := {|
  Address := "localhost:9000"; Database := "kube_cost"; Username := ""; Password := ""; Secure := false;
  TenantID := "t"; ClusterID := ""; Table := "deployment"; Apply := true |}.
Definition deployment (namespace_uid : string) (v : Z) : row :=
  <["version"%string := VUint v]> (<["namespace_uid"%string := VString namespace_uid]> (<["event_id"%string := VString "e1"]> (<["observed_at"%string := VTime unix_epoch]>
    (list_to_map ((λ c, (c, VString "t")) <$> ["tenant_id"; "cluster_id"; "deployment_uid";
       "namespace_name"; "deployment_name"; "desired_replicas"; "available_replicas";
       "strategy"; "team"; "project"; "environment"; "cost_center"; "labels";
       "operation"; "valid_from"; "valid_to"]%string))))).
Definition shop : row :=
  list_to_map [("tenant_id", VString "t"); ("cluster_id", VString "t"); ("namespace_uid", VString "uid-1"); ("namespace_name", VString "shop")]%string.
Definition db : database := {| tables := {[ "deployment"%string := [deployment "shop" 7] ]}; namespaces := [shop] |}.
#[local] Instance connection : Connection database := {|
  QueryCount db sql args :=
    match find (λ t, bool_decide (countInventorySQL t cfg = (sql, args))) counted_tables with
    | Some t => Ok (Z.of_nat (length (joined db t cfg)))
    | None => Err "unknown statement"%string
    end;
  Exec db sql args :=
    match find (λ t, bool_decide (backfillInventorySQL t cfg = (sql, args))) inventoryTables with
    | Some t => (backfill db t cfg, None)
    | None => (db, Some "unknown statement"%string)
    end |}.
#[local] Instance connection_answers : ClickHouse database id cfg.
Proof.
  split.
  - intros d table Ht. unfold QueryCount, connection. rewrite <- surjective_pairing.
    assert (find (λ t, bool_decide (countInventorySQL t cfg = countInventorySQL table cfg)) counted_tables = Some table) as ->; [|done].
    unfold counted_tables in Ht. cbn in Ht. repeat (apply elem_of_cons in Ht as [->|Ht]; [vm_compute; reflexivity|]). by apply elem_of_nil in Ht.
  - intros d table Ht. unfold Exec, connection. rewrite <- surjective_pairing.
    assert (find (λ t, bool_decide (backfillInventorySQL t cfg = backfillInventorySQL table cfg)) inventoryTables = Some table) as ->; [|by eexists].
    unfold inventoryTables in Ht. repeat (apply elem_of_cons in Ht as [->|Ht]; [vm_compute; reflexivity|]). by apply elem_of_nil in Ht.
Qed.
Abbreviation deployments := {| Name := "deployment"; Columns := [
       "tenant_id"; "cluster_id"; "namespace_uid"; "deployment_uid";
       "namespace_name"; "deployment_name"; "desired_replicas"; "available_replicas";
       "strategy"; "team"; "project"; "environment"; "cost_center"; "labels";
       "operation"; "valid_from"; "valid_to"; "observed_at"; "event_id"; "version"] |}%string.
Lemma sample_repairable table : table ∈ [deployments] → repairable db table cfg.
Proof.
  intros ->%list_elem_of_singleton. assert (rows_of db "deployment" = [deployment "shop" 7]) as Hrows by done.
  split; cbn [Name]; rewrite ?Hrows.
  - left.
  - intros r ->%list_elem_of_singleton. split.
    + intros c. rewrite <- (elem_of_list_to_set (C := gset string)), <- elem_of_dom.
      assert (dom (deployment "shop" 7) = list_to_set (Columns deployments)) as -> by (apply (bool_decide_unpack _); vm_compute; exact I). done.
    + intros c Hc. repeat (apply elem_of_cons in Hc as [->|Hc]; [eexists; vm_compute; reflexivity|]). by apply elem_of_nil in Hc.
    + exists 7. split; [reflexivity|]. unfold versionBump, two64. lia.
  - intros ns ->%list_elem_of_singleton c ->%list_elem_of_singleton. by eexists.
  - by intros ns ns' ->%list_elem_of_singleton ->%list_elem_of_singleton.
  - by intros ns ns' ->%list_elem_of_singleton ->%list_elem_of_singleton.
  - by intros r s ->%list_elem_of_singleton ->%list_elem_of_singleton.
  - by intros r s ->%list_elem_of_singleton ->%list_elem_of_singleton.
Qed.
End Sample.
End Lineage.
