(* ===== verification/Startup.v ===== *)
(** * Configuration and start-up

    [agent/config/config.go], [agent/app/app.go], [services/ingestion/app/app.go] and the
    [config.go] of the other services: the environment as parameters, the checks on them,
    and the components that are built from them. Opening sockets, files and connections
    are answers of the environment. *)
From stdpp Require Import base option list gmap strings.
From Stdlib Require Import ZArith Lia Ascii.
From S2P Require Import Prelude Proto Buffer Queue Persistence Stores Server Client Allocation Recommendations Sampler.

Module Startup.
Import Allocation Recommendations.
Open Scope Z_scope.

(** ** Environment variables *)

(** [strconv.ParseBool] and [strconv.ParseUint(s, 10, 64)] *)
Definition ParseBool (s : string) : option bool :=
  if bool_decide (s ∈ ["1"; "t"; "T"; "TRUE"; "true"; "True"]%string) then Some true
  else if bool_decide (s ∈ ["0"; "f"; "F"; "FALSE"; "false"; "False"]%string) then Some false
  else None.
Definition ParseUint64 (s : string) : option Z :=
  match Strconv.ParseUint s with Some n => if n <? two64 then Some n else None | None => None end.

Section environment.
(** The variables, and [time.ParseDuration] *)
Context (Getenv : string → string) (ParseDuration : string → option Duration).

(** A trimmed value or the fallback; a value that does not parse is the fallback too. *)
Definition parsed {A} (parse : string → option A) (value : string) (fallback : A) : A :=
  if (value =? "")%string then fallback else default fallback (parse value).
Definition valueOrDefault (name fallback : string) : string :=
  let value := TrimSpace (Getenv name) in if negb (value =? "")%string then value else fallback.
Definition boolValue (name : string) (fallback : bool) : bool := parsed ParseBool (TrimSpace (Getenv name)) fallback.
Definition intValue (name : string) (fallback : Z) : Z := parsed Strconv.Atoi (TrimSpace (Getenv name)) fallback.
Definition uintValue (name : string) (fallback : Z) : Z := parsed ParseUint64 (TrimSpace (Getenv name)) fallback.
Definition durationValue (name : string) (fallback : Duration) : Duration := parsed ParseDuration (TrimSpace (Getenv name)) fallback.

(** The readers of the ingestion service, which do not trim *)
Definition envString (name fallback : string) : string := if negb (Getenv name =? "")%string then Getenv name else fallback.
Definition envInt (name : string) (fallback : Z) : Z := default fallback (Strconv.Atoi (Getenv name)).
Definition envBool (name : string) (fallback : bool) : bool := parsed ParseBool (Getenv name) fallback.
Definition envDuration (name : string) (fallback : Duration) : Duration := parsed ParseDuration (Getenv name) fallback.

(** ** The agent *)

Record agentConfig := {
  TenantID : string;
  ClusterID : string;
  AgentInstanceID : string;
  AgentVersion : string;
  IngestionEndpoint : string;
  InsecureGRPC : bool;
  TLSCAFile : string;
  TLSCertFile : string;
  TLSKeyFile : string;
  TLSServerName : string;
  LeaderElection : bool;
  LeaderElectionID : string;
  LeaderElectionNamespace : string;
  ResyncInterval : Duration;
  MetricsInterval : Duration;
  QueueCapacity : Z;
  BatchSize : Z;
  MetricsAddress : string;
  HealthProbeAddress : string
}.
(** [hostname] and [random] are the answers of the system; [random] is in hexadecimal. *)
Definition instanceID (hostname random : res string string) : res string string :=
  match hostname with
  | Err e => Err ("read hostname: " +:+ e)
  | Ok host => match random with Err e => Err ("generate instance ID: " +:+ e) | Ok r => Ok (host +:+ "-" +:+ r) end
  end.
Definition agent_config (instance : string) : agentConfig := {|
  TenantID := TrimSpace (Getenv "TENANT_ID"%string);
  ClusterID := TrimSpace (Getenv "CLUSTER_ID"%string);
  AgentInstanceID := valueOrDefault "AGENT_INSTANCE_ID" instance;
  AgentVersion := valueOrDefault "AGENT_VERSION" "dev";
  IngestionEndpoint := TrimSpace (Getenv "INGESTION_ENDPOINT"%string);
  InsecureGRPC := boolValue "INSECURE_GRPC" false;
  TLSCAFile := TrimSpace (Getenv "TLS_CA_FILE"%string);
  TLSCertFile := TrimSpace (Getenv "TLS_CERT_FILE"%string);
  TLSKeyFile := TrimSpace (Getenv "TLS_KEY_FILE"%string);
  TLSServerName := TrimSpace (Getenv "TLS_SERVER_NAME"%string);
  LeaderElection := boolValue "LEADER_ELECTION" true;
  LeaderElectionID := valueOrDefault "LEADER_ELECTION_ID" "agent.cost.kube-cost.io";
  LeaderElectionNamespace := TrimSpace (Getenv "POD_NAMESPACE"%string);
  ResyncInterval := durationValue "INVENTORY_RESYNC_INTERVAL" (30 * Minute);
  MetricsInterval := durationValue "METRICS_INTERVAL" (10 * Second);
  QueueCapacity := intValue "INVENTORY_QUEUE_CAPACITY" 10000;
  BatchSize := intValue "INVENTORY_BATCH_SIZE" 200;
  MetricsAddress := valueOrDefault "METRICS_ADDRESS" ":8080";
  HealthProbeAddress := valueOrDefault "HEALTH_PROBE_ADDRESS" ":8081" |}.
(** The checks of [FromEnv] and their messages, in order *)
Definition agent_checks (cfg : agentConfig) : list (bool * string) := [
  ((TenantID cfg =? "")%string, "TENANT_ID is required");
  ((ClusterID cfg =? "")%string, "CLUSTER_ID is required");
  ((IngestionEndpoint cfg =? "")%string, "INGESTION_ENDPOINT is required");
  (negb (Bool.eqb (TLSCertFile cfg =? "")%string (TLSKeyFile cfg =? "")%string), "TLS_CERT_FILE and TLS_KEY_FILE must be configured together");
  (((QueueCapacity cfg <? 1) || (BatchSize cfg <? 1))%Z, "queue capacity and batch size must be positive");
  ((MetricsInterval cfg <=? 0)%Z, "METRICS_INTERVAL must be positive");
  ((QueueCapacity cfg <? BatchSize cfg)%Z, "INVENTORY_BATCH_SIZE cannot exceed INVENTORY_QUEUE_CAPACITY")]%string.
(** [errors.Join]: nothing for no errors *)
Definition errors_Join (errs : list string) : option string :=
  match errs with [] => None | _ => Some (Strings.Join errs (String (byte_of 10) EmptyString)) end.
(** A configuration comes with the joined errors of its checks. *)
Definition FromEnv (hostname random : res string string) : res string (agentConfig * option string) :=
  id ← instanceID hostname random;
  let cfg := agent_config id in
  mret (cfg, errors_Join (snd <$> filter (λ c, c.1 = true) (agent_checks cfg))).

(** ** The ingestion service *)

Record ingestionConfig := {
  GRPCAddress : string;
  HealthAddress : string;
  Insecure : bool;
  CertFile : string;
  KeyFile : string;
  ClientCAFile : string;
  I_QueueCapacity : Z;
  HighWatermarkPercent : Z;
  MaxBatchRecords : Z;
  MaxBatchBytes : Z;
  BackpressureDelay : Duration;
  HeartbeatInterval : Duration;
  ClickHouseAddress : string;
  ClickHouseDatabase : string;
  ClickHouseUsername : string;
  ClickHousePassword : string;
  ClickHouseSecure : bool;
  PersistenceBatchSize : Z;
  PersistenceRetryInitial : Duration;
  PersistenceRetryMaximum : Duration;
  RawArchiveDir : string;
  SequenceCheckpointDir : string
}.
(** The conversions [uint32] and [uint64] wrap around. *)
Definition ConfigFromEnv : ingestionConfig := {|
  GRPCAddress := envString "GRPC_ADDRESS" ":8080";
  HealthAddress := envString "HEALTH_ADDRESS" ":8081";
  Insecure := envBool "INGESTION_INSECURE" false;
  CertFile := envString "INGESTION_TLS_CERT_FILE" "/etc/kube-cost/tls/tls.crt";
  KeyFile := envString "INGESTION_TLS_KEY_FILE" "/etc/kube-cost/tls/tls.key";
  ClientCAFile := envString "INGESTION_CLIENT_CA_FILE" "/etc/kube-cost/tls/ca.crt";
  I_QueueCapacity := envInt "INGESTION_QUEUE_CAPACITY" 1000;
  HighWatermarkPercent := envInt "INGESTION_QUEUE_HIGH_WATERMARK_PERCENT" 80;
  MaxBatchRecords := envInt "INGESTION_MAX_BATCH_RECORDS" 500 mod 2 ^ 32;
  MaxBatchBytes := u64 (envInt "INGESTION_MAX_BATCH_BYTES" (4 * 2 ^ 20));
  BackpressureDelay := envDuration "INGESTION_BACKPRESSURE_DELAY" Second;
  HeartbeatInterval := envDuration "INGESTION_HEARTBEAT_INTERVAL" (30 * Second);
  ClickHouseAddress := envString "CLICKHOUSE_ADDRESS" "clickhouse:9000";
  ClickHouseDatabase := envString "CLICKHOUSE_DATABASE" "kube_cost";
  ClickHouseUsername := envString "CLICKHOUSE_USERNAME" "kube_cost";
  ClickHousePassword := envString "CLICKHOUSE_PASSWORD" "kube_cost";
  ClickHouseSecure := envBool "CLICKHOUSE_SECURE" false;
  PersistenceBatchSize := envInt "INGESTION_PERSISTENCE_BATCH_SIZE" 20;
  PersistenceRetryInitial := envDuration "INGESTION_PERSISTENCE_RETRY_INITIAL" Second;
  PersistenceRetryMaximum := envDuration "INGESTION_PERSISTENCE_RETRY_MAXIMUM" (30 * Second);
  RawArchiveDir := envString "INGESTION_RAW_ARCHIVE_DIR" "";
  SequenceCheckpointDir := envString "INGESTION_SEQUENCE_CHECKPOINT_DIR" "" |}.
End environment.
Definition validateConfig (config : ingestionConfig) : option string :=
  if (GRPCAddress config =? "")%string || (HealthAddress config =? "")%string then Some "gRPC and health addresses are required"%string
  else if I_QueueCapacity config <? 1 then Some "queue capacity must be positive"%string
  else if (MaxBatchRecords config <? 1) || (MaxBatchBytes config <? 1) then Some "batch limits must be positive"%string
  else if (ClickHouseAddress config =? "")%string || (ClickHouseDatabase config =? "")%string || (ClickHouseUsername config =? "")%string
  then Some "ClickHouse address, database, and username are required"%string
  else if PersistenceBatchSize config <? 1 then Some "persistence batch size must be positive"%string
  else if negb (Insecure config) && ((CertFile config =? "")%string || (KeyFile config =? "")%string || (ClientCAFile config =? "")%string)
  then Some "server certificate, key, and client CA are required when mTLS is enabled"%string
  else None.

(** ** Connections to ClickHouse *)

Record ClickHouseConfig := {
  Address : string;
  Database : string;
  Username : string;
  Password : string;
  Secure : bool;
  DialTimeout : Duration;
  MaxOpenConns : Z;
  MaxIdleConns : Z
}.
(** The options the driver is opened with *)
Record clickhouse_Options := {
  Addr : list string;
  Auth_ : string * string * string;
  Dial : Duration;
  OpenConns : Z;
  IdleConns : Z;
  ConnMaxLifetime : Duration;
  TLS12 : bool
}.
(** [Open] is the driver's. *)
Definition OpenClickHouse {C} (Open : clickhouse_Options → res string C) (config : ClickHouseConfig) : res string C :=
  if (Address config =? "")%string then Err "ClickHouse address is required"%string
  else
    let options := {|
      Addr := [Address config];
      Auth_ := (if (Database config =? "")%string then "kube_cost"%string else Database config, Username config, Password config);
      Dial := if DialTimeout config <=? 0 then 5 * Second else DialTimeout config;
      OpenConns := if MaxOpenConns config <=? 0 then 10 else MaxOpenConns config;
      IdleConns := if MaxIdleConns config <=? 0 then 5 else MaxIdleConns config;
      ConnMaxLifetime := Hour;
      TLS12 := Secure config |} in
    match Open options with Err e => Err ("open ClickHouse connection: " +:+ e) | Ok c => Ok c end.
(** The services each have a copy. *)
Definition query_OpenRepository {C} (Open : clickhouse_Options → res string C) (config : ClickHouseConfig) : res string C := OpenClickHouse Open config.
Definition pricing_OpenRepository {C} (Open : clickhouse_Options → res string C) (config : ClickHouseConfig) : res string C := OpenClickHouse Open config.
Definition workflow_OpenRepository {C} (Open : clickhouse_Options → res string C) (config : ClickHouseConfig) : res string C := OpenClickHouse Open config.
Definition recommendations_OpenRepository {C} (Open : clickhouse_Options → res string C) (config : ClickHouseConfig) : res string C := OpenClickHouse Open config.
Section services.
Context (Getenv : string → string) (ParseDuration : string → option Duration).
(** The part of the configurations that is the same in the pricing, query and workflow
    services *)
Definition clickhouse_config : ClickHouseConfig := {|
  Address := valueOrDefault Getenv "CLICKHOUSE_ADDRESS" "localhost:9000";
  Database := valueOrDefault Getenv "CLICKHOUSE_DATABASE" "kube_cost";
  Username := Getenv "CLICKHOUSE_USERNAME"%string;
  Password := Getenv "CLICKHOUSE_PASSWORD"%string;
  Secure := boolValue Getenv "CLICKHOUSE_SECURE" false;
  DialTimeout := 0; MaxOpenConns := 0; MaxIdleConns := 0 |}.
Definition pricing_ConfigFromEnv : ClickHouseConfig := clickhouse_config.
Definition query_ConfigFromEnv : ClickHouseConfig := clickhouse_config.
Definition workflow_ConfigFromEnv : ClickHouseConfig := clickhouse_config.

Section numbers.
Context {F : Type} `{Arith F} (ParseFloat : string → option F).
Definition floatValue (name : string) (fallback : F) : F := parsed ParseFloat (TrimSpace (Getenv name)) fallback.
Record allocationConfig := { HTTPAddress : string; A_ClickHouse : ClickHouseConfig; Allocation_ : AllocationOptions F }.
Definition allocation_ConfigFromEnv : res string allocationConfig :=
  let allocation := {|
    NodeHourlyCostUSD := floatValue "ALLOCATION_NODE_HOURLY_COST_USD" defaultNodeHourlyCostUSD;
    ControlPlaneHourlyCostUSD := floatValue "ALLOCATION_CONTROL_PLANE_HOURLY_COST_USD" defaultControlPlaneHourlyCostUSD;
    NetworkCostPerGiBUSD := floatValue "ALLOCATION_NETWORK_COST_PER_GIB_USD" defaultNetworkCostPerGiBUSD |} in
  let config := {| HTTPAddress := valueOrDefault Getenv "HTTP_ADDRESS" ":8080"; A_ClickHouse := clickhouse_config; Allocation_ := allocation |} in
  if leb (NodeHourlyCostUSD allocation) zero then Err "ALLOCATION_NODE_HOURLY_COST_USD must be positive"%string
  else if ltb (ControlPlaneHourlyCostUSD allocation) zero then Err "ALLOCATION_CONTROL_PLANE_HOURLY_COST_USD cannot be negative"%string
  else if ltb (NetworkCostPerGiBUSD allocation) zero then Err "ALLOCATION_NETWORK_COST_PER_GIB_USD cannot be negative"%string
  else Ok config.
Record recommendationsConfig := { R_Tenant : string; R_Cluster : string; R_ClickHouse : ClickHouseConfig; Engine : EngineConfig F }.
Definition recommendations_ConfigFromEnv : res string recommendationsConfig :=
  let config := {|
    R_Tenant := TrimSpace (Getenv "TENANT_ID"%string);
    R_Cluster := TrimSpace (Getenv "CLUSTER_ID"%string);
    R_ClickHouse := clickhouse_config;
    Engine := {|
      AnalysisWindow := durationValue Getenv ParseDuration "OPTIMIZATION_ANALYSIS_WINDOW" defaultAnalysisWindow;
      CPURequestHeadroom := floatValue "OPTIMIZATION_CPU_REQUEST_HEADROOM" defaultCPURequestHeadroom;
      MemoryRequestHeadroom := floatValue "OPTIMIZATION_MEMORY_REQUEST_HEADROOM" defaultMemoryRequestHeadroom;
      CPULimitMultiplier := floatValue "OPTIMIZATION_CPU_LIMIT_MULTIPLIER" defaultCPULimitMultiplier;
      MemoryLimitMultiplier := floatValue "OPTIMIZATION_MEMORY_LIMIT_MULTIPLIER" defaultMemoryLimitMultiplier;
      MinCPUMillicores := uintValue Getenv "OPTIMIZATION_MIN_CPU_MILLICORES" defaultMinCPUMillicores;
      MinMemoryBytes := uintValue Getenv "OPTIMIZATION_MIN_MEMORY_BYTES" defaultMinMemoryBytes;
      CPUCoreHourUSD := floatValue "OPTIMIZATION_CPU_CORE_HOUR_USD" defaultCPUCoreHourUSD;
      MemoryGiBHourUSD := floatValue "OPTIMIZATION_MEMORY_GIB_HOUR_USD" defaultMemoryGiBHourUSD;
      MinimumSampleCount := intValue Getenv "OPTIMIZATION_MINIMUM_SAMPLE_COUNT" 24 |} |} in
  if (R_Tenant config =? "")%string then Err "TENANT_ID is required"%string else Ok config.
(** [OpenRepository] of the allocation service, which also keeps normalised prices *)
Definition allocation_OpenRepository {C} (Open : clickhouse_Options → res string C) (config : ClickHouseConfig) (options : AllocationOptions F)
    : res string (C * AllocationOptions F) :=
  match OpenClickHouse Open config with Err e => Err e | Ok c => Ok (c, normalizeAllocationOptions options) end.
End numbers.
End services.

(** ** The agent's components *)

(** The answers of Kubernetes at start-up, the version among them *)
Record kubernetes := {
  GetConfig : res string unit;
  NewForConfig : res string unit;
  ServerVersion : res string string;
  NewSources : res string unit;
  AddToScheme : res string unit;
  NewManager : res string unit;
  Add : res string unit;
  AddHealthzCheck : res string unit;
  AddReadyzCheck : res string unit
}.
(** The options of the client's connection, beside those the stream uses *)
Record connection := { Endpoint : string; Plaintext : bool; CA : string; Cert : string; Key : string; ServerName : string }.
Record agent := {
  buffer : Buffer.Buffer;
  resync : Duration;
  sampler_interval : Duration;
  client : Client.ClientConfig;
  dial : connection;
  leader_election : bool * string * string
}.
Definition wrap {A} (context : string) (r : res string A) : res string A := match r with Err e => Err (context +:+ ": " +:+ e) | Ok a => Ok a end.
(** [Run] until the manager starts *)
Definition agent_Run (cfg : agentConfig) (k : kubernetes) : res string agent :=
  _ ← wrap "load Kubernetes configuration" (GetConfig k);
  _ ← wrap "create Kubernetes client" (NewForConfig k);
  version ← wrap "discover Kubernetes version" (ServerVersion k);
  _ ← wrap "create metrics sources" (NewSources k);
  _ ← wrap "register Kubernetes scheme" (AddToScheme k);
  _ ← wrap "create agent manager" (NewManager k);
  _ ← wrap "add agent runtime" (Add k);
  _ ← wrap "add health check" (AddHealthzCheck k);
  _ ← wrap "add readiness check" (AddReadyzCheck k);
  mret {|
    buffer := Buffer.NewBuffer (QueueCapacity cfg);
    resync := ResyncInterval cfg;
    sampler_interval := Sampler.NewSampler (MetricsInterval cfg);
    client := {| Client.TenantID := TenantID cfg; Client.ClusterID := ClusterID cfg; Client.AgentInstanceID := AgentInstanceID cfg;
                 Client.AgentVersion := AgentVersion cfg; Client.KubernetesVersion := version; Client.BatchSize := BatchSize cfg |};
    dial := {| Endpoint := IngestionEndpoint cfg; Plaintext := InsecureGRPC cfg; CA := TLSCAFile cfg; Cert := TLSCertFile cfg; Key := TLSKeyFile cfg;
               ServerName := TLSServerName cfg |};
    leader_election := (LeaderElection cfg, LeaderElectionID cfg, LeaderElectionNamespace cfg) |}.
(** *** The transport of the client *)

(** The answers of the system: the CA file, the system's certificate pool, whether the
    file's certificates could be added to it, and the client's key pair *)
Record client_system := {
  ReadCA : res string string;
  SystemCertPool : res string unit;
  AppendCA : string → bool;
  LoadClientKeyPair : res string unit
}.
(** [tls.Config]: without [RootCAs] the system's certificates are the roots. *)
Record tls := { VerifiedName : string; RootCAs : option string; Certificate : bool }.
Inductive dial_options := CustomOptions | InsecureTransport | TLSTransport (config : tls).
Definition root_certificates (s : client_system) (CAFile : string) : res string (option string) :=
  if (CAFile =? "")%string then Ok None
  else
    caData ← wrap "read ingestion CA" (ReadCA s);
    _ ← wrap "load system certificate pool" (SystemCertPool s);
    if AppendCA s caData then Ok (Some caData) else Err "ingestion CA file contains no certificates"%string.
(** [custom]: options that were configured go first. *)
Definition dialOptions (s : client_system) (custom : bool) (c : connection) : res string dial_options :=
  if custom then Ok CustomOptions
  else if Plaintext c then Ok InsecureTransport
  else
    roots ← root_certificates s (CA c);
    certificate ← (if (Cert c =? "")%string then Ok false else
                     match wrap "load agent client certificate" (LoadClientKeyPair s) with Ok _ => Ok true | Err e => Err e end);
    Ok (TLSTransport {| VerifiedName := ServerName c; RootCAs := roots; Certificate := certificate |}).
(** A client that is not explicitly insecure uses TLS, against the CA file if there is
    one, and shows its certificate if it has one. *)
Lemma dial_options_secure s c options :
  dialOptions s false c = Ok options → Plaintext c = false →
  ∃ config, options = TLSTransport config ∧ VerifiedName config = ServerName c ∧ Certificate config = negb (Cert c =? "")%string ∧
    match RootCAs config with
    | None => CA c = EmptyString
    | Some roots => ReadCA s = Ok roots ∧ AppendCA s roots = true
    end.
Proof.
  unfold dialOptions, root_certificates, wrap. intros Hd Hp. rewrite Hp in Hd.
  destruct (String.eqb_spec (CA c) "") as [Hca|Hca]; cbn [mbind res_bind] in Hd.
  - destruct (Cert c =? "")%string; [|destruct (LoadClientKeyPair s); [|done]]; injection Hd as <-; by eexists.
  - destruct (ReadCA s) as [roots|]; [|done]. cbn [mbind res_bind] in Hd. destruct (SystemCertPool s); [|done]. cbn [mbind res_bind] in Hd.
    destruct (AppendCA s roots) eqn:Ha; [|done].
    cbn [mbind res_bind] in Hd. destruct (Cert c =? "")%string; [|destruct (LoadClientKeyPair s); [|done]]; injection Hd as <-; by eexists.
Qed.
(** [Runtime.Start] ends with the first event of its context, collector, sampler and
    transport. *)
Inductive runtime_event := ContextDone | CollectorStopped (e : option string) | SamplerStopped (e : option string) | TransportStopped (e : option string).
Definition Start (first : runtime_event) : option string :=
  match first with ContextDone => None | CollectorStopped e | SamplerStopped e | TransportStopped e => e end.

(** ** The ingestion service's components *)

(** The answers of the system at start-up *)
Record system := {
  Listen : res string unit;
  LoadX509KeyPair : res string unit;
  ReadFile : res string string;
  AppendCertsFromPEM : string → bool;
  OpenDriver : clickhouse_Options → res string unit;
  Ping : res string unit;
  MakeArchiveDir : string → res string string;
  MakeCheckpointDir : string → res string string
}.
Inductive authentication := InsecureAuthenticator | MTLSAuthenticator.
(** What the service says of TLS: [tls.Config] with the roots for client certificates *)
Inductive ClientAuthType := NoClientCert | RequestClientCert | RequireAnyClientCert | VerifyClientCertIfGiven | RequireAndVerifyClientCert.
Definition VersionTLS12 : Z := 771.
Record server_tls := { MinVersion : Z; ServerCertificate : bool; ClientAuth : ClientAuthType; ClientCAs : string }.
Record ingestion := {
  max_message : Z;
  credentials : option server_tls;
  authenticator : authentication;
  queue : Queue.Queue;
  worker : Persistence.WorkerConfig;
  archive : option string;
  checkpoints : option string;
  server : Server.Config
}.
(** [serverCredentials]; [AppendCertsFromPEM] fills an empty pool. *)
Definition serverCredentials (s : system) : res string server_tls :=
  _ ← wrap "load ingestion server certificate" (LoadX509KeyPair s);
  caData ← wrap "read ingestion client CA" (ReadFile s);
  if AppendCertsFromPEM s caData
  then Ok {| MinVersion := VersionTLS12; ServerCertificate := true; ClientAuth := RequireAndVerifyClientCert; ClientCAs := caData |}
  else Err "ingestion client CA file contains no certificates"%string.
Definition ingestion_clickhouse (config : ingestionConfig) : ClickHouseConfig := {|
  Address := ClickHouseAddress config; Database := ClickHouseDatabase config; Username := ClickHouseUsername config;
  Password := ClickHousePassword config; Secure := ClickHouseSecure config; DialTimeout := 0; MaxOpenConns := 0; MaxIdleConns := 0 |}.
(** [Run] until the goroutines start *)
Definition Run (s : system) (config : ingestionConfig) : res string ingestion :=
  match validateConfig config with
  | Some e => Err e
  | None =>
      _ ← wrap ("listen on " +:+ GRPCAddress config) (Listen s);
      '(creds, auth) ← (if negb (Insecure config) then (λ c, (Some c, MTLSAuthenticator)) <$> serverCredentials s
                        else Ok (None, InsecureAuthenticator));
      _ ← OpenClickHouse (OpenDriver s) (ingestion_clickhouse config);
      _ ← wrap "connect to ClickHouse" (Ping s);
      archive_dir ← (if negb (RawArchiveDir config =? "")%string then Some <$> MakeArchiveDir s (RawArchiveDir config) else Ok None);
      checkpoint_dir ← (if negb (SequenceCheckpointDir config =? "")%string then Some <$> MakeCheckpointDir s (SequenceCheckpointDir config) else Ok None);
      mret {|
        max_message := i64 (i64 (MaxBatchBytes config) + 64 * 1024);
        credentials := creds;
        authenticator := auth;
        queue := Queue.New (I_QueueCapacity config);
        worker := Persistence.NewWorker {| Persistence.BatchSize := PersistenceBatchSize config; Persistence.RetryInitial := PersistenceRetryInitial config;
                                           Persistence.RetryMaximum := PersistenceRetryMaximum config |};
        archive := archive_dir; checkpoints := checkpoint_dir;
        server := Server.New {| Server.MaxBatchRecords := MaxBatchRecords config; Server.MaxBatchBytes := MaxBatchBytes config;
                                Server.HeartbeatInterval := HeartbeatInterval config; Server.BackpressureDelay := BackpressureDelay config;
                                Server.HighWatermarkPercent := HighWatermarkPercent config |} |}
  end.
(** [healthHandler] *)
Definition healthz : Z := 200.
Definition readyz (ready : bool) : Z := if ready then 200 else 503.

(** ** What accepted configurations guarantee *)

(** An agent's configuration has no error exactly if it meets the requirements. *)
Lemma agent_requirements Getenv ParseDuration hostname random cfg err :
  FromEnv Getenv ParseDuration hostname random = Ok (cfg, err) →
  err = None ↔
  TenantID cfg ≠ EmptyString ∧ ClusterID cfg ≠ EmptyString ∧ IngestionEndpoint cfg ≠ EmptyString ∧
  (TLSCertFile cfg = EmptyString ↔ TLSKeyFile cfg = EmptyString) ∧ 1 ≤ BatchSize cfg ≤ QueueCapacity cfg ∧ 0 < MetricsInterval cfg.
Proof.
  unfold FromEnv. destruct (instanceID hostname random) as [id|e]; [|done]. cbn [mbind res_bind mret res_ret]. intros [= <- <-]. generalize (agent_config Getenv ParseDuration id). intros cfg.
  assert (errors_Join (snd <$> filter (λ c, c.1 = true) (agent_checks cfg)) = None ↔ Forall (λ c, c.1 = false) (agent_checks cfg)) as ->.
  { induction (agent_checks cfg) as [|[b m] l IH]; [done|]. rewrite filter_cons, Forall_cons. cbn [fst]. destruct b; [|rewrite decide_False by done; naive_solver].
    rewrite decide_True by done. unfold errors_Join. cbn. split; [|intros [? _]; done]. destruct (snd <$> _); done. }
  unfold agent_checks. rewrite !Forall_cons, Forall_nil. cbn [fst]. rewrite orb_false_iff, negb_false_iff, Bool.eqb_true_iff, !Z.ltb_ge, Z.leb_gt, !String.eqb_neq.
  assert ((TLSCertFile cfg =? "")%string = (TLSKeyFile cfg =? "")%string ↔ (TLSCertFile cfg = EmptyString ↔ TLSKeyFile cfg = EmptyString)) as ->
    by (destruct (String.eqb_spec (TLSCertFile cfg) ""), (String.eqb_spec (TLSKeyFile cfg) ""); naive_solver).
  naive_solver lia.
Qed.
Lemma agent_components cfg k a :
  agent_Run cfg k = Ok a →
  Buffer.capacity (buffer a) = QueueCapacity cfg ∧ Client.BatchSize (client a) = BatchSize cfg ∧ Client.TenantID (client a) = TenantID cfg ∧
  Client.ClusterID (client a) = ClusterID cfg ∧ sampler_interval a = Sampler.NewSampler (MetricsInterval cfg) ∧
  Cert (dial a) = TLSCertFile cfg ∧ Key (dial a) = TLSKeyFile cfg.
Proof.
  unfold agent_Run, wrap. destruct (GetConfig k), (NewForConfig k), (ServerVersion k), (NewSources k), (AddToScheme k), (NewManager k), (Add k), (AddHealthzCheck k), (AddReadyzCheck k);
    intros [= <-]. done.
Qed.
Lemma batch_never_panics maximum (b : Buffer.Buffer) : 1 ≤ maximum → Buffer.Batch maximum b ≠ Buffer.BatchPanic.
Proof.
  intros Hm. unfold Buffer.Batch. destruct (Buffer.entries b); [by destruct (Buffer.closed b)|].
  destruct (Z.ltb_spec (if Z.of_nat (length (o :: l)) <? maximum then Z.of_nat (length (o :: l)) else maximum) 0) as [Hneg|]; [|done].
  destruct (Z.of_nat (length (o :: l)) <? maximum); lia.
Qed.
Lemma highWatermark_bounds c capacity :
  1 ≤ capacity → capacity * 100 < two63 → 1 ≤ Server.highWatermark (Server.New c) capacity ≤ capacity.
Proof.
  intros H1 H2. unfold Server.highWatermark. set (p := Server.HighWatermarkPercent (Server.New c)).
  assert (1 ≤ p ≤ 100) as Hp.
  { unfold p, Server.New. cbn [Server.HighWatermarkPercent]. destruct (Z.leb_spec (Server.HighWatermarkPercent c) 0), (Z.ltb_spec 100 (Server.HighWatermarkPercent c)); cbn [orb]; lia. }
  rewrite i64_id by (unfold is_i64, two63 in *; nia). split; [lia|]. apply Z.max_lub; [done|].
  apply Z.quot_le_upper_bound; nia.
Qed.
Lemma system_steps s config i :
  Run s config = Ok i →
  validateConfig config = None ∧ max_message i = i64 (i64 (MaxBatchBytes config) + 64 * 1024) ∧ queue i = Queue.New (I_QueueCapacity config) ∧
  worker i = Persistence.NewWorker {| Persistence.BatchSize := PersistenceBatchSize config; Persistence.RetryInitial := PersistenceRetryInitial config;
                                      Persistence.RetryMaximum := PersistenceRetryMaximum config |} ∧
  server i = Server.New {| Server.MaxBatchRecords := MaxBatchRecords config; Server.MaxBatchBytes := MaxBatchBytes config;
                           Server.HeartbeatInterval := HeartbeatInterval config; Server.BackpressureDelay := BackpressureDelay config;
                           Server.HighWatermarkPercent := HighWatermarkPercent config |} ∧
  (if Insecure config then authenticator i = InsecureAuthenticator ∧ credentials i = None
   else authenticator i = MTLSAuthenticator ∧ ∃ roots, credentials i = Some {| MinVersion := VersionTLS12; ServerCertificate := true;
       ClientAuth := RequireAndVerifyClientCert; ClientCAs := roots |} ∧
     ReadFile s = Ok roots ∧ AppendCertsFromPEM s roots = true ∧ LoadX509KeyPair s = Ok tt) ∧
  (archive i = None ↔ RawArchiveDir config = EmptyString) ∧ (checkpoints i = None ↔ SequenceCheckpointDir config = EmptyString).
Proof.
  unfold Run. destruct (validateConfig config); [done|]. unfold wrap at 1. destruct (Listen s); [|done]. cbn [mbind res_bind].
  destruct (if negb (Insecure config) then _ else Ok (None, InsecureAuthenticator)) as [[creds auth]|] eqn:Hauth; [|done].
  destruct (OpenClickHouse _ _); [|done]. unfold wrap. destruct (Ping s); [|done].
  destruct (String.eqb_spec (RawArchiveDir config) "") as [E1|E1], (String.eqb_spec (SequenceCheckpointDir config) "") as [E2|E2]; cbn [negb];
    repeat match goal with |- context [Some <$> ?x] => destruct x; cbn [fmap res_fmap mbind res_bind]; [|done] end; intros [= <-]; cbn [mbind res_bind];
    split_and!; try done;
    (destruct (Insecure config); cbn [negb] in Hauth; [by injection Hauth as <- <-|]; unfold serverCredentials, wrap in Hauth;
     destruct (LoadX509KeyPair s) as [[]|]; [|done]; destruct (ReadFile s) as [roots|]; [|done]; cbn [mbind res_bind] in Hauth;
     destruct (AppendCertsFromPEM s roots) eqn:Hp; [|done]; injection Hauth as <- <-; split; [done|]; by exists roots).
Qed.

(** C36: What starts is well configured. An agent whose configuration has no error
    identifies its tenant and cluster, has a certificate exactly if it has a key, samples
    at the configured interval, and takes batches that its buffer can hold, without ever
    panicking. An ingestion service that starts has the queue of its configuration, with
    a high watermark within it, non-empty batch limits, a worker that makes progress, an
    archive and checkpoints exactly if it names their directories, and it verifies
    client certificates, which it requires, against the configured roots over TLS 1.2 or
    later, unless it is explicitly insecure. *)
Theorem accepted_start_up Getenv ParseDuration hostname random cfg k a s config i :
  FromEnv Getenv ParseDuration hostname random = Ok (cfg, None) → agent_Run cfg k = Ok a →
  Run s config = Ok i →
  (TenantID cfg ≠ EmptyString ∧ ClusterID cfg ≠ EmptyString ∧ Client.TenantID (client a) = TenantID cfg ∧ Client.ClusterID (client a) = ClusterID cfg ∧
   (Cert (dial a) = EmptyString ↔ Key (dial a) = EmptyString) ∧ sampler_interval a = MetricsInterval cfg ∧
   1 ≤ Client.BatchSize (client a) ≤ Buffer.capacity (buffer a) ∧ ∀ b, Buffer.Batch (Client.BatchSize (client a)) b ≠ Buffer.BatchPanic) ∧
  (Queue.capacity (queue i) = I_QueueCapacity config ∧ 1 ≤ Queue.capacity (queue i) ∧
   (I_QueueCapacity config * 100 < two63 → 1 ≤ Server.highWatermark (server i) (Queue.capacity (queue i)) ≤ Queue.capacity (queue i)) ∧
   Server.MaxBatchRecords (server i) = MaxBatchRecords config ∧ Server.MaxBatchBytes (server i) = MaxBatchBytes config ∧
   1 ≤ Server.MaxBatchRecords (server i) ∧ 1 ≤ Server.MaxBatchBytes (server i) ∧
   (MaxBatchBytes config + 64 * 1024 < two63 → Server.MaxBatchBytes (server i) < max_message i) ∧
   1 ≤ Persistence.BatchSize (worker i) ∧ 0 < Persistence.RetryInitial (worker i) ∧ 0 < Persistence.RetryMaximum (worker i) ∧
   (archive i = None ↔ RawArchiveDir config = EmptyString) ∧ (checkpoints i = None ↔ SequenceCheckpointDir config = EmptyString) ∧
   (Insecure config = false → authenticator i = MTLSAuthenticator ∧ ∃ tls roots, credentials i = Some tls ∧ VersionTLS12 ≤ MinVersion tls ∧
      ClientAuth tls = RequireAndVerifyClientCert ∧ ClientCAs tls = roots ∧ ReadFile s = Ok roots ∧ AppendCertsFromPEM s roots = true)).
Proof.
  intros Hcfg Hagent Hrun. split.
  - apply agent_requirements in Hcfg as [Hreq _]. destruct (Hreq eq_refl) as (Ht & Hc & _ & Htls & Hb & Hm).
    destruct (agent_components _ _ _ Hagent) as (-> & -> & -> & -> & -> & -> & ->). split_and!; try done.
    + unfold Sampler.NewSampler. destruct (Z.leb_spec (MetricsInterval cfg) 0); [lia|done].
    + lia.
    + lia.
    + intros b. apply batch_never_panics. lia.
  - destruct (system_steps _ _ _ Hrun) as (Hv & -> & -> & -> & -> & Hauth & Ha & Hk). unfold validateConfig in Hv.
    destruct (_ || _); [done|]. destruct (Z.ltb_spec (I_QueueCapacity config) 1) as [|Hq]; [done|].
    destruct (Z.ltb_spec (MaxBatchRecords config) 1) as [|Hr]; [done|]. destruct (Z.ltb_spec (MaxBatchBytes config) 1) as [|Hb]; [done|]. cbn [orb] in Hv.
    destruct (_ || _); [done|]. destruct (Z.ltb_spec (PersistenceBatchSize config) 1) as [|Hp]; [done|].
    assert (Queue.capacity (Queue.New (I_QueueCapacity config)) = I_QueueCapacity config) as ->
      by (unfold Queue.New; cbn [Queue.capacity]; destruct (Z.ltb_spec (I_QueueCapacity config) 1); [lia|done]).
    cbn [Server.New Server.MaxBatchRecords Server.MaxBatchBytes Persistence.NewWorker Persistence.BatchSize Persistence.RetryInitial Persistence.RetryMaximum].
    destruct (Z.eqb_spec (MaxBatchRecords config) 0); [lia|]. destruct (Z.eqb_spec (MaxBatchBytes config) 0); [lia|].
    split_and!; try done.
    + intros Hcap. by apply highWatermark_bounds.
    + intros Hmax. rewrite (i64_id (MaxBatchBytes config)), i64_id by (unfold is_i64, two63 in *; lia). lia.
    + destruct (Z.leb_spec (PersistenceBatchSize config) 0); lia.
    + destruct (Z.leb_spec (PersistenceRetryInitial config) 0); [done|lia].
    + destruct (Z.leb_spec (PersistenceRetryMaximum config) 0); [done|lia].
    + intros Hi. rewrite Hi in Hauth. destruct Hauth as (? & roots & ? & ? & ? & _). split; [done|]. by eexists _, roots.
Qed.

(** A negative limit wraps around: it passes the check for positive limits, and the
    transport then refuses messages the service would accept. *)
Lemma negative_limits_accepted :
  let Getenv := λ name, if (name =? "INGESTION_MAX_BATCH_RECORDS")%string || (name =? "INGESTION_MAX_BATCH_BYTES")%string then "-1"%string else EmptyString in
  let config := ConfigFromEnv Getenv (λ _, None) in
  validateConfig config = None ∧ MaxBatchRecords config = 2 ^ 32 - 1 ∧ MaxBatchBytes config = two64 - 1 ∧ i64 (i64 (MaxBatchBytes config) + 64 * 1024) = 65535.
Proof. vm_compute. done. Qed.

Definition sample_env (name : string) : string :=
  if (name =? "TENANT_ID")%string then "t" else if (name =? "CLUSTER_ID")%string then "c" else if (name =? "INGESTION_ENDPOINT")%string then "ingestion:8080" else EmptyString.
Definition sample_kubernetes : kubernetes := {|
  GetConfig := Ok tt; NewForConfig := Ok tt; ServerVersion := Ok "v1.30"%string; NewSources := Ok tt; AddToScheme := Ok tt; NewManager := Ok tt;
  Add := Ok tt; AddHealthzCheck := Ok tt; AddReadyzCheck := Ok tt |}.
Definition sample_system : system := {|
  Listen := Ok tt; LoadX509KeyPair := Ok tt; ReadFile := Ok "roots"%string; AppendCertsFromPEM _ := true; OpenDriver _ := Ok tt; Ping := Ok tt;
  MakeArchiveDir d := Ok d; MakeCheckpointDir d := Ok d |}.
Lemma accepted_start_up_witness :
  ∃ cfg a i, FromEnv sample_env (λ _, None) (Ok "host"%string) (Ok "00"%string) = Ok (cfg, None) ∧ agent_Run cfg sample_kubernetes = Ok a ∧
    Run sample_system (ConfigFromEnv (λ _, EmptyString) (λ _, None)) = Ok i ∧
    Client.BatchSize (client a) ≤ Buffer.capacity (buffer a) ∧ ClientCAs <$> credentials i = Some "roots"%string.
Proof.
  eexists _, _, _. split; [vm_compute; reflexivity|]. split; [reflexivity|]. split; [vm_compute; reflexivity|].
  destruct (accepted_start_up sample_env (λ _, None) (Ok "host"%string) (Ok "00"%string) _ sample_kubernetes _ sample_system
    (ConfigFromEnv (λ _, EmptyString) (λ _, None)) _ ltac:(vm_compute; reflexivity) ltac:(reflexivity) ltac:(vm_compute; reflexivity))
    as ((_ & _ & _ & _ & _ & _ & [_ Hb] & _) & _ & _ & _ & _ & _ & _ & _ & _ & _ & _ & _ & _ & _ & Hauth).
  split; [exact Hb|]. destruct (Hauth eq_refl) as (_ & tls & roots & Hr & _ & _ & Hroots & Hf & _). injection Hf as <-.
  rewrite Hr. simpl. by rewrite Hroots.
Defined.
End Startup.
