(* ===== verification/Replay.v ===== *)
(** * Replaying the batch archive

    [tools/replay/main.go]: the summaries of archived batches. What the archive of
    [Stores.v] wrote is summarised as the batch it was given. *)
From stdpp Require Import base option list gmap strings.
From Stdlib Require Import ZArith Lia Ascii.
From S2P Require Import Prelude Effects Proto Stores.

Module Replay.
Import Stores.Files.

Record batchSummary := {
  Path : string;
  BatchID : string;
  Summary_FirstSequence : Z;
  Summary_LastSequence : Z;
  ObservationCount : Z
}.
(** [filepath.Ext]: from the last dot of the last element *)
Fixpoint Ext_from (acc : string) (s : string) : string :=
  match s with
  | EmptyString => acc
  | String c s' => Ext_from (if Ascii.eqb c "/" then EmptyString else if Ascii.eqb c "." then s else acc) s'
  end.
Definition Ext (path : string) : string := Ext_from EmptyString path.

Section replay.
Context `{Protobuf}.
(** [proto.Unmarshal] of a batch, and the error of opening a missing file *)
Context (Unmarshal : content → res string ObservationBatch) (not_exist : string → string).

Definition summary_of (path : string) (batch : ObservationBatch) : batchSummary := {|
  Path := path; BatchID := BatchId batch; Summary_FirstSequence := FirstSequence batch; Summary_LastSequence := LastSequence batch;
  ObservationCount := Z.of_nat (length (Observations batch)) |}.
Definition summarize (path : string) : prog fs_ans (res string batchSummary) :=
  data ← call (ReadFile path);
  match data with
  | NotExist => Ret (Err ("read " +:+ path +:+ ": " +:+ not_exist path))
  | ReadError e => Ret (Err ("read " +:+ path +:+ ": " +:+ e))
  | Data c =>
      match Unmarshal c with
      | Err e => Ret (Err ("decode " +:+ path +:+ ": " +:+ e))
      | Ok batch => Ret (Ok (summary_of path batch))
      end
  end.
(** The walk: an entry with its path, whether it is a directory and its error *)
Record walked := { entry_path : string; entry_IsDir : bool; entry_err : option string }.
(** The summaries printed before the walk ends, and the error that ends it; [Encode] is
    the encoder's error. *)
Fixpoint emitSummaries (Encode : batchSummary → option string) (entries : list walked) : prog fs_ans (list batchSummary * option string) :=
  match entries with
  | [] => Ret ([], None)
  | entry :: rest =>
      match entry_err entry with
      | Some e => Ret ([], Some e)
      | None =>
          if entry_IsDir entry || negb (Ext (entry_path entry) =? ".pb")%string then emitSummaries Encode rest
          else
            summary ← summarize (entry_path entry);
            match summary with
            | Err e => Ret ([], Some e)
            | Ok s =>
                match Encode s with
                | Some e => Ret ([], Some e)
                | None => rest' ← emitSummaries Encode rest; Ret (s :: rest'.1, rest'.2)
                end
            end
      end
  end.

(** [Archive], and [summarize] of the file if it succeeded *)
Definition archive_then_summarize (root : string) (r : ArchiveRecord) : prog fs_ans (option (res string batchSummary)) :=
  archived ← Archive root r;
  match archived, Rec_Batch r with
  | None, Some b => s ← summarize (archive_path root (Rec_ReceivedAt r) (Rec_TenantID r) (Rec_ClusterID r) b); Ret (Some s)
  | _, _ => Ret None
  end.
(** An archived batch is summarised with its identifier, its sequences and its number of
    observations, whatever else happens. *)
Lemma archived_batch_summarized root r st :
  (∀ b data, marshalBatch b = Some data → Unmarshal (Bytes data) = Ok b) →
  always fs_effect (archive_then_summarize root r) (λ _, True)
    (λ res _, match Rec_Batch r with
              | Some b => ∀ s, res = Some (Ok s) → s = summary_of (archive_path root (Rec_ReceivedAt r) (Rec_TenantID r) (Rec_ClusterID r) b) b
              | None => res = None
              end) st.
Proof.
  intros Hu. unfold archive_then_summarize, Archive. destruct (Rec_Batch r) as [b|].
  2:{ simpl. split; [done|]. intros [e|] st1 _; simpl; by split. }
  generalize (archive_path root (Rec_ReceivedAt r) (Rec_TenantID r) (Rec_ClusterID r) b). intros path. generalize (Paths.Dir path). intros dir.
  simpl. split; [done|]. intros [e|] st1 _; simpl; [by split|]. destruct (marshalBatch b) as [data|] eqn:Hm; simpl; [|by split].
  split; [done|]. intros [e|] st2 _; simpl; [by split|]. split; [done|]. intros [e|] st3 Hw; simpl; [by split|].
  subst st3. split; [done|]. intros c st4 [-> Hc]. destruct c as [c| |]; simpl; [|by split..].
  rewrite lookup_insert_eq in Hc. injection Hc as <-. rewrite (Hu b data Hm). simpl. split; [done|]. by intros s [= <-].
Qed.
End replay.
End Replay.
