(* ===== verification/Protogen.v ===== *)
(** * The generator of the protocol code

    [tools/protogen/main.go]: it compiles the protocol files, hands them to the plugins
    of the protocol compiler in an order in which every file comes after its imports,
    and writes what they generate. Files, processes, the compiler and the encodings are
    calls to the environment. *)
From stdpp Require Import base option list gmap strings sorting.
From Stdlib Require Import ZArith Lia.
From S2P Require Import Prelude Effects Stores Replay.

Module Protogen.

(** A compiled file with its imports; [None] is an import without a descriptor *)
Inductive descriptor := File (path : string) (imports : list (option descriptor)).
Definition Path (f : descriptor) : string := match f with File p _ => p end.
Definition Imports (f : descriptor) : list descriptor := match f with File _ is_ => omap id is_ end.

(** [collect]: the files seen and the files in order *)
Fixpoint collect (f : descriptor) (st : gset string * list descriptor) : gset string * list descriptor :=
  match f with
  | File p imports =>
      if bool_decide (p ∈ st.1) then st
      else
        let st' := foldl (λ st i, match i with Some g => collect g st | None => st end) ({[p]} ∪ st.1, st.2) imports in
        (st'.1, st'.2 ++ [f])
  end.
Record request := { FileToGenerate : list string; Parameters_ : string; ProtoFile : list descriptor }.
Definition generatorRequest (files : list descriptor) (sources : list string) : request := {|
  FileToGenerate := sources; Parameters_ := "paths=source_relative";
  ProtoFile := (foldl (λ st f, collect f st) (∅, []) files).2 |}.

(** ** Files and processes *)

Record walked := { entry_path : string; entry_IsDir : bool; entry_err : option string }.
Inductive op :=
| Getwd
| WalkDir (root : string)
| Compile (root : string) (sources : list string)
| RemoveAll (path : string)
| GoTool (root tool : string)
| RunPlugin (path input : string)
| MkdirAll (dir : string)
| WriteFile (path content : string).
Definition ans (o : op) : Type :=
  match o with
  | Getwd => res string string
  | WalkDir _ => list walked
  | Compile _ _ => res string (list descriptor)
  | RemoveAll _ | MkdirAll _ | WriteFile _ _ => option string
  | GoTool _ _ => res string string
  | RunPlugin _ _ => res (string * string) string
  end.
Abbreviation prog := (prog ans).

Section generator.
(** [filepath.Join], [Rel], [ToSlash], [FromSlash] and [Dir], and the encodings of
    requests and responses *)
Context (JoinPath : list string → string) (Rel : string → string → res string string) (ToSlash FromSlash Dir : string → string).
Context (Marshal : request → res string string).
Record generated := { GetName : string; GetContent : string }.
Record reply := { Error : option string; Generated : list generated }.
Context (Unmarshal : string → res string reply).

(** The walk over the protocol files *)
Fixpoint source_paths (root : string) (entries : list walked) : res string (list string) :=
  match entries with
  | [] => Ok []
  | e :: rest =>
      match entry_err e with
      | Some err => Err err
      | None =>
          if entry_IsDir e || negb (Replay.Ext (entry_path e) =? ".proto")%string then source_paths root rest
          else relative ← Rel root (entry_path e); paths ← source_paths root rest; Ok (ToSlash relative :: paths)
      end
  end.
Definition sourceFiles (root : string) : prog (res string (list string)) :=
  entries ← call (WalkDir (JoinPath [root; "cost"%string]));
  Ret (merge_sort String.le <$> source_paths root entries).
Definition toolPath (root tool : string) : prog (res string string) :=
  output ← call (GoTool root tool);
  match output with
  | Err e => Ret (Err ("resolve " +:+ tool +:+ ": " +:+ e))
  | Ok output =>
      let path := TrimSpace output in
      Ret (if (path =? "")%string then Err ("resolve " +:+ tool +:+ ": empty tool path") else Ok path)
  end.
Fixpoint write_files (outputRoot : string) (files : list generated) : prog (option string) :=
  match files with
  | [] => Ret None
  | file :: rest =>
      let target := JoinPath [outputRoot; FromSlash (GetName file)] in
      made ← call (MkdirAll (Dir target));
      match (made : option string) with
      | Some e => Ret (Some e)
      | None =>
          written ← call (WriteFile target (GetContent file));
          match (written : option string) with Some e => Ret (Some e) | None => write_files outputRoot rest end
      end
  end.
Definition invokePlugin (root outputRoot plugin : string) (r : request) : prog (option string) :=
  path ← toolPath root plugin;
  match path with
  | Err e => Ret (Some e)
  | Ok path =>
      match Marshal r with
      | Err e => Ret (Some ("marshal request for " +:+ plugin +:+ ": " +:+ e))
      | Ok input =>
          stdout ← call (RunPlugin path input);
          match stdout with
          | Err (e, stderr) => Ret (Some (plugin +:+ " failed: " +:+ e +:+ ": " +:+ TrimSpace stderr))
          | Ok stdout =>
              match Unmarshal stdout with
              | Err e => Ret (Some ("decode " +:+ plugin +:+ " response: " +:+ e))
              | Ok reply => match Error reply with Some e => Ret (Some e) | None => write_files outputRoot (Generated reply) end
              end
          end
      end
  end.
Fixpoint invoke_all (root outputRoot : string) (plugins : list string) (r : request) : prog (option string) :=
  match plugins with
  | [] => Ret None
  | plugin :: rest =>
      failed ← invokePlugin root outputRoot plugin r;
      match failed with Some e => Ret (Some e) | None => invoke_all root outputRoot rest r end
  end.
Definition run : prog (option string) :=
  root ← call Getwd;
  match root with
  | Err e => Ret (Some e)
  | Ok root =>
      let protoRoot := JoinPath [root; "proto"%string] in
      let outputRoot := JoinPath [protoRoot; "gen"; "go"]%string in
      sources ← sourceFiles protoRoot;
      match sources with
      | Err e => Ret (Some e)
      | Ok sources =>
          files ← call (Compile protoRoot sources);
          match files with
          | Err e => Ret (Some ("compile protobuf sources: " +:+ e))
          | Ok files =>
              removed ← call (RemoveAll (JoinPath [outputRoot; "cost"%string]));
              match (removed : option string) with
              | Some e => Ret (Some ("clean generated protobuf output: " +:+ e))
              | None => invoke_all root outputRoot ["protoc-gen-go"; "protoc-gen-go-grpc"]%string (generatorRequest files sources)
              end
          end
      end
  end.
End generator.

(** ** The order of the request *)

(** The files a file needs, itself included *)
Inductive needs : descriptor → descriptor → Prop :=
| needs_itself f : needs f f
| needs_import f g h : g ∈ Imports f → needs g h → needs f h.
(** Every file comes after its imports. *)
Definition in_order (files : list descriptor) : Prop :=
  ∀ before f after g, files = before ++ f :: after → g ∈ Imports f → g ∈ before.
Fixpoint size (f : descriptor) : nat :=
  match f with File _ imports => S (foldr (λ i n, match i with Some g => size g + n | None => n end) 0 imports)%nat end.
Lemma import_size f g : g ∈ Imports f → (size g < size f)%nat.
Proof.
  destruct f as [p imports]. simpl. induction imports as [|[h|] imports IH]; simpl; [by intros ?%elem_of_nil| |].
  - intros [->|Hg]%elem_of_cons; [lia|]. specialize (IH Hg). lia.
  - intros Hg. by apply IH.
Qed.
Lemma needs_size f h : needs f h → (size h ≤ size f)%nat.
Proof. induction 1 as [|f g h Hg _ IH]; [done|]. apply import_size in Hg. lia. Qed.
Definition collect_all (fs : list descriptor) (st : gset string * list descriptor) : gset string * list descriptor := foldl (λ st f, collect f st) st fs.
Lemma collect_unfold f st :
  collect f st = if bool_decide (Path f ∈ st.1) then st
                 else let st' := collect_all (Imports f) ({[Path f]} ∪ st.1, st.2) in (st'.1, st'.2 ++ [f]).
Proof.
  destruct f as [p imports]. simpl. case_bool_decide; [done|]. generalize ({[p]} ∪ st.1, st.2). intros st0.
  assert (∀ st, foldl (λ st i, match i with Some g => collect g st | None => st end) st imports = collect_all (omap id imports) st) as Hf.
  { clear. induction imports as [|[g|] imports IH]; intros st; simpl; [done|by rewrite IH..]. }
  by rewrite Hf.
Qed.

Section order.
(** The compiled files: their imports are among them, and a path is one file. *)
Context (known : descriptor → Prop).
Hypothesis known_import : ∀ f g, known f → g ∈ Imports f → known g.
Hypothesis known_path : ∀ f g, known f → known g → Path f = Path g → f = g.
Lemma known_needs f h : needs f h → known f → known h.
Proof. induction 1; eauto. Qed.
(** A file is not needed by its imports. *)
Lemma no_cycle f g h : known f → g ∈ Imports f → needs g h → Path h ≠ Path f.
Proof.
  intros Hf Hg Hh Hp. assert (h = f) as -> by (apply known_path; [|done..]; eapply known_needs; eauto).
  apply needs_size in Hh. apply import_size in Hg. lia.
Qed.

(** [open]: the files whose imports are being collected *)
Record collected (open : gset string) (st : gset string * list descriptor) : Prop := {
  collected_seen p : p ∈ st.1 ↔ p ∈ Path <$> st.2 ∨ p ∈ open;
  collected_known : Forall known st.2;
  collected_order : in_order st.2;
  collected_once : NoDup (Path <$> st.2)
}.
Definition extends (fs : list descriptor) (st st' : gset string * list descriptor) : Prop :=
  (∀ h, h ∈ st.2 → h ∈ st'.2) ∧ (∀ f, f ∈ fs → f ∈ st'.2) ∧ (∀ h, h ∈ st'.2 → h ∈ st.2 ∨ ∃ f, f ∈ fs ∧ needs f h).
Definition collects (f : descriptor) : Prop := ∀ open st,
  known f → (∀ h, needs f h → Path h ∉ open) → collected open st → collected open (collect f st) ∧ extends [f] st (collect f st).
Lemma collect_all_ok fs open st :
  Forall collects fs → Forall known fs → (∀ f h, f ∈ fs → needs f h → Path h ∉ open) → collected open st →
  collected open (collect_all fs st) ∧ extends fs st (collect_all fs st).
Proof.
  revert st. induction fs as [|f fs IH]; intros st Hc Hk Ho Hst; simpl.
  { split; [done|]. split_and!; [done|by intros ? ?%elem_of_nil|auto]. }
  apply Forall_cons in Hc as [Hf Hc], Hk as [Hkf Hk].
  destruct (Hf open st Hkf) as [Hst1 (Hin1 & Hf1 & Hnew1)]; [intros h; apply Ho; by left|done|].
  destruct (IH (collect f st) Hc Hk) as [Hst2 (Hin2 & Hf2 & Hnew2)]; [intros g h Hg; apply Ho; by right|done|].
  split; [done|]. split_and!.
  - auto.
  - intros g [->|Hg]%elem_of_cons; [apply Hin2, Hf1; by left|auto].
  - intros h [Hh|(g & Hg & Hn)]%Hnew2; [|right; exists g; split; [by right|done]].
    apply Hnew1 in Hh as [Hh|(g & ->%list_elem_of_singleton & Hn)]; [by left|]. right. exists f. split; [by left|done].
Qed.
Lemma snoc_in_order files f : in_order files → (∀ g, g ∈ Imports f → g ∈ files) → in_order (files ++ [f]).
Proof.
  intros Ho Hf before f' after g Hsplit Hg. destruct (ListFacts.snoc_cases after) as [->|(after' & x & ->)].
  - apply app_inj_tail in Hsplit as [-> <-]. auto.
  - rewrite app_comm_cons, app_assoc in Hsplit. apply app_inj_tail in Hsplit as [-> _]. by eapply Ho.
Qed.
Lemma collect_ok f : collects f.
Proof.
  induction f as [f IH] using (induction_ltof1 _ size). unfold ltof in IH. intros open st Hf Ho Hst. rewrite collect_unfold.
  case_bool_decide as Hp.
  - split; [done|]. split_and!; [done| |auto]. intros g ->%list_elem_of_singleton.
    apply (collected_seen _ _ Hst) in Hp as [Hp|Hp]; [|by destruct (Ho f (needs_itself f))].
    apply list_elem_of_fmap in Hp as (f' & Heq & Hin). pose proof (collected_known _ _ Hst) as Hall. rewrite Forall_forall in Hall.
    by rewrite (known_path f f' Hf (Hall _ Hin) Heq).
  - destruct (collect_all_ok (Imports f) ({[Path f]} ∪ open) ({[Path f]} ∪ st.1, st.2)) as [Hst1 (Hin1 & Hf1 & Hnew1)].
    + apply Forall_forall. intros g Hg. by apply IH, import_size.
    + apply Forall_forall. intros g Hg. by eapply known_import.
    + intros g h Hg Hn. apply not_elem_of_union. split; [apply not_elem_of_singleton; by eapply no_cycle|]. apply Ho. by eapply needs_import.
    + destruct Hst as [Hs ? ? ?]. split; try done. cbn. intros p. rewrite elem_of_union, Hs, elem_of_union. tauto.
    + set (st1 := collect_all _ _) in *. cbn in Hin1, Hnew1. destruct Hst1 as [Hs Hk Hord Hnd].
      assert (Path f ∉ Path <$> st1.2) as Hnot.
      { intros (h & Heq & [Hh|(g & Hg & Hn)]%Hnew1)%list_elem_of_fmap; [|by eapply no_cycle].
        apply Hp, (collected_seen _ _ Hst). left. rewrite Heq. by apply list_elem_of_fmap_2. }
      split; [split; cbn|split_and!; cbn].
      * intros p. rewrite Hs, fmap_app, elem_of_app. cbn. rewrite list_elem_of_singleton, elem_of_union, elem_of_singleton. tauto.
      * apply Forall_app. split; [done|by constructor].
      * by apply snoc_in_order.
      * rewrite fmap_app. apply NoDup_app. split; [done|]. split; [|apply NoDup_singleton]. by intros p Hin; cbn; intros ->%list_elem_of_singleton.
      * intros h Hh. apply elem_of_app. auto.
      * intros g ->%list_elem_of_singleton. apply elem_of_app. right. by left.
      * intros h [Hh| ->%list_elem_of_singleton]%elem_of_app.
        -- apply Hnew1 in Hh as [Hh|(g & Hg & Hn)]; [by left|]. right. exists f. split; [by left|]. by eapply needs_import.
        -- right. exists f. split; [by left|constructor].
Qed.
(** The request has every file that is needed once, after its imports, whatever files
    share their imports. *)
Lemma request_in_order files sources :
  Forall known files →
  let r := generatorRequest files sources in
  in_order (ProtoFile r) ∧ NoDup (Path <$> ProtoFile r) ∧ ∀ h, h ∈ ProtoFile r ↔ ∃ f, f ∈ files ∧ needs f h.
Proof.
  intros Hk r. destruct (collect_all_ok files ∅ (∅, [])) as [[Hs _ Ho Hn] (_ & Hf & Hnew)].
  - apply Forall_forall. intros f _. apply collect_ok.
  - done.
  - set_solver.
  - split; cbn; [set_solver|done| |apply NoDup_nil_2]. by intros [|] ? ? ?.
  - split; [done|]. split; [done|]. intros h. split.
    + intros [Hh|Hh]%Hnew; [by apply elem_of_nil in Hh|done].
    + intros (f & Hin & Hneeds). apply Hf in Hin. change (h ∈ (collect_all files (∅, [])).2). induction Hneeds as [|f g h Hg Hneeds IH]; [done|].
      apply IH. apply list_elem_of_split in Hin as (l1 & l2 & Hin). rewrite Hin. apply elem_of_app. left. by eapply Ho.
Qed.
End order.
End Protogen.
