(* ===== verification/Lifecycle.v ===== *)
(** * Serving and shutting down

    [internal/grpcserver/server.go], the end of [Run] in
    [services/ingestion/app/app.go], and [runHTTPServer] of
    [services/integrations/main.go], which every other HTTP service repeats in its
    [main]. Goroutines, the network and the timers of ten seconds are steps of a
    relation, in any order; a select is a step per ready case. Goroutines report on a channel of
    errors with the capacity the source gives it, and a send waits when it is full. *)
From stdpp Require Import base option list gmap strings relations.
From Stdlib Require Import ZArith Lia.
From S2P Require Import Prelude.

Module Lifecycle.

(** ** Servers of gRPC *)

(** The goroutines that report to the channel of errors *)
Inductive role := Worker | GRPC | HealthHTTP.
#[export] Instance role_eq_dec : EqDecision role.
Proof. solve_decision. Defined.

(** The goroutine that stops gracefully *)
Inductive graceful_phase := NotSpawned | Spawned | Stopping | Stopped.
(** [Run]: its first select, the shutdown of the health endpoint, its second select,
    and its result *)
Inductive run_phase := Waiting | ClosingHealth | Draining | Returned (err : option string).
(** [sending] are the goroutines that are done and wait for room in the channel of
    errors, with what they send; [errors] is the buffer of the channel. *)
Record server := {
  health : gmap string bool;
  goroutines : list role;
  sending : list (role * option string);
  errors : list (option string);
  room : nat;
  signalled : bool;
  accepting : bool;
  streams : nat;
  graceful : graceful_phase;
  main : run_phase;
  health_endpoint : bool
}.

(** The goroutine [r] is done; [sent] is what it has to send, if anything. *)
Definition ends (r : role) (sent : option (option string)) (s : server) : server := {|
  health := health s; goroutines := filter (λ r', r' ≠ r) (goroutines s); sending := sending s ++ option_list (pair r <$> sent);
  errors := errors s; room := room s; signalled := signalled s; accepting := accepting s; streams := streams s;
  graceful := graceful s; main := main s; health_endpoint := health_endpoint s |}.
(** A send to the channel succeeds; [waiting] are the others. *)
Definition sends (v : option string) (waiting : list (role * option string)) (s : server) : server := {|
  health := health s; goroutines := goroutines s; sending := waiting; errors := errors s ++ [v]; room := room s;
  signalled := signalled s; accepting := accepting s; streams := streams s;
  graceful := graceful s; main := main s; health_endpoint := health_endpoint s |}.
Definition set_streams (n : nat) (s : server) : server := {|
  health := health s; goroutines := goroutines s; sending := sending s; errors := errors s; room := room s;
  signalled := signalled s; accepting := accepting s; streams := n; graceful := graceful s; main := main s; health_endpoint := health_endpoint s |}.
Definition signal (s : server) : server := {|
  health := health s; goroutines := goroutines s; sending := sending s; errors := errors s; room := room s;
  signalled := true; accepting := accepting s; streams := streams s; graceful := graceful s; main := main s; health_endpoint := health_endpoint s |}.
Definition set_graceful (g : graceful_phase) (s : server) : server := {|
  health := health s; goroutines := goroutines s; sending := sending s; errors := errors s; room := room s;
  signalled := signalled s; accepting := match g with Stopping => false | _ => accepting s end; streams := streams s;
  graceful := g; main := main s; health_endpoint := health_endpoint s |}.
(** [SetServingStatus] NOT_SERVING for every name *)
Definition not_serving (s : server) : gmap string bool := (λ _, false) <$> health s.
(** [Run] goes on to [m], with [g] for the graceful stop. *)
Definition set_main (m : run_phase) (g : graceful_phase) (s : server) : server := {|
  health := health s; goroutines := goroutines s; sending := sending s; errors := errors s; room := room s;
  signalled := signalled s; accepting := accepting s; streams := streams s; graceful := g; main := m; health_endpoint := health_endpoint s |}.
(** The first select takes the signal. The ingestion service, which has a health
    endpoint, closes it before it spawns the graceful stop. *)
Definition take_signal (s : server) : server := {|
  health := not_serving s; goroutines := goroutines s; sending := sending s; errors := errors s; room := room s;
  signalled := signalled s; accepting := accepting s; streams := streams s;
  graceful := if health_endpoint s then graceful s else Spawned; main := if health_endpoint s then ClosingHealth else Draining;
  health_endpoint := health_endpoint s |}.
(** [healthHTTP.Shutdown] has returned. *)
Definition closed_health (s : server) : server := set_main Draining Spawned s.
Definition returns (err : option string) (s : server) : server := set_main (Returned err) (graceful s) s.
(** The first select takes an error. *)
Definition take_error (err : option string) (rest : list (option string)) (s : server) : server := {|
  health := health s; goroutines := goroutines s; sending := sending s; errors := rest; room := room s; signalled := signalled s;
  accepting := accepting s; streams := streams s; graceful := graceful s; main := Returned err; health_endpoint := health_endpoint s |}.
(** [server.Stop], which closes every connection *)
Definition stop (s : server) : server := {|
  health := health s; goroutines := goroutines s; sending := sending s; errors := errors s; room := room s; signalled := signalled s;
  accepting := false; streams := 0; graceful := graceful s; main := Returned None; health_endpoint := health_endpoint s |}.

(** A service: its goroutines, the names of its health statuses and the capacity of its
    channel; and its server before its first step *)
Record service := Service { roles : list role; names : list string; capacity : nat }.
Definition started (v : service) : server := {|
  health := list_to_map ((λ name, (name, true)) <$> names v); goroutines := roles v; sending := []; errors := []; room := capacity v;
  signalled := false; accepting := true; streams := 0;
  graceful := NotSpawned; main := Waiting; health_endpoint := bool_decide (HealthHTTP ∈ roles v) |}.
Definition grpcserver (name : string) : service := Service [GRPC] [""%string; name] 1.
Definition ingestion : service := Service [Worker; GRPC; HealthHTTP] [""%string; "ingestion"%string] 3.

(** What clients, operators and failures do *)
Inductive env_step : server → server → Prop :=
| env_open s : GRPC ∈ goroutines s → accepting s = true → env_step s (set_streams (S (streams s)) s)
| env_close s n : streams s = S n → env_step s (set_streams n s)
| env_signal s : env_step s (signal s)
| env_fail s r e : r ∈ goroutines s → env_step s (ends r (Some (Some e)) s).
(** What the process does. The worker returns nothing when its context is cancelled,
    [Serve] when the server has been stopped; the health endpoint reports nothing when it
    has been shut down. A send needs room in the channel. *)
Inductive run_step : server → server → Prop :=
| run_worker s : Worker ∈ goroutines s → signalled s = true → run_step s (ends Worker (Some None) s)
| run_serve s : GRPC ∈ goroutines s → accepting s = false → run_step s (ends GRPC (Some None) s)
| run_health s : HealthHTTP ∈ goroutines s → main s = ClosingHealth ∨ main s = Draining → run_step s (ends HealthHTTP None s)
| run_send s l1 r v l2 : sending s = l1 ++ (r, v) :: l2 → (length (errors s) < room s)%nat → run_step s (sends v (l1 ++ l2) s)
| run_error s e rest : main s = Waiting → errors s = e :: rest → run_step s (take_error e rest s)
| run_signal s : main s = Waiting → signalled s = true → run_step s (take_signal s)
| run_closed s : main s = ClosingHealth → run_step s (closed_health s)
| run_stopping s : graceful s = Spawned → run_step s (set_graceful Stopping s)
| run_stopped s : graceful s = Stopping → streams s = 0%nat → run_step s (set_graceful Stopped s)
| run_return s : main s = Draining → graceful s = Stopped → run_step s (returns None s)
| run_timeout s : main s = Draining → run_step s (stop s).
Definition returned (s : server) : bool := match main s with Returned _ => true | _ => false end.
(** The process ends when [Run] returns. *)
Inductive step (s s' : server) : Prop :=
| step_env : returned s = false → env_step s s' → step s s'
| step_run : returned s = false → run_step s s' → step s s'.
(** Executions with [n] steps of the process, and any number of others in between *)
Inductive process_steps : nat → server → server → Prop :=
| steps_none s : process_steps 0 s s
| steps_env n s s' s'' : returned s = false → env_step s s' → process_steps n s' s'' → process_steps n s s''
| steps_run n s s' s'' : returned s = false → run_step s s' → process_steps n s' s'' → process_steps (S n) s s''.

(** No status is serving, and no stream is left or accepted. *)
Definition nothing_served (v : service) (s : server) : Prop := ∀ name, name ∈ names v → health s !! name = Some false.
Definition shut_down (v : service) (s : server) : Prop := nothing_served v s ∧ accepting s = false ∧ streams s = 0%nat.

(** ** Their invariant *)

Section invariant.
Context (v : service).

(** The worker was cancelled: it has ended, and nothing else has sent nothing. *)
Definition worker_ended (s : server) : Prop := Worker ∈ roles v ∧ Worker ∉ goroutines s ∧ signalled s = true.
Record ok (s : server) : Prop := {
  ok_room : (length (errors s) + length (sending s) + length (goroutines s) ≤ room s)%nat;
  ok_few : (length (sending s) + length (goroutines s) ≤ length (roles v))%nat;
  ok_names : ∀ name, name ∈ names v → is_Some (health s !! name);
  ok_sub : goroutines s ⊆ roles v;
  ok_nil : None ∈ errors s ++ (sending s).*2 → worker_ended s ∨ accepting s = false;
  ok_main : match main s with
            | Waiting => graceful s = NotSpawned ∧ accepting s = true
            | ClosingHealth => graceful s = NotSpawned ∧ accepting s = true ∧ signalled s = true ∧ nothing_served v s
            | Draining => graceful s ≠ NotSpawned ∧ signalled s = true ∧ nothing_served v s
            | Returned None => signalled s = true ∧ (shut_down v s ∨ worker_ended s)
            | Returned (Some _) => True
            end;
  ok_stopping : graceful s = Stopping ∨ graceful s = Stopped → accepting s = false;
  ok_stopped : graceful s = Stopped → streams s = 0%nat
}.
Lemma started_ok : (length (roles v) ≤ capacity v)%nat → ok (started v).
Proof.
  intros Hroom. split; simpl; [done|done| |done|set_solver|done|naive_solver|done].
  intros name Hin. apply not_eq_None_Some. intros Hnone%not_elem_of_list_to_map_2. apply Hnone.
  by rewrite <- list_fmap_compose, list_fmap_id.
Qed.
Lemma filter_shorter (r : role) l : r ∈ l → (S (length (filter (λ r', r' ≠ r) l)) ≤ length l)%nat.
Proof.
  induction l as [|r' l IH]; [by rewrite elem_of_nil|]. intros Hin. rewrite filter_cons. simpl. case_decide as Hne.
  - apply elem_of_cons in Hin as [<-|Hin]; [done|]. simpl. specialize (IH Hin). lia.
  - apply le_n_S, length_filter.
Qed.
Lemma ends_ok r sent s :
  ok s → r ∈ goroutines s → (sent = Some None → r = Worker ∧ signalled s = true ∨ accepting s = false) → ok (ends r sent s).
Proof.
  intros [Hroom Hfew Hnames Hsub Hnil Hmain Hg1 Hg2] Hr Hsent. assert (worker_ended s → worker_ended (ends r sent s)) as Hw.
  { intros (? & Hn & ?). split_and!; try done. cbn. rewrite list_elem_of_filter. naive_solver. }
  pose proof (filter_shorter r _ Hr).
  split; cbn; try done.
  - rewrite length_app. destruct sent; simpl; lia.
  - rewrite length_app. destruct sent; simpl; lia.
  - intros r' [_ Hr']%list_elem_of_filter. by apply Hsub.
  - rewrite fmap_app, app_assoc, elem_of_app. intros [Hin|Hin]; [naive_solver|]. destruct sent as [e|]; [|by apply elem_of_nil in Hin].
    apply list_elem_of_singleton in Hin. simpl in Hin. subst e. destruct Hsent as [[-> ?]|?]; [done| |by right]. left. split_and!; try done; [by apply Hsub|].
    cbn. rewrite list_elem_of_filter. naive_solver.
  - destruct (main s) as [| | |[]]; naive_solver.
Qed.
Lemma sends_ok l1 r e l2 s :
  ok s → sending s = l1 ++ (r, e) :: l2 → ok (sends e (l1 ++ l2) s).
Proof.
  intros [Hroom Hfew Hnames Hsub Hnil Hmain Hg1 Hg2] Hs. rewrite Hs in *. rewrite length_app in Hroom, Hfew. simpl in Hroom, Hfew.
  split; cbn; try done; rewrite ?length_app; simpl; try lia.
  intros Hin. apply Hnil. rewrite !fmap_app in *. simpl. set_solver.
Qed.
Lemma env_ok s s' : env_step s s' → returned s = false → ok s → ok s'.
Proof.
  intros [s1 Hg Ha|s1 n Hn|s1|s1 r e Hg] Hr Hok; [| | |by apply ends_ok];
    destruct Hok as [? ? ? ? Hnil Hmain Hg1 Hg2]; unfold returned in Hr; split; cbn; try done.
  - destruct (main s1); naive_solver.
  - intros Hg'. rewrite Hg1 in Ha by auto. done.
  - destruct (main s1); naive_solver.
  - intros Hg'%Hg2. lia.
  - unfold worker_ended in *. naive_solver.
  - destruct (main s1); naive_solver.
Qed.
Lemma signal_taken s : (∀ name, name ∈ names v → is_Some (health s !! name)) → nothing_served v (take_signal s).
Proof. intros Hnames name [b Hb]%Hnames. cbn. unfold not_serving. by rewrite lookup_fmap, Hb. Qed.
Lemma run_ok s s' : run_step s s' → returned s = false → ok s → ok s'.
Proof.
  intros [s1 Hg Hsig|s1 Hg Ha|s1 Hg Hm|s1 l1 r e l2 He Hlt|s1 e rest Hm He|s1 Hm Hsig|s1 Hm|s1 Hg|s1 Hg Hn|s1 Hm Hg|s1 Hm] Hr Hok;
    [by apply ends_ok; auto|by apply ends_ok; auto|by apply ends_ok|by eapply sends_ok|..];
    destruct Hok as [Hroom Hfew Hnames Hsub Hnil Hmain Hg1 Hg2]; unfold returned in Hr; try rewrite Hm in Hmain; split; cbn; try done.
  - rewrite He in Hroom. simpl in Hroom. lia.
  - intros Hin. apply Hnil. rewrite He. set_solver.
  - destruct e; [done|]. destruct Hmain as [_ Ha], Hnil as [Hw|]; [rewrite He; set_solver| |congruence]. unfold worker_ended in *. naive_solver.
  - intros name Hin. exists false. by apply signal_taken.
  - pose proof (signal_taken s1 Hnames). destruct (health_endpoint s1); naive_solver.
  - destruct (health_endpoint s1); [auto|by intros [|]].
  - by destruct (health_endpoint s1); auto.
  - naive_solver.
  - by intros [|].
  - auto.
  - destruct (main s1) as [| | |[]]; naive_solver congruence.
  - destruct (main s1) as [| | |[]]; naive_solver congruence.
  - auto.
  - unfold shut_down. cbn. naive_solver.
  - auto.
  - unfold shut_down. cbn. naive_solver.
Qed.
Lemma step_ok s s' : ok s → step s s' → ok s'.
Proof. intros Hok [Hr Hs|Hr Hs]; [by eapply env_ok|by eapply run_ok]. Qed.
Lemma reachable_ok s : (length (roles v) ≤ capacity v)%nat → rtc step (started v) s → ok s.
Proof.
  intros Hroom Hs. pose proof (started_ok Hroom) as Hok. induction Hs as [|s1 s2 s3 H12 _ IH]; [done|]. apply IH. by eapply step_ok.
Qed.

(** Every step of the process brings its end nearer; the others leave it where it is. *)
Definition rank (s : server) : nat :=
  2 * length (goroutines s) + length (sending s)
  + match graceful s with NotSpawned => 3 | Spawned => 2 | Stopping => 1 | Stopped => 0 end
  + match main s with Waiting => 3 | ClosingHealth => 2 | Draining => 1 | Returned _ => 0 end.
Lemma ends_rank r sent s : r ∈ goroutines s → (rank (ends r sent s) < rank s)%nat.
Proof.
  intros Hr. pose proof (filter_shorter r _ Hr). unfold rank. cbn. rewrite length_app. destruct sent; simpl; lia.
Qed.
Lemma run_decreases s s' : ok s → run_step s s' → (rank s' < rank s)%nat.
Proof.
  intros Hok Hs. pose proof (ok_main _ Hok) as Hmain.
  destruct Hs as [s1 Hg Hsig|s1 Hg Ha|s1 Hg Hm|s1 l1 r e l2 He Hlt|s1 e rest Hm He|s1 Hm Hsig|s1 Hm|s1 Hg|s1 Hg Hn|s1 Hm Hg|s1 Hm];
    try (by apply ends_rank); unfold rank; cbn; try rewrite Hm in *; try rewrite Hg in *; try lia.
  - rewrite He, !length_app. simpl. lia.
  - destruct Hmain as [Hgr _]. rewrite Hgr. destruct (health_endpoint s1); lia.
  - destruct Hmain as [Hgr _]. rewrite Hgr. lia.
Qed.
Lemma env_rank s s' : env_step s s' → (rank s' ≤ rank s)%nat.
Proof. intros [s1 _ _|s1 n _|s1|s1 r e Hg]; [unfold rank; cbn; lia..|]. pose proof (ends_rank r (Some (Some e)) _ Hg). lia. Qed.
Lemma run_progress s : signalled s = true → returned s = false → ∃ s', run_step s s'.
Proof.
  intros Hsig Hr. destruct (main s) eqn:Hm; [by eexists; apply run_signal|by eexists; apply run_closed|by eexists; apply run_timeout|].
  unfold returned in Hr. by rewrite Hm in Hr.
Qed.
Lemma run_signalled s s' : run_step s s' → signalled s = true → signalled s' = true.
Proof. by intros []. Qed.
Lemma env_signalled s s' : env_step s s' → signalled s = true → signalled s' = true.
Proof. by intros []. Qed.
Lemma process_steps_bounded n s s' :
  process_steps n s s' → ok s → signalled s = true →
  (n + rank s' ≤ rank s)%nat ∧ signalled s' = true.
Proof.
  induction 1 as [s|n s s1 s2 Hr Hs _ IH|n s s1 s2 Hr Hs _ IH]; intros Hok Hsig; [split; [simpl; lia|done]|..].
  - destruct IH; [by eapply env_ok|by eapply env_signalled|]. pose proof (env_rank _ _ Hs). split; [lia|done].
  - destruct IH; [by eapply run_ok|by eapply run_signalled|]. pose proof (run_decreases _ _ Hok Hs). split; [lia|done].
Qed.
Lemma rank_bounded s : ok s → (rank s ≤ 2 * length (roles v) + 6)%nat.
Proof. intros Hok. pose proof (ok_few _ Hok). unfold rank. destruct (graceful s), (main s); lia. Qed.
End invariant.

(** C38: The two kinds of gRPC servers, the ingestion service and those of
    [internal/grpcserver], shut down. In every state they reach, whatever clients,
    failures and timers do: no goroutine that has something to send waits for room in the
    channel of errors; once the signal is taken no health status is serving; and a [Run]
    that returns without an error was signalled, and no stream is served, accepted or
    left open, unless the return of a cancelled worker, which only ingestion has, was
    taken for the end (the worker itself is not awaited, [worker_left_running]). After
    the signal the process returns within 12 steps of its own, and until it returns it
    can make one, whatever the others do in between. *)
Theorem server_shuts_down v s :
  v = ingestion ∨ (∃ name, v = grpcserver name) → rtc step (started v) s →
  (∀ r e, (r, e) ∈ sending s → (length (errors s) < room s)%nat) ∧
  (main s = ClosingHealth ∨ main s = Draining → nothing_served v s) ∧
  (main s = Returned None → signalled s = true ∧ (shut_down v s ∨ worker_ended v s)) ∧
  (signalled s = true → ∀ n s', process_steps n s s' →
     (n ≤ 12)%nat ∧ (returned s' = false → ∃ s'', run_step s' s'')).
Proof.
  intros Hv Hs. assert (length (roles v) ≤ capacity v ∧ length (roles v) ≤ 3)%nat as [Hroom H3]
    by (destruct Hv as [->|[name ->]]; simpl; lia).
  apply (reachable_ok _ _ Hroom) in Hs as Hok. pose proof (ok_main _ _ Hok) as Hmain. split_and!.
  - intros r e Hin. pose proof (ok_room _ _ Hok). apply list_elem_of_lookup_1 in Hin as (i & Hi%lookup_lt_Some). lia.
  - by intros [Hm|Hm]; rewrite Hm in Hmain; apply Hmain.
  - intros Hm. by rewrite Hm in Hmain.
  - intros Hsig n s' Hn. destruct (process_steps_bounded _ _ _ _ Hn Hok Hsig) as [Hle Hsig'].
    pose proof (rank_bounded _ _ Hok). split; [lia|]. by apply run_progress.
Qed.
Lemma server_shuts_down_witness :
  ∃ s, rtc step (started (grpcserver "query")) s ∧ main s = Returned None ∧ shut_down (grpcserver "query") s.
Proof.
  assert (∃ s, rtc step (started (grpcserver "query")) s ∧ main s = Returned None) as (s & Hs & Hm).
  { eexists. split.
    - eapply rtc_l; [apply step_env; [done|apply env_open; [by left|done]]|].
      eapply rtc_l; [apply step_env; [done|apply env_signal]|].
      do 3 (eapply rtc_l; [apply step_run; [done|first [by apply run_signal|by apply run_stopping|by apply run_timeout]]|]).
      apply rtc_refl.
    - done. }
  exists s. split_and!; [done..|].
  destruct (server_shuts_down (grpcserver "query") s (or_intror (ex_intro _ "query"%string eq_refl)) Hs) as (_ & _ & H & _).
  destruct (H Hm) as [_ [?|[Hw _]]]; [done|]. exfalso. apply list_elem_of_singleton in Hw. discriminate.
Defined.

(** The worker of the ingestion service is cancelled by the same signal and reports it
    on the same channel: a [Run] that has not reached its select when the signal arrives
    can return at once, with its streams open and its statuses serving. *)
Lemma worker_return_skips_shutdown :
  ∃ s, rtc step (started ingestion) s ∧ main s = Returned None ∧ streams s = 1%nat ∧ accepting s = true ∧ health s !! "ingestion"%string = Some true.
Proof.
  eexists. split.
  - eapply rtc_l; [apply step_env; [done|apply env_open; [by right; left|done]]|].
    eapply rtc_l; [apply step_env; [done|apply env_signal]|].
    eapply rtc_l; [apply step_run; [done|apply run_worker; [by left|done]]|].
    eapply rtc_l; [apply step_run; [done|by apply (run_send _ [] Worker None []); [|simpl; lia]]|].
    eapply rtc_l; [apply step_run; [done|by apply run_error]|]. apply rtc_refl.
  - done.
Qed.
(** [Run] of the ingestion service does not wait for its worker: it can return, with the
    server shut down, while the worker is still running, and the process ends with it. *)
Lemma worker_left_running :
  ∃ s, rtc step (started ingestion) s ∧ main s = Returned None ∧ shut_down ingestion s ∧ Worker ∈ goroutines s.
Proof.
  eexists. split.
  - eapply rtc_l; [apply step_env; [done|apply env_signal]|].
    eapply rtc_l; [apply step_run; [done|by apply run_signal]|].
    eapply rtc_l; [apply step_run; [done|by apply run_closed]|].
    eapply rtc_l; [apply step_run; [done|by apply run_timeout]|]. apply rtc_refl.
  - split; [done|]. split; [|by left]. split_and!; [|done..]. intros name Hin.
    simpl in Hin. rewrite !elem_of_cons, elem_of_nil in Hin. destruct Hin as [->|[->|[]]]; reflexivity.
Qed.

(** ** Servers of HTTP *)

(** The goroutine that waits for the signal: it calls [Shutdown], which closes the
    listener and then waits for the requests or its deadline. *)
Inductive shutdown_phase := NotCalled | WaitingForRequests | ShutdownReturned (err : option string).
(** [ListenAndServe] in [main], and the end of the process with its exit code *)
Inductive process := Serving | Exited (code : Z).
Record http_server := {
  listening : bool;
  requests : nat;
  http_signalled : bool;
  shutdown : shutdown_phase;
  process_of : process
}.
Definition http_started : http_server := {| listening := true; requests := 0; http_signalled := false; shutdown := NotCalled; process_of := Serving |}.
Definition set_requests (n : nat) (s : http_server) : http_server := {|
  listening := listening s; requests := n; http_signalled := http_signalled s; shutdown := shutdown s; process_of := process_of s |}.
Definition http_signal (s : http_server) : http_server := {|
  listening := listening s; requests := requests s; http_signalled := true; shutdown := shutdown s; process_of := process_of s |}.
Definition call_shutdown (s : http_server) : http_server := {|
  listening := false; requests := requests s; http_signalled := http_signalled s; shutdown := WaitingForRequests; process_of := process_of s |}.
Definition shutdown_returns (err : option string) (s : http_server) : http_server := {|
  listening := listening s; requests := requests s; http_signalled := http_signalled s; shutdown := ShutdownReturned err; process_of := process_of s |}.
(** [ListenAndServe] returns, and [main] with it: the requests that are left are cut
    off. [err] is [None] for [ErrServerClosed]. *)
Definition serve_returns (err : option string) (s : http_server) : http_server := {|
  listening := false; requests := requests s; http_signalled := http_signalled s; shutdown := shutdown s;
  process_of := Exited match err with None => 0 | Some _ => 1 end |}.
Inductive http_step : http_server → http_server → Prop :=
| http_request s : listening s = true → http_step s (set_requests (S (requests s)) s)
| http_response s n : requests s = S n → http_step s (set_requests n s)
| http_interrupt s : http_step s (http_signal s)
| http_shutdown s : http_signalled s = true → shutdown s = NotCalled → http_step s (call_shutdown s)
| http_drained s : shutdown s = WaitingForRequests → requests s = 0%nat → http_step s (shutdown_returns None s)
| http_deadline s : shutdown s = WaitingForRequests → http_step s (shutdown_returns (Some "context deadline exceeded"%string) s)
| http_closed s : shutdown s ≠ NotCalled → http_step s (serve_returns None s)
| http_fails s e : shutdown s = NotCalled → http_step s (serve_returns (Some e) s).
Definition alive_step (s s' : http_server) : Prop := process_of s = Serving ∧ http_step s s'.

(** The process ends with code 0 only after a signal that was acted on, and with code 1
    only if it was not; until then it listens. *)
Definition http_ok (s : http_server) : Prop :=
  (shutdown s ≠ NotCalled → http_signalled s = true) ∧
  match process_of s with
  | Serving => listening s = true ↔ shutdown s = NotCalled
  | Exited code => code = 0 ∧ http_signalled s = true ∧ shutdown s ≠ NotCalled ∨ code = 1 ∧ shutdown s = NotCalled
  end.
Lemma http_exit_codes s : rtc alive_step http_started s → http_ok s.
Proof.
  apply (rtc_ind_r http_ok http_started); [done|]. intros s1 s2 _ [Hp Hs] [Hsig Hok]. rewrite Hp in Hok. unfold http_ok.
  destruct Hs; cbn; rewrite ?Hp; naive_solver congruence.
Qed.
(** [main] does not wait for [Shutdown]: as soon as it is called, [ListenAndServe] has
    returned, and the process ends with its requests cut off, however many there are and
    however long they had left. *)
Lemma shutdown_not_awaited n :
  ∃ s s', rtc alive_step http_started s ∧ shutdown s = WaitingForRequests ∧ requests s = n ∧ alive_step s s' ∧ process_of s' = Exited 0 ∧ requests s' = n.
Proof.
  set (busy := set_requests n http_started). assert (rtc alive_step http_started busy) as Hbusy.
  { unfold busy. clear busy. induction n as [|n IH]; [apply rtc_refl|]. eapply rtc_r; [exact IH|]. split; [done|].
    by apply (http_request (set_requests n http_started)). }
  exists (call_shutdown (http_signal busy)). eexists. split; [|split; [done|]; split; [done|]; split; [split; [done|by apply http_closed]|done]].
  apply (rtc_r _ (http_signal busy)); [|by split; [|apply http_shutdown]].
  apply (rtc_r _ busy); [exact Hbusy|]. split; [done|apply http_interrupt].
Qed.
End Lifecycle.
