(* ===== verification/Entry.v ===== *)
(** * Entry points

    The [main] of every program: [services/*/main.go], [agent/main.go],
    [operators/*/main.go], [internal/serviceentry], [internal/operatorentry],
    [internal/controllermanager] and the checks of [internal/grpcserver]. What a program
    does with its environment until it serves; [Lifecycle.v] has what follows. *)
From stdpp Require Import base option list gmap strings.
From Stdlib Require Import ZArith Lia.
From S2P Require Import Prelude Effects Stores Http Gateway Workflow Sql Allocation Recommendations Lineage Policy Members Integrations Registry AuditLog Exports Startup Lifecycle.

Module Entry.
Import Sql Allocation Recommendations Startup.

(** How a program goes on: it serves only the health service under a name, it serves an
    API at an address with the server of HTTP or of gRPC it starts, it leaves its
    components to a controller manager, or it logs an error and exits. *)
Inductive outcome (A : Type) :=
| ServeHealth (name : string)
| ServeAPI (label address : string) (api : A) (server : Lifecycle.http_server)
| ServeStreams (address : string) (api : A) (server : Lifecycle.server)
| Manage (components : A)
| Exit (code : Z) (message err : string).
Arguments ServeHealth {A} name.
Arguments ServeAPI {A} label address api server.
Arguments ServeStreams {A} address api server.
Arguments Manage {A} components.
Arguments Exit {A} code message err.

Section entry.
Context (Getenv : string → string) (ParseDuration : string → option Duration).

(** ** The health service *)

Definition serviceentry_address : string := if (Getenv "GRPC_ADDRESS" =? "")%string then ":8080"%string else Getenv "GRPC_ADDRESS"%string.
(** [grpcserver.Run] until it serves *)
Definition grpcserver_Run (Listen : string → res string unit) (name address : string) : res string Lifecycle.server :=
  if (name =? "")%string then Err "service name is required"%string
  else
    let address := if (address =? "")%string then ":8080"%string else address in
    _ ← wrap ("listen on " +:+ address) (Listen address);
    Ok (Lifecycle.started (Lifecycle.grpcserver name)).
Definition serviceentry_Run (Listen : string → res string unit) (name : string) : res string Lifecycle.server :=
  grpcserver_Run Listen name serviceentry_address.

(** ** Services that keep their data in memory *)

(** Without an address a service has no API. *)
Definition memory_main {A} (variable name label : string) (api : A) : outcome A :=
  let address := Getenv variable in
  if (address =? "")%string then ServeHealth name else ServeAPI label address api Lifecycle.http_started.
Definition audit_main : outcome Audit.Store := memory_main "AUDIT_HTTP_ADDRESS" "audit" "audit API" (Audit.NewStore 1000).
Definition policy_main : outcome Policy.Store := memory_main "POLICY_HTTP_ADDRESS" "policy" "policy API" Policy.NewStore.
Definition export_main : outcome Exports.Store := memory_main "EXPORT_HTTP_ADDRESS" "export" "export API" (Exports.NewStore 1000).
Definition tenant_main : outcome Tenant.Store := memory_main "TENANT_HTTP_ADDRESS" "tenant" "tenant API" Tenant.NewStore.
Definition identity_main : outcome unit := memory_main "IDENTITY_HTTP_ADDRESS" "identity" "identity API" tt.
Definition cluster_registry_main : outcome Registry.MemoryRepository :=
  memory_main "CLUSTER_REGISTRY_HTTP_ADDRESS" "cluster-registry" "cluster registry API" Registry.NewMemoryRepository.

(** ** Services over ClickHouse *)

Section database.
Context {C : Type} (Open : clickhouse_Options → res string C).
Definition repository_main (variable name : string) (OpenRepository : ClickHouseConfig → res string C) (config : ClickHouseConfig) : outcome C :=
  let address := Getenv variable in
  if (address =? "")%string then ServeHealth name
  else match OpenRepository config with
       | Err e => Exit 1 ("open " +:+ name +:+ " repository") e
       | Ok c => ServeAPI (name +:+ " API") address c Lifecycle.http_started
       end.
Definition query_main : outcome C := repository_main "QUERY_HTTP_ADDRESS" "query" (query_OpenRepository Open) (query_ConfigFromEnv Getenv).
Definition pricing_main : outcome C := repository_main "PRICING_HTTP_ADDRESS" "pricing" (pricing_OpenRepository Open) (pricing_ConfigFromEnv Getenv).
Definition workflow_main : outcome C := repository_main "WORKFLOW_HTTP_ADDRESS" "workflow" (workflow_OpenRepository Open) (workflow_ConfigFromEnv Getenv).

Context {F decimal : Type} `{Arith F} `{Rounding F} (ParseFloat : string → option F).
(** The allocation service always has its API. The repository and the engine both get
    the prices. *)
Definition allocation_main : outcome (C * Allocation.AllocationOptions F * Allocation.AllocationOptions F) :=
  match allocation_ConfigFromEnv Getenv ParseFloat with
  | Err e => Exit 1 "invalid allocation configuration" e
  | Ok config =>
      match allocation_OpenRepository Open (A_ClickHouse config) (Allocation_ config) with
      | Err e => Exit 1 "open allocation repository" e
      | Ok (c, options) => ServeAPI "allocation service" (HTTPAddress config) (c, options, Allocation.NewEngineWithOptions (Allocation_ config)) Lifecycle.http_started
      end
  end.

(** The recommendations are generated and stored once, before the health service is
    served. [database] answers the reads of a connection, [order] and [ties] are the
    orders that the engine leaves open, [now] and [now'] the times of the two steps. *)
Context (NewFromFloat : F → decimal) (NewHash : string → string).
Context (ScanError : list (Sql.value decimal) → string) (database : C → string * list (Sql.value decimal) → answer (decimal := decimal)).
Context (order : list string) (ties : list Sample → list Sample) (now now' : Time).
Definition recommendations_main : prog (batch_ans (decimal := decimal)) (outcome unit) :=
  if (Getenv "TENANT_ID" =? "")%string then Ret (ServeHealth "recommendations")
  else match recommendations_ConfigFromEnv Getenv ParseDuration ParseFloat with
       | Err e => Ret (Exit 1 "invalid recommendations configuration" e)
       | Ok config =>
           match recommendations_OpenRepository Open (R_ClickHouse config) with
           | Err e => Ret (Exit 1 "open recommendations repository" e)
           | Ok c =>
               match EngineRecommendations ScanError (database c) (normalizeConfig (Engine config)) now order ties
                       {| Recommendations.TenantID := R_Tenant config; Recommendations.ClusterID := R_Cluster config; End_ := 0 |} with
               | Err e => Ret (Exit 1 "generate recommendations" e)
               | Ok recommendations =>
                   saved ← SaveRecommendations NewFromFloat NewHash recommendations now';
                   Ret match saved with Some e => Exit 1 "persist optimization recommendations" e | None => ServeHealth "recommendations" end
               end
           end
       end.
(** The recommendations service serves its health exactly if it has no tenant, or its
    recommendations were generated and stored in one batch. *)
Lemma recommendations_stored_first t name :
  traces recommendations_main t (ServeHealth name) ↔
  name = "recommendations"%string ∧
  (Getenv "TENANT_ID"%string = EmptyString ∧ t = [] ∨
   Getenv "TENANT_ID"%string ≠ EmptyString ∧
   ∃ config c recommendations,
     recommendations_ConfigFromEnv Getenv ParseDuration ParseFloat = Ok config ∧ recommendations_OpenRepository Open (R_ClickHouse config) = Ok c ∧
     EngineRecommendations ScanError (database c) (normalizeConfig (Engine config)) now order ties
       {| Recommendations.TenantID := R_Tenant config; Recommendations.ClusterID := R_Cluster config; End_ := 0 |} = Ok recommendations ∧
     t = one_batch NewFromFloat NewHash recommendations now').
Proof.
  unfold recommendations_main. destruct (String.eqb_spec (Getenv "TENANT_ID"%string) "") as [Ht|Ht]; [simpl; naive_solver|].
  destruct (recommendations_ConfigFromEnv _ _ _) as [config|e] eqn:Hc; [destruct (recommendations_OpenRepository Open (R_ClickHouse config)) as [c|e] eqn:Ho;
    [destruct (EngineRecommendations ScanError (database c) _ _ _ _ _) as [rs|e] eqn:He|]|];
    [|by split; [intros [_ [=]]|intros [_ [[? _]|(? & ? & ? & ? & ? & ? & ? & ?)]]; simplify_eq; congruence]..].
  rewrite (traces_bind _ (SaveRecommendations NewFromFloat NewHash rs now')). split.
  - intros (saved & t1 & t2 & -> & H1 & H2). destruct saved as [e|]; [by destruct H2|]. destruct H2 as [-> [= ->]].
    apply saved_in_one_batch in H1 as ->. split; [done|]. right. rewrite app_nil_r. eauto 10.
  - intros [-> [[? _]|(_ & config' & c' & rs' & [= <-] & Ho' & He' & ->)]]; [done|].
    assert (c' = c) as -> by congruence. assert (rs' = rs) as -> by congruence.
    eexists None, _, []. rewrite app_nil_r. split; [done|]. split; [by apply saved_in_one_batch|done].
Qed.
End database.

(** ** The integrations service *)

(** Where the configuration of Kubernetes is read, and what it is; [Stat] says whether a
    file exists, [Join] is [filepath.Join]. *)
Inductive rest_config := BuildConfigFromFlags (path : string) | InClusterConfig.
Section kubernetes.
Context (Stat : string → bool) (Join : list string → string).
(** The configuration under a home directory, if it is there *)
Definition home_config (variable : string) : option rest_config :=
  let home := Getenv variable in
  if (home =? "")%string then None
  else
    let kubeconfig := Join [home; ".kube"; "config"]%string in
    if Stat kubeconfig then Some (BuildConfigFromFlags kubeconfig) else None.
Definition kubernetesConfig : rest_config :=
  if negb (Getenv "KUBECONFIG" =? "")%string then BuildConfigFromFlags (Getenv "KUBECONFIG"%string)
  else match home_config "USERPROFILE" with
       | Some config => config
       | None => match home_config "HOME" with Some config => config | None => InClusterConfig end
       end.

(** The APIs it can serve; the cluster of the Karpenter reader comes from the
    environment. *)
Inductive integrations_api :=
| ControlAPI (store : Integrations.IntegrationStore)
| KarpenterAPI (clusterID : string)
| CombinedAPI (store : Integrations.IntegrationStore) (clusterID : string).
(** The configuration is loaded and two clients are made from it; [rest], [dynamic] and
    [core] are their errors. *)
Context (rest : rest_config → option string) (dynamic core : option string).
Definition clients : option string :=
  match rest kubernetesConfig with
  | Some e => Some e
  | None => match dynamic with Some e => Some e | None => core end
  end.
Definition runCombinedAPI (address : string) : res string (outcome integrations_api) :=
  match clients with
  | Some e => Err e
  | None => Ok (ServeAPI "integrations combined API" address (CombinedAPI Integrations.NewIntegrationStore (Getenv "CLUSTER_ID"%string)) Lifecycle.http_started)
  end.
Definition runKarpenterAPI (address : string) : res string (outcome integrations_api) :=
  match clients with
  | Some e => Err e
  | None => Ok (ServeAPI "karpenter integration API" address (KarpenterAPI (Getenv "CLUSTER_ID"%string)) Lifecycle.http_started)
  end.
Definition runControlAPI (address : string) : outcome integrations_api :=
  ServeAPI "integrations control API" address (ControlAPI Integrations.NewIntegrationStore) Lifecycle.http_started.
Definition integrations_main : outcome integrations_api :=
  let controlAddress := Getenv "INTEGRATIONS_HTTP_ADDRESS"%string in
  let address := Getenv "KARPENTER_HTTP_ADDRESS"%string in
  if negb (controlAddress =? "")%string && negb (address =? "")%string
  then match runCombinedAPI controlAddress with Err e => Exit 1 "integrations API stopped" e | Ok served => served end
  else if negb (controlAddress =? "")%string then runControlAPI controlAddress
  else if (address =? "")%string then ServeHealth "integrations"
  else match runKarpenterAPI address with Err e => Exit 1 "karpenter integration stopped" e | Ok served => served end.
End kubernetes.

(** ** The gateway, the agent, ingestion and the operators *)

Definition gateway_main (Parse : string → option Auth.URL) : outcome Gateway.Server :=
  match Gateway.ConfigFromEnv Parse Getenv with
  | Err e => Exit 1 "invalid gateway configuration" e
  | Ok config =>
      match Gateway.NewServer config with
      | Err e => Exit 1 "create gateway" e
      | Ok server => ServeAPI "gateway" (Gateway.HTTPAddress config) server Lifecycle.http_started
      end
  end.
Definition agent_main (hostname random : res string string) (k : kubernetes) : outcome agent :=
  match FromEnv Getenv ParseDuration hostname random with
  | Err e => Exit 2 "invalid agent configuration" e
  | Ok (_, Some e) => Exit 2 "invalid agent configuration" e
  | Ok (cfg, None) =>
      match agent_Run cfg k with
      | Err e => Exit 1 "agent stopped" e
      | Ok a => Manage a
      end
  end.
Definition ingestion_main (s : system) : outcome ingestion :=
  let config := ConfigFromEnv Getenv ParseDuration in
  match Startup.Run s config with
  | Err e => Exit 1 "ingestion service stopped" e
  | Ok i => ServeStreams (GRPCAddress config) i (Lifecycle.started Lifecycle.ingestion)
  end.

(** ** The lineage normalizer *)

(** [parseFlags]: a flag that is set, or its default; the values given on the command
    line are [strings] and [bools]. *)
Section normalizer.
Context (ToLower : string → string) (strings : string → option string) (bools : string → option bool).
Definition StringVar (name fallback : string) : string := default fallback (strings name).
Definition BoolVar (name : string) (fallback : bool) : bool := default fallback (bools name).
Definition parseFlags : Lineage.config := {|
  Lineage.Address := StringVar "clickhouse-address" (Lineage.envDefault Getenv "CLICKHOUSE_ADDRESS" "localhost:9000");
  Lineage.Database := StringVar "clickhouse-database" (Lineage.envDefault Getenv "CLICKHOUSE_DATABASE" "kube_cost");
  Lineage.Username := StringVar "clickhouse-username" (Getenv "CLICKHOUSE_USERNAME"%string);
  Lineage.Password := StringVar "clickhouse-password" (Getenv "CLICKHOUSE_PASSWORD"%string);
  Lineage.Secure := BoolVar "clickhouse-secure" (Lineage.envBool Getenv ToLower "CLICKHOUSE_SECURE" false);
  Lineage.TenantID := StringVar "tenant-id" ""; Lineage.ClusterID := StringVar "cluster-id" "";
  Lineage.Table := StringVar "table" "all"; Lineage.Apply := BoolVar "apply" false |}.
Definition openClickHouse {D} (Open : clickhouse_Options → res string D) (cfg : Lineage.config) : res string D :=
  Open {| Addr := [Lineage.Address cfg]; Auth_ := (Lineage.Database cfg, Lineage.Username cfg, Lineage.Password cfg); Dial := 5 * Second;
          OpenConns := 2; IdleConns := 1; ConnMaxLifetime := Hour; TLS12 := Lineage.Secure cfg |}.
(** The database afterwards, if one was opened, and the exit code; [Encode] is the
    error of writing the report. *)
Definition normalizer_main {D} `{!Lineage.Connection D} (Open : clickhouse_Options → res string D) (Quote : string → string)
    (Encode : Lineage.report → option string) : option D * Z :=
  let cfg := parseFlags in
  match openClickHouse Open cfg with
  | Err _ => (None, 1)
  | Ok conn =>
      let '(conn, result) := Lineage.run Quote conn cfg in
      match result with
      | Err _ => (Some conn, 1)
      | Ok report => (Some conn, match Encode report with Some _ => 1 | None => 0 end)
      end
  end.
End normalizer.

(** An operator is a controller manager without controllers. *)
Record managerConfig := {
  Name : string;
  M_MetricsAddress : string;
  M_HealthProbeAddress : string;
  M_LeaderElection : bool;
  M_LeaderElectionID : string
}.
(** The answers of the controller runtime; [ManagerStart] is the end of the manager. *)
Record controller_runtime := {
  MakeManager : managerConfig → option string;
  HealthzCheck : option string;
  ReadyzCheck : option string;
  ManagerStart : option string
}.
Definition controllermanager_Run (r : controller_runtime) (cfg : managerConfig) : option string :=
  match MakeManager r cfg with
  | Some e => Some ("create " +:+ Name cfg +:+ " manager: " +:+ e)
  | None =>
      match HealthzCheck r with
      | Some e => Some ("add health check: " +:+ e)
      | None =>
          match ReadyzCheck r with
          | Some e => Some ("add readiness check: " +:+ e)
          | None => ManagerStart r
          end
      end
  end.
Definition operator_config (name leaderElectionID : string) : managerConfig := {|
  Name := name; M_MetricsAddress := ":8080"; M_HealthProbeAddress := ":8081"; M_LeaderElection := true;
  M_LeaderElectionID := if negb (Getenv "LEADER_ELECTION_ID" =? "")%string then Getenv "LEADER_ELECTION_ID"%string else leaderElectionID |}.
(** [operatorentry.Run]: the exit code *)
Definition operatorentry_Run (r : controller_runtime) (name leaderElectionID : string) : Z :=
  match controllermanager_Run r (operator_config name leaderElectionID) with Some _ => 1 | None => 0 end.
Definition action_executor_main (r : controller_runtime) : Z := operatorentry_Run r "action-executor-operator" "action-executor.cost.kube-cost.io".
Definition platform_main (r : controller_runtime) : Z := operatorentry_Run r "platform-operator" "platform-operator.cost.kube-cost.io".
End entry.
End Entry.
